(* ===== verification/_CoqProject ===== *)
-Q . S2P
Prelude.v
Marshall.v
Protocol.v
RpcWindow.v
Timespec.v
RpcStubs.v
Connection.v
ConnHeap.v
Listener.v
PollMgr.v
Fifo.v
Threads.v
RpcServer.v
RpcClient.v
RpcEnd.v
RpcNet.v
RpcSession.v
RpcTest.v
ExtentServer.v
ExtentClient.v
Streams.v
Address.v
Posix.v
FsTest.v
FsProtocol.v
FsTestOk.v
Log.v
Paxos.v
Recovery.v
Agreement.v
Config.v
Rsm.v
Handle.v
RsmTest.v
LockServerCache.v
LockReplica.v
RsmClient.v
LockClient.v
LockClientCache.v
LockSystem.v
RsmLoose.v
LockSim.v
LockRemote.v
LockTester.v
LockServer.v
FileSystem.v
YfsClient.v
YfsSystem.v
ExtentSim.v
ExtentRemote.v
Fuse.v
