(* ===== verification/Prelude.v ===== *)
(** * A replicated, cached, distributed file system: verification library

    ** The program

    The repository is a file server in C++.  A front end (fuse.cc) hands the requests of the
    kernel to the file system client (yfs_client.cc), which takes a lock for every extent it
    works on and keeps files in a cache (extent_client.cc) until the lock is given up.  An
    extent server (extent_server.cc) keeps contents, attributes and directories in memory.
    Locks are cached by their clients (lock_client_cache.cc) and revoked by a lock server
    (lock_server_cache.cc), which is replicated: clients (rsm_client.cc) send requests to a
    primary, where the replicated state machine (rsm.cc) orders them and forwards them
    to the backups; the set of replicas, the view, is agreed on by Paxos (paxos.cc), whose
    decisions are stored in a log file (log.cc) and interpreted by the configuration module
    (config.cc), which also detects failed nodes with heartbeats.  All of them talk through
    an RPC library (rpc/): typed stubs, at-most-once execution, framed messages over TCP,
    a polling thread and a pool of threads for the handlers.

    ** The files

    Prelude.v (this file): machine integers, [std::map] as [gmap] with the insertions
    that [operator[]] performs, iteration order, hint databases, list lemmas.

    The RPC library:
    - Marshall.v: rpc/marshall.h and the byte-level half of rpc/rpc.cc.  A buffer is
      a block of cells that may be unwritten; every access is checked, and an access out of
      range, a failed assertion or an [int] overflow is [None].  The class [Wire] is the
      pair of overloaded operators of a type, [WireOk] its promise.
    - Protocol.v: the messages of paxos_protocol.h, rsm_protocol.h and extent_protocol.h
      as instances of [Wire] and [WireOk].
    - RpcStubs.v: the templates [rpcc::call] and [rpcs::reg] of rpc/rpc.h.
    - RpcWindow.v: [rpcc::update_xid_rep], [rpcs::checkduplicate_and_update],
      [rpcs::add_reply], [rpcs::free_reply_window].  Timespec.v: the arithmetic of deadlines.
    - Connection.v: rpc/connection.cc, one connection; ConnHeap.v: shared connections with
      reference counts; Listener.v: class tcpsconn, the accept thread and its end;
      PollMgr.v: rpc/pollmgr.cc with the interface [AioMgr]; Fifo.v: rpc/fifo.h and
      rpc/thr_pool.cc; Threads.v: rpc/method_thread.h and the jobs of rpc/thr_pool.h.
    - RpcServer.v: class rpcs; RpcClient.v: class rpcc, both cut where other threads run.
      RpcEnd.v: a remote call from end to end.  RpcSession.v: binding and sequences of calls.
      RpcNet.v: clients and server over a network that loses messages.  RpcTest.v: rpc/rpctest.cc.
    - Handle.v: handle.cc, shared RPC clients.
    - Address.v: addresses and ports (rpc/rpc.cc, and where the processes make them).

    Replication:
    - Streams.v: the [iostream] operations that log.cc and config.cc use.
    - Log.v: log.cc, and the state of class acceptor (paxos.h), which log.cc fills.
    - Paxos.v: paxos.cc.  The acceptor's handlers are functions on its state.  The
      proposer is a program [code] that runs up to its next remote call and continues
      with the answer, so that other events can come between.
    - Recovery.v: restarts of acceptors and transfer of logs.
    - Agreement.v: a network of nodes running that code, [step1] and [exec], and the
      safety of Paxos.
    - Config.v: config.cc.  Rsm.v: rsm.cc and the handler templates of rsm.h; the
      service behind it is a parameter with the interface [StateTransfer].
    - RsmTest.v: the test server of rsm.cc with its hooks, rsmtest_client.cc and rsm_tester.cc.
    - RsmClient.v: rsm_client.cc and the templates of rsm_client.h.  RsmLoose.v: replicas whose
      services have threads of their own, the interface [Alike].

    Locks:
    - LockServerCache.v: lock_server_cache.cc.  LockReplica.v: lock_smain.cc, the lock
      server as the service of the replicated state machine.
    - LockClientCache.v: lock_client_cache.cc.  LockSystem.v: the server with any number of
      clients and threads, [sys_step].  LockTester.v: lock_tester.cc on that system.
    - LockSim.v: lock tables that answer alike, as [Alike].  LockRemote.v: the clients
      calling the replicated service, [rstep], and [main] of lock_smain.cc.
    - LockClient.v: lock_client.cc and lock_demo.cc.  LockServer.v: lock_server.cc, the server
      without caching.

    Files:
    - ExtentServer.v, Module [extent_server]: every handler of extent_server.cc on the
      record of its seven maps.
    - ExtentClient.v: extent_client.cc against the interface [ExtentService].
    - FileSystem.v: extent clients under the locks of LockSystem.v, [fs_step].
    - YfsClient.v: yfs_client.cc as programs [yprog] that stop at each call.  YfsSystem.v: these
      programs running concurrently on that system.
    - ExtentSim.v: extent servers that clients cannot tell apart.  ExtentRemote.v:
      extent_smain.cc, the extent server reached over the RPC library.
    - Fuse.v: the callbacks of fuse.cc.
    - Posix.v: what POSIX documents of the file system calls, processes, and a logic for
      programs of such calls; FsTest.v: test-lab-4-b.c and test-lab-4-c.c; FsProtocol.v: what
      each process does to the directory the two share; FsTestOk.v: the tests pass.

    Threads that loop forever (heartbeat, recovery, revoker, retryer, releaser) are modelled
    by one round of their loop, from one blocking point to the next; theorems about
    interleavings quantify over sequences of handler calls, atomic sections and rounds
    ([runs], [sys_runs], [rruns], [fs_runs], [lruns], [rtc step], [exec]).  Values from outside (clock,
    /dev/urandom, uninitialised variables, results of system calls, whether a connection
    can be made, answers of remote calls) are arguments.

    ** What is shown

    - Wire format: every value survives a round trip, also headers; writes stay inside
      the buffer; a truncated string is refused; one length prefix is not.
    - RPC: messages arrive whole and in order however the system calls split them; a remote
      call returns what the method returns and runs it once ([rpc_transparent]); no request
      is executed twice when acknowledgements come in order, and so none is with clients that
      send a waiting request again and a network that loses messages but keeps the order of a
      client's ([rpc_at_most_once]); a stale duplicate is executed again, and a race in [call1]
      can make one.  Reference counts of connections and handles are exact, no
      deleted object is used; the wait of a call ends; a removed descriptor is not called
      back; the bounded queue keeps its order and loses no wake-up; the pool shuts down, and so
      does a listening server ([listener_stops]).  A sequence of calls of one client is a sequence
      of the methods; the checks of rpctest.cc pass.
    - Paxos: agreement under loss, reordering and duplication, for runs in which an accept
      request does not arrive after its instance was decided at the receiver and a node
      runs one proposer at a time; two theorems show that the code needs both conditions and
      enforces neither.  A restarted acceptor is indistinguishable from one that did not
      stop; a joining node takes over a dumped log.
    - Configuration: views survive their text form, are installed when decided and come
      back after a restart; the heartbeat thread removes only nodes that failed.
    - Replication: the group answers like one server; a client that is connected to any
      replica that knows the primary gets the answer of the method ([rsm_call_transparent]);
      a failed call executes at most once; state transfer brings a new replica up to date.
    - Locks: mutual exclusion at the server, and of the threads of all clients
      ([lock_exclusion]); revocation of locks others wait for, exact counters, transfer of the
      lock table; replicated, the server answers like one lock server, and the exclusion
      holds for clients of the replicated service, whose replicas run their threads
      independently ([replicated_exclusion]).  The checks of lock_tester.cc pass.
    - Files: the directory tree invariant over all handler sequences and the functional
      behaviour of the handlers; cache and server together are one store of files
      ([cache_refines]), also across clients under their locks ([files_coherent]); the file
      system client and the callbacks keep to the locks and answer once; a write is read back
      through all layers.  Concurrent operations on files are linearizable, and
      operations over the RPC library return what direct calls return.  On a file system
      that does what POSIX documents, the two test programs end without a failed check.
    - Errors: theorems and examples show where the code does not do
      what it means to: late accept requests, overlapping proposers, a backup that refuses, a mutex
      that stays locked, lost revocations and wake-ups, created files that are cached without
      a lock, removed files that are written back.

    ** Fuel

    [logread_loop], [dump_loop] and [members_loop] get one unit per byte of input plus
    one; each round consumes a byte or ends, and [logread_terminates] shows that the fuel
    suffices for every input.  [fill_front] and [fill_back] get the exact number of rounds,
    and [checkduplicate_refines] shows that they return.  [carry_nsec] gets one unit per
    second of the sum.  [ping_loop] gets one unit per member.  [invoke] and
    [primary_failure] of RsmClient.v may loop forever, as the code may; the theorems say for
    which fuel they end (two attempts, or one when the client is connected to the primary).
    [dec] writes at most ten digits and [dec64] at most twenty, enough for 32 and 64 bits.
    The loops over directory entries of the file system tests get 1003 rounds: the directory
    has at most 1000 names, and running out counts as failure of the test.  Everything else is
    structural.

    ** Not modelled

    Spurious wake-ups of condition variables where the code does not loop; mutexes as such
    (a mutex appears where it is left locked), so also the scoped lock of rpc/slock.h; logging
    and statistics; [main] of fuse.cc, which is calls of the FUSE library; the runs of
    rpctest.cc that drop messages, run threads in parallel or measure time-outs, since no
    claim about them holds without assumptions on timing; gettime.cc, which is compiled on
    Mac OS only; changes of the view while lock clients run (LockRemote.v: one primary, calls
    that arrive). *)

From Stdlib Require Export ZArith Lia Ascii String.
From stdpp Require Export sorting base option fin_maps gmap strings list.

(** ** Notation scope of the development *)

Declare Scope yfs_scope.
Delimit Scope yfs_scope with yfs.

(** [std::string] is a finite sequence of 8-bit characters. *)
Abbreviation cstring := (list ascii).

(** String literals of the source. *)
Definition str (s : string) : cstring := list_ascii_of_string s.
Notation "$ s" := (str s%string) (at level 5, format "$ s") : yfs_scope.
Open Scope yfs_scope.
Open Scope Z_scope.

(** ** Machine integers

    The wire operators of rpc/rpc.cc are overloaded on [unsigned int] and
    [unsigned long long] only, and the code passes [size_t] values to them, so
    the program is an ILP32 one: [int], [unsigned] and [size_t] have 32 bits,
    [unsigned long long] has 64. *)

Definition INT_MAX : Z := 2 ^ 31 - 1.
Definition u8 (z : Z) : Z := z mod 2 ^ 8.
Definition u16 (z : Z) : Z := z mod 2 ^ 16.
Definition u32 (z : Z) : Z := z mod 2 ^ 32.
Definition u64 (z : Z) : Z := z mod 2 ^ 64.

(** Conversion of a bit pattern to the signed type of the same width. *)
Definition to_signed (w z : Z) : Z :=
  let r := z mod 2 ^ w in if r <? 2 ^ (w - 1) then r else r - 2 ^ w.
Definition s16 (z : Z) : Z := to_signed 16 z.
Definition s32 (z : Z) : Z := to_signed 32 z.

Definition is_u8 (z : Z) : Prop := 0 <= z < 2 ^ 8.
Definition is_u16 (z : Z) : Prop := 0 <= z < 2 ^ 16.
Definition is_u32 (z : Z) : Prop := 0 <= z < 2 ^ 32.
Definition is_u64 (z : Z) : Prop := 0 <= z < 2 ^ 64.
Definition is_s16 (z : Z) : Prop := - 2 ^ 15 <= z < 2 ^ 15.
Definition is_s32 (z : Z) : Prop := - 2 ^ 31 <= z < 2 ^ 31.

Ltac unfold_int :=
  unfold u8, u16, u32, u64, s16, s32, to_signed, is_u8, is_u16, is_u32, is_u64,
    is_s16, is_s32, INT_MAX in *.

Create HintDb yfs.
Create HintDb wire.

Lemma u32_id z : is_u32 z → u32 z = z.
Proof. unfold_int. intros. by apply Z.mod_small. Qed.

Lemma u64_id z : is_u64 z → u64 z = z.
Proof. unfold_int. intros. by apply Z.mod_small. Qed.

Lemma u32_range z : is_u32 (u32 z).
Proof. unfold_int. by apply Z.mod_pos_bound. Qed.

Lemma u64_range z : is_u64 (u64 z).
Proof. unfold_int. by apply Z.mod_pos_bound. Qed.

Lemma s32_of_u32 z : is_s32 z → s32 (u32 z) = z.
Proof.
  unfold_int. intros Hz. rewrite Z.mod_mod by lia.
  destruct (decide (0 <= z)).
  - rewrite Z.mod_small by lia. destruct (Z.ltb_spec z (2 ^ (32 - 1))); lia.
  - rewrite <- (Z.mod_add z 1), Z.mod_small by lia.
    destruct (Z.ltb_spec (z + 1 * 2 ^ 32) (2 ^ (32 - 1))); lia.
Qed.

Lemma s16_of_u16 z : is_s16 z → s16 (u16 z) = z.
Proof.
  unfold_int. intros Hz. rewrite Z.mod_mod by lia.
  destruct (decide (0 <= z)).
  - rewrite Z.mod_small by lia. destruct (Z.ltb_spec z (2 ^ (16 - 1))); lia.
  - rewrite <- (Z.mod_add z 1), Z.mod_small by lia.
    destruct (Z.ltb_spec (z + 1 * 2 ^ 16) (2 ^ (16 - 1))); lia.
Qed.

Lemma s32_range z : is_s32 (s32 z).
Proof.
  unfold_int. pose proof (Z.mod_pos_bound z (2 ^ 32)).
  destruct (Z.ltb_spec (z mod 2 ^ 32) (2 ^ (32 - 1))); lia.
Qed.

#[export] Hint Resolve u32_range u64_range s32_range : yfs.

(** ** Characters as unsigned bytes *)

Definition byte_of (c : ascii) : Z := Z.of_N (N_of_ascii c).
Definition char_of (z : Z) : ascii := ascii_of_N (Z.to_N (u8 z)).

Lemma byte_of_range c : 0 <= byte_of c < 256.
Proof.
  unfold byte_of. pose proof (N_ascii_bounded c). lia.
Qed.

Lemma char_of_byte_of c : char_of (byte_of c) = c.
Proof.
  unfold char_of. pose proof (byte_of_range c).
  unfold u8. rewrite Z.mod_small by lia.
  unfold byte_of. rewrite N2Z.id. apply ascii_N_embedding.
Qed.

Lemma byte_of_char_of z : byte_of (char_of z) = u8 z.
Proof.
  unfold byte_of, char_of, u8. pose proof (Z.mod_pos_bound z (2 ^ 8)).
  rewrite N_ascii_embedding by lia. lia.
Qed.

#[export] Hint Resolve byte_of_range : yfs.
Create Rewrite HintDb yfs_rw.
#[export] Hint Rewrite char_of_byte_of byte_of_char_of : yfs_rw.

(** ** Lexicographic order of [std::string]

    [char_traits<char>::compare] orders characters as unsigned bytes. *)

Fixpoint str_ltb (a b : cstring) : bool :=
  match a, b with
  | _, [] => false
  | [], _ :: _ => true
  | x :: a', y :: b' =>
      (byte_of x <? byte_of y) || ((byte_of x =? byte_of y) && str_ltb a' b')
  end.

Lemma byte_of_inj c d : byte_of c = byte_of d → c = d.
Proof.
  intros H. rewrite <- (char_of_byte_of c), <- (char_of_byte_of d). by rewrite H.
Qed.

Lemma str_ltb_irrefl a : str_ltb a a = false.
Proof. induction a as [|x a IH]; simpl; [done|]. rewrite IH. lia. Qed.

Lemma str_ltb_trans a b c :
  str_ltb a b = true → str_ltb b c = true → str_ltb a c = true.
Proof.
  revert b c. induction a as [|x a IH]; intros [|y b] [|z c]; simpl; try done.
  rewrite !orb_true_iff, !andb_true_iff, !Z.ltb_lt, !Z.eqb_eq.
  intros [?|[? ?]] [?|[? ?]]; [left; lia..|right]. split; [lia|eauto].
Qed.

Lemma str_ltb_total a b : a = b ∨ str_ltb a b = true ∨ str_ltb b a = true.
Proof.
  revert b. induction a as [|x a IH]; intros [|y b]; simpl; auto.
  rewrite !orb_true_iff, !andb_true_iff, !Z.ltb_lt, !Z.eqb_eq.
  destruct (Z.lt_trichotomy (byte_of x) (byte_of y)) as [?|[He|?]]; auto.
  apply byte_of_inj in He as ->. destruct (IH b) as [->|[?|?]]; auto 6.
Qed.

(** ** Strict orders of map keys

    [std::map] iterates in the order of its keys.  [CppLess] names the order
    [std::less<K>] and [CppLessOk] its laws. *)

Class CppLess (K : Type) := cpp_less : K → K → bool.

Class CppLessOk (K : Type) `{CppLess K} : Prop := {
  less_irrefl (a : K) : cpp_less a a = false;
  less_trans (a b c : K) :
    cpp_less a b = true → cpp_less b c = true → cpp_less a c = true;
  less_total (a b : K) : a = b ∨ cpp_less a b = true ∨ cpp_less b a = true;
}.

#[export] Instance Z_less : CppLess Z := Z.ltb.
#[export] Instance Z_less_ok : CppLessOk Z.
Proof. split; unfold cpp_less, Z_less; intros; lia. Qed.

#[export] Instance cstring_less : CppLess cstring := str_ltb.
#[export] Instance cstring_less_ok : CppLessOk cstring.
Proof.
  split; unfold cpp_less, cstring_less;
    eauto using str_ltb_irrefl, str_ltb_trans, str_ltb_total.
Qed.

Definition key_le `{CppLess K} {V} (p q : K * V) : Prop :=
  cpp_less (fst q) (fst p) = false.

#[export] Instance key_le_dec `{CppLess K} {V} : RelDecision (@key_le K _ V).
Proof. intros p q. unfold key_le. apply _. Defined.

(** ** [std::map] *)

Section cpp_map.
Context `{Countable K} {V : Type}.
Implicit Types (m : gmap K V) (k : K) (d : V).

(** [m.count(k) != 0] *)
Definition map_count k m : bool :=
  match m !! k with Some _ => true | None => false end.

(** The value of the expression [m[k]]: a default-constructed value when the
    key is absent. *)
Definition map_at d k m : V := default d (m !! k).

(** The map after [m[k]] was evaluated: the key is inserted when absent. *)
Definition map_touch d k m : gmap K V :=
  match m !! k with Some _ => m | None => <[k := d]> m end.

(** [m[k].f = ...]: update of the element through a reference. *)
Definition map_update d k (f : V → V) m : gmap K V := <[k := f (map_at d k m)]> m.

Lemma map_count_true k m : map_count k m = true ↔ is_Some (m !! k).
Proof. unfold map_count. destruct (m !! k); split; intros Hs; [eauto|done|done|by destruct Hs]. Qed.

Lemma map_count_false k m : map_count k m = false ↔ m !! k = None.
Proof. unfold map_count. destruct (m !! k); split; done. Qed.

Lemma map_touch_lookup d k m : map_touch d k m !! k = Some (map_at d k m).
Proof.
  unfold map_touch, map_at. destruct (m !! k) eqn:E; [done|].
  by rewrite lookup_insert_eq.
Qed.

Lemma map_touch_lookup_ne d k j m : k ≠ j → map_touch d k m !! j = m !! j.
Proof.
  intros. unfold map_touch. destruct (m !! k); [done|]. by rewrite lookup_insert_ne.
Qed.

Lemma map_touch_at d k j m : map_at d j (map_touch d k m) = map_at d j m.
Proof.
  unfold map_at. destruct (decide (k = j)) as [->|].
  - by rewrite map_touch_lookup.
  - by rewrite map_touch_lookup_ne.
Qed.

Lemma map_at_insert d k j v m :
  map_at d j (<[k := v]> m) = if decide (k = j) then v else map_at d j m.
Proof. unfold map_at. rewrite lookup_insert. by case_decide. Qed.

Lemma map_at_some d k m v : m !! k = Some v → map_at d k m = v.
Proof. unfold map_at. by intros ->. Qed.
End cpp_map.

(** Iteration [begin() .. end()] over a [std::map]: the entries by increasing
    key. *)
Definition map_entries `{Countable K, CppLess K} {V} (m : gmap K V) : list (K * V) :=
  merge_sort key_le (map_to_list m).

Section map_entries.
Context `{Countable K, CppLess K} {V : Type}.
Implicit Types (m : gmap K V).

Lemma map_entries_perm m : map_entries m ≡ₚ map_to_list m.
Proof. apply merge_sort_Permutation. Qed.

Lemma map_entries_elem m k v : (k, v) ∈ map_entries m ↔ m !! k = Some v.
Proof. rewrite map_entries_perm. apply elem_of_map_to_list. Qed.

Lemma map_entries_nodup m : NoDup (map_entries m).*1.
Proof. rewrite map_entries_perm. apply NoDup_fst_map_to_list. Qed.

Lemma map_entries_length m : length (map_entries m) = size m.
Proof. by rewrite map_entries_perm, length_map_to_list. Qed.

Lemma list_to_map_entries m : list_to_map (map_entries m) = m.
Proof.
  rewrite <- (list_to_map_to_list m) at 2.
  apply list_to_map_proper; [apply map_entries_nodup | apply map_entries_perm].
Qed.

Lemma map_entries_sorted `{!CppLessOk K} m : StronglySorted key_le (map_entries m).
Proof.
  apply StronglySorted_merge_sort.
  - intros p q r. unfold key_le. intros Hqp Hrq.
    destruct (less_total (fst q) (fst p)) as [He|[?|Hlt]];
      [by rewrite <- He|congruence|].
    destruct (less_total (fst r) (fst q)) as [He|[?|Hlt']];
      [by rewrite He|congruence|].
    apply not_true_is_false. intros Hc.
    pose proof (less_trans _ _ _ Hlt Hlt') as Ht.
    pose proof (less_trans _ _ _ Ht Hc) as Hi. by rewrite less_irrefl in Hi.
  - intros p q. unfold key_le.
    destruct (cpp_less (fst q) (fst p)) eqn:E; [right|by left].
    apply not_true_is_false. intros Hc.
    pose proof (less_trans _ _ _ E Hc) as Hi. by rewrite less_irrefl in Hi.
Qed.
End map_entries.

(** Inserting a list of bindings one by one: [for (...) m[k] = v;]. *)
Definition insert_all `{Countable K} {V} (l : list (K * V)) (m : gmap K V) : gmap K V :=
  foldl (λ acc p, <[fst p := snd p]> acc) m l.

Lemma insert_all_union `{Countable K} {V} (l : list (K * V)) (m : gmap K V) :
  NoDup l.*1 → insert_all l m = list_to_map l ∪ m.
Proof.
  revert m. induction l as [|[k v] l IH]; intros m Hnd; simpl.
  - by rewrite (left_id_L ∅ (∪)).
  - apply NoDup_cons in Hnd as [Hk Hnd]. rewrite IH by done.
    rewrite <- insert_union_l. rewrite insert_union_r; [done|].
    by apply not_elem_of_list_to_map_1.
Qed.

Lemma insert_all_entries `{Countable K, CppLess K} {V} (m m0 : gmap K V) :
  insert_all (map_entries m) m0 = m ∪ m0.
Proof.
  rewrite insert_all_union by apply map_entries_nodup. by rewrite list_to_map_entries.
Qed.

(** ** Lists *)

Lemma mapM_id_fmap {A} (l : list A) : mapM (M := option) id (Some <$> l) = Some l.
Proof. apply mapM_Some_2. induction l; simpl; by constructor. Qed.

Lemma insert_app_mid {A} (l1 l2 : list A) x y :
  <[length l1 := y]> (l1 ++ x :: l2) = l1 ++ y :: l2.
Proof. induction l1 as [|z l1 IH]; simpl; [done|]. by rewrite IH. Qed.

#[export] Hint Rewrite @length_app @length_fmap @length_insert : yfs_rw.

(** ** Tactics *)

(** Case analysis on the boolean tests of the goal, turned into propositions. *)
Ltac bool_cases :=
  repeat match goal with
    | |- context [if ?b then _ else _] => let E := fresh "E" in destruct b eqn:E
    end;
  repeat match goal with
    | H : (_ <? _)%Z = _ |- _ => first [apply Z.ltb_lt in H | apply Z.ltb_ge in H]
    | H : (_ <=? _)%Z = _ |- _ => first [apply Z.leb_le in H | apply Z.leb_gt in H]
    | H : (_ =? _)%Z = _ |- _ => first [apply Z.eqb_eq in H | apply Z.eqb_neq in H]
    end.
