(* ===== verification/Marshall.v ===== *)
(** * Wire format: [marshall] and [unmarshall]

    rpc/marshall.h and the [rawbyte], [rawbytes], [pack], [<<] and [>>]
    functions of rpc/rpc.cc.  A buffer is a block of memory cells; a cell that
    [malloc] or [realloc] returned and nobody wrote is [None].  Every access is
    checked: an access outside the block, a read of an unwritten cell, an [int]
    overflow and a failed [assert] make an operation return [None], so the
    theorems that an operation returns [Some] are memory-safety theorems. *)

From S2P Require Import Prelude.

Definition DEFAULT_RPC_SZ : Z := 1024.

(** Headers.  The fields of [req_header] are [int], the nonces are
    [unsigned int]. *)
Record req_header := ReqHeader {
  rq_xid : Z; rq_proc : Z; rq_clt_nonce : Z; rq_srv_nonce : Z; rq_xid_rep : Z;
}.
Record reply_header := ReplyHeader { rp_xid : Z; rp_ret : Z }.

Definition sizeof_int : Z := 4.
Definition sizeof_req_header : Z := 5 * sizeof_int.
Definition sizeof_reply_header : Z := 2 * sizeof_int.
Definition sizeof_rpc_sz_t : Z := sizeof_int.

(** [RPC_CHECKSUMMING] is not defined by the build. *)
Definition RPC_HEADER_SZ : Z :=
  (if sizeof_req_header >? sizeof_reply_header then sizeof_req_header
   else sizeof_reply_header) + sizeof_rpc_sz_t.

(** ** Memory *)

Abbreviation cell := (option ascii).
Abbreviation block := (list (option ascii)).

Definition malloc (n : Z) : block := replicate (Z.to_nat n) None.
Definition realloc (b : block) (n : Z) : block := resize (Z.to_nat n) None b.

Definition store (b : block) (i : Z) (c : ascii) : option block :=
  if (0 <=? i) && (i <? Z.of_nat (length b)) then Some (<[Z.to_nat i := Some c]> b)
  else None.

Definition load (b : block) (i : Z) : option ascii :=
  if 0 <=? i then mjoin (b !! Z.to_nat i) else None.

Definition memcpy_in (b : block) (i : Z) (p : cstring) : option block :=
  if (0 <=? i) && (i + Z.of_nat (length p) <=? Z.of_nat (length b))
  then Some (take (Z.to_nat i) b ++ (Some <$> p) ++ drop (Z.to_nat i + length p) b)
  else None.

Definition load_range (b : block) (i n : Z) : option cstring :=
  if (0 <=? i) && (0 <=? n) && (i + n <=? Z.of_nat (length b))
  then mapM id (take (Z.to_nat n) (drop (Z.to_nat i) b)) else None.

Definition chk_int (z : Z) : option Z :=
  if (- 2 ^ 31 <=? z) && (z <=? INT_MAX) then Some z else None.

(** ** [class marshall] *)

Record marshall := Marshall {
  m_buf : option block;   (* [None] is the null pointer *)
  m_capa : Z;
  m_ind : Z;
}.

Definition new_marshall : marshall :=
  Marshall (Some (malloc DEFAULT_RPC_SZ)) DEFAULT_RPC_SZ RPC_HEADER_SZ.

Definition m_grow (capa' : Z) (m : marshall) : option marshall :=
  c ← chk_int capa'; b ← m_buf m; Some (Marshall (Some (realloc b c)) c (m_ind m)).

Definition m_rawbyte (x : Z) (m : marshall) : option marshall :=
  m1 ← (if m_ind m >=? m_capa m then m_grow (m_capa m * 2) m else Some m);
  b ← m_buf m1; b' ← store b (m_ind m1) (char_of x);
  Some (Marshall (Some b') (m_capa m1) (m_ind m1 + 1)).

Definition m_rawbytes (p : cstring) (m : marshall) : option marshall :=
  let n := s32 (Z.of_nat (length p)) in
  e ← chk_int (m_ind m + n);
  m1 ← (if e >? m_capa m
        then m_grow (if m_capa m >? n then 2 * m_capa m else m_capa m + n) m
        else Some m);
  b ← m_buf m1; b' ← memcpy_in b (m_ind m1) p;
  Some (Marshall (Some b') (m_capa m1) (m_ind m1 + n)).

Definition get_content (m : marshall) : option cstring :=
  b ← m_buf m; load_range b RPC_HEADER_SZ (m_ind m - RPC_HEADER_SZ).

Definition m_str (m : marshall) : option cstring := get_content m.

Definition m_set_ind (i : Z) (m : marshall) : marshall :=
  Marshall (m_buf m) (m_capa m) i.

Definition byte_at (x k : Z) : Z := Z.land (Z.shiftr x k) 255.

Definition pack (x : Z) (m : marshall) : option marshall :=
  m ← m_rawbyte (byte_at x 24) m; m ← m_rawbyte (byte_at x 16) m;
  m ← m_rawbyte (byte_at x 8) m; m_rawbyte (Z.land x 255) m.

Definition pack_req_header (h : req_header) (m : marshall) : option marshall :=
  let saved_sz := m_ind m in
  let m := m_set_ind sizeof_rpc_sz_t m in
  m ← pack (rq_xid h) m; m ← pack (rq_proc h) m;
  m ← pack (s32 (rq_clt_nonce h)) m; m ← pack (s32 (rq_srv_nonce h)) m;
  m ← pack (rq_xid_rep h) m;
  Some (m_set_ind saved_sz m).

Definition pack_reply_header (h : reply_header) (m : marshall) : option marshall :=
  let saved_sz := m_ind m in
  let m := m_set_ind sizeof_rpc_sz_t m in
  m ← pack (rp_xid h) m; m ← pack (rp_ret h) m;
  Some (m_set_ind saved_sz m).

(** Returns the buffer and its used size, and the emptied object. *)
Definition m_take_buf (m : marshall) : (option block * Z) * marshall :=
  ((m_buf m, m_ind m), Marshall None (m_capa m) 0).

(** [operator<<] *)

Definition put_uchar (x : Z) (m : marshall) : option marshall := m_rawbyte x m.
Definition put_char (x : Z) (m : marshall) : option marshall := put_uchar (u8 x) m.
Definition put_ushort (x : Z) (m : marshall) : option marshall :=
  m ← m_rawbyte (byte_at x 8) m; m_rawbyte (Z.land x 255) m.
Definition put_short (x : Z) (m : marshall) : option marshall := put_ushort (u16 x) m.
Definition put_uint (x : Z) (m : marshall) : option marshall :=
  m ← m_rawbyte (byte_at x 24) m; m ← m_rawbyte (byte_at x 16) m;
  m ← m_rawbyte (byte_at x 8) m; m_rawbyte (Z.land x 255) m.
Definition put_int (x : Z) (m : marshall) : option marshall := put_uint (u32 x) m.
Definition put_ull (x : Z) (m : marshall) : option marshall :=
  m ← put_uint (u32 (Z.shiftr x 32)) m; put_uint (u32 x) m.
Definition put_string (s : cstring) (m : marshall) : option marshall :=
  m ← put_uint (u32 (Z.of_nat (length s))) m; m_rawbytes s m.

(** ** [class unmarshall] *)

Record unmarshall := Unmarshall {
  u_buf : option block; u_sz : Z; u_ind : Z; u_ok : bool;
}.

Definition new_unmarshall : unmarshall := Unmarshall None 0 0 false.
Definition unmarshall_of_buf (b : block) (sz : Z) : unmarshall :=
  Unmarshall (Some b) sz 0 true.

Definition take_content (s : cstring) (u : unmarshall) : option unmarshall :=
  sz ← chk_int (Z.of_nat (length s) + RPC_HEADER_SZ);
  b ← memcpy_in (realloc (default [] (u_buf u)) sz) RPC_HEADER_SZ s;
  Some (Unmarshall (Some b) sz RPC_HEADER_SZ true).

Definition unmarshall_of_string (s : cstring) : option unmarshall :=
  take_content s new_unmarshall.

Definition okdone (u : unmarshall) : bool := u_ok u && (u_ind u =? u_sz u).

(** [char c] is signed: the result is its sign extension to [unsigned int]. *)
Definition char_to_uint (c : ascii) : Z :=
  u32 (if byte_of c <? 128 then byte_of c else byte_of c - 256).

Definition u_rawbyte (u : unmarshall) : option (Z * unmarshall) :=
  if u_ind u >=? u_sz u
  then Some (0, Unmarshall (u_buf u) (u_sz u) (u_ind u) false)
  else b ← u_buf u; c ← load b (u_ind u);
       Some (char_to_uint c, Unmarshall (u_buf u) (u_sz u) (u_ind u + 1) (u_ok u)).

(** [_ind+n] is computed in [unsigned int]. *)
Definition u_rawbytes (n : Z) (s : cstring) (u : unmarshall) : option (cstring * unmarshall) :=
  if u32 (u32 (u_ind u) + n) >? u32 (u_sz u)
  then Some (s, Unmarshall (u_buf u) (u_sz u) (u_ind u) false)
  else b ← u_buf u; tmps ← load_range b (u_ind u) n;
       Some (tmps, Unmarshall (u_buf u) (u_sz u) (s32 (u_ind u + n)) (u_ok u)).

(** [x = (rawbyte() & 0xff) << k] and [x |= (rawbyte() & 0xff) << k], where [wrap]
    is the conversion to the type of [x] and back to [unsigned int]. *)
Definition get_shifted (k : Z) (u : unmarshall) : option (Z * unmarshall) :=
  '(b, u) ← u_rawbyte u; Some (Z.shiftl (Z.land b 255) k, u).

Definition get_or (wrap : Z → Z) (k x : Z) (u : unmarshall) : option (Z * unmarshall) :=
  '(b, u) ← get_shifted k u; Some (wrap (Z.lor (u32 x) b), u).

Definition unpack (u : unmarshall) : option (Z * unmarshall) :=
  '(x, u) ← get_shifted 24 u; '(x, u) ← get_or s32 16 (s32 x) u;
  '(x, u) ← get_or s32 8 x u; get_or s32 0 x u.

Definition get_uchar (u : unmarshall) : option (Z * unmarshall) :=
  '(b, u) ← u_rawbyte u; Some (u8 b, u).
Definition get_char (u : unmarshall) : option (Z * unmarshall) :=
  '(b, u) ← u_rawbyte u; Some (to_signed 8 b, u).
Definition get_ushort (u : unmarshall) : option (Z * unmarshall) :=
  '(x, u) ← get_shifted 8 u; get_or u16 0 (u16 x) u.
Definition get_short (u : unmarshall) : option (Z * unmarshall) :=
  '(x, u) ← get_shifted 8 u; get_or s16 0 (s16 x) u.
Definition get_uint (u : unmarshall) : option (Z * unmarshall) :=
  '(x, u) ← get_shifted 24 u; '(x, u) ← get_or u32 16 (u32 x) u;
  '(x, u) ← get_or u32 8 x u; get_or u32 0 x u.
Definition get_int (u : unmarshall) : option (Z * unmarshall) :=
  '(x, u) ← get_shifted 24 u; '(x, u) ← get_or s32 16 (s32 x) u;
  '(x, u) ← get_or s32 8 x u; get_or s32 0 x u.
Definition get_ull (u : unmarshall) : option (Z * unmarshall) :=
  '(h, u) ← get_uint u; '(l, u) ← get_uint u; Some (Z.lor l (u64 (Z.shiftl h 32)), u).
Definition get_string (s : cstring) (u : unmarshall) : option (cstring * unmarshall) :=
  '(sz, u) ← get_uint u; if u_ok u then u_rawbytes sz s u else Some (s, u).

Definition u_set_ind (i : Z) (u : unmarshall) : unmarshall :=
  Unmarshall (u_buf u) (u_sz u) i (u_ok u).

Definition unpack_req_header (u : unmarshall) : option (req_header * unmarshall) :=
  let u := u_set_ind sizeof_rpc_sz_t u in
  '(xid, u) ← unpack u; '(proc, u) ← unpack u;
  '(clt, u) ← unpack u; '(srv, u) ← unpack u; '(rep, u) ← unpack u;
  Some (ReqHeader xid proc (u32 clt) (u32 srv) rep, u_set_ind RPC_HEADER_SZ u).

Definition unpack_reply_header (u : unmarshall) : option (reply_header * unmarshall) :=
  let u := u_set_ind sizeof_rpc_sz_t u in
  '(xid, u) ← unpack u; '(ret, u) ← unpack u;
  Some (ReplyHeader xid ret, u_set_ind RPC_HEADER_SZ u).

Definition u_take_buf (u : unmarshall) : (option block * Z) * unmarshall :=
  ((u_buf u, u_sz u), Unmarshall None 0 0 (u_ok u)).

(** [take_in] moves the buffer of [another] into this object. *)
Definition take_in (another : unmarshall) : unmarshall * unmarshall :=
  let '((b, sz), another') := u_take_buf another in
  (Unmarshall b sz RPC_HEADER_SZ (sz >=? RPC_HEADER_SZ), another').

(** ** Bytes of an integer *)

Definition enc_u32 (x : Z) : cstring :=
  [char_of (byte_at x 24); char_of (byte_at x 16); char_of (byte_at x 8);
   char_of (Z.land x 255)].
Definition enc_u16 (x : Z) : cstring := [char_of (byte_at x 8); char_of (Z.land x 255)].
Definition enc_u64 (x : Z) : cstring := enc_u32 (u32 (Z.shiftr x 32)) ++ enc_u32 (u32 x).
Definition enc_string (s : cstring) : cstring := enc_u32 (Z.of_nat (length s)) ++ s.

Lemma char_to_uint_land c : Z.land (char_to_uint c) 255 = byte_of c.
Proof. by destruct c as [[] [] [] [] [] [] [] []]. Qed.

Lemma byte_of_land x : byte_of (char_of (Z.land x 255)) = Z.land x 255.
Proof.
  rewrite byte_of_char_of. unfold u8. change 255 with (Z.ones 8).
  rewrite Z.land_ones by lia. by rewrite Z.mod_mod.
Qed.

Lemma byte_of_byte_at x k : byte_of (char_of (byte_at x k)) = byte_at x k.
Proof. apply byte_of_land. Qed.

(** Bit [n] of byte [k] put back in its place. *)
Lemma byte_at_testbit x k n :
  0 <= k → 0 <= n →
  Z.testbit (Z.shiftl (byte_at x k) k) n = (k <=? n) && (n <? k + 8) && Z.testbit x n.
Proof.
  intros Hk Hn. unfold byte_at. rewrite Z.shiftl_spec by lia.
  destruct (Z.leb_spec k n); simpl; [|apply Z.testbit_neg_r; lia].
  rewrite Z.land_spec, Z.shiftr_spec by lia. change 255 with (Z.ones 8).
  rewrite Z.testbit_ones by lia. replace (n - k + k) with n by lia.
  replace (0 <=? n - k) with true by lia. replace (n - k <? 8) with (n <? k + 8) by lia.
  simpl. apply andb_comm.
Qed.

(** The four bytes of a 32-bit pattern, shifted back and combined. *)
Lemma bytes_combine x :
  Z.lor (Z.lor (Z.lor (Z.shiftl (byte_at x 24) 24) (Z.shiftl (byte_at x 16) 16))
           (Z.shiftl (byte_at x 8) 8)) (Z.shiftl (byte_at x 0) 0) = u32 x.
Proof.
  unfold u32. rewrite <- (Z.land_ones x 32) by lia.
  apply Z.bits_inj'. intros n Hn.
  rewrite !Z.lor_spec, !byte_at_testbit, Z.land_spec, Z.testbit_ones by lia.
  destruct (Z.testbit x n); rewrite ?andb_false_r, ?andb_true_r; lia.
Qed.

Lemma bytes_combine16 x :
  Z.lor (Z.shiftl (byte_at x 8) 8) (Z.shiftl (byte_at x 0) 0) = u16 x.
Proof.
  unfold u16. rewrite <- (Z.land_ones x 16) by lia.
  apply Z.bits_inj'. intros n Hn.
  rewrite !Z.lor_spec, !byte_at_testbit, Z.land_spec, Z.testbit_ones by lia.
  destruct (Z.testbit x n); rewrite ?andb_false_r, ?andb_true_r; lia.
Qed.

Lemma words_combine x :
  is_u64 x → Z.lor (u32 x) (u64 (Z.shiftl (u32 (Z.shiftr x 32)) 32)) = x.
Proof.
  intros Hx. unfold is_u64, u32, u64 in *.
  rewrite <- !Z.land_ones by lia. apply Z.bits_inj'. intros n Hn.
  rewrite Z.lor_spec, !Z.land_spec, !Z.testbit_ones by lia.
  rewrite Z.shiftl_spec by lia.
  destruct (Z.ltb_spec n 32).
  - rewrite (Z.testbit_neg_r _ (n - 32)) by lia.
    replace (0 <=? n) with true by lia. simpl. by rewrite andb_true_r, orb_false_r.
  - replace (0 <=? n) with true by lia. simpl. rewrite andb_false_r. simpl.
    rewrite Z.land_spec, Z.shiftr_spec, Z.testbit_ones by lia.
    replace (n - 32 + 32) with n by lia. replace (0 <=? n - 32) with true by lia.
    destruct (Z.ltb_spec n 64).
    + replace (n - 32 <? 32) with true by lia. simpl. by rewrite !andb_true_r.
    + rewrite andb_false_r. symmetry. rewrite <- (Z.mod_small x (2 ^ 64)) by lia.
      apply Z.mod_pow2_bits_high. lia.
Qed.

(** [x |= y] in a signed type of the same width changes the same bits. *)
Lemma u32_s32 z : u32 (s32 z) = u32 z.
Proof.
  unfold_int. destruct (Z.ltb_spec (z mod 2 ^ 32) (2 ^ (32 - 1))).
  - by rewrite Z.mod_mod.
  - rewrite Zminus_mod, Z_mod_same_full, Z.sub_0_r, !Z.mod_mod by lia. done.
Qed.

(** ** What a buffer holds *)

(** [m] is a well-formed object whose content, after the header, is [bs]. *)
Definition m_rep (m : marshall) (bs : cstring) : Prop :=
  ∃ hdr junk, m_buf m = Some (hdr ++ (Some <$> bs) ++ junk) ∧
    Z.of_nat (length hdr) = RPC_HEADER_SZ ∧
    m_ind m = RPC_HEADER_SZ + Z.of_nat (length bs) ∧
    Z.of_nat (length (hdr ++ (Some <$> bs) ++ junk)) = m_capa m ∧
    0 < m_capa m <= 2 ^ 30.

(** [u] is in the good state, the next bytes it will read are [bs], and [k] more
    cells follow them. *)
Definition u_rep (k : nat) (u : unmarshall) (bs : cstring) : Prop :=
  u_ok u = true ∧
  ∃ pre post, u_buf u = Some (pre ++ (Some <$> bs) ++ post) ∧
    u_ind u = Z.of_nat (length pre) ∧
    u_sz u = Z.of_nat (length pre + length bs + k) ∧ u_sz u <= INT_MAX.

(** The largest content for which no capacity computation overflows an [int]. *)
Definition max_content : Z := 2 ^ 29 - RPC_HEADER_SZ.

(** [f] appends [bs] to every buffer that has room for it. *)
Definition puts (f : marshall → option marshall) (bs : cstring) : Prop :=
  ∀ m old, m_rep m old → Z.of_nat (length old + length bs) <= max_content →
    ∃ m', f m = Some m' ∧ m_rep m' (old ++ bs).

(** [g] reads [bs], leaves what follows, and yields [a]. *)
Definition gets {A} (g : unmarshall → option (A * unmarshall)) (bs : cstring) (a : A) : Prop :=
  ∀ k u rest, u_rep k u (bs ++ rest) →
    ∃ u', g u = Some (a, u') ∧ u_rep k u' rest ∧ u_buf u' = u_buf u ∧ u_sz u' = u_sz u ∧
          u_ind u' = u_ind u + Z.of_nat (length bs).

Lemma RPC_HEADER_SZ_eq : RPC_HEADER_SZ = 24.
Proof. done. Qed.

Lemma puts_ret : puts Some [].
Proof. intros m old Hm _. exists m. by rewrite app_nil_r. Qed.

Lemma puts_seq f g a b : puts f a → puts g b → puts (λ m, f m ≫= g) (a ++ b).
Proof.
  intros Hf Hg m old Hm Hlen. rewrite length_app in Hlen.
  destruct (Hf m old Hm) as (m1 & -> & Hm1); [lia|]. simpl.
  destruct (Hg m1 _ Hm1) as (m2 & -> & Hm2); [rewrite length_app; lia|].
  exists m2. by rewrite (assoc_L (++)).
Qed.

Lemma gets_bind {A B} (g : unmarshall → option (A * unmarshall)) h bs cs (a : A) (b : B) :
  gets g bs a → gets (h a) cs b →
  gets (λ u, '(a, u) ← g u; h a u) (bs ++ cs) b.
Proof.
  intros Hg Hh k u rest Hu. rewrite <- (assoc_L (++)) in Hu.
  destruct (Hg k u _ Hu) as (u1 & -> & Hu1 & Hb & Hs & Hi). simpl.
  destruct (Hh k u1 _ Hu1) as (u2 & -> & Hu2 & Hb2 & Hs2 & Hi2).
  exists u2. rewrite length_app. split_and!; [done|done|congruence|congruence|lia].
Qed.

Lemma gets_ret {A} (a : A) : gets (λ u, Some (a, u)) [] a.
Proof. intros k u rest Hu. exists u. split_and!; [done|done|done|done|simpl; lia]. Qed.

Lemma gets_map {A B} (g : unmarshall → option (A * unmarshall)) (f : A → B) bs a :
  gets g bs a → gets (λ u, '(a, u) ← g u; Some (f a, u)) bs (f a).
Proof.
  intros Hg. rewrite <- (app_nil_r bs).
  apply (gets_bind g (λ a u, Some (f a, u)) bs [] a (f a)); [done|apply gets_ret].
Qed.

#[export] Hint Resolve puts_ret puts_seq gets_bind gets_ret gets_map : yfs.

(** ** Growing a buffer *)

Lemma m_grow_rep m bs capa' :
  m_rep m bs → m_capa m <= capa' <= 2 ^ 30 →
  ∃ m', m_grow capa' m = Some m' ∧ m_rep m' bs ∧ m_capa m' = capa' ∧ m_ind m' = m_ind m.
Proof.
  intros (hdr & junk & Hb & Hh & Hi & Hc & Hcap) Hle. unfold m_grow, chk_int.
  replace (- 2 ^ 31 <=? capa') with true by lia.
  replace (capa' <=? INT_MAX) with true by (unfold INT_MAX; lia). simpl. rewrite Hb. simpl.
  eexists. split_and!; [done| |done|done].
  exists hdr, (junk ++ replicate (Z.to_nat capa' - Z.to_nat (m_capa m)) None). simpl.
  split_and!; [|done|done| |lia|lia].
  - f_equal. unfold realloc. rewrite resize_ge by lia.
    rewrite <- !(assoc_L (++)). do 4 f_equal. lia.
  - rewrite !length_app in *. rewrite length_replicate. lia.
Qed.

Lemma m_rawbyte_puts x : puts (m_rawbyte x) [char_of x].
Proof.
  intros m old Hm Hlen. unfold m_rawbyte.
  assert (∃ m1, (if m_ind m >=? m_capa m then m_grow (m_capa m * 2) m else Some m)
                = Some m1 ∧ m_rep m1 old ∧ m_ind m1 < m_capa m1) as (m1 & -> & Hm1 & Hlt).
  { pose proof Hm as (hdr & junk & Hb & Hh & Hi & Hc & Hcap).
    rewrite Hi. unfold max_content in Hlen. simpl in Hlen.
    destruct (Z.geb_spec (RPC_HEADER_SZ + Z.of_nat (length old)) (m_capa m)).
    - destruct (m_grow_rep m old (m_capa m * 2)) as (m' & ? & ? & ? & ?); [done|lia|].
      exists m'. split_and!; [done|done|]. rewrite !length_app in Hc.
      rewrite length_fmap in Hc. lia.
    - exists m. split_and!; [done|done|]. lia. }
  simpl. destruct Hm1 as (hdr & junk & Hb & Hh & Hi & Hc & Hcap).
  rewrite Hb. simpl. unfold store. rewrite Hc.
  replace (0 <=? m_ind m1) with true by (rewrite Hi, RPC_HEADER_SZ_eq; lia).
  replace (m_ind m1 <? m_capa m1) with true by lia. simpl.
  rewrite !length_app, length_fmap in Hc.
  destruct junk as [|j junk]; [simpl in Hc; lia|].
  eexists. split; [done|]. exists hdr, junk. simpl. split_and!; [|done| | |lia|lia].
  - f_equal. replace (Z.to_nat (m_ind m1)) with (length (hdr ++ (Some <$> old))).
    + by rewrite fmap_app, (assoc_L (++)), insert_app_mid, <- !(assoc_L (++)).
    + rewrite length_app, length_fmap. lia.
  - rewrite length_app. simpl. lia.
  - rewrite !length_app, length_fmap, !length_app. simpl in *. lia.
Qed.

Lemma m_rawbytes_puts p : puts (m_rawbytes p) p.
Proof.
  intros m old Hm Hlen. unfold m_rawbytes, max_content in *.
  rewrite RPC_HEADER_SZ_eq in Hlen.
  assert (s32 (Z.of_nat (length p)) = Z.of_nat (length p)) as ->.
  { unfold_int. rewrite Z.mod_small by lia.
    destruct (Z.ltb_spec (Z.of_nat (length p)) (2 ^ (32 - 1))); lia. }
  pose proof Hm as (hdr & junk & Hb & Hh & Hi & Hc & Hcap).
  rewrite !length_app, length_fmap in Hc. rewrite RPC_HEADER_SZ_eq in *.
  unfold chk_int. replace (- 2 ^ 31 <=? m_ind m + Z.of_nat (length p)) with true by lia.
  replace (m_ind m + Z.of_nat (length p) <=? INT_MAX) with true by (unfold INT_MAX; lia).
  simpl.
  match goal with |- context [mbind _ (if ?b then ?x else ?y)] =>
    assert (∃ m1, (if b then x else y) = Some m1 ∧ m_rep m1 old ∧
                  m_ind m1 + Z.of_nat (length p) <= m_capa m1) as (m1 & -> & Hm1 & Hle)
  end.
  { destruct (Z.gtb_spec (m_ind m + Z.of_nat (length p)) (m_capa m)).
    - match goal with |- context [m_grow ?c m] =>
        destruct (m_grow_rep m old c) as (m' & ? & ? & Hc' & Hi'); [done| |] end.
      + destruct (Z.gtb_spec (m_capa m) (Z.of_nat (length p))); lia.
      + exists m'. split_and!; [done|done|]. rewrite Hc', Hi'.
        destruct (Z.gtb_spec (m_capa m) (Z.of_nat (length p))); lia.
    - exists m. split_and!; [done|done|lia]. }
  clear Hm Hb Hh Hi Hc Hcap. simpl.
  destruct Hm1 as (hdr1 & junk1 & Hb & Hh & Hi & Hc & Hcap).
  rewrite Hb. simpl. unfold memcpy_in. rewrite Hc.
  rewrite RPC_HEADER_SZ_eq in *.
  replace (0 <=? m_ind m1) with true by lia.
  replace (m_ind m1 + Z.of_nat (length p) <=? m_capa m1) with true by lia. simpl.
  rewrite !length_app, length_fmap in Hc.
  assert (Z.to_nat (m_ind m1) = length (hdr1 ++ (Some <$> old))) as Hn.
  { rewrite length_app, length_fmap. lia. }
  eexists. split; [done|]. exists hdr1, (drop (length p) junk1).
  rewrite RPC_HEADER_SZ_eq. simpl. split_and!; [|done| | |lia|lia].
  - f_equal. rewrite Hn, (assoc_L (++) hdr1), take_app_length, drop_app_add.
    by rewrite fmap_app, <- !(assoc_L (++)).
  - rewrite length_app. lia.
  - rewrite !length_app, length_fmap, length_app, length_drop. lia.
Qed.

(** ** Reading *)

Lemma u_rawbyte_gets c : gets u_rawbyte [c] (char_to_uint c).
Proof.
  intros k u rest (Hok & pre & post & Hb & Hi & Hs & Hmax). unfold u_rawbyte.
  simpl in Hs. destruct (Z.geb_spec (u_ind u) (u_sz u)); [lia|].
  rewrite Hb. simpl. unfold load. replace (0 <=? u_ind u) with true by lia.
  rewrite Hi, Nat2Z.id, lookup_app_r, Nat.sub_diag by lia. simpl.
  eexists. split_and!; [done| |done|done|simpl; lia]. split; [done|].
  exists (pre ++ [Some c]), post. simpl. rewrite length_app. simpl.
  split_and!; [|lia|lia|done]. by rewrite <- (assoc_L (++)).
Qed.

Lemma get_shifted_gets k c : gets (get_shifted k) [c] (Z.shiftl (byte_of c) k).
Proof.
  unfold get_shifted. rewrite <- (char_to_uint_land c).
  apply (gets_map u_rawbyte (λ b, Z.shiftl (Z.land b 255) k)), u_rawbyte_gets.
Qed.

Lemma get_or_gets wrap k x c :
  gets (get_or wrap k x) [c] (wrap (Z.lor (u32 x) (Z.shiftl (byte_of c) k))).
Proof.
  apply (gets_map (get_shifted k) (λ b, wrap (Z.lor (u32 x) b))), get_shifted_gets.
Qed.

Lemma u32_lor x y : u32 (Z.lor x y) = Z.lor (u32 x) (u32 y).
Proof. unfold u32. by rewrite <- !Z.land_ones, Z.land_lor_distr_l by lia. Qed.

Lemma u16_lor x y : u16 (Z.lor x y) = Z.lor (u16 x) (u16 y).
Proof. unfold u16. by rewrite <- !Z.land_ones, Z.land_lor_distr_l by lia. Qed.

Lemma u32_idemp x : u32 (u32 x) = u32 x.
Proof. apply u32_id, u32_range. Qed.

Lemma u32_shifted_byte x k :
  0 <= k <= 24 → u32 (Z.shiftl (byte_at x k) k) = Z.shiftl (byte_at x k) k.
Proof.
  intros Hk. apply u32_id. unfold is_u32, byte_at. change 255 with (Z.ones 8).
  rewrite Z.land_ones, Z.shiftl_mul_pow2 by lia.
  pose proof (Z.mod_pos_bound (Z.shiftr x k) (2 ^ 8)).
  assert (1 <= 2 ^ k <= 2 ^ 24).
  { split; [pose proof (Z.pow_pos_nonneg 2 k); lia|apply Z.pow_le_mono_r; lia]. }
  nia.
Qed.

Lemma s32_u32_eq x y : u32 x = u32 y → s32 x = s32 y.
Proof. unfold u32, s32, to_signed. by intros ->. Qed.

(** Conversions inside a chain of [x |= y] do not lose bits. *)
Ltac norm_u32 := repeat first [rewrite u32_idemp | rewrite u32_s32 | rewrite u32_lor].

Lemma gets_eq {A} (g : unmarshall → option (A * unmarshall)) bs a b :
  gets g bs a → a = b → gets g bs b.
Proof. by intros ? <-. Qed.

Lemma enc_u32_byte_at x :
  enc_u32 x = [char_of (byte_at x 24); char_of (byte_at x 16);
               char_of (byte_at x 8); char_of (byte_at x 0)].
Proof. done. Qed.

Lemma u32_byte_at x k : 0 <= k <= 24 → byte_at (u32 x) k = byte_at x k.
Proof.
  intros Hk. apply Z.bits_inj'. intros n Hn. unfold byte_at, u32.
  rewrite <- Z.land_ones by lia. change 255 with (Z.ones 8).
  rewrite !Z.land_spec, !Z.shiftr_spec, Z.land_spec, !Z.testbit_ones by lia.
  destruct (Z.testbit x (n + k)); rewrite ?andb_false_r, ?andb_true_r; lia.
Qed.

Lemma enc_u32_wrap x : enc_u32 (u32 x) = enc_u32 x.
Proof. rewrite !enc_u32_byte_at. by rewrite !u32_byte_at by lia. Qed.

(** Reading the four bytes of [x] through [wrap]. *)
Lemma get_word_gets wrap x :
  (∀ y, u32 (wrap y) = u32 y) →
  gets (λ u, '(x, u) ← get_shifted 24 u; '(x, u) ← get_or wrap 16 (wrap x) u;
             '(x, u) ← get_or wrap 8 x u; get_or wrap 0 x u)
    (enc_u32 x)
    (wrap (Z.lor (u32 (wrap (Z.lor (u32 (wrap (Z.lor
      (u32 (wrap (Z.shiftl (byte_at x 24) 24))) (Z.shiftl (byte_at x 16) 16))))
      (Z.shiftl (byte_at x 8) 8)))) (Z.shiftl (byte_at x 0) 0))).
Proof.
  intros Hw. rewrite enc_u32_byte_at.
  eapply (gets_bind _ _ [char_of (byte_at x 24)]); [apply get_shifted_gets|].
  eapply (gets_bind _ _ [char_of (byte_at x 16)]); [apply get_or_gets|].
  eapply (gets_bind _ _ [char_of (byte_at x 8)]); [apply get_or_gets|].
  eapply gets_eq; [apply get_or_gets|]. by rewrite !byte_of_byte_at.
Qed.

Lemma get_uint_gets x : gets get_uint (enc_u32 x) (u32 x).
Proof.
  eapply gets_eq; [apply (get_word_gets u32), u32_idemp|].
  norm_u32. rewrite <- (bytes_combine x), !u32_shifted_byte by lia. done.
Qed.

Lemma get_int_gets x : gets get_int (enc_u32 x) (s32 x).
Proof.
  eapply gets_eq; [apply (get_word_gets s32), u32_s32|].
  apply s32_u32_eq. norm_u32. rewrite <- (bytes_combine x), !u32_shifted_byte by lia. done.
Qed.

Lemma unpack_gets x : gets unpack (enc_u32 x) (s32 x).
Proof. apply get_int_gets. Qed.

Lemma get_ull_gets x : is_u64 x → gets get_ull (enc_u64 x) x.
Proof.
  intros Hx. unfold get_ull. eapply gets_bind; [apply get_uint_gets|].
  rewrite <- (app_nil_r (enc_u32 (u32 x))).
  eapply gets_bind; [apply get_uint_gets|].
  rewrite !u32_idemp. eapply gets_eq; [apply gets_ret|]. by apply words_combine.
Qed.

(** Reading past the end leaves the object in the failed state. *)
Lemma get_uint_failed u : u_ind u >= u_sz u → ∃ u', get_uint u = Some (0, u') ∧ u_ok u' = false.
Proof.
  intros H. unfold get_uint, get_or, get_shifted, u_rawbyte.
  repeat (cbn [mbind option_bind u_ind u_sz u_buf]; rewrite (proj2 (Z.geb_le _ _)) by lia). by eexists.
Qed.

Lemma get_string_gets s0 s : Z.of_nat (length s) < 2 ^ 31 →
  gets (get_string s0) (enc_string s) s.
Proof.
  intros Hlen. unfold get_string.
  eapply (gets_bind get_uint (λ sz u, if u_ok u then u_rawbytes sz s0 u else Some (s0, u)));
    [apply get_uint_gets|].
  rewrite u32_id by (unfold is_u32; lia).
  intros k u rest (Hok & pre & post & Hb & Hi & Hs & Hmax).
  rewrite Hok. unfold u_rawbytes. rewrite length_app in Hs. unfold INT_MAX in *.
  rewrite (u32_id (u_ind u)), (u32_id (u_sz u)),
    (u32_id (u_ind u + Z.of_nat (length s))) by (unfold is_u32; lia).
  destruct (Z.gtb_spec (u_ind u + Z.of_nat (length s)) (u_sz u)); [lia|].
  rewrite Hb. simpl. unfold load_range.
  replace (0 <=? u_ind u) with true by lia.
  replace (0 <=? Z.of_nat (length s)) with true by lia.
  rewrite (proj2 (Z.leb_le (_ + _) _)) by (autorewrite with yfs_rw; lia).
  simpl. rewrite Hi, !Nat2Z.id, drop_app_length, fmap_app, <- (assoc_L (++)).
  rewrite take_app_length' by (by rewrite length_fmap). rewrite mapM_id_fmap. simpl.
  assert (s32 (Z.of_nat (length pre) + Z.of_nat (length s))
          = Z.of_nat (length pre) + Z.of_nat (length s)) as ->.
  { unfold_int. rewrite Z.mod_small by lia.
    match goal with |- context [if ?a <? ?b then _ else _] =>
      destruct (Z.ltb_spec a b) end; lia. }
  eexists. split_and!; [done| |done|done|done]. split; [done|].
  exists (pre ++ (Some <$> s)), post. simpl. rewrite length_app, length_fmap.
  split_and!; [by rewrite <- !(assoc_L (++))|lia|lia|unfold INT_MAX; lia].
Qed.

(** ** Writing *)

Lemma put_uint_puts x : puts (put_uint x) (enc_u32 x).
Proof.
  unfold put_uint. apply (puts_seq _ _ [_] [_; _; _]); [apply m_rawbyte_puts|].
  apply (puts_seq _ _ [_] [_; _]); [apply m_rawbyte_puts|].
  apply (puts_seq _ _ [_] [_]); apply m_rawbyte_puts.
Qed.

Lemma put_int_puts x : puts (put_int x) (enc_u32 x).
Proof. rewrite <- enc_u32_wrap. apply put_uint_puts. Qed.

Lemma put_ull_puts x : puts (put_ull x) (enc_u64 x).
Proof. apply puts_seq; apply put_uint_puts. Qed.

Lemma put_string_puts s : Z.of_nat (length s) < 2 ^ 31 → puts (put_string s) (enc_string s).
Proof.
  intros Hlen. unfold put_string, enc_string.
  rewrite u32_id by (unfold is_u32; lia).
  apply puts_seq; [apply put_uint_puts|apply m_rawbytes_puts].
Qed.

(** ** The interface of a marshallable type

    [Wire A] gives the pair of operators [<<] and [>>] of a type; [w_def] is the
    value a freshly declared variable has before [>>] fills it.  [WireOk A] is
    what the clients of the wire format rely on. *)

Class Wire (A : Type) := {
  w_def : A;
  w_put : A → marshall → option marshall;
  w_get : A → unmarshall → option (A * unmarshall);
}.

Class WireOk (A : Type) `{Wire A} := {
  w_wf : A → Prop;           (* the values of the C++ type *)
  w_enc : A → cstring;       (* their bytes *)
  w_put_ok a : w_wf a → puts (w_put a) (w_enc a);
  w_get_ok a : w_wf a → gets (w_get w_def) (w_enc a) a;
}.

(** Newtypes that select the overload. *)
Record uint := UInt { uint_val : Z }.
Record sint := SInt { sint_val : Z }.
Record ull := Ull { ull_val : Z }.

#[export] Instance uint_eq_dec : EqDecision uint.
Proof. solve_decision. Defined.
#[export] Instance sint_eq_dec : EqDecision sint.
Proof. solve_decision. Defined.
#[export] Instance ull_eq_dec : EqDecision ull.
Proof. solve_decision. Defined.
#[export] Instance uint_countable : Countable uint.
Proof. apply (inj_countable' uint_val UInt). by intros []. Defined.
#[export] Instance sint_countable : Countable sint.
Proof. apply (inj_countable' sint_val SInt). by intros []. Defined.
#[export] Instance ull_countable : Countable ull.
Proof. apply (inj_countable' ull_val Ull). by intros []. Defined.
#[export] Instance sint_less : CppLess sint := λ a b, sint_val a <? sint_val b.
#[export] Instance sint_less_ok : CppLessOk sint.
Proof.
  split; unfold cpp_less, sint_less; intros; [lia..|].
  destruct a as [a], b as [b]; simpl. destruct (Z.lt_trichotomy a b) as [?|[->|?]]; auto; lia.
Qed.
#[export] Instance ull_less : CppLess ull := λ a b, ull_val a <? ull_val b.
#[export] Instance ull_less_ok : CppLessOk ull.
Proof.
  split; unfold cpp_less, ull_less; intros; [lia..|].
  destruct a as [a], b as [b]; simpl. destruct (Z.lt_trichotomy a b) as [?|[->|?]]; auto; lia.
Qed.

#[export] Instance uint_wire : Wire uint := {
  w_def := UInt 0;
  w_put x := put_uint (uint_val x);
  w_get _ u := '(x, u) ← get_uint u; Some (UInt x, u);
}.
#[export] Instance sint_wire : Wire sint := {
  w_def := SInt 0;
  w_put x := put_int (sint_val x);
  w_get _ u := '(x, u) ← get_int u; Some (SInt x, u);
}.
#[export] Instance ull_wire : Wire ull := {
  w_def := Ull 0;
  w_put x := put_ull (ull_val x);
  w_get _ u := '(x, u) ← get_ull u; Some (Ull x, u);
}.
#[export] Instance cstring_wire : Wire cstring := {
  w_def := [];
  w_put := put_string;
  w_get := get_string;
}.

#[export] Program Instance uint_wire_ok : WireOk uint := {
  w_wf x := is_u32 (uint_val x); w_enc x := enc_u32 (uint_val x);
}.
Next Obligation. intros [x] Hx. apply put_uint_puts. Qed.
Next Obligation.
  intros [x] Hx. eapply (gets_eq _ _ (UInt (u32 x))); [apply gets_map, get_uint_gets|].
  by rewrite u32_id.
Qed.

#[export] Program Instance sint_wire_ok : WireOk sint := {
  w_wf x := is_s32 (sint_val x); w_enc x := enc_u32 (sint_val x);
}.
Next Obligation. intros [x] Hx. apply put_int_puts. Qed.
Next Obligation.
  intros [x] Hx. eapply (gets_eq _ _ (SInt (s32 x))); [apply gets_map, get_int_gets|].
  f_equal. rewrite <- (s32_of_u32 x) at 2 by done. apply s32_u32_eq. by rewrite u32_idemp.
Qed.

#[export] Program Instance ull_wire_ok : WireOk ull := {
  w_wf x := is_u64 (ull_val x); w_enc x := enc_u64 (ull_val x);
}.
Next Obligation. intros [x] Hx. apply put_ull_puts. Qed.
Next Obligation. intros [x] Hx. by apply (gets_map get_ull Ull), get_ull_gets. Qed.

#[export] Program Instance cstring_wire_ok : WireOk cstring := {
  w_wf s := Z.of_nat (length s) < 2 ^ 31; w_enc s := enc_string s;
}.
Next Obligation. intros s Hs. by apply put_string_puts. Qed.
Next Obligation. intros s Hs. by apply get_string_gets. Qed.

(** Two fields written and read one after the other. *)
Definition put_pair `{Wire A, Wire B} (a : A) (b : B) (m : marshall) : option marshall :=
  m ← w_put a m; w_put b m.
Definition get_pair `{Wire A, Wire B} (a0 : A) (b0 : B) (u : unmarshall)
    : option ((A * B) * unmarshall) :=
  '(a, u) ← w_get a0 u; '(b, u) ← w_get b0 u; Some ((a, b), u).

#[export] Instance pair_wire `{Wire A, Wire B} : Wire (A * B) := {
  w_def := (w_def, w_def);
  w_put p := put_pair (fst p) (snd p);
  w_get p := get_pair (fst p) (snd p);
}.

#[export] Program Instance pair_wire_ok `{WireOk A, WireOk B} : WireOk (A * B) := {
  w_wf p := w_wf (fst p) ∧ w_wf (snd p);
  w_enc p := w_enc (fst p) ++ w_enc (snd p);
}.
Next Obligation.
  intros A ?? B ?? [a b] [Ha Hb]. apply puts_seq; by apply w_put_ok.
Qed.
Next Obligation.
  intros A ?? B ?? [a b] [Ha Hb]. eapply gets_bind; [by apply w_get_ok|].
  apply (gets_map _ (λ b, (a, b))). by apply w_get_ok.
Qed.

(** [std::vector<C>]: [>>] pushes the elements onto the vector it is given. *)
Fixpoint put_elems {A} (put : A → marshall → option marshall) (l : list A) (m : marshall)
    : option marshall :=
  match l with [] => Some m | x :: l => m ← put x m; put_elems put l m end.

Definition put_vector `{Wire A} (v : list A) (m : marshall) : option marshall :=
  m ← put_uint (u32 (Z.of_nat (length v))) m; put_elems w_put v m.

Fixpoint get_elems {A} (get : unmarshall → option (A * unmarshall)) (n : nat) (v : list A)
    (u : unmarshall) : option (list A * unmarshall) :=
  match n with
  | O => Some (v, u)
  | S n => '(z, u) ← get u; get_elems get n (v ++ [z]) u
  end.

Definition get_vector `{Wire A} (v : list A) (u : unmarshall) : option (list A * unmarshall) :=
  '(n, u) ← get_uint u; get_elems (w_get w_def) (Z.to_nat n) v u.

Lemma put_elems_puts {A} (put : A → marshall → option marshall) (enc : A → cstring) l :
  Forall (λ a, puts (put a) (enc a)) l → puts (put_elems put l) (concat (enc <$> l)).
Proof.
  induction 1 as [|a l Ha _ IH]; simpl; [apply puts_ret|]. by apply puts_seq.
Qed.

Lemma get_elems_gets {A} (get : unmarshall → option (A * unmarshall)) (enc : A → cstring) l v :
  Forall (λ a, gets get (enc a) a) l →
  gets (get_elems get (length l) v) (concat (enc <$> l)) (v ++ l).
Proof.
  intros Hl. revert v. induction Hl as [|a l Ha _ IH]; intros v; simpl.
  - rewrite app_nil_r. apply gets_ret.
  - eapply gets_bind; [done|]. replace (v ++ a :: l) with ((v ++ [a]) ++ l); [apply IH|].
    by rewrite <- (assoc_L (++)).
Qed.

Lemma get_vector_gets `{WireOk A} (v0 v : list A) :
  Forall w_wf v → Z.of_nat (length v) < 2 ^ 31 →
  gets (get_vector v0) (enc_u32 (Z.of_nat (length v)) ++ concat (w_enc <$> v)) (v0 ++ v).
Proof.
  intros Hwf Hlen. eapply gets_bind; [apply get_uint_gets|].
  rewrite u32_id by (unfold is_u32; lia). rewrite Nat2Z.id.
  apply get_elems_gets. eapply Forall_impl; [done|]. intros a. apply w_get_ok.
Qed.

#[export] Instance vector_wire `{Wire A} : Wire (list A) | 10 := {
  w_def := []; w_put := put_vector; w_get := get_vector;
}.

#[export] Program Instance vector_wire_ok `{WireOk A} : WireOk (list A) | 10 := {
  w_wf v := Forall w_wf v ∧ Z.of_nat (length v) < 2 ^ 31;
  w_enc v := enc_u32 (Z.of_nat (length v)) ++ concat (w_enc <$> v);
}.
Next Obligation.
  intros A ?? v [Hwf Hlen]. apply puts_seq.
  - rewrite <- enc_u32_wrap. apply put_uint_puts.
  - apply put_elems_puts. eapply Forall_impl; [done|]. intros a. apply w_put_ok.
Qed.
Next Obligation. intros A ?? v [Hwf Hlen]. by apply (get_vector_gets []). Qed.

(** [std::map<A,B>]: entries by increasing key; [>>] clears the map first. *)
Definition put_map `{Countable A, CppLess A, Wire A, Wire B} (d : gmap A B) (m : marshall)
    : option marshall :=
  m ← put_uint (u32 (Z.of_nat (size d))) m; put_elems w_put (map_entries d) m.

Fixpoint get_entries `{Countable A, Wire A, Wire B} (n : nat) (d : gmap A B) (u : unmarshall)
    : option (gmap A B * unmarshall) :=
  match n with
  | O => Some (d, u)
  | S n => '((a, b), u) ← get_pair (w_def : A) (w_def : B) u; get_entries n (<[a := b]> d) u
  end.

Definition get_map `{Countable A, Wire A, Wire B} (d : gmap A B) (u : unmarshall)
    : option (gmap A B * unmarshall) :=
  '(n, u) ← get_uint u; get_entries (Z.to_nat n) ∅ u.

Section map_wire.
Context `{Countable A, CppLess A, !Wire A, !WireOk A, !Wire B, !WireOk B}.
Implicit Types (d : gmap A B) (l : list (A * B)).

Lemma get_entries_gets l d :
  Forall w_wf l → gets (get_entries (length l) d) (concat (w_enc <$> l)) (insert_all l d).
Proof.
  intros Hl. revert d. induction Hl as [|[a b] l Ha _ IH]; intros d.
  - apply gets_ret.
  - rewrite fmap_cons. cbn [concat length get_entries insert_all foldl].
    eapply (gets_bind (get_pair w_def w_def)
      (λ p u, let '(a, b) := p in get_entries (length l) (<[a := b]> d) u)
      (w_enc (a, b)) _ (a, b)); [exact (w_get_ok (a, b) Ha)|apply IH].
Qed.

Definition map_wf d : Prop := Forall w_wf (map_entries d) ∧ Z.of_nat (size d) < 2 ^ 31.
Definition map_enc d : cstring :=
  enc_u32 (Z.of_nat (size d)) ++ concat (w_enc <$> map_entries d).

Lemma put_map_puts d : map_wf d → puts (put_map d) (map_enc d).
Proof using Type*.
  intros [Hwf Hlen]. apply puts_seq.
  - rewrite <- enc_u32_wrap. apply put_uint_puts.
  - apply put_elems_puts. eapply Forall_impl; [done|]. intros a. apply w_put_ok.
Qed.

Lemma get_map_gets d0 d : map_wf d → gets (get_map d0) (map_enc d) d.
Proof using Type*.
  intros [Hwf Hlen]. eapply gets_bind; [apply get_uint_gets|].
  rewrite u32_id by (unfold is_u32; lia).
  rewrite Nat2Z.id, <- map_entries_length.
  eapply gets_eq; [by apply get_entries_gets|].
  rewrite insert_all_entries. by rewrite (right_id_L ∅ (∪)).
Qed.
End map_wire.

#[export] Instance map_wire `{Countable A, CppLess A, Wire A, Wire B} : Wire (gmap A B) := {
  w_def := ∅; w_put := put_map; w_get := get_map;
}.

#[export] Instance map_wire_ok `{Countable A, CppLess A, !Wire A, !WireOk A, !Wire B, !WireOk B}
  : WireOk (gmap A B) := {
  w_wf := map_wf; w_enc := map_enc;
  w_put_ok := put_map_puts; w_get_ok := get_map_gets ∅;
}.

(** ** Whole buffers *)

Lemma new_marshall_rep : m_rep new_marshall [].
Proof.
  exists (malloc RPC_HEADER_SZ), (malloc (DEFAULT_RPC_SZ - RPC_HEADER_SZ)).
  split_and!; by vm_compute.
Qed.

Lemma m_rep_content m bs : m_rep m bs → get_content m = Some bs.
Proof.
  intros (hdr & junk & Hb & Hh & Hi & Hc & Hcap). unfold get_content.
  rewrite Hb. simpl. unfold load_range. rewrite RPC_HEADER_SZ_eq in *.
  replace (0 <=? 24) with true by done.
  replace (0 <=? m_ind m - 24) with true by lia.
  rewrite (proj2 (Z.leb_le (24 + _) _)) by (autorewrite with yfs_rw in *; lia).
  cbn [andb]. replace (Z.to_nat 24) with (length hdr) by lia. rewrite drop_app_length.
  rewrite take_app_length' by (rewrite length_fmap; lia). apply mapM_id_fmap.
Qed.

Lemma unmarshall_of_string_rep s :
  Z.of_nat (length s) <= max_content →
  ∃ u, unmarshall_of_string s = Some u ∧ u_rep 0 u s.
Proof.
  unfold max_content, unmarshall_of_string, take_content, chk_int.
  rewrite RPC_HEADER_SZ_eq. intros Hlen. unfold INT_MAX.
  rewrite !(proj2 (Z.leb_le _ _)) by lia. cbn [andb].
  simpl. unfold memcpy_in, realloc. rewrite length_resize.
  rewrite !(proj2 (Z.leb_le _ _)) by lia. cbn [andb]. simpl.
  eexists. split; [done|]. split; [done|].
  set (b := resize _ _ _). assert (length b = 24 + length s)%nat as Hb.
  { unfold b. rewrite length_resize. lia. }
  exists (take 24 b), []. simpl. split_and!; [| | |unfold INT_MAX; lia].
  - rewrite drop_ge by (rewrite Hb; lia). done.
  - rewrite length_take. lia.
  - rewrite length_take. lia.
Qed.



(** The writes a client of [marshall] can make. *)
Inductive write_op := WByte (x : Z) | WBytes (p : cstring).
Definition do_write (m : marshall) (o : write_op) : option marshall :=
  match o with WByte x => m_rawbyte x m | WBytes p => m_rawbytes p m end.
Definition write_bytes (o : write_op) : cstring :=
  match o with WByte x => [char_of x] | WBytes p => p end.
Fixpoint do_writes (m : marshall) (l : list write_op) : option marshall :=
  match l with [] => Some m | o :: l => m ← do_write m o; do_writes m l end.

Lemma do_writes_puts l : puts (λ m, do_writes m l) (concat (write_bytes <$> l)).
Proof.
  induction l as [|o l IH]; [apply puts_ret|]. simpl. apply (puts_seq (λ m, do_write m o)); [|done].
  destruct o; [apply m_rawbyte_puts|apply m_rawbytes_puts].
Qed.

(** C38. Growth of the buffer: any sequence of [rawbyte] and [rawbytes] calls on a
    new object whose content stays within [max_content] never writes outside
    the block, never overflows the [int] capacity, and leaves exactly the
    written bytes as content. *)
Theorem writes_safe (l : list write_op) :
  Z.of_nat (length (concat (write_bytes <$> l))) <= max_content →
  ∃ m, do_writes new_marshall l = Some m ∧
    get_content m = Some (concat (write_bytes <$> l)) ∧
    m_ind m <= m_capa m <= 2 ^ 30.
Proof.
  intros Hlen. destruct (do_writes_puts l new_marshall [] new_marshall_rep Hlen) as (m & Hm & Hr).
  rewrite app_nil_l in Hr. exists m. split_and!; [done|by apply m_rep_content| |];
    destruct Hr as (hdr & junk & _ & Hh & Hi & Hc & Hcap);
    autorewrite with yfs_rw in Hc; lia.
Qed.

Lemma writes_safe_witness :
  let l := [WByte 511; WBytes (replicate 3000 "x"%char); WByte 65] in
  ∃ m, do_writes new_marshall l = Some m ∧
    get_content m = Some (concat (write_bytes <$> l)) ∧ m_ind m <= m_capa m <= 2 ^ 30.
Proof. intros l. apply (writes_safe l). vm_compute. discriminate. Defined.

(** ** Headers *)

Lemma store_app_mid (l1 : block) y (l2 : block) c i :
  i = Z.of_nat (length l1) → store (l1 ++ y :: l2) i c = Some (l1 ++ Some c :: l2).
Proof.
  intros ->. unfold store. rewrite length_app. simpl.
  rewrite (proj2 (Z.leb_le _ _)), (proj2 (Z.ltb_lt _ _)) by lia.
  cbn [andb]. by rewrite Nat2Z.id, insert_app_mid.
Qed.

(** One byte written in the middle of the allocated block. *)
Lemma m_rawbyte_inside x m pre y post :
  m_buf m = Some (pre ++ y :: post) → m_ind m = Z.of_nat (length pre) →
  m_ind m < m_capa m →
  m_rawbyte x m = Some (Marshall (Some (pre ++ Some (char_of x) :: post)) (m_capa m) (m_ind m + 1)).
Proof.
  intros Hb Hi Hlt. unfold m_rawbyte. destruct (Z.geb_spec (m_ind m) (m_capa m)); [lia|].
  simpl. rewrite Hb. simpl. by rewrite store_app_mid.
Qed.

Lemma pack_inside x m pre y1 y2 y3 y4 post :
  m_buf m = Some (pre ++ y1 :: y2 :: y3 :: y4 :: post) → m_ind m = Z.of_nat (length pre) →
  m_ind m + 4 <= m_capa m →
  pack x m = Some (Marshall (Some ((pre ++ (Some <$> enc_u32 x)) ++ post)) (m_capa m) (m_ind m + 4)).
Proof.
  intros Hb Hi Hlt. unfold pack.
  rewrite (m_rawbyte_inside _ m pre y1 (y2 :: y3 :: y4 :: post)) by (done || lia). simpl.
  rewrite (m_rawbyte_inside _ _ (pre ++ [Some (char_of (byte_at x 24))]) y2 (y3 :: y4 :: post))
    by (simpl; rewrite ?length_app, <- ?(assoc_L (++)); simpl; done || lia). simpl.
  rewrite (m_rawbyte_inside _ _ (pre ++ [Some (char_of (byte_at x 24)); Some (char_of (byte_at x 16))])
    y3 (y4 :: post))
    by (simpl; rewrite ?length_app, <- ?(assoc_L (++)); simpl; done || lia). simpl.
  rewrite (m_rawbyte_inside _ _ (pre ++ [Some (char_of (byte_at x 24)); Some (char_of (byte_at x 16));
    Some (char_of (byte_at x 8))]) y4 post)
    by (simpl; rewrite ?length_app, <- ?(assoc_L (++)); simpl; done || lia). simpl.
  do 2 f_equal; [|lia]. by rewrite <- !(assoc_L (++)).
Qed.

(** Consecutive integers packed into a region of the block. *)
Lemma packs_inside xs m pre ys post :
  m_buf m = Some (pre ++ ys ++ post) → m_ind m = Z.of_nat (length pre) →
  length ys = (4 * length xs)%nat → m_ind m + Z.of_nat (length ys) <= m_capa m →
  put_elems pack xs m
  = Some (Marshall (Some (pre ++ (Some <$> concat (enc_u32 <$> xs)) ++ post)) (m_capa m)
            (m_ind m + Z.of_nat (length ys))).
Proof.
  revert m pre ys. induction xs as [|x xs IH]; intros m pre ys Hb Hi Hl Hle.
  - destruct ys; [|done]. destruct m; simplify_eq/=. by rewrite Z.add_0_r.
  - destruct ys as [|y1 [|y2 [|y3 [|y4 ys]]]]; try (simpl in Hl; lia).
    cbn [put_elems length] in *. rewrite (pack_inside x m pre y1 y2 y3 y4 (ys ++ post)) by (done || lia).
    cbn [mbind option_bind]. rewrite (IH _ (pre ++ (Some <$> enc_u32 x)) ys);
      [|done|simpl; rewrite length_app; simpl; lia|lia|simpl; lia].
    simpl. do 2 f_equal; [|lia]. by rewrite <- !(assoc_L (++)).
Qed.

(** The bytes of a header, after the four bytes left for the channel. *)
Definition req_fields (h : req_header) : list Z :=
  [rq_xid h; rq_proc h; s32 (rq_clt_nonce h); s32 (rq_srv_nonce h); rq_xid_rep h].
Definition reply_fields (h : reply_header) : list Z := [rp_xid h; rp_ret h].
Definition header_bytes (xs : list Z) : cstring := concat (enc_u32 <$> xs).

Definition req_header_wf (h : req_header) : Prop :=
  is_s32 (rq_xid h) ∧ is_s32 (rq_proc h) ∧ is_u32 (rq_clt_nonce h) ∧
  is_u32 (rq_srv_nonce h) ∧ is_s32 (rq_xid_rep h).
Definition reply_header_wf (h : reply_header) : Prop := is_s32 (rp_xid h) ∧ is_s32 (rp_ret h).

Lemma length_header_bytes xs : length (header_bytes xs) = (4 * length xs)%nat.
Proof.
  unfold header_bytes. induction xs as [|x xs IH]; [done|].
  rewrite fmap_cons. cbn [concat]. rewrite length_app, IH. simpl. lia.
Qed.

(** Packing a header of at most five integers does not touch the content. *)
Lemma pack_fields_rep xs m bs :
  m_rep m bs → (length xs <= 5)%nat →
  ∃ m' sz tl junk, put_elems pack xs (m_set_ind sizeof_rpc_sz_t m) = Some m' ∧
    length sz = 4%nat ∧ (4 + 4 * length xs + length tl = 24)%nat ∧
    m_rep (m_set_ind (m_ind m) m') bs ∧
    m_buf m' = Some (sz ++ (Some <$> header_bytes xs) ++ tl ++ (Some <$> bs) ++ junk).
Proof.
  intros (hdr & junk & Hb & Hh & Hi & Hc & Hcap) Hx. rewrite RPC_HEADER_SZ_eq in *.
  set (n := (4 * length xs)%nat).
  rewrite <- (take_drop 4 hdr), <- (take_drop n (drop 4 hdr)) in Hb.
  rewrite <- !(assoc_L (++)) in Hb.
  assert (length (take 4 hdr) = 4%nat) as Hl4 by (rewrite length_take; lia).
  assert (length (take n (drop 4 hdr)) = n) as Hln by (rewrite length_take, length_drop; lia).
  rewrite !length_app, length_fmap in Hc.
  rewrite (packs_inside xs (m_set_ind sizeof_rpc_sz_t m) _ _ _ Hb);
    [|by rewrite Hl4|done|rewrite Hln; simpl; change sizeof_rpc_sz_t with 4; lia].
  eexists _, (take 4 hdr), (drop n (drop 4 hdr)), junk. split_and!; [done|done| | |done].
  - rewrite !length_drop. lia.
  - exists (take 4 hdr ++ (Some <$> header_bytes xs) ++ drop n (drop 4 hdr)), junk.
    rewrite RPC_HEADER_SZ_eq. simpl. split_and!; [by rewrite <- !(assoc_L (++))| |done| |lia|lia].
    + rewrite !length_app, length_fmap, length_header_bytes, !length_drop, Hl4. lia.
    + rewrite !length_app, !length_fmap, length_header_bytes, !length_drop, Hl4. lia.
Qed.

Lemma pack_req_header_fields h m :
  pack_req_header h m
  = m' ← put_elems pack (req_fields h) (m_set_ind sizeof_rpc_sz_t m);
    Some (m_set_ind (m_ind m) m').
Proof.
  unfold pack_req_header, req_fields. cbn [put_elems].
  repeat (destruct (pack _ _); [cbn [mbind option_bind]|done]). done.
Qed.

Lemma pack_reply_header_fields h m :
  pack_reply_header h m
  = m' ← put_elems pack (reply_fields h) (m_set_ind sizeof_rpc_sz_t m);
    Some (m_set_ind (m_ind m) m').
Proof.
  unfold pack_reply_header, reply_fields. cbn [put_elems].
  repeat (destruct (pack _ _); [cbn [mbind option_bind]|done]). done.
Qed.

(** A reply header can be packed on every well-formed object. *)
Lemma pack_reply_header_rep h m bs :
  m_rep m bs → ∃ m', pack_reply_header h m = Some m' ∧ m_rep m' bs.
Proof.
  intros Hm. destruct (pack_fields_rep (reply_fields h) m bs Hm) as
    (m' & sz & tl & junk & Hpk & _ & _ & Hm' & _); [simpl; lia|].
  rewrite pack_reply_header_fields, Hpk. by eexists.
Qed.

(** Consecutive integers unpacked from a region of a received block. *)
Fixpoint unpacks (n : nat) (u : unmarshall) : option (list Z * unmarshall) :=
  match n with
  | O => Some ([], u)
  | S n => '(x, u) ← unpack u; '(xs, u) ← unpacks n u; Some (x :: xs, u)
  end.

Lemma s32_id x : is_s32 x → s32 x = x.
Proof. intros. rewrite <- (s32_of_u32 x) at 2 by done. apply s32_u32_eq. by rewrite u32_idemp. Qed.

Lemma unpacks_gets xs : Forall is_s32 xs → gets (unpacks (length xs)) (header_bytes xs) xs.
Proof.
  unfold header_bytes. induction 1 as [|x xs Hx _ IH]; [apply gets_ret|].
  rewrite fmap_cons. cbn [concat length unpacks].
  eapply gets_bind; [eapply gets_eq; [apply unpack_gets|by apply s32_id]|].
  by apply (gets_map (unpacks (length xs)) (cons x)).
Qed.

(** What the other end of a connection receives: the block of the sender, its
    first four cells overwritten by the channel with the size. *)
Definition received (sz4 : cstring) (m : marshall) : unmarshall :=
  unmarshall_of_buf ((Some <$> sz4) ++ drop 4 (default [] (m_buf m))) (m_ind m).

Lemma received_fields xs m m' bs sz tl junk sz4 :
  m_rep (m_set_ind (m_ind m) m') bs → m_ind m <= INT_MAX →
  length sz = 4%nat → length sz4 = 4%nat → (4 + 4 * length xs + length tl = 24)%nat →
  m_buf m' = Some (sz ++ (Some <$> header_bytes xs) ++ tl ++ (Some <$> bs) ++ junk) →
  let u := received sz4 (m_set_ind (m_ind m) m') in
  u_rep (length tl + length bs) (u_set_ind sizeof_rpc_sz_t u) (header_bytes xs) ∧
  (∀ ok, ok = true → u_rep 0 (Unmarshall (u_buf u) (u_sz u) RPC_HEADER_SZ ok) bs).
Proof.
  intros (hdr & junk' & _ & _ & Hi & _) Hmax Hsz Hsz4 Htl Hb. simpl in Hi.
  rewrite RPC_HEADER_SZ_eq in *. unfold received, unmarshall_of_buf, u_set_ind. simpl.
  rewrite Hb. simpl. rewrite drop_app_length' by done. split.
  - split; [done|]. exists (Some <$> sz4), (tl ++ (Some <$> bs) ++ junk). simpl.
    rewrite length_fmap, Hsz4, length_header_bytes. split_and!; [done|done|lia|lia].
  - intros ok ->. split; [done|].
    exists ((Some <$> sz4) ++ (Some <$> header_bytes xs) ++ tl), junk. simpl.
    rewrite !length_app, !length_fmap, Hsz4, length_header_bytes.
    split_and!; [by rewrite <- !(assoc_L (++))|lia|lia|lia].
Qed.

Lemma unpack_req_header_fields u :
  unpack_req_header u
  = '(xs, u') ← unpacks 5 (u_set_ind sizeof_rpc_sz_t u);
    match xs with
    | [a; b; c; d; e] => Some (ReqHeader a b (u32 c) (u32 d) e, u_set_ind RPC_HEADER_SZ u')
    | _ => None
    end.
Proof.
  unfold unpack_req_header. cbn [unpacks].
  repeat (destruct (unpack _) as [[? ?]|]; [cbn [mbind option_bind]|done]). done.
Qed.

Lemma unpack_reply_header_fields u :
  unpack_reply_header u
  = '(xs, u') ← unpacks 2 (u_set_ind sizeof_rpc_sz_t u);
    match xs with
    | [a; b] => Some (ReplyHeader a b, u_set_ind RPC_HEADER_SZ u')
    | _ => None
    end.
Proof.
  unfold unpack_reply_header. cbn [unpacks].
  repeat (destruct (unpack _) as [[? ?]|]; [cbn [mbind option_bind]|done]). done.
Qed.

Lemma u_rep_set k u bs : u_rep k u bs → u_ok u = true.
Proof. by intros [? _]. Qed.

(** Request headers: [pack_req_header] on a buffer with content [bs] leaves
    the content alone, and the receiver's [unpack_req_header], whatever size
    bytes the channel put in front, gives back the same header and stands
    exactly at the content. *)
Theorem req_header_roundtrip h m bs sz4 :
  m_rep m bs → req_header_wf h → m_ind m <= INT_MAX → length sz4 = 4%nat →
  ∃ m' u', pack_req_header h m = Some m' ∧ m_rep m' bs ∧
    unpack_req_header (received sz4 m') = Some (h, u') ∧ u_rep 0 u' bs.
Proof.
  intros Hm (Hx & Hp & Hc & Hs & Hr) Hmax Hsz4.
  destruct (pack_fields_rep (req_fields h) m bs Hm) as
    (m' & sz & tl & junk & Hpk & Hsz & Htl & Hm' & Hb); [simpl; lia|].
  destruct (received_fields _ _ _ _ _ _ _ _ Hm' Hmax Hsz Hsz4 Htl Hb) as [Hu Hbs].
  rewrite pack_req_header_fields, Hpk. simpl. eexists. 
  rewrite unpack_req_header_fields.
  rewrite <- (app_nil_r (header_bytes _)) in Hu.
  assert (Forall is_s32 (req_fields h)) as Hwf
    by (unfold req_fields; rewrite !Forall_cons, Forall_nil; auto 10 with yfs).
  destruct (unpacks_gets _ Hwf _ _ _ Hu) as (u1 & Hup & Hu1 & Hub & Hus & _).
  exists (u_set_ind RPC_HEADER_SZ u1). split_and!; [done|done| |].
  - cbn [length req_fields] in Hup. rewrite Hup. simpl.
    rewrite !u32_s32, !u32_id by done. by destruct h.
  - unfold u_set_ind. rewrite Hub, Hus. apply Hbs. by eapply u_rep_set.
Qed.

(** A buffer with content "A". *)
Lemma one_byte_rep : m_rep (Marshall (Some (replicate 24 None ++ [Some "A"%char; None])) 26 25) ($"A").
Proof. exists (replicate 24 None), [None]. by split_and!. Qed.

Lemma req_header_roundtrip_witness :
  let h := ReqHeader 7 28673 (2 ^ 32 - 1) 12 (-1) in
  let m := Marshall (Some (replicate 24 None ++ [Some "A"%char; None])) 26 25 in
  ∃ m' u', pack_req_header h m = Some m' ∧ m_rep m' ($"A") ∧
    unpack_req_header (received ($"size") m') = Some (h, u') ∧ u_rep 0 u' ($"A").
Proof.
  intros h m. apply (req_header_roundtrip h m ($"A") ($"size") one_byte_rep);
    [|vm_compute; discriminate|reflexivity].
  repeat split; vm_compute; discriminate || reflexivity.
Defined.

(** Reply headers: the same for [pack_reply_header] and
    [unpack_reply_header], although the twelve header bytes a reply does not
    use are never written. *)
Theorem reply_header_roundtrip h m bs sz4 :
  m_rep m bs → reply_header_wf h → m_ind m <= INT_MAX → length sz4 = 4%nat →
  ∃ m' u', pack_reply_header h m = Some m' ∧ m_rep m' bs ∧
    unpack_reply_header (received sz4 m') = Some (h, u') ∧ u_rep 0 u' bs.
Proof.
  intros Hm (Hx & Hr) Hmax Hsz4.
  destruct (pack_fields_rep (reply_fields h) m bs Hm) as
    (m' & sz & tl & junk & Hpk & Hsz & Htl & Hm' & Hb); [simpl; lia|].
  destruct (received_fields _ _ _ _ _ _ _ _ Hm' Hmax Hsz Hsz4 Htl Hb) as [Hu Hbs].
  rewrite pack_reply_header_fields, Hpk. simpl. eexists. 
  rewrite unpack_reply_header_fields.
  rewrite <- (app_nil_r (header_bytes _)) in Hu.
  assert (Forall is_s32 (reply_fields h)) as Hwf
    by (unfold reply_fields; rewrite !Forall_cons, Forall_nil; auto 10 with yfs).
  destruct (unpacks_gets _ Hwf _ _ _ Hu) as (u1 & Hup & Hu1 & Hub & Hus & _).
  exists (u_set_ind RPC_HEADER_SZ u1). split_and!; [done|done| |].
  - cbn [length reply_fields] in Hup. rewrite Hup. simpl. by destruct h.
  - unfold u_set_ind. rewrite Hub, Hus. apply Hbs. by eapply u_rep_set.
Qed.

Lemma reply_header_roundtrip_witness :
  let h := ReplyHeader 7 (-3) in
  let m := Marshall (Some (replicate 24 None ++ [Some "A"%char; None])) 26 25 in
  ∃ m' u', pack_reply_header h m = Some m' ∧ m_rep m' ($"A") ∧
    unpack_reply_header (received ($"size") m') = Some (h, u') ∧ u_rep 0 u' ($"A").
Proof.
  intros h m. apply (reply_header_roundtrip h m ($"A") ($"size") one_byte_rep);
    [|vm_compute; discriminate|reflexivity].
  repeat split; vm_compute; discriminate || reflexivity.
Defined.

(** ** Malformed input *)

(** A length prefix that the remaining bytes do not cover: [>>] of a string
    clears the [ok] flag and leaves the variable alone, as long as
    [_ind + n] does not wrap around in [unsigned int]. *)
Theorem get_string_truncated s0 u k n bs :
  u_rep k u (enc_u32 n ++ bs) → is_u32 n →
  Z.of_nat (length bs + k) < n → u_ind u + 4 + n < 2 ^ 32 →
  ∃ u', get_string s0 u = Some (s0, u') ∧ u_ok u' = false ∧ okdone u' = false.
Proof.
  intros Hu Hn Hlen Hnw. unfold get_string.
  destruct (get_uint_gets n k u bs Hu) as (u1 & -> & Hu1 & Hb & Hs & Hi). simpl.
  destruct Hu1 as (Hok & pre & post & Hb1 & Hi1 & Hs1 & Hmax). rewrite Hok.
  unfold u_rawbytes. rewrite (u32_id n) by done. unfold is_u32, INT_MAX in *. simpl in Hi.
  rewrite (u32_id (u_ind u1)), (u32_id (u_sz u1)), (u32_id (u_ind u1 + n))
    by (unfold is_u32; lia).
  destruct (Z.gtb_spec (u_ind u1 + n) (u_sz u1)); [|lia].
  eexists. by split_and!.
Qed.

Lemma get_string_truncated_witness :
  let u := Unmarshall (Some (Some <$> enc_u32 9 ++ $"yfs")) 7 0 true in
  ∃ u', get_string ($"old") u = Some ($"old", u') ∧ u_ok u' = false ∧ okdone u' = false.
Proof.
  intros u. apply (get_string_truncated ($"old") u 0 9 ($"yfs"));
    [|split; vm_compute; congruence|reflexivity|reflexivity].
  split; [done|]. exists [], []. split_and!; done.
Defined.

(** A length prefix close to [UINT_MAX] passes the bounds check of
    [unmarshall::rawbytes], because [_ind+n] wraps around, and the string
    constructor then reads outside the buffer. *)
Theorem get_string_wraps s0 u k n bs b :
  u_rep k u (enc_u32 n ++ bs) → is_u32 n → 2 ^ 32 <= u_ind u + 4 + n →
  u_buf u = Some b → Z.of_nat (length b) < n →
  get_string s0 u = None.
Proof.
  intros Hu Hn Hw Hbuf Hlen. unfold get_string.
  destruct (get_uint_gets n k u bs Hu) as (u1 & -> & Hu1 & Hb & Hs & Hi). simpl.
  destruct Hu1 as (Hok & pre & post & Hb1 & Hi1 & Hs1 & Hmax). rewrite Hok.
  unfold u_rawbytes. rewrite (u32_id n) by done. unfold is_u32, INT_MAX in *. simpl in Hi.
  rewrite (u32_id (u_ind u1)), (u32_id (u_sz u1)) by (unfold is_u32; lia).
  assert (u32 (u_ind u1 + n) = u_ind u1 + n - 2 ^ 32) as ->.
  { unfold u32. symmetry. apply (Z.mod_unique_pos _ _ 1); lia. }
  destruct (Z.gtb_spec (u_ind u1 + n - 2 ^ 32) (u_sz u1)); [lia|].
  rewrite Hb, Hbuf. simpl. unfold load_range.
  replace (u_ind u1 + n <=? Z.of_nat (length b)) with false by lia.
  by rewrite andb_false_r.
Qed.

Lemma get_string_wraps_witness :
  get_string [] (Unmarshall (Some (Some <$> enc_u32 (2 ^ 32 - 2) ++ $"yfs")) 7 0 true) = None.
Proof.
  apply (get_string_wraps [] _ 0 (2 ^ 32 - 2) ($"yfs") (Some <$> enc_u32 (2 ^ 32 - 2) ++ $"yfs"));
    [|split; vm_compute; congruence|vm_compute; congruence|reflexivity|reflexivity].
  split; [done|]. exists [], []. split_and!; done.
Defined.

Lemma length_enc_u32 x : length (enc_u32 x) = 4%nat.
Proof. done. Qed.
Lemma length_enc_u64 x : length (enc_u64 x) = 8%nat.
Proof. done. Qed.
Lemma length_enc_string s : length (enc_string s) = (4 + length s)%nat.
Proof. done. Qed.
#[export] Hint Rewrite length_enc_u32 length_enc_u64 length_enc_string : yfs_rw.

#[global] Opaque enc_u32 enc_u64 enc_string.
