(* ===== verification/Protocol.v ===== *)
(** * Messages of the protocols

    The structures of paxos_protocol.h, rsm_protocol.h and extent_protocol.h with
    their [<<] and [>>] operators, as instances of the wire interface.  A [>>]
    operator fills the fields of the variable it is given, so it takes the old
    value as an argument. *)

From S2P Require Import Prelude.
From S2P Require Import Marshall.

(** ** paxos_protocol.h *)

Record prop_t := Prop_t { p_n : Z; p_m : cstring }.
Record preparearg := Preparearg { pa_instance : Z; pa_n : prop_t; pa_v : cstring }.
Record prepareres := Prepareres {
  pr_oldinstance : Z; pr_accept : Z; pr_n_a : prop_t; pr_v_a : cstring;
}.
Record acceptarg := Acceptarg { aa_instance : Z; aa_n : prop_t; aa_v : cstring }.
Record decidearg := Decidearg { da_instance : Z; da_v : cstring }.

#[export] Instance prop_t_eq_dec : EqDecision prop_t.
Proof. solve_decision. Defined.

Definition put_prop_t (a : prop_t) (m : marshall) : option marshall :=
  m ← put_uint (p_n a) m; put_string (p_m a) m.
Definition get_prop_t (a : prop_t) (u : unmarshall) : option (prop_t * unmarshall) :=
  '(n, u) ← get_uint u; '(s, u) ← get_string (p_m a) u; Some (Prop_t n s, u).

Definition put_preparearg (a : preparearg) (m : marshall) : option marshall :=
  m ← put_uint (pa_instance a) m; m ← put_prop_t (pa_n a) m; put_string (pa_v a) m.
Definition get_preparearg (a : preparearg) (u : unmarshall) : option (preparearg * unmarshall) :=
  '(i, u) ← get_uint u; '(n, u) ← get_prop_t (pa_n a) u; '(v, u) ← get_string (pa_v a) u;
  Some (Preparearg i n v, u).

Definition put_prepareres (r : prepareres) (m : marshall) : option marshall :=
  m ← put_int (pr_oldinstance r) m; m ← put_int (pr_accept r) m;
  m ← put_prop_t (pr_n_a r) m; put_string (pr_v_a r) m.
Definition get_prepareres (r : prepareres) (u : unmarshall) : option (prepareres * unmarshall) :=
  '(o, u) ← get_int u; '(c, u) ← get_int u; '(n, u) ← get_prop_t (pr_n_a r) u;
  '(v, u) ← get_string (pr_v_a r) u; Some (Prepareres o c n v, u).

Definition put_acceptarg (a : acceptarg) (m : marshall) : option marshall :=
  m ← put_uint (aa_instance a) m; m ← put_prop_t (aa_n a) m; put_string (aa_v a) m.
Definition get_acceptarg (a : acceptarg) (u : unmarshall) : option (acceptarg * unmarshall) :=
  '(i, u) ← get_uint u; '(n, u) ← get_prop_t (aa_n a) u; '(v, u) ← get_string (aa_v a) u;
  Some (Acceptarg i n v, u).

Definition put_decidearg (a : decidearg) (m : marshall) : option marshall :=
  m ← put_uint (da_instance a) m; put_string (da_v a) m.
Definition get_decidearg (a : decidearg) (u : unmarshall) : option (decidearg * unmarshall) :=
  '(i, u) ← get_uint u; '(v, u) ← get_string (da_v a) u; Some (Decidearg i v, u).

(** ** rsm_protocol.h *)

Record viewstamp := Viewstamp { vid : Z; seqno : Z }.
Record transferres := Transferres { tr_state : cstring; tr_last : viewstamp }.
Record joinres := Joinres { jr_log : cstring }.

#[export] Instance viewstamp_eq_dec : EqDecision viewstamp.
Proof. solve_decision. Defined.

Definition vs_eqb (a b : viewstamp) : bool := (vid a =? vid b) && (seqno a =? seqno b).
Definition vs_gtb (a b : viewstamp) : bool :=
  (vid a >? vid b) || ((vid a =? vid b) && (seqno a >? seqno b)).
Definition vs_neqb (a b : viewstamp) : bool :=
  negb (vid a =? vid b) || negb (seqno a =? seqno b).

Definition put_viewstamp (v : viewstamp) (m : marshall) : option marshall :=
  m ← put_uint (vid v) m; put_uint (seqno v) m.
Definition get_viewstamp (v : viewstamp) (u : unmarshall) : option (viewstamp * unmarshall) :=
  '(a, u) ← get_uint u; '(b, u) ← get_uint u; Some (Viewstamp a b, u).

Definition put_transferres (r : transferres) (m : marshall) : option marshall :=
  m ← put_string (tr_state r) m; put_viewstamp (tr_last r) m.
Definition get_transferres (r : transferres) (u : unmarshall) : option (transferres * unmarshall) :=
  '(s, u) ← get_string (tr_state r) u; '(l, u) ← get_viewstamp (tr_last r) u;
  Some (Transferres s l, u).

Definition put_joinres (r : joinres) (m : marshall) : option marshall := put_string (jr_log r) m.
Definition get_joinres (r : joinres) (u : unmarshall) : option (joinres * unmarshall) :=
  '(s, u) ← get_string (jr_log r) u; Some (Joinres s, u).

(** ** extent_protocol.h *)

Record attr := Attr { atime : Z; mtime : Z; ctime : Z; size_ : Z }.

#[export] Instance attr_eq_dec : EqDecision attr.
Proof. solve_decision. Defined.

Definition put_attr (a : attr) (m : marshall) : option marshall :=
  m ← put_uint (atime a) m; m ← put_uint (mtime a) m; m ← put_uint (ctime a) m;
  put_uint (size_ a) m.
Definition get_attr (a : attr) (u : unmarshall) : option (attr * unmarshall) :=
  '(x, u) ← get_uint u; '(y, u) ← get_uint u; '(z, u) ← get_uint u; '(w, u) ← get_uint u;
  Some (Attr x y z w, u).

(** ** The operators implement the wire interface *)

Definition str_wf (s : cstring) : Prop := Z.of_nat (length s) < 2 ^ 31.

Lemma get_u32_gets x : is_u32 x → gets get_uint (enc_u32 x) x.
Proof. intros. eapply gets_eq; [apply get_uint_gets|by apply u32_id]. Qed.

Lemma get_s32_gets x : is_s32 x → gets get_int (enc_u32 x) x.
Proof. intros. eapply gets_eq; [apply get_int_gets|by apply s32_id]. Qed.

Lemma put_str_puts s : str_wf s → puts (put_string s) (enc_string s).
Proof. apply put_string_puts. Qed.

Lemma get_str_gets s0 s : str_wf s → gets (get_string s0) (enc_string s) s.
Proof. apply get_string_gets. Qed.

#[export] Hint Resolve put_uint_puts put_int_puts put_str_puts get_u32_gets get_s32_gets
  get_str_gets : wire.

(** Fields one after the other. *)
Ltac solve_puts := repeat first [solve [eauto with wire] | apply puts_seq].
Ltac solve_gets a :=
  match goal with |- gets _ ?bs _ => rewrite <- (app_nil_r bs), <- ?(assoc_L (++)) end;
  repeat (eapply gets_bind; [solve [eauto with wire]|]);
  (eapply gets_eq; [apply gets_ret|by destruct a]).

Definition prop_t_wf (a : prop_t) : Prop := is_u32 (p_n a) ∧ str_wf (p_m a).
Definition prop_t_enc (a : prop_t) : cstring := enc_u32 (p_n a) ++ enc_string (p_m a).
Lemma put_prop_t_puts a : prop_t_wf a → puts (put_prop_t a) (prop_t_enc a).
Proof. intros (? & ?). unfold put_prop_t, prop_t_enc. solve_puts. Qed.
Lemma get_prop_t_gets a0 a : prop_t_wf a → gets (get_prop_t a0) (prop_t_enc a) a.
Proof. intros (? & ?). unfold get_prop_t, prop_t_enc. solve_gets a. Qed.
#[export] Hint Resolve put_prop_t_puts get_prop_t_gets : wire.
#[export] Instance prop_t_wire : Wire prop_t :=
  { w_def := Prop_t 0 []; w_put := put_prop_t; w_get := get_prop_t }.
#[export] Instance prop_t_wire_ok : WireOk prop_t := {
  w_wf := prop_t_wf; w_enc := prop_t_enc; w_put_ok := put_prop_t_puts; w_get_ok := get_prop_t_gets _;
}.

Definition preparearg_wf (a : preparearg) : Prop := is_u32 (pa_instance a) ∧ prop_t_wf (pa_n a) ∧ str_wf (pa_v a).
Definition preparearg_enc (a : preparearg) : cstring := enc_u32 (pa_instance a) ++ prop_t_enc (pa_n a) ++ enc_string (pa_v a).
Lemma put_preparearg_puts a : preparearg_wf a → puts (put_preparearg a) (preparearg_enc a).
Proof. intros (? & ? & ?). unfold put_preparearg, preparearg_enc. solve_puts. Qed.
Lemma get_preparearg_gets a0 a : preparearg_wf a → gets (get_preparearg a0) (preparearg_enc a) a.
Proof. intros (? & ? & ?). unfold get_preparearg, preparearg_enc. solve_gets a. Qed.
#[export] Hint Resolve put_preparearg_puts get_preparearg_gets : wire.
#[export] Instance preparearg_wire : Wire preparearg :=
  { w_def := Preparearg 0 (Prop_t 0 []) []; w_put := put_preparearg; w_get := get_preparearg }.
#[export] Instance preparearg_wire_ok : WireOk preparearg := {
  w_wf := preparearg_wf; w_enc := preparearg_enc; w_put_ok := put_preparearg_puts; w_get_ok := get_preparearg_gets _;
}.

Definition prepareres_wf (a : prepareres) : Prop := is_s32 (pr_oldinstance a) ∧ is_s32 (pr_accept a) ∧ prop_t_wf (pr_n_a a) ∧ str_wf (pr_v_a a).
Definition prepareres_enc (a : prepareres) : cstring := enc_u32 (pr_oldinstance a) ++ enc_u32 (pr_accept a) ++ prop_t_enc (pr_n_a a) ++ enc_string (pr_v_a a).
Lemma put_prepareres_puts a : prepareres_wf a → puts (put_prepareres a) (prepareres_enc a).
Proof. intros (? & ? & ? & ?). unfold put_prepareres, prepareres_enc. solve_puts. Qed.
Lemma get_prepareres_gets a0 a : prepareres_wf a → gets (get_prepareres a0) (prepareres_enc a) a.
Proof. intros (? & ? & ? & ?). unfold get_prepareres, prepareres_enc. solve_gets a. Qed.
#[export] Hint Resolve put_prepareres_puts get_prepareres_gets : wire.
#[export] Instance prepareres_wire : Wire prepareres :=
  { w_def := Prepareres 0 0 (Prop_t 0 []) []; w_put := put_prepareres; w_get := get_prepareres }.
#[export] Instance prepareres_wire_ok : WireOk prepareres := {
  w_wf := prepareres_wf; w_enc := prepareres_enc; w_put_ok := put_prepareres_puts; w_get_ok := get_prepareres_gets _;
}.

Definition acceptarg_wf (a : acceptarg) : Prop := is_u32 (aa_instance a) ∧ prop_t_wf (aa_n a) ∧ str_wf (aa_v a).
Definition acceptarg_enc (a : acceptarg) : cstring := enc_u32 (aa_instance a) ++ prop_t_enc (aa_n a) ++ enc_string (aa_v a).
Lemma put_acceptarg_puts a : acceptarg_wf a → puts (put_acceptarg a) (acceptarg_enc a).
Proof. intros (? & ? & ?). unfold put_acceptarg, acceptarg_enc. solve_puts. Qed.
Lemma get_acceptarg_gets a0 a : acceptarg_wf a → gets (get_acceptarg a0) (acceptarg_enc a) a.
Proof. intros (? & ? & ?). unfold get_acceptarg, acceptarg_enc. solve_gets a. Qed.
#[export] Hint Resolve put_acceptarg_puts get_acceptarg_gets : wire.
#[export] Instance acceptarg_wire : Wire acceptarg :=
  { w_def := Acceptarg 0 (Prop_t 0 []) []; w_put := put_acceptarg; w_get := get_acceptarg }.
#[export] Instance acceptarg_wire_ok : WireOk acceptarg := {
  w_wf := acceptarg_wf; w_enc := acceptarg_enc; w_put_ok := put_acceptarg_puts; w_get_ok := get_acceptarg_gets _;
}.

Definition decidearg_wf (a : decidearg) : Prop := is_u32 (da_instance a) ∧ str_wf (da_v a).
Definition decidearg_enc (a : decidearg) : cstring := enc_u32 (da_instance a) ++ enc_string (da_v a).
Lemma put_decidearg_puts a : decidearg_wf a → puts (put_decidearg a) (decidearg_enc a).
Proof. intros (? & ?). unfold put_decidearg, decidearg_enc. solve_puts. Qed.
Lemma get_decidearg_gets a0 a : decidearg_wf a → gets (get_decidearg a0) (decidearg_enc a) a.
Proof. intros (? & ?). unfold get_decidearg, decidearg_enc. solve_gets a. Qed.
#[export] Hint Resolve put_decidearg_puts get_decidearg_gets : wire.
#[export] Instance decidearg_wire : Wire decidearg :=
  { w_def := Decidearg 0 []; w_put := put_decidearg; w_get := get_decidearg }.
#[export] Instance decidearg_wire_ok : WireOk decidearg := {
  w_wf := decidearg_wf; w_enc := decidearg_enc; w_put_ok := put_decidearg_puts; w_get_ok := get_decidearg_gets _;
}.

Definition viewstamp_wf (a : viewstamp) : Prop := is_u32 (vid a) ∧ is_u32 (seqno a).
Definition viewstamp_enc (a : viewstamp) : cstring := enc_u32 (vid a) ++ enc_u32 (seqno a).
Lemma put_viewstamp_puts a : viewstamp_wf a → puts (put_viewstamp a) (viewstamp_enc a).
Proof. intros (? & ?). unfold put_viewstamp, viewstamp_enc. solve_puts. Qed.
Lemma get_viewstamp_gets a0 a : viewstamp_wf a → gets (get_viewstamp a0) (viewstamp_enc a) a.
Proof. intros (? & ?). unfold get_viewstamp, viewstamp_enc. solve_gets a. Qed.
#[export] Hint Resolve put_viewstamp_puts get_viewstamp_gets : wire.
#[export] Instance viewstamp_wire : Wire viewstamp :=
  { w_def := Viewstamp 0 0; w_put := put_viewstamp; w_get := get_viewstamp }.
#[export] Instance viewstamp_wire_ok : WireOk viewstamp := {
  w_wf := viewstamp_wf; w_enc := viewstamp_enc; w_put_ok := put_viewstamp_puts; w_get_ok := get_viewstamp_gets _;
}.

Definition transferres_wf (a : transferres) : Prop := str_wf (tr_state a) ∧ viewstamp_wf (tr_last a).
Definition transferres_enc (a : transferres) : cstring := enc_string (tr_state a) ++ viewstamp_enc (tr_last a).
Lemma put_transferres_puts a : transferres_wf a → puts (put_transferres a) (transferres_enc a).
Proof. intros (? & ?). unfold put_transferres, transferres_enc. solve_puts. Qed.
Lemma get_transferres_gets a0 a : transferres_wf a → gets (get_transferres a0) (transferres_enc a) a.
Proof. intros (? & ?). unfold get_transferres, transferres_enc. solve_gets a. Qed.
#[export] Hint Resolve put_transferres_puts get_transferres_gets : wire.
#[export] Instance transferres_wire : Wire transferres :=
  { w_def := Transferres [] (Viewstamp 0 0); w_put := put_transferres; w_get := get_transferres }.
#[export] Instance transferres_wire_ok : WireOk transferres := {
  w_wf := transferres_wf; w_enc := transferres_enc; w_put_ok := put_transferres_puts; w_get_ok := get_transferres_gets _;
}.

Definition joinres_wf (a : joinres) : Prop := str_wf (jr_log a).
Definition joinres_enc (a : joinres) : cstring := enc_string (jr_log a).
Lemma put_joinres_puts a : joinres_wf a → puts (put_joinres a) (joinres_enc a).
Proof. intros ?. unfold put_joinres, joinres_enc. solve_puts. Qed.
Lemma get_joinres_gets a0 a : joinres_wf a → gets (get_joinres a0) (joinres_enc a) a.
Proof. intros ?. unfold get_joinres, joinres_enc. solve_gets a. Qed.
#[export] Hint Resolve put_joinres_puts get_joinres_gets : wire.
#[export] Instance joinres_wire : Wire joinres :=
  { w_def := Joinres []; w_put := put_joinres; w_get := get_joinres }.
#[export] Instance joinres_wire_ok : WireOk joinres := {
  w_wf := joinres_wf; w_enc := joinres_enc; w_put_ok := put_joinres_puts; w_get_ok := get_joinres_gets _;
}.

Definition attr_wf (a : attr) : Prop := is_u32 (atime a) ∧ is_u32 (mtime a) ∧ is_u32 (ctime a) ∧ is_u32 (size_ a).
Definition attr_enc (a : attr) : cstring := enc_u32 (atime a) ++ enc_u32 (mtime a) ++ enc_u32 (ctime a) ++ enc_u32 (size_ a).
Lemma put_attr_puts a : attr_wf a → puts (put_attr a) (attr_enc a).
Proof. intros (? & ? & ? & ?). unfold put_attr, attr_enc. solve_puts. Qed.
Lemma get_attr_gets a0 a : attr_wf a → gets (get_attr a0) (attr_enc a) a.
Proof. intros (? & ? & ? & ?). unfold get_attr, attr_enc. solve_gets a. Qed.
#[export] Hint Resolve put_attr_puts get_attr_gets : wire.
#[export] Instance attr_wire : Wire attr :=
  { w_def := Attr 0 0 0 0; w_put := put_attr; w_get := get_attr }.
#[export] Instance attr_wire_ok : WireOk attr := {
  w_wf := attr_wf; w_enc := attr_enc; w_put_ok := put_attr_puts; w_get_ok := get_attr_gets _;
}.

(** ** View stamps *)

Lemma vs_eqb_eq a b : vs_eqb a b = true ↔ a = b.
Proof.
  destruct a, b. unfold vs_eqb; simpl. rewrite andb_true_iff, !Z.eqb_eq. naive_solver.
Qed.

Lemma vs_neqb_negb a b : vs_neqb a b = negb (vs_eqb a b).
Proof. unfold vs_neqb, vs_eqb. by rewrite negb_andb. Qed.

Lemma vs_gtb_trans a b c : vs_gtb a b = true → vs_gtb b c = true → vs_gtb a c = true.
Proof. unfold vs_gtb. lia. Qed.

Lemma vs_trichotomy a b : a = b ∨ vs_gtb a b = true ∨ vs_gtb b a = true.
Proof.
  destruct a as [a1 a2], b as [b1 b2]. unfold vs_gtb; simpl.
  destruct (Z.lt_trichotomy a1 b1) as [?|[->|?]]; [right; right; lia| |right; left; lia].
  destruct (Z.lt_trichotomy a2 b2) as [?|[->|?]]; [right; right; lia|by left|right; left; lia].
Qed.

Lemma vs_gtb_irrefl a : vs_gtb a a = false.
Proof. unfold vs_gtb. lia. Qed.
