(* ===== verification/RpcWindow.v ===== *)
(** * At-most-once bookkeeping of the RPC library

    rpc/rpc.cc: the client's window of received replies
    ([rpcc::update_xid_rep]) and the server's per-client window of replies
    ([rpcs::checkduplicate_and_update], [rpcs::add_reply],
    [rpcs::free_reply_window]). *)

From S2P Require Import Prelude.
From S2P Require Import Marshall.

(** ** Client: which replies were received

    [xid_rep_window_] is a list that starts as [[0]]; its front is the highest
    xid such that it and all lower ones were received. *)

(** The insertion loop: before the first element greater than [xid], else at the
    end. *)
Fixpoint window_insert (xid : Z) (w : list Z) : list Z :=
  match w with
  | [] => [xid]
  | y :: w' => if y >? xid then xid :: w else y :: window_insert xid w'
  end.

(** [while (front() + 1 == *it) pop_front()], where [pre] is the part of the list
    before [it]; when [pre] is used up the front is [*it] itself and the test
    fails. *)
Fixpoint pop_while (pre : list Z) (x : Z) : list Z :=
  match pre with
  | [] => []
  | f :: pre' => if u32 (f + 1) =? x then pop_while pre' x else pre
  end.

Fixpoint compress_loop (pre rest : list Z) : list Z :=
  match rest with
  | [] => pre
  | x :: rest' => compress_loop (pop_while pre x ++ [x]) rest'
  end.

Definition compress (w : list Z) : list Z :=
  match w with [] => [] | f :: rest => compress_loop [f] rest end.

Definition update_xid_rep (xid : Z) (w : list Z) : option (list Z) :=
  match w with
  | [] => None
  | f :: _ => if xid <=? f then Some w else Some (compress (window_insert xid w))
  end.

Fixpoint update_all (l : list Z) (w : list Z) : option (list Z) :=
  match l with [] => Some w | x :: l => w ← update_xid_rep x w; update_all l w end.

(** The xid a window acknowledges. *)
Definition front (w : list Z) : Z := hd 0 w.
Definition acked (w : list Z) (x : Z) : Prop := x <= front w ∨ x ∈ w.

Definition window_ok (w : list Z) : Prop :=
  w ≠ [] ∧ StronglySorted Z.le w ∧ Forall is_u32 w ∧ (front w + 1) ∉ w.

Lemma window_insert_elem xid w x : x ∈ window_insert xid w ↔ x = xid ∨ x ∈ w.
Proof.
  induction w as [|y w IH]; simpl; [set_solver|].
  destruct (y >? xid); set_solver.
Qed.

Lemma window_insert_sorted xid w :
  StronglySorted Z.le w → StronglySorted Z.le (window_insert xid w).
Proof.
  induction 1 as [|y w Hs IH Hf]; simpl; [by repeat constructor|].
  destruct (Z.gtb_spec y xid).
  - constructor; [by constructor|]. constructor; [lia|].
    eapply Forall_impl; [done|]. simpl. lia.
  - constructor; [done|]. apply Forall_forall. intros z.
    rewrite window_insert_elem, Forall_forall in *. intros [->|?]; [lia|auto].
Qed.

Lemma window_insert_front xid w : w ≠ [] → front w <= xid → front (window_insert xid w) = front w.
Proof.
  destruct w as [|y w]; [done|]. simpl. intros _ Hle. by destruct (Z.gtb_spec y xid); [lia|].
Qed.

(** One round of the compression loop: either the element extends the contiguous
    prefix, and then everything before it goes, or nothing changes. *)
Lemma pop_while_cases pre x :
  pre ≠ [] → StronglySorted Z.le (pre ++ [x]) → Forall is_u32 (pre ++ [x]) →
  (front pre + 1) ∉ pre →
  (pop_while pre x = [] ∧ x = front pre + 1 ∧ ∀ y, y ∈ pre → y = front pre) ∨
  (pop_while pre x = pre ∧ x ≠ front pre + 1).
Proof.
  intros Hne Hs Hu Hgap. destruct pre as [|f pre]; [done|].
  change (front (f :: pre)) with f in *. cbn [app] in Hs, Hu.
  apply StronglySorted_inv in Hs as [Hs Hf]. rewrite Forall_cons in Hu. destruct Hu as [Hfu Hu].
  rewrite Forall_forall in Hf.
  assert (f <= x) as Hfx by (apply Hf; set_solver).
  assert (is_u32 x) as Hx by (rewrite Forall_forall in Hu; apply Hu; set_solver).
  assert (u32 (f + 1) = x ↔ x = f + 1) as Hw.
  { unfold u32, is_u32 in *. destruct (decide (f + 1 = 2 ^ 32)) as [He|].
    - rewrite He. rewrite Z_mod_same_full. lia.
    - rewrite Z.mod_small by lia. lia. }
  cbn [pop_while]. destruct (Z.eqb_spec (u32 (f + 1)) x) as [He|He]; [|right; naive_solver].
  left. apply Hw in He. subst x.
  assert (∀ y, y ∈ pre → y = f) as Hall.
  { intros y Hy. assert (f <= y) by (apply Hf; set_solver).
    assert (y <= f + 1).
    { apply StronglySorted_app in Hs as (Hxx & _ & _). apply Hxx; [done|set_solver]. }
    assert (y ≠ f + 1) by set_solver. lia. }
  split_and!; [|done|set_solver].
  assert (u32 (f + 1) = f + 1) as Hu1 by (by apply u32_id).
  clear -Hall Hu1. induction pre as [|y pre IH]; [done|]. simpl.
  rewrite (Hall y) by set_solver. rewrite Hu1, Z.eqb_refl. apply IH. set_solver.
Qed.

Lemma compress_loop_spec pre rest :
  pre ≠ [] → StronglySorted Z.le (pre ++ rest) → Forall is_u32 (pre ++ rest) →
  (front pre + 1) ∉ pre →
  let w := compress_loop pre rest in
  window_ok w ∧ (∀ x, acked w x ↔ acked (pre ++ rest) x) ∧ front pre <= front w.
Proof.
  revert pre. induction rest as [|x rest IH]; intros pre Hne Hs Hu Hgap; simpl.
  - rewrite app_nil_r in *. split; [by split_and!|]. split; [done|lia].
  - assert (StronglySorted Z.le ((pre ++ [x]) ++ rest)) as Hs' by by rewrite <- (assoc_L (++)).
    assert (Forall is_u32 (pre ++ [x])) as Hu'.
    { apply Forall_app in Hu as [? Hu]. apply Forall_cons in Hu as [? _]. by apply Forall_app_2; auto. }
    assert (Forall is_u32 rest) as Hur.
    { apply Forall_app in Hu as [_ Hu]. by apply Forall_cons in Hu as [_ ?]. }
    pose proof (StronglySorted_app_1_l _ _ _ Hs') as Hs1.
    destruct pre as [|f pre]; [done|]. change (front (f :: pre)) with f in *.
    destruct (pop_while_cases (f :: pre) x) as [(Hp & Hx & Hall)|(Hp & Hx)]; try done;
      change (front (f :: pre)) with f in *; rewrite Hp.
    + destruct (IH [x]) as (Hok & Hack & Hle).
      * done.
      * simpl in *. by apply (StronglySorted_app_1_r _ (f :: pre) (x :: rest)).
      * constructor; [|done]. rewrite Forall_forall in Hu'. apply Hu'. set_solver.
      * simpl. set_unfold. lia.
      * simpl in *. split; [done|]. split; [|lia]. intros y. rewrite Hack.
        unfold acked. simpl. rewrite !elem_of_cons, elem_of_app, elem_of_cons. split.
        { intros [?|[?|?]]; [|auto|auto].
          destruct (decide (y <= f)); [by left|]. right. right. right. left. lia. }
        intros [?|[?|[Hy|[?|?]]]]; [left; lia..| |left; lia|auto].
        left. rewrite (Hall y); [lia|set_solver].
    + destruct (IH ((f :: pre) ++ [x])) as (Hok & Hack & Hle); [done|done| | |].
      * by apply Forall_app_2.
      * simpl. set_solver.
      * simpl in *. rewrite <- (assoc_L (++)) in Hack. done.
Qed.

Lemma update_xid_rep_spec xid w :
  window_ok w → is_u32 xid →
  ∃ w', update_xid_rep xid w = Some w' ∧ window_ok w' ∧ front w <= front w' ∧
    ∀ x, acked w' x ↔ acked w x ∨ x = xid.
Proof.
  intros Hok Hx. pose proof Hok as (Hne & Hs & Hu & Hgap).
  destruct w as [|f w]; [done|]. unfold update_xid_rep. change (front (f :: w)) with f in *.
  destruct (Z.leb_spec xid f).
  - eexists. split; [done|]. split; [done|]. split; [simpl; lia|].
    intros y. unfold acked. simpl. split; [auto|]. intros [?| ->]; [done|by left].
  - eexists. split; [done|].
    pose proof (window_insert_sorted xid _ Hs) as Hs'.
    pose proof (window_insert_front xid (f :: w) Hne) as Hfr.
    pose proof (window_insert_elem xid (f :: w)) as Hel.
    destruct (window_insert xid (f :: w)) as [|g w'] eqn:E.
    { exfalso. by eapply (not_elem_of_nil xid), Hel; left. }
    cbn [front hd] in Hfr. specialize (Hfr ltac:(lia)). subst g.
    destruct (compress_loop_spec [f] w') as (Hok' & Hack & Hle).
    + done.
    + done.
    + apply Forall_forall. intros y Hy. apply Hel in Hy as [->|Hy]; [done|].
      by eapply Forall_forall in Hu.
    + simpl. set_unfold. lia.
    + split; [done|]. split; [done|]. intros y. cbn [compress]. rewrite Hack. unfold acked.
      cbn [app front hd]. rewrite Hel. tauto.
Qed.

(** The acknowledgement a client sends: after the replies with xids [l] were
    received, in any order and with any duplicates, the front of
    [xid_rep_window_] is exactly the length of the contiguous prefix: every
    xid from 1 to it was received and the next one was not. *)
Theorem xid_window_exact (l : list Z) :
  Forall is_u32 l →
  ∃ w, update_all l [0] = Some w ∧
    (∀ x, 1 <= x <= front w → x ∈ l) ∧ ((front w + 1) ∉ l) ∧ 0 <= front w.
Proof.
  intros Hl.
  assert (∀ l w, Forall is_u32 l → window_ok w → ∃ w', update_all l w = Some w' ∧ window_ok w' ∧
            front w <= front w' ∧ ∀ x, acked w' x ↔ acked w x ∨ x ∈ l) as Hgen.
  { clear. induction l as [|x l IH]; intros w Hu Hok; simpl.
    - exists w. split_and!; [done|done|lia|set_solver].
    - apply Forall_cons in Hu as [Hx Hu].
      destruct (update_xid_rep_spec x w Hok Hx) as (w1 & -> & Hok1 & Hle1 & Ha1). simpl.
      destruct (IH w1 Hu Hok1) as (w2 & -> & Hok2 & Hle2 & Ha2).
      exists w2. split_and!; [done|done|lia|]. intros y. rewrite Ha2, Ha1. set_solver. }
  destruct (Hgen l [0] Hl) as (w & Hw & (Hne & Hs & Hu & Hgap) & Hle & Hack).
  { split_and!; [done|by repeat constructor|by repeat constructor|set_solver]. }
  simpl in Hle. exists w. split_and!; [done| | |done].
  - intros x Hx. destruct (proj1 (Hack x)) as [[?|?]|?]; [left; lia|simpl in *; lia| |done].
    set_unfold. lia.
  - intros Hin. destruct (proj2 (Hack (front w + 1))) as [?|?]; [by right|lia|done].
Qed.

Lemma xid_window_exact_witness :
  ∃ w, update_all [3; 1; 5; 2; 2] [0] = Some w ∧ (∀ x, 1 <= x <= front w → x ∈ [3; 1; 5; 2; 2]) ∧
    (front w + 1) ∉ [3; 1; 5; 2; 2] ∧ 0 <= front w.
Proof.
  apply (xid_window_exact [3; 1; 5; 2; 2]). repeat constructor; vm_compute; congruence.
Defined.

(** ** Server: the window of replies of one client *)

Inductive rpcstate_t := NEW | INPROGRESS | DONE | FORGOTTEN.

Record reply_t := Reply { r_xid : Z; cb_present : bool; r_buf : option block; r_sz : Z }.

(** The constructor [reply_t(xid)]. *)
Definition new_reply (xid : Z) : reply_t := Reply xid false None 0.

Fixpoint drop_acked (xid_rep : Z) (l : list reply_t) : list reply_t :=
  match l with
  | [] => []
  | r :: l' => if r_xid r >? xid_rep then l else drop_acked xid_rep l'
  end.

(** [while (xid_rep < first_xid) { push_front(first_xid); first_xid--; }];
    [None] when the fuel runs out. *)
Fixpoint fill_front (fuel : nat) (xid_rep first_xid : Z) (l : list reply_t)
    : option (list reply_t) :=
  if xid_rep <? first_xid then
    match fuel with
    | O => None
    | S fuel => fill_front fuel xid_rep (u32 (first_xid - 1)) (new_reply first_xid :: l)
    end
  else Some l.

(** [while (xid > last_xid) { last_xid++; push_back(last_xid); }] *)
Fixpoint fill_back (fuel : nat) (xid last_xid : Z) (l : list reply_t) : option (list reply_t) :=
  if xid >? last_xid then
    match fuel with
    | O => None
    | S fuel =>
        let last_xid := u32 (last_xid + 1) in
        fill_back fuel xid last_xid (l ++ [new_reply last_xid])
    end
  else Some l.

(** The search for [xid]; [None] is the [exit(1)] at the end of the function.  The
    result carries the recorded reply of a [DONE] request. *)
Fixpoint find_reply (xid : Z) (l : list reply_t)
    : option ((rpcstate_t * option (block * Z)) * list reply_t) :=
  match l with
  | [] => None
  | r :: l' =>
      if r_xid r =? xid then
        if cb_present r then
          match r_buf r with
          | Some b => Some ((DONE, Some (b, r_sz r)), l)
          | None => Some ((INPROGRESS, None), l)
          end
        else Some ((NEW, None), Reply (r_xid r) true (r_buf r) (r_sz r) :: l')
      else '(x, l'') ← find_reply xid l'; Some (x, r :: l'')
  end.

(** [back()] and [front()] of an empty list are undefined: [None]. *)
Definition check_window (xid xid_rep : Z) (l0 : list reply_t)
    : option ((rpcstate_t * option (block * Z)) * list reply_t) :=
  let l := match l0 with [] => l0 | _ => drop_acked xid_rep l0 end in
  let first_xid := match l with [] => xid | r :: _ => u32 (r_xid r - 1) end in
  l ← fill_front (Z.to_nat (first_xid - xid_rep)) xid_rep first_xid l;
  b ← last l;
  l ← fill_back (Z.to_nat (xid - r_xid b)) xid (r_xid b) l;
  f ← head l;
  if r_xid f >? xid then Some ((FORGOTTEN, None), l) else find_reply xid l.

Abbreviation reply_window := (gmap Z (list reply_t)).

Definition checkduplicate_and_update (clt_nonce xid xid_rep : Z) (w : reply_window)
    : option ((rpcstate_t * option (block * Z)) * reply_window) :=
  '(res, l) ← check_window xid xid_rep (map_at [] clt_nonce w);
  Some (res, <[clt_nonce := l]> w).

Fixpoint set_reply (xid : Z) (b : block) (sz : Z) (l : list reply_t) : list reply_t :=
  match l with
  | [] => []
  | r :: l' =>
      if r_xid r =? xid then Reply (r_xid r) (cb_present r) (Some b) sz :: l'
      else r :: set_reply xid b sz l'
  end.

Definition add_reply (clt_nonce xid : Z) (b : block) (sz : Z) (w : reply_window) : reply_window :=
  map_update [] clt_nonce (set_reply xid b sz) w.

(** [free_reply_window] frees every recorded buffer and empties the window. *)
Definition free_reply_window (w : reply_window) : list block * reply_window :=
  (omap r_buf (concat (map_entries w).*2), ∅).

(** *** The abstract window

    A window stands for the requests that were started and not acknowledged:
    xid to its reply, if there is one yet. *)
Fixpoint started (l : list reply_t) (x : Z) : option (option (block * Z)) :=
  match l with
  | [] => None
  | r :: l' =>
      if (r_xid r =? x) && cb_present r
      then Some (match r_buf r with Some b => Some (b, r_sz r) | None => None end)
      else started l' x
  end.

(** The xids of a window are consecutive from [lo]. *)
Fixpoint consecutive (lo : Z) (l : list reply_t) : Prop :=
  match l with [] => True | r :: l' => r_xid r = lo ∧ consecutive (lo + 1) l' end.

Definition reply_state (o : option (option (block * Z))) : rpcstate_t * option (block * Z) :=
  match o with
  | None => (NEW, None)
  | Some None => (INPROGRESS, None)
  | Some (Some r) => (DONE, Some r)
  end.

Lemma consecutive_app lo l1 l2 :
  consecutive lo (l1 ++ l2) ↔ consecutive lo l1 ∧ consecutive (lo + Z.of_nat (length l1)) l2.
Proof.
  revert lo. induction l1 as [|r l1 IH]; intros lo; cbn [app consecutive length].
  - rewrite Z.add_0_r. tauto.
  - rewrite IH. replace (lo + Z.of_nat (S (length l1))) with (lo + 1 + Z.of_nat (length l1)) by lia.
    tauto.
Qed.

Lemma consecutive_started_range lo l x :
  consecutive lo l → started l x ≠ None → lo <= x < lo + Z.of_nat (length l).
Proof.
  revert lo. induction l as [|r l IH]; intros lo Hc Hs; [done|]. destruct Hc as [Hr Hc].
  cbn [started length] in *. destruct (Z.eqb_spec (r_xid r) x); [lia|].
  simpl in Hs. apply IH in Hc; [lia|done].
Qed.

Lemma drop_acked_spec lo l rep :
  consecutive lo l →
  ∃ lo', consecutive lo' (drop_acked rep l) ∧ (drop_acked rep l ≠ [] → rep < lo') ∧
    lo' + Z.of_nat (length (drop_acked rep l)) = lo + Z.of_nat (length l) ∧ lo <= lo' ∧
    ∀ x, started (drop_acked rep l) x = if x <=? rep then None else started l x.
Proof.
  revert lo. induction l as [|r l IH]; intros lo Hc.
  - exists lo. split_and!; [done|done|done|lia|]. intros x. by destruct (x <=? rep).
  - destruct Hc as [Hr Hc]. cbn [drop_acked]. destruct (Z.gtb_spec (r_xid r) rep).
    + exists lo. split_and!; [by split|lia|done|lia|]. intros x.
      destruct (Z.leb_spec x rep); [|done]. apply dec_stable. intros Hn.
      apply (consecutive_started_range lo) in Hn; [lia|by split].
    + destruct (IH (lo + 1) Hc) as (lo' & Hc' & Hlt & Hlen & Hle & Hst).
      exists lo'. split_and!; [done|done|cbn [length]; lia|lia|]. intros x. rewrite Hst.
      destruct (Z.leb_spec x rep); [done|]. cbn [started].
      by replace (r_xid r =? x) with false by lia.
Qed.

Lemma started_new_front x l y : started (new_reply x :: l) y = started l y.
Proof. cbn [started new_reply r_xid cb_present]. by rewrite andb_false_r. Qed.

Lemma started_new_back x l y : started (l ++ [new_reply x]) y = started l y.
Proof.
  induction l as [|r l IH]; [apply started_new_front|]. cbn [started app].
  by destruct ((r_xid r =? y) && cb_present r).
Qed.

(** The dummies pushed at the front close the gap down to [rep + 1]. *)
Lemma fill_front_spec fuel rep first l :
  is_u32 rep → is_u32 first → rep <= first → fuel = Z.to_nat (first - rep) →
  consecutive (first + 1) l →
  ∃ l', fill_front fuel rep first l = Some l' ∧ consecutive (rep + 1) l' ∧
    Z.of_nat (length l') = Z.of_nat (length l) + (first - rep) ∧
    ∀ x, started l' x = started l x.
Proof.
  revert first l. induction fuel as [|fuel IH]; intros first l Hr Hf Hle Hfu Hc; cbn [fill_front].
  - destruct (Z.ltb_spec rep first); [lia|]. assert (first = rep) as -> by lia.
    exists l. split_and!; [done|done|lia|done].
  - destruct (Z.ltb_spec rep first); [|lia]. unfold is_u32 in *.
    rewrite u32_id by (unfold is_u32; lia).
    destruct (IH (first - 1) (new_reply first :: l)) as (l' & -> & Hc' & Hlen & Hst); try lia.
    + split; [simpl; lia|]. by replace (first - 1 + 1 + 1) with (first + 1) by lia.
    + exists l'. split_and!; [done|done|cbn [length] in *; lia|].
      intros x. by rewrite Hst, started_new_front.
Qed.

Lemma fill_back_spec fuel xid lst lo l :
  is_u32 xid → 0 <= lo → lo + Z.of_nat (length l) = lst + 1 → lo <= lst →
  fuel = Z.to_nat (xid - lst) → consecutive lo l →
  ∃ l', fill_back fuel xid lst l = Some l' ∧ consecutive lo l' ∧
    lo + Z.of_nat (length l') = Z.max lst xid + 1 ∧ (∀ x, started l' x = started l x).
Proof.
  intros Hx Hlo. revert lst l. induction fuel as [|fuel IH]; intros lst l Hl Hle Hfu Hc; cbn [fill_back].
  - destruct (Z.gtb_spec xid lst); [lia|]. exists l. split_and!; [done|done|lia|done].
  - destruct (Z.gtb_spec xid lst); [|lia]. unfold is_u32 in *.
    rewrite u32_id by (unfold is_u32; lia).
    destruct (IH (lst + 1) (l ++ [new_reply (lst + 1)])) as (l' & -> & Hc' & Hlen & Hst).
    + rewrite length_app. simpl. lia.
    + lia.
    + lia.
    + apply consecutive_app. split; [done|]. split; [simpl; lia|done].
    + exists l'. split_and!; [done|done|lia|]. intros x. by rewrite Hst, started_new_back.
Qed.

Lemma consecutive_last lo l r :
  consecutive lo l → last l = Some r → r_xid r = lo + Z.of_nat (length l) - 1.
Proof.
  intros Hc Hl. apply last_Some in Hl as [l' ->]. apply consecutive_app in Hc as [_ [Hr _]].
  rewrite Hr, length_app. simpl. lia.
Qed.

Lemma find_reply_spec lo l xid :
  consecutive lo l → lo <= xid < lo + Z.of_nat (length l) →
  ∃ l', find_reply xid l = Some (reply_state (started l xid), l') ∧ consecutive lo l' ∧
    length l' = length l ∧
    (∀ x, x ≠ xid → started l' x = started l x) ∧ started l' xid ≠ None.
Proof.
  revert lo. induction l as [|r l IH]; intros lo Hc Hx; [simpl in Hx; lia|].
  destruct Hc as [Hr Hc]. cbn [find_reply started length] in *.
  destruct (Z.eqb_spec (r_xid r) xid) as [He|He].
  - assert (started l xid = None) as Hn.
    { apply dec_stable. intros Hn. apply (consecutive_started_range (lo + 1)) in Hn; [lia|done]. }
    destruct (cb_present r) eqn:Hcb; simpl.
    + destruct (r_buf r) as [b|] eqn:Hb;
        (eexists; split_and!; [done|by split|done| |]);
        try (intros x Hne; cbn [started]; by rewrite Hcb, Hb);
        cbn [started]; rewrite He, Z.eqb_refl, Hcb; done.
    + rewrite Hn. eexists. split_and!; [done|by split|done| |].
      * intros x Hne. cbn [started r_xid cb_present]. by replace (r_xid r =? x) with false by lia.
      * cbn [started r_xid cb_present]. rewrite He, Z.eqb_refl. done.
  - destruct (IH (lo + 1) Hc) as (l' & -> & Hc' & Hlen & Hne & Hsome); [lia|]. simpl.
    eexists. split_and!; [done|by split|simpl; lia| |].
    + intros x Hxne. cbn [started]. by rewrite Hne.
    + cbn [started]. replace (r_xid r =? xid) with false by lia. done.
Qed.

(** What one request does to a window, in terms of the abstract window. *)
Lemma check_window_spec lo l xid rep :
  is_u32 xid → is_u32 rep → rep < xid → consecutive lo l →
  0 <= lo → lo + Z.of_nat (length l) <= 2 ^ 32 →
  ∃ l', check_window xid rep l =
      Some (reply_state (if xid <=? rep then None else started l xid), l') ∧
    consecutive (rep + 1) l' ∧ rep + 1 + Z.of_nat (length l') <= 2 ^ 32 ∧
    (∀ x, x ≠ xid → started l' x = if x <=? rep then None else started l x) ∧
    started l' xid ≠ None.
Proof.
  intros Hx Hr Hlt Hc Hlo Hmax. unfold check_window.
  set (l1 := match l with [] => l | _ => drop_acked rep l end).
  assert (l1 = drop_acked rep l) as -> by (by destruct l).
  destruct (drop_acked_spec lo l rep Hc) as (lo1 & Hc1 & Hgt & Hlen1 & Hle1 & Hst1).
  set (l1 := drop_acked rep l) in *. unfold is_u32 in *.
  set (first := match l1 with [] => xid | r :: _ => u32 (r_xid r - 1) end).
  assert (rep <= first < 2 ^ 32 ∧ consecutive (first + 1) l1 ∧
          first + Z.of_nat (length l1) < 2 ^ 32 ∧ (l1 = [] → first = xid)) as (Hf & Hcf & Hlf & Hnil).
  { unfold first. destruct l1 as [|r l1'] eqn:E; [simpl; lia|].
    destruct Hc1 as [Hrx Hc1]. specialize (Hgt ltac:(done)). cbn [length] in *.
    rewrite Hrx, u32_id by (unfold is_u32; lia). cbn [consecutive].
    replace (lo1 - 1 + 1) with lo1 by lia. split_and!; try done; lia. }
  destruct (fill_front_spec (Z.to_nat (first - rep)) rep first l1) as (l2 & -> & Hc2 & Hlen2 & Hst2);
    [unfold is_u32; lia|unfold is_u32; lia|lia|done|done|]. cbn [mbind option_bind].
  assert (l2 ≠ []) as Hne2.
  { intros ->. simpl in Hlen2. destruct l1; [|simpl in Hlen2; lia]. rewrite Hnil in Hlen2 by done. simpl in Hlen2. lia. }
  destruct (last l2) as [b|] eqn:Hb; [|by apply last_None in Hb]. cbn [mbind option_bind].
  pose proof (consecutive_last _ _ _ Hc2 Hb) as Hbx.
  assert (0 < length l2)%nat by (destruct l2; [done|simpl; lia]).
  destruct (fill_back_spec (Z.to_nat (xid - r_xid b)) xid (r_xid b) (rep + 1) l2)
    as (l3 & -> & Hc3 & Hlen3 & Hst3); [done|lia|lia|lia|done|done|]. cbn [mbind option_bind].
  destruct l3 as [|r3 l3]; [simpl in Hlen3; lia|]. cbn [head mbind option_bind].
  pose proof Hc3 as [Hr3 _]. rewrite Hr3. destruct (Z.gtb_spec (rep + 1) xid); [lia|].
  destruct (find_reply_spec (rep + 1) (r3 :: l3) xid Hc3) as (l4 & -> & Hc4 & Hlen4 & Hne4 & Hs4);
    [lia|].
  exists l4. rewrite Hst3, Hst2, Hst1. split_and!; [done|done| | |done].
  - rewrite Hlen4. cbn [length] in *. lia.
  - intros x Hxne. by rewrite Hne4, Hst3, Hst2, Hst1.
Qed.

Definition window_inv (w : reply_window) : Prop :=
  ∀ clt l, w !! clt = Some l →
    ∃ lo, 0 <= lo ∧ consecutive lo l ∧ lo + Z.of_nat (length l) <= 2 ^ 32.

(** The request of a client that is recorded as started. *)
Definition started_at (w : reply_window) (clt x : Z) : option (option (block * Z)) :=
  started (map_at [] clt w) x.

Lemma window_inv_at w clt :
  window_inv w →
  ∃ lo, 0 <= lo ∧ consecutive lo (map_at [] clt w) ∧
        lo + Z.of_nat (length (map_at [] clt w)) <= 2 ^ 32.
Proof.
  intros Hw. unfold map_at. destruct (w !! clt) as [l|] eqn:E; [by apply (Hw clt l)|].
  exists 0. simpl. split_and!; done.
Qed.

Lemma checkduplicate_spec w clt xid rep :
  window_inv w → is_u32 xid → is_u32 rep → rep < xid →
  ∃ w', checkduplicate_and_update clt xid rep w = Some (reply_state (started_at w clt xid), w') ∧
    window_inv w' ∧
    started_at w' clt xid ≠ None ∧
    (∀ x, x ≠ xid → started_at w' clt x = if x <=? rep then None else started_at w clt x) ∧
    (∀ c, c ≠ clt → w' !! c = w !! c).
Proof.
  intros Hw Hx Hr Hlt. unfold checkduplicate_and_update.
  destruct (window_inv_at w clt Hw) as (lo & Hlo & Hc & Hm).
  destruct (check_window_spec lo _ xid rep Hx Hr Hlt Hc Hlo Hm) as (l' & -> & Hc' & Hm' & Hne & Hs).
  replace (xid <=? rep) with false by lia. simpl.
  assert (map_at [] clt (<[clt := l']> w) = l') as Hat.
  { rewrite map_at_insert. by destruct (decide (clt = clt)). }
  eexists. split; [done|]. unfold started_at in *. rewrite Hat. split_and!; [|done|done|].
  - intros c l Hl. destruct (decide (c = clt)) as [->|]; simplify_map_eq; [|by apply (Hw c)].
    exists (rep + 1). unfold is_u32 in *. split_and!; [lia|done|done].
  - intros c Hcne. by rewrite lookup_insert_ne.
Qed.

(** C17. The duplicate check refines a map from started requests to replies: a
    request with [xid_rep < xid] never runs into the undefined [front()] or
    [back()] of an empty list nor the [exit(1)], it is answered from the
    abstract map (new, in progress, or done with the recorded reply), the map
    forgets exactly the acknowledged xids and gains the request, the windows of
    other clients are untouched, and the windows stay consecutive. *)
Theorem checkduplicate_refines w clt xid rep :
  window_inv w → is_u32 xid → is_u32 rep → rep < xid →
  ∃ w', checkduplicate_and_update clt xid rep w = Some (reply_state (started_at w clt xid), w') ∧
    window_inv w' ∧
    started_at w' clt xid ≠ None ∧
    (∀ x, x ≠ xid → started_at w' clt x = if x <=? rep then None else started_at w clt x) ∧
    (∀ c, c ≠ clt → w' !! c = w !! c).
Proof. apply checkduplicate_spec. Qed.

(** A window in which request 4 is done, 5 was not seen and 6 is in progress. *)
Definition demo_window : reply_window :=
  {[ 9 := [Reply 4 true (Some []) 0; new_reply 5; Reply 6 true None 0] ]}.

Lemma demo_window_inv : window_inv demo_window.
Proof.
  intros c l Hl. unfold demo_window in Hl. apply lookup_singleton_Some in Hl as [_ <-]. exists 4. by split_and!.
Qed.

Lemma checkduplicate_refines_witness :
  ∃ w', checkduplicate_and_update 9 6 4 demo_window = Some ((INPROGRESS, None), w') ∧
    window_inv w' ∧ started_at w' 9 4 = None.
Proof.
  destruct (checkduplicate_refines demo_window 9 6 4 demo_window_inv) as (w' & H1 & H2 & _ & H4 & _);
    [split; vm_compute; congruence..|reflexivity|].
  exists w'. split; [exact H1|]. split; [exact H2|]. exact (H4 4 ltac:(discriminate)).
Defined.

Lemma set_reply_consecutive lo xid b sz l :
  consecutive lo l →
  consecutive lo (set_reply xid b sz l) ∧ length (set_reply xid b sz l) = length l.
Proof.
  revert lo. induction l as [|r l IH]; intros lo; [done|]. intros [Hr Hc]. cbn [set_reply].
  destruct (r_xid r =? xid); simpl; [done|]. destruct (IH _ Hc) as [? ->]. done.
Qed.

Lemma set_reply_started lo xid b sz l x :
  consecutive lo l →
  started (set_reply xid b sz l) x =
    match started l x with
    | Some o => Some (if x =? xid then Some (b, sz) else o)
    | None => None
    end.
Proof.
  revert lo. induction l as [|r l IH]; intros lo; [done|]. intros [Hr Hc]. cbn [set_reply started].
  destruct (Z.eqb_spec (r_xid r) xid) as [He|He]; cbn [started r_xid cb_present r_buf r_sz].
  - destruct (Z.eqb_spec (r_xid r) x) as [He'|He'].
    + replace (x =? xid) with true by lia. simpl. destruct (cb_present r); [done|]. simpl.
      destruct (started l x) eqn:Hs; [|done].
      assert (started l x ≠ None) as Hn by by rewrite Hs.
      apply (consecutive_started_range (lo + 1)) in Hn; [lia|done].
    + simpl. destruct (started l x); [|done]. by replace (x =? xid) with false by lia.
  - rewrite (IH (lo + 1)) by done.
    destruct (Z.eqb_spec (r_xid r) x); simpl; [|done].
    destruct (cb_present r); [|done]. by replace (x =? xid) with false by lia.
Qed.

Lemma add_reply_spec w clt xid b sz :
  window_inv w → started_at w clt xid ≠ None →
  let w' := add_reply clt xid b sz w in
  window_inv w' ∧ started_at w' clt xid = Some (Some (b, sz)) ∧
  (∀ x, x ≠ xid → started_at w' clt x = started_at w clt x) ∧
  (∀ c, c ≠ clt → w' !! c = w !! c).
Proof.
  intros Hw Hs w'. destruct (window_inv_at w clt Hw) as (lo & Hlo & Hc & Hm).
  destruct (set_reply_consecutive lo xid b sz _ Hc) as [Hc' Hlen].
  unfold started_at, w', add_reply, map_update in *. rewrite map_at_insert.
  destruct (decide (clt = clt)); [|done]. split_and!.
  - intros c l Hl. destruct (decide (c = clt)) as [->|]; simplify_map_eq; [|by apply (Hw c)].
    exists lo. by rewrite Hlen.
  - rewrite (set_reply_started lo) by done. destruct (started _ xid); [|done].
    by rewrite Z.eqb_refl.
  - intros x Hx. rewrite (set_reply_started lo) by done.
    destruct (started _ x); [|done]. by replace (x =? xid) with false by lia.
  - intros c Hcne. by rewrite lookup_insert_ne.
Qed.

(** [add_reply] records the reply of a started request and nothing else. *)
Theorem add_reply_refines w clt xid b sz :
  window_inv w → started_at w clt xid ≠ None →
  let w' := add_reply clt xid b sz w in
  window_inv w' ∧ started_at w' clt xid = Some (Some (b, sz)) ∧
  (∀ x, x ≠ xid → started_at w' clt x = started_at w clt x) ∧
  (∀ c, c ≠ clt → w' !! c = w !! c).
Proof. apply add_reply_spec. Qed.

Lemma add_reply_refines_witness :
  let w' := add_reply 9 6 [Some "r"%char] 1 demo_window in
  window_inv w' ∧ started_at w' 9 6 = Some (Some ([Some "r"%char], 1)).
Proof.
  destruct (add_reply_refines demo_window 9 6 [Some "r"%char] 1 demo_window_inv) as (H1 & H2 & _);
    [vm_compute; discriminate|]. split; [exact H1|exact H2].
Defined.

(** *** Runs of one client's requests *)

Inductive window_event :=
  | EvRequest (xid xid_rep : Z)
  | EvReply (xid : Z) (b : block) (sz : Z).

Definition window_step (e : window_event) (l : list reply_t)
    : option (list (Z * rpcstate_t) * list reply_t) :=
  match e with
  | EvRequest xid rep => '(p, l) ← check_window xid rep l; Some ([(xid, fst p)], l)
  | EvReply xid b sz => Some ([], set_reply xid b sz l)
  end.

Fixpoint window_run (es : list window_event) (l : list reply_t)
    : option (list (Z * rpcstate_t) * list reply_t) :=
  match es with
  | [] => Some ([], l)
  | e :: es => '(a, l) ← window_step e l; '(b, l) ← window_run es l; Some (a ++ b, l)
  end.

(** The requests that were executed: those classified [NEW]. *)
Definition executed (r : list (Z * rpcstate_t)) : list Z :=
  omap (λ p, match snd p with NEW => Some (fst p) | _ => None end) r.

(** Acknowledgements never go back, as when no request overtakes another. *)
Fixpoint acks_monotone (R : Z) (es : list window_event) : Prop :=
  match es with
  | [] => True
  | EvRequest xid rep :: es => R <= rep < xid ∧ is_u32 xid ∧ is_u32 rep ∧ acks_monotone rep es
  | EvReply _ _ _ :: es => acks_monotone R es
  end.

Lemma window_run_fresh es R lo l :
  acks_monotone R es → consecutive lo l → 0 <= lo → lo + Z.of_nat (length l) <= 2 ^ 32 →
  ∃ r l', window_run es l = Some (r, l') ∧ NoDup (executed r) ∧
    ∀ x, x ∈ executed r → R < x ∧ started l x = None.
Proof.
  revert R lo l. induction es as [|e es IH]; intros R lo l Hm Hc Hlo Hmax; simpl.
  - eexists _, _. split_and!; [done|constructor|set_solver].
  - destruct e as [xid rep|xid b sz]; simpl in *.
    + destruct Hm as (HR & Hx & Hr & Hm).
      destruct (check_window_spec lo l xid rep) as (l1 & -> & Hc1 & Hm1 & Hne & Hs); try done; [lia|].
      simpl. unfold is_u32 in *.
      destruct (IH rep (rep + 1) l1 Hm Hc1) as (r & l2 & -> & Hnd & Hfr); [lia|done|].
      replace (xid <=? rep) with false by lia.
      assert (∀ x, x ∈ executed r → R < x ∧ x ≠ xid ∧ started l x = None) as Hfr'.
      { intros x Hin. destruct (Hfr x Hin) as [Hgt Hn]. assert (x ≠ xid) as Hxx by congruence.
        rewrite Hne in Hn by done. replace (x <=? rep) with false in Hn by lia. split; [lia|done]. }
      destruct (started l xid) as [[[]|]|] eqn:Hst; cbn [reply_state]; eexists _, _; (split; [done|]).
      1, 2: split; [exact Hnd|]; intros x Hin; split; apply Hfr'; exact Hin.
      change (executed ([(xid, NEW)] ++ r)) with (xid :: executed r). split.
      * constructor; [|done]. intros Hin. by destruct (Hfr' _ Hin) as (_ & ? & _).
      * intros x [->|Hin]%elem_of_cons; [cbn [fst snd]; split; [lia|done]|]. split; apply Hfr'; exact Hin.
    + destruct (set_reply_consecutive lo xid b sz l Hc) as [Hc1 Hlen].
      destruct (IH R lo _ Hm Hc1) as (r & l2 & -> & Hnd & Hfr); [done|by rewrite Hlen|].
      eexists _, _. split_and!; [done|done|]. intros x Hin. destruct (Hfr x Hin) as [? Hn].
      split; [done|]. rewrite (set_reply_started lo) in Hn by done. by destruct (started l x).
Qed.

(** At-most-once execution, when acknowledgements arrive in order: however
    requests are duplicated and interleaved with replies, no xid is executed
    twice. *)
Theorem at_most_once es :
  acks_monotone 0 es →
  ∃ r l', window_run es [] = Some (r, l') ∧ NoDup (executed r).
Proof.
  intros Hm. destruct (window_run_fresh es 0 0 []) as (r & l' & ? & ? & _); try done; [].
  by eexists _, _.
Qed.

Lemma at_most_once_witness :
  ∃ r l', window_run [EvRequest 2 0; EvRequest 1 0; EvRequest 2 0; EvReply 2 [] 0; EvRequest 2 0; EvRequest 3 2] []
      = Some (r, l') ∧ NoDup (executed r).
Proof.
  apply (at_most_once [EvRequest 2 0; EvRequest 1 0; EvRequest 2 0; EvReply 2 [] 0; EvRequest 2 0; EvRequest 3 2]).
  repeat split; vm_compute; congruence.
Defined.

(** A late duplicate of an acknowledged request is executed again: when the
    window of the client starts above [xid], the request is not classified
    [FORGOTTEN] but [NEW], since the front of the list is refilled with dummy
    replies down to the stale [xid_rep] the duplicate carries. *)
Theorem forgotten_request_reexecuted lo l xid rep :
  is_u32 xid → is_u32 rep → rep < xid → consecutive lo l → xid < lo →
  lo + Z.of_nat (length l) <= 2 ^ 32 →
  ∃ l', check_window xid rep l = Some ((NEW, None), l').
Proof.
  intros Hx Hr Hlt Hc Hlo Hmax. unfold is_u32 in *.
  destruct (check_window_spec lo l xid rep) as (l' & -> & _); try done; [lia|].
  exists l'. replace (xid <=? rep) with false by lia.
  assert (started l xid = None) as ->; [|done].
  apply dec_stable. intros Hn. apply (consecutive_started_range lo) in Hn; [lia|done].
Qed.

Lemma forgotten_request_reexecuted_witness :
  ∃ l', check_window 1 0 [Reply 2 true None 0] = Some ((NEW, None), l').
Proof.
  apply (forgotten_request_reexecuted 2 [Reply 2 true None 0] 1 0);
    [split; vm_compute; congruence..|reflexivity|by split|reflexivity|vm_compute; congruence].
Defined.

(** Request 1 is executed, acknowledged by request 2, and executed again when its
    duplicate arrives late. *)
Example duplicate_after_ack :
  fst <$> window_run [EvRequest 1 0; EvReply 1 [] 0; EvRequest 2 1; EvRequest 1 0] []
  = Some [(1, NEW); (2, NEW); (1, NEW)].
Proof. reflexivity. Qed.
