(* ===== verification/Timespec.v ===== *)
(** * Deadlines

    [cmp_timespec], [add_timespec] and [diff_timespec] of rpc/rpc.cc.  [time_t] and
    [long] have 32 bits; an overflow or a failed assertion is [None]. *)

From S2P Require Import Prelude.
From S2P Require Import Marshall.

Record timespec := Timespec { tv_sec : Z; tv_nsec : Z }.

#[export] Instance timespec_eq_dec : EqDecision timespec.
Proof. solve_decision. Defined.

Definition cmp_timespec (a b : timespec) : Z :=
  if tv_sec a >? tv_sec b then 1
  else if tv_sec a <? tv_sec b then -1
  else if tv_nsec a >? tv_nsec b then 1
  else if tv_nsec a <? tv_nsec b then -1
  else 0.

Definition nsec_per_sec : Z := 1000000000.

(** [while (tv_nsec > 1000000000) { tv_sec++; tv_nsec -= 1000000000; }] *)
Fixpoint carry_nsec (fuel : nat) (t : timespec) : option timespec :=
  if tv_nsec t >? nsec_per_sec then
    match fuel with
    | O => None
    | S fuel =>
        sec ← chk_int (tv_sec t + 1);
        carry_nsec fuel (Timespec sec (tv_nsec t - nsec_per_sec))
    end
  else Some t.

Definition add_timespec (a : timespec) (b : Z) : option timespec :=
  sec ← chk_int (tv_sec a + Z.quot b 1000);
  nsec ← chk_int (tv_nsec a + Z.rem b 1000 * 1000000);
  if nsec <? 0 then None
  else carry_nsec (Z.to_nat (nsec / nsec_per_sec)) (Timespec sec nsec).

Definition diff_timespec (e s : timespec) : option Z :=
  diff ← chk_int (if tv_sec e >? tv_sec s then (tv_sec e - tv_sec s) * 1000 else 0);
  if negb (diff =? 0) || (tv_sec e =? tv_sec s) then
    chk_int (if tv_nsec e >? tv_nsec s
             then diff + Z.quot (tv_nsec e - tv_nsec s) 1000000
             else diff - Z.quot (tv_nsec s - tv_nsec e) 1000000)
  else None.

(** ** Times as nanoseconds *)

Definition nanos (t : timespec) : Z := tv_sec t * nsec_per_sec + tv_nsec t.

(** A time the clock returns. *)
Definition clock_ok (t : timespec) : Prop :=
  0 <= tv_sec t <= INT_MAX ∧ 0 <= tv_nsec t < nsec_per_sec.

Lemma chk_int_id z : - 2 ^ 31 <= z <= INT_MAX → chk_int z = Some z.
Proof.
  intros [H1 H2]. unfold chk_int. by rewrite (proj2 (Z.leb_le _ _) H1), (proj2 (Z.leb_le _ _) H2).
Qed.

Lemma carry_nsec_ok fuel t :
  0 <= tv_sec t → 0 <= tv_nsec t → tv_sec t + Z.of_nat fuel <= INT_MAX →
  tv_nsec t <= Z.of_nat (S fuel) * nsec_per_sec →
  ∃ t', carry_nsec fuel t = Some t' ∧ nanos t' = nanos t ∧ tv_sec t <= tv_sec t' ∧
    0 <= tv_nsec t' <= nsec_per_sec.
Proof.
  revert t. induction fuel as [|fuel IH]; intros t Hs Hn Hmax Hf; cbn [carry_nsec];
    destruct (Z.gtb_spec (tv_nsec t) nsec_per_sec).
  - lia.
  - exists t. split_and!; lia || done.
  - rewrite chk_int_id by (unfold INT_MAX in *; lia). cbn [mbind option_bind].
    destruct (IH (Timespec (tv_sec t + 1) (tv_nsec t - nsec_per_sec))) as (t' & -> & H1 & H2 & H3);
      cbn [tv_sec tv_nsec] in *; [lia..|].
    exists t'. split_and!; [done| |lia..]. rewrite H1. unfold nanos. cbn. lia.
  - exists t. split_and!; lia || done.
Qed.

Lemma add_timespec_ok a b :
  clock_ok a → 0 <= b → tv_sec a + b / 1000 + 1 <= INT_MAX →
  ∃ t, add_timespec a b = Some t ∧ nanos t = nanos a + b * 1000000 ∧
    tv_sec a <= tv_sec t ∧ 0 <= tv_nsec t <= nsec_per_sec.
Proof.
  intros [Hs Hn] Hb Hmax. unfold add_timespec.
  rewrite Z.quot_div_nonneg, Z.rem_mod_nonneg by lia.
  pose proof (Z.div_mod b 1000 ltac:(lia)) as Hdm. pose proof (Z.mod_pos_bound b 1000 ltac:(lia)).
  pose proof (Z.div_pos b 1000 Hb ltac:(lia)) as Hd.
  rewrite (chk_int_id (tv_sec a + b / 1000)) by (unfold INT_MAX in *; lia). cbn [mbind option_bind].
  set (ns := tv_nsec a + b mod 1000 * 1000000).
  assert (0 <= ns < 2 * nsec_per_sec) as Hns by (unfold ns, nsec_per_sec in *; lia).
  rewrite (chk_int_id ns) by (unfold INT_MAX, nsec_per_sec in *; lia). cbn [mbind option_bind].
  replace (ns <? 0) with false by lia.
  pose proof (Z.div_mod ns nsec_per_sec ltac:(done)) as Hdm2.
  pose proof (Z.mod_pos_bound ns nsec_per_sec ltac:(done)) as Hmb.
  assert (0 <= ns / nsec_per_sec <= 1) as Hq.
  { split; [apply Z.div_pos; lia|]. apply Z.lt_succ_r, Z.div_lt_upper_bound; lia. }
  destruct (carry_nsec_ok (Z.to_nat (ns / nsec_per_sec)) (Timespec (tv_sec a + b / 1000) ns))
    as (t & -> & H1 & H2 & H3); cbn [tv_sec tv_nsec] in *; [lia..|].
  exists t. split_and!; [done| |lia..]. rewrite H1. unfold nanos, ns. cbn. unfold nsec_per_sec in *. lia.
Qed.

Lemma cmp_timespec_spec a b :
  0 <= tv_nsec a < nsec_per_sec → 0 <= tv_nsec b < nsec_per_sec →
  cmp_timespec a b = Z.sgn (nanos a - nanos b).
Proof.
  intros Ha Hb. unfold cmp_timespec, nanos.
  destruct (Z.gtb_spec (tv_sec a) (tv_sec b)).
  { symmetry. apply Z.sgn_pos. nia. }
  destruct (Z.ltb_spec (tv_sec a) (tv_sec b)).
  { symmetry. apply Z.sgn_neg. nia. }
  assert (tv_sec a = tv_sec b) as -> by lia.
  destruct (Z.gtb_spec (tv_nsec a) (tv_nsec b)); [symmetry; apply Z.sgn_pos; lia|].
  destruct (Z.ltb_spec (tv_nsec a) (tv_nsec b)); [symmetry; apply Z.sgn_neg; lia|].
  symmetry. apply Z.sgn_null. lia.
Qed.

(** The measured difference to a deadline is the time that was added. *)
Lemma diff_add_timespec a b :
  clock_ok a → 0 <= b <= INT_MAX - 1000 → tv_sec a + b / 1000 + 1 <= INT_MAX →
  ∃ t, add_timespec a b = Some t ∧ diff_timespec t a = Some b.
Proof.
  intros Ha Hb Hmax. destruct (add_timespec_ok a b Ha) as (t & Ht & Hn & Hs & Hr); [lia..|].
  exists t. split; [done|]. destruct Ha as [Has Han].
  unfold nanos, nsec_per_sec, INT_MAX in *.
  set (ds := tv_sec t - tv_sec a). set (dn := tv_nsec t - tv_nsec a).
  assert (ds * 1000000000 + dn = b * 1000000) as He by (unfold ds, dn; lia).
  assert (-1000000000 < dn <= 1000000000) as Hdn by (unfold dn; lia).
  assert (0 <= ds) as Hds by (unfold ds; lia).
  set (m := b - ds * 1000). assert (dn = m * 1000000) as Hm by (unfold m; lia).
  assert (ds * 1000 <= b + 1000) as Hov by lia.
  unfold diff_timespec. fold ds.
  assert ((if tv_sec t >? tv_sec a then ds * 1000 else 0) = ds * 1000) as ->.
  { destruct (Z.gtb_spec (tv_sec t) (tv_sec a)); [done|]. assert (ds = 0) by (unfold ds; lia). lia. }
  rewrite chk_int_id by (unfold INT_MAX; lia). cbn [mbind option_bind].
  replace (negb (ds * 1000 =? 0) || (tv_sec t =? tv_sec a)) with true
    by (destruct (Z.eqb_spec (ds * 1000) 0); destruct (Z.eqb_spec (tv_sec t) (tv_sec a));
        unfold ds in *; simpl; lia || done).
  fold dn. replace (tv_nsec a - tv_nsec t) with (- m * 1000000) by (unfold dn in *; lia).
  rewrite Hm, !Z.quot_mul by lia.
  replace (if _ >? _ then _ else _) with b by (destruct (Z.gtb_spec (tv_nsec t) (tv_nsec a)); unfold m; lia).
  rewrite chk_int_id by (unfold INT_MAX; lia). done.
Qed.

(** The loop stops one step early: a deadline whose nanoseconds are exactly one
    second, which [pthread_cond_timedwait] refuses with [EINVAL]. *)
Example deadline_not_normalised :
  add_timespec (Timespec 100 500000000) 500 = Some (Timespec 100 1000000000).
Proof. reflexivity. Qed.
