(* ===== verification/RpcStubs.v ===== *)
(** * Client and server stubs

    The templates of rpc/rpc.h: [rpcc::call] with zero to seven arguments marshals the
    arguments and unmarshals the reply; [rpcs::reg] wraps a method with one to seven
    arguments into a handler that unmarshals the arguments and marshals the result. *)

From S2P Require Import Prelude.
From S2P Require Import Marshall.

(** Failure codes of class rpc_const. *)
Definition rpc_timeout_failure : Z := -1.
Definition unmarshal_args_failure : Z := -2.
Definition unmarshal_reply_failure : Z := -3.
Definition rpc_atmostonce_failure : Z := -4.
Definition rpc_oldsrv_failure : Z := -5.
Definition bind_failure : Z := -6.
Definition cancel_failure : Z := -7.
Definition bind_proc : Z := 1.

(** [int fn(unmarshall &args, marshall &ret)] on the state of the service; [None] when
    the method does not return. *)
Definition handler (S : Type) := unmarshall → marshall → S → option (Z * marshall * S).

Section stubs.
Context {S A1 A2 A3 A4 A5 A6 A7 R : Type}
  `{Wire A1, Wire A2, Wire A3, Wire A4, Wire A5, Wire A6, Wire A7, Wire R}.

(** ** Client *)

(** [call1 proc m]: the return value and the reply object. *)
Variable call1 : Z → marshall → option (Z * unmarshall).

Definition call_m (proc : Z) (req : marshall) (r : R) : option (Z * R) :=
  '(intret, u) ← call1 proc req;
  if intret <? 0 then Some (intret, r) else
  '(r, u) ← w_get r u;
  Some (if negb (okdone u) then unmarshal_reply_failure else intret, r).

Definition rpcc_call0 (proc : Z) (r : R) : option (Z * R) := call_m proc new_marshall r.

Definition rpcc_call1 (proc : Z) (a1 : A1) (r : R) : option (Z * R) :=
  m ← w_put a1 new_marshall;
  call_m proc m r.

Definition rpcc_call2 (proc : Z) (a1 : A1) (a2 : A2) (r : R) : option (Z * R) :=
  m ← w_put a1 new_marshall; m ← w_put a2 m;
  call_m proc m r.

Definition rpcc_call3 (proc : Z) (a1 : A1) (a2 : A2) (a3 : A3) (r : R) : option (Z * R) :=
  m ← w_put a1 new_marshall; m ← w_put a2 m; m ← w_put a3 m;
  call_m proc m r.

Definition rpcc_call4 (proc : Z) (a1 : A1) (a2 : A2) (a3 : A3) (a4 : A4) (r : R) : option (Z * R) :=
  m ← w_put a1 new_marshall; m ← w_put a2 m; m ← w_put a3 m; m ← w_put a4 m;
  call_m proc m r.

Definition rpcc_call5 (proc : Z) (a1 : A1) (a2 : A2) (a3 : A3) (a4 : A4) (a5 : A5) (r : R) : option (Z * R) :=
  m ← w_put a1 new_marshall; m ← w_put a2 m; m ← w_put a3 m; m ← w_put a4 m;
  m ← w_put a5 m;
  call_m proc m r.

Definition rpcc_call6 (proc : Z) (a1 : A1) (a2 : A2) (a3 : A3) (a4 : A4) (a5 : A5) (a6 : A6) (r : R) : option (Z * R) :=
  m ← w_put a1 new_marshall; m ← w_put a2 m; m ← w_put a3 m; m ← w_put a4 m;
  m ← w_put a5 m; m ← w_put a6 m;
  call_m proc m r.

Definition rpcc_call7 (proc : Z) (a1 : A1) (a2 : A2) (a3 : A3) (a4 : A4) (a5 : A5) (a6 : A6) (a7 : A7) (r : R) : option (Z * R) :=
  m ← w_put a1 new_marshall; m ← w_put a2 m; m ← w_put a3 m; m ← w_put a4 m;
  m ← w_put a5 m; m ← w_put a6 m; m ← w_put a7 m;
  call_m proc m r.

(** ** Server

    [r0] is the result variable before the call: uninitialised, or the default of its
    class. *)

Definition finish_call (c : option (Z * R * S)) (ret : marshall) : option (Z * marshall * S) :=
  '(b, r, x) ← c; ret ← w_put r ret; Some (b, ret, x).

Definition rpcs_reg1 (r0 : R)
    (meth : A1 → R → S → option (Z * R * S)) : handler S := λ args ret x,
  '(a1, args) ← w_get w_def args;
  if negb (okdone args) then Some (unmarshal_args_failure, ret, x)
  else finish_call (meth a1 r0 x) ret.

Definition rpcs_reg2 (r0 : R)
    (meth : A1 → A2 → R → S → option (Z * R * S)) : handler S := λ args ret x,
  '(a1, args) ← w_get w_def args; '(a2, args) ← w_get w_def args;
  if negb (okdone args) then Some (unmarshal_args_failure, ret, x)
  else finish_call (meth a1 a2 r0 x) ret.

Definition rpcs_reg3 (r0 : R)
    (meth : A1 → A2 → A3 → R → S → option (Z * R * S)) : handler S := λ args ret x,
  '(a1, args) ← w_get w_def args; '(a2, args) ← w_get w_def args;
  '(a3, args) ← w_get w_def args;
  if negb (okdone args) then Some (unmarshal_args_failure, ret, x)
  else finish_call (meth a1 a2 a3 r0 x) ret.

Definition rpcs_reg4 (r0 : R)
    (meth : A1 → A2 → A3 → A4 → R → S → option (Z * R * S)) : handler S := λ args ret x,
  '(a1, args) ← w_get w_def args; '(a2, args) ← w_get w_def args;
  '(a3, args) ← w_get w_def args; '(a4, args) ← w_get w_def args;
  if negb (okdone args) then Some (unmarshal_args_failure, ret, x)
  else finish_call (meth a1 a2 a3 a4 r0 x) ret.

Definition rpcs_reg5 (r0 : R)
    (meth : A1 → A2 → A3 → A4 → A5 → R → S → option (Z * R * S)) : handler S := λ args ret x,
  '(a1, args) ← w_get w_def args; '(a2, args) ← w_get w_def args;
  '(a3, args) ← w_get w_def args; '(a4, args) ← w_get w_def args;
  '(a5, args) ← w_get w_def args;
  if negb (okdone args) then Some (unmarshal_args_failure, ret, x)
  else finish_call (meth a1 a2 a3 a4 a5 r0 x) ret.

Definition rpcs_reg6 (r0 : R)
    (meth : A1 → A2 → A3 → A4 → A5 → A6 → R → S → option (Z * R * S)) : handler S := λ args ret x,
  '(a1, args) ← w_get w_def args; '(a2, args) ← w_get w_def args;
  '(a3, args) ← w_get w_def args; '(a4, args) ← w_get w_def args;
  '(a5, args) ← w_get w_def args; '(a6, args) ← w_get w_def args;
  if negb (okdone args) then Some (unmarshal_args_failure, ret, x)
  else finish_call (meth a1 a2 a3 a4 a5 a6 r0 x) ret.

Definition rpcs_reg7 (r0 : R)
    (meth : A1 → A2 → A3 → A4 → A5 → A6 → A7 → R → S → option (Z * R * S)) : handler S := λ args ret x,
  '(a1, args) ← w_get w_def args; '(a2, args) ← w_get w_def args;
  '(a3, args) ← w_get w_def args; '(a4, args) ← w_get w_def args;
  '(a5, args) ← w_get w_def args; '(a6, args) ← w_get w_def args;
  '(a7, args) ← w_get w_def args;
  if negb (okdone args) then Some (unmarshal_args_failure, ret, x)
  else finish_call (meth a1 a2 a3 a4 a5 a6 a7 r0 x) ret.

End stubs.

(** ** Arguments as nested pairs

    A stub with several arguments is the stub with one argument that is a tuple. *)

Ltac stub_step :=
  match goal with
  | |- context [w_put ?a ?m] => destruct (w_put a m); [cbn [mbind option_bind]|done]
  | |- context [w_get ?a ?u] => destruct (w_get a u) as [[? ?]|]; [cbn [mbind option_bind fst snd]|done]
  end.

Ltac stub_tuple :=
  repeat (progress (cbn [w_put w_get w_def pair_wire fst snd mbind option_bind];
                    unfold put_pair, get_pair));
  repeat stub_step; reflexivity.

Section tuples.
Context {S A1 A2 A3 A4 A5 A6 A7 R : Type}
  `{Wire A1, Wire A2, Wire A3, Wire A4, Wire A5, Wire A6, Wire A7, Wire R}.
Variable call1 : Z → marshall → option (Z * unmarshall).

Lemma rpcc_call2_tuple proc (a1 : A1) (a2 : A2) (r : R) :
  rpcc_call2 call1 proc a1 a2 r = rpcc_call1 call1 proc (a1, a2) r.
Proof using Type.
  unfold rpcc_call2, rpcc_call1. stub_tuple.
Qed.

Lemma rpcs_reg2_tuple (r0 : R) (meth : A1 → A2 → R → S → option (Z * R * S))
    args ret x :
  rpcs_reg2 r0 meth args ret x
  = rpcs_reg1 r0 (λ p, meth (fst p) (snd p)) args ret x.
Proof using Type.
  unfold rpcs_reg2, rpcs_reg1. stub_tuple.
Qed.

Lemma rpcc_call3_tuple proc (a1 : A1) (a2 : A2) (a3 : A3) (r : R) :
  rpcc_call3 call1 proc a1 a2 a3 r = rpcc_call1 call1 proc (a1, (a2, a3)) r.
Proof using Type.
  unfold rpcc_call3, rpcc_call1. stub_tuple.
Qed.

Lemma rpcs_reg3_tuple (r0 : R) (meth : A1 → A2 → A3 → R → S → option (Z * R * S))
    args ret x :
  rpcs_reg3 r0 meth args ret x
  = rpcs_reg1 r0 (λ p, meth (fst p) (fst (snd p)) (snd (snd p))) args ret x.
Proof using Type.
  unfold rpcs_reg3, rpcs_reg1. stub_tuple.
Qed.

Lemma rpcc_call4_tuple proc (a1 : A1) (a2 : A2) (a3 : A3) (a4 : A4) (r : R) :
  rpcc_call4 call1 proc a1 a2 a3 a4 r = rpcc_call1 call1 proc (a1, (a2, (a3, a4))) r.
Proof using Type.
  unfold rpcc_call4, rpcc_call1. stub_tuple.
Qed.

Lemma rpcs_reg4_tuple (r0 : R) (meth : A1 → A2 → A3 → A4 → R → S → option (Z * R * S))
    args ret x :
  rpcs_reg4 r0 meth args ret x
  = rpcs_reg1 r0 (λ p, meth (fst p) (fst (snd p)) (fst (snd (snd p))) (snd (snd (snd p)))) args ret x.
Proof using Type.
  unfold rpcs_reg4, rpcs_reg1. stub_tuple.
Qed.

Lemma rpcc_call5_tuple proc (a1 : A1) (a2 : A2) (a3 : A3) (a4 : A4) (a5 : A5) (r : R) :
  rpcc_call5 call1 proc a1 a2 a3 a4 a5 r = rpcc_call1 call1 proc (a1, (a2, (a3, (a4, a5)))) r.
Proof using Type.
  unfold rpcc_call5, rpcc_call1. stub_tuple.
Qed.

Lemma rpcs_reg5_tuple (r0 : R) (meth : A1 → A2 → A3 → A4 → A5 → R → S → option (Z * R * S))
    args ret x :
  rpcs_reg5 r0 meth args ret x
  = rpcs_reg1 r0 (λ p, meth (fst p) (fst (snd p)) (fst (snd (snd p))) (fst (snd (snd (snd p)))) (snd (snd (snd (snd p))))) args ret x.
Proof using Type.
  unfold rpcs_reg5, rpcs_reg1. stub_tuple.
Qed.

Lemma rpcc_call6_tuple proc (a1 : A1) (a2 : A2) (a3 : A3) (a4 : A4) (a5 : A5) (a6 : A6) (r : R) :
  rpcc_call6 call1 proc a1 a2 a3 a4 a5 a6 r = rpcc_call1 call1 proc (a1, (a2, (a3, (a4, (a5, a6))))) r.
Proof using Type.
  unfold rpcc_call6, rpcc_call1. stub_tuple.
Qed.

Lemma rpcs_reg6_tuple (r0 : R) (meth : A1 → A2 → A3 → A4 → A5 → A6 → R → S → option (Z * R * S))
    args ret x :
  rpcs_reg6 r0 meth args ret x
  = rpcs_reg1 r0 (λ p, meth (fst p) (fst (snd p)) (fst (snd (snd p))) (fst (snd (snd (snd p)))) (fst (snd (snd (snd (snd p))))) (snd (snd (snd (snd (snd p)))))) args ret x.
Proof using Type.
  unfold rpcs_reg6, rpcs_reg1. stub_tuple.
Qed.

Lemma rpcc_call7_tuple proc (a1 : A1) (a2 : A2) (a3 : A3) (a4 : A4) (a5 : A5) (a6 : A6) (a7 : A7) (r : R) :
  rpcc_call7 call1 proc a1 a2 a3 a4 a5 a6 a7 r = rpcc_call1 call1 proc (a1, (a2, (a3, (a4, (a5, (a6, a7)))))) r.
Proof using Type.
  unfold rpcc_call7, rpcc_call1. stub_tuple.
Qed.

Lemma rpcs_reg7_tuple (r0 : R) (meth : A1 → A2 → A3 → A4 → A5 → A6 → A7 → R → S → option (Z * R * S))
    args ret x :
  rpcs_reg7 r0 meth args ret x
  = rpcs_reg1 r0 (λ p, meth (fst p) (fst (snd p)) (fst (snd (snd p))) (fst (snd (snd (snd p)))) (fst (snd (snd (snd (snd p))))) (fst (snd (snd (snd (snd (snd p)))))) (snd (snd (snd (snd (snd (snd p))))))) args ret x.
Proof using Type.
  unfold rpcs_reg7, rpcs_reg1. stub_tuple.
Qed.

End tuples.
