(* ===== verification/Connection.v ===== *)
(** * Connections

    rpc/connection.cc: a connection object with its reference count, the sending side
    ([send], [write_cb], [writepdu]) and the receiving side ([read_cb], [readpdu]).  The
    results of the system calls [read] and [write] are arguments; a failed assertion or
    an access outside a buffer is [None]. *)

From S2P Require Import Prelude.
From S2P Require Import Marshall.

Definition MAX_PDU : Z := Z.shiftl 10 20.

Record charbuf := CharBuf { cb_buf : option block; cb_sz : Z; cb_solong : Z }.
Definition new_charbuf : charbuf := CharBuf None 0 0.

Record connection := Connection {
  dead_ : bool;
  wpdu_ : charbuf;
  rpdu_ : charbuf;
  waiters_ : Z;
  refno_ : Z;
}.

Definition set_dead x c := Connection x (wpdu_ c) (rpdu_ c) (waiters_ c) (refno_ c).
Definition set_wpdu x c := Connection (dead_ c) x (rpdu_ c) (waiters_ c) (refno_ c).
Definition set_rpdu x c := Connection (dead_ c) (wpdu_ c) x (waiters_ c) (refno_ c).
Definition set_waiters x c := Connection (dead_ c) (wpdu_ c) (rpdu_ c) x (refno_ c).
Definition set_refno x c := Connection (dead_ c) (wpdu_ c) (rpdu_ c) (waiters_ c) x.

(** The constructor: one reference, held by the creator. *)
Definition new_connection : connection := Connection false new_charbuf new_charbuf 0 1.

(** ** Life time *)

Definition incref (c : connection) : connection := set_refno (refno_ c + 1) c.

Definition isdead (c : connection) : bool := dead_ c.

Definition ref (c : connection) : Z := refno_ c.

(** The destructor asserts that no message is being sent. *)
Definition delete_connection (c : connection) : option unit :=
  if negb (dead_ c) then None else
  match cb_buf (wpdu_ c) with Some _ => None | None => Some tt end.

(** [Some None]: the object was deleted. *)
Definition decref (c : connection) : option (option connection) :=
  let c := set_refno (refno_ c - 1) c in
  if refno_ c <? 0 then None else
  if (refno_ c =? 0) && dead_ c then _ ← delete_connection c; Some None
  else Some (Some c).

(** Whether the socket is shut down and removed from the poll manager. *)
Definition closeconn (c : connection) : bool * connection :=
  if dead_ c then (false, c) else (true, set_dead true c).

(** ** Sending *)

(** The result of [write]: the number of bytes taken, or an error and whether [errno]
    is [EAGAIN]. *)
Inductive wresult := WrOk (n : Z) | WrFail (eagain : bool).

Section sending.
(** The values of memory cells that were never written. *)
Variable junk : nat → ascii.

Definition bytes_of (b : block) : cstring := imap (λ i c, default (junk i) c) b.

(** The message as it goes over the wire: its size in network order, then the rest. *)
Definition frame (b : block) (sz : Z) : cstring :=
  enc_u32 sz ++ drop 4 (take (Z.to_nat sz) (bytes_of b)).

(** The result, the bytes that left and the new state; [w] is the system call, given the
    number of bytes to write. *)
Definition writepdu (w : Z → wresult) (c : connection) : option (bool * cstring * connection) :=
  let p := wpdu_ c in
  if cb_solong p <? 0 then None else
  if cb_solong p =? cb_sz p then Some (true, [], c) else
  b ← cb_buf p;
  b ← (if cb_solong p =? 0 then memcpy_in b 0 (enc_u32 (cb_sz p)) else Some b);
  match w (cb_sz p - cb_solong p) with
  | WrFail eagain =>
      if eagain then Some (true, [], set_wpdu (CharBuf (Some b) (cb_sz p) (cb_solong p)) c)
      else Some (false, [], set_wpdu (CharBuf (Some b) 0 (-1)) c)
  | WrOk n =>
      if Z.of_nat (length b) <? cb_sz p then None else
      Some (true, take (Z.to_nat n) (drop (Z.to_nat (cb_solong p)) (bytes_of b)),
            set_wpdu (CharBuf (Some b) (cb_sz p) (cb_solong p + n)) c)
  end.

(** [send] waits at [send_wait_] while another message is being sent, then at
    [send_complete_] while its own is. *)
Inductive send_state := SendReturned (r : bool) | SendBlocked.

Definition send_enter (c : connection) : connection := set_waiters (waiters_ c + 1) c.

Definition send_must_wait (c : connection) : bool :=
  negb (dead_ c) && match cb_buf (wpdu_ c) with Some _ => true | None => false end.

Definition send_finish (c : connection) : send_state * connection :=
  let ret := negb (dead_ c) && (cb_solong (wpdu_ c) =? cb_sz (wpdu_ c)) in
  (SendReturned ret, set_wpdu (CharBuf None 0 0) c).

(** From the end of the first wait to the return or the second wait. *)
Definition send_start (b : block) (sz : Z) (w : Z → wresult) (c : connection)
    : option (send_state * cstring * connection) :=
  let c := set_waiters (waiters_ c - 1) c in
  if dead_ c then Some (SendReturned false, [], c) else
  let c := set_wpdu (CharBuf (Some b) sz 0) c in
  '(ok, out, c) ← writepdu w c;
  if negb ok then let '(r, c) := send_finish (set_dead true c) in Some (r, out, c)
  else if cb_solong (wpdu_ c) =? cb_sz (wpdu_ c)
       then let '(r, c) := send_finish c in Some (r, out, c)
       else Some (SendBlocked, out, c).

(** When the thread wakes up at [send_complete_]. *)
Definition send_woken (c : connection) : send_state * connection :=
  if negb (dead_ c) && (0 <=? cb_solong (wpdu_ c)) && (cb_solong (wpdu_ c) <? cb_sz (wpdu_ c))
  then (SendBlocked, c) else send_finish c.

(** Whether [send_complete_] is signalled, the bytes that left, the new state. *)
Definition write_cb (w : Z → wresult) (c : connection) : option (bool * cstring * connection) :=
  if dead_ c then None else
  if cb_sz (wpdu_ c) =? 0 then Some (false, [], c) else
  '(ok, out, c) ← writepdu w c;
  if negb ok then Some (true, out, set_dead true c)
  else if cb_solong (wpdu_ c) <? 0 then None
  else if cb_solong (wpdu_ c) <? cb_sz (wpdu_ c) then Some (false, out, c)
  else Some (true, out, c).

End sending.

(** ** Receiving *)

(** The result of [read]: the bytes, or a value [n <= 0] and whether [errno] is
    [EAGAIN]. *)
Inductive rresult := RdOk (l : cstring) | RdFail (n : Z) (eagain : bool).

(** [ntohl] of the four bytes as an [int]. *)
Definition ntohl (l : cstring) : option Z :=
  match l with
  | [a; b; c; d] =>
      Some (s32 (Z.lor (Z.lor (Z.lor (Z.shiftl (byte_of a) 24) (Z.shiftl (byte_of b) 16))
                              (Z.shiftl (byte_of c) 8)) (byte_of d)))
  | _ => None
  end.

(** The first half of [readpdu], when no message is under way: reads the size and
    allocates the buffer.  The result is [false] when [readpdu] returns false. *)
Definition readpdu_size (r : rresult) (c : connection) : option (bool * connection) :=
  match r with
  | RdFail n eagain => if (n <? 0) && eagain then None else Some (false, c)
  | RdOk l =>
      match ntohl l with
      | None => Some (false, c)
      | Some sz =>
          if sz >? MAX_PDU then Some (false, c) else
          match cb_buf (rpdu_ c) with
          | Some _ => None
          | None =>
              b ← memcpy_in (malloc (u32 (sz + sizeof_int))) 0 l;
              Some (true, set_rpdu (CharBuf (Some b) sz sizeof_int) c)
          end
      end
  end.

(** How many bytes the second half asks for: the difference as a [size_t]. *)
Definition body_request (c : connection) : Z := u32 (cb_sz (rpdu_ c) - cb_solong (rpdu_ c)).

Definition readpdu_body (r : rresult) (c : connection) : option (bool * connection) :=
  match r with
  | RdFail _ eagain =>
      if eagain then Some (true, c) else Some (false, set_rpdu (CharBuf None 0 0) c)
  | RdOk l =>
      b ← cb_buf (rpdu_ c);
      b ← memcpy_in b (cb_solong (rpdu_ c)) l;
      Some (true, set_rpdu (CharBuf (Some b) (cb_sz (rpdu_ c))
                             (cb_solong (rpdu_ c) + Z.of_nat (length l))) c)
  end.

(** [r2] may depend on the number of bytes asked for. *)
Definition readpdu (r1 : rresult) (r2 : Z → rresult) (c : connection) : option (bool * connection) :=
  if cb_sz (rpdu_ c) =? 0 then
    '(ok, c) ← readpdu_size r1 c;
    if negb ok then Some (false, c) else readpdu_body (r2 (body_request c)) c
  else readpdu_body (r2 (body_request c)) c.

(** [got]: the [got_pdu] of the owner of the connection, true when it has taken the
    message.  The first component is the message it was offered. *)
Definition read_cb (got : block → Z → bool) (r1 : rresult) (r2 : Z → rresult) (c : connection)
    : option (option (block * Z) * connection) :=
  if dead_ c then Some (None, c) else
  let p := rpdu_ c in
  '(succ, c) ← (if match cb_buf p with None => true | Some _ => cb_solong p <? cb_sz p end
                then readpdu r1 r2 c else Some (true, c));
  let c := if negb succ then set_dead true c else c in
  match cb_buf (rpdu_ c) with
  | Some b =>
      if cb_sz (rpdu_ c) =? cb_solong (rpdu_ c) then
        let sz := cb_sz (rpdu_ c) in
        Some (Some (b, sz), if got b sz then set_rpdu (CharBuf None 0 0) c else c)
      else Some (None, c)
  | None => Some (None, c)
  end.

(** ** What a sender emits *)

Section sender.
Variable junk : nat → ascii.

(** [write] takes at most what it is given. *)
Definition wr_ok (w : Z → wresult) : Prop :=
  ∀ n, 0 <= n → match w n with WrOk k => 0 <= k <= n | WrFail _ => True end.

(** The poll manager's calls while the sender waits; a dead connection gets none. *)
Fixpoint write_cbs (ws : list (Z → wresult)) (c : connection) : option (cstring * connection) :=
  match ws with
  | [] => Some ([], c)
  | w :: ws =>
      if dead_ c then Some ([], c) else
      '(_, out, c) ← write_cb junk w c;
      '(out', c) ← write_cbs ws c; Some (out ++ out', c)
  end.

Definition send_run (b : block) (sz : Z) (w : Z → wresult) (ws : list (Z → wresult)) (c : connection)
    : option (send_state * cstring * connection) :=
  '(st, out, c) ← send_start junk b sz w c;
  match st with
  | SendReturned _ => Some (st, out, c)
  | SendBlocked =>
      '(out', c) ← write_cbs ws c;
      let '(st, c) := send_woken c in Some (st, out ++ out', c)
  end.

Lemma length_bytes_of b : length (bytes_of junk b) = length b.
Proof. apply length_imap. Qed.

Lemma bytes_of_header b sz :
  (4 <= length b)%nat →
  bytes_of junk ((Some <$> enc_u32 sz) ++ drop 4 b) = enc_u32 sz ++ drop 4 (bytes_of junk b).
Proof.
  intros Hb. apply list_eq. intros i. unfold bytes_of. rewrite list_lookup_imap.
  destruct (decide (i < 4)%nat) as [Hi|Hi].
  - rewrite !lookup_app_l by (rewrite ?length_fmap, length_enc_u32; done).
    rewrite list_lookup_fmap. by destruct (enc_u32 sz !! i).
  - rewrite !lookup_app_r by (rewrite ?length_fmap, length_enc_u32; lia).
    rewrite length_fmap, length_enc_u32, !lookup_drop, list_lookup_imap.
    by replace (4 + (i - 4))%nat with i by lia.
Qed.

Lemma length_frame b sz :
  4 <= sz → sz <= Z.of_nat (length b) → length (frame junk b sz) = Z.to_nat sz.
Proof.
  intros H1 H2. unfold frame. rewrite length_app, length_enc_u32, length_drop, length_take, length_bytes_of.
  lia.
Qed.

(** [k] bytes of the message [F] have left; once the first has left, the buffer holds
    the size. *)
Definition sending (F : cstring) (sz k : Z) (c : connection) : Prop :=
  dead_ c = false ∧ 0 <= k <= sz ∧
  ∃ b, wpdu_ c = CharBuf (Some b) sz k ∧ sz <= Z.of_nat (length b) ∧
    frame junk b sz = F ∧ (k ≠ 0 → take (Z.to_nat sz) (bytes_of junk b) = F).

Lemma header_copied b sz :
  4 <= sz → sz <= Z.of_nat (length b) →
  ∃ b', memcpy_in b 0 (enc_u32 sz) = Some b' ∧ length b' = length b ∧
    frame junk b' sz = frame junk b sz ∧ take (Z.to_nat sz) (bytes_of junk b') = frame junk b sz.
Proof.
  intros Hsz Hl. exists ((Some <$> enc_u32 sz) ++ drop 4 b). split.
  { unfold memcpy_in. rewrite length_enc_u32. change (0 <=? 0) with true.
    destruct (Z.leb_spec (0 + Z.of_nat 4) (Z.of_nat (length b))); [done|lia]. }
  assert (take (Z.to_nat sz) (bytes_of junk ((Some <$> enc_u32 sz) ++ drop 4 b)) = frame junk b sz) as Hf.
  { rewrite bytes_of_header by lia. unfold frame. rewrite take_app, length_enc_u32.
    rewrite (take_ge (enc_u32 sz)) by (rewrite length_enc_u32; lia). by rewrite skipn_firstn_comm. }
  split; [rewrite length_app, length_fmap, length_enc_u32, length_drop; lia|]. split; [|done].
  unfold frame at 1. rewrite Hf. unfold frame at 1. rewrite drop_app_length'; [done|by rewrite length_enc_u32].
Qed.

Lemma writepdu_sending F sz k c w :
  wr_ok w → 4 <= sz → sending F sz k c →
  ∃ ok out c', writepdu junk w c = Some (ok, out, c') ∧ dead_ c' = false ∧ waiters_ c' = waiters_ c ∧
    rpdu_ c' = rpdu_ c ∧ refno_ c' = refno_ c ∧
    if ok : bool then ∃ n, k <= n ∧ sending F sz n c' ∧
      out = take (Z.to_nat (n - k)) (drop (Z.to_nat k) F)
    else out = [] ∧ cb_sz (wpdu_ c') = 0 ∧ cb_solong (wpdu_ c') = -1.
Proof.
  intros Hw Hsz (Hd & Hk & b & Hp & Hl & HF & Hh). unfold writepdu. rewrite Hp. cbn [cb_solong cb_sz cb_buf].
  replace (k <? 0) with false by lia. destruct (Z.eqb_spec k sz) as [->|Hne].
  { exists true, [], c. split_and!; try done. exists sz. split; [lia|]. split.
    - split_and!; [done|lia|lia|]. by exists b.
    - by rewrite Z.sub_diag. }
  cbn [mbind option_bind].
  assert (∃ b', (if k =? 0 then memcpy_in b 0 (enc_u32 sz) else Some b) = Some b' ∧
    length b' = length b ∧ frame junk b' sz = F ∧ take (Z.to_nat sz) (bytes_of junk b') = F)
    as (b' & -> & Hl' & HF' & Ht).
  { destruct (Z.eqb_spec k 0); [|by exists b; auto].
    destruct (header_copied b sz Hsz Hl) as (b' & ? & ? & ? & ?). exists b'. split_and!; congruence. }
  cbn [mbind option_bind]. specialize (Hw (sz - k) ltac:(lia)). destruct (w (sz - k)) as [n|[]].
  - replace (Z.of_nat (length b') <? sz) with false by lia.
    eexists true, _, _. split; [done|]. cbn. split_and!; try done. exists (k + n). split; [lia|]. split.
    + split_and!; [done|lia|lia|]. exists b'. cbn. split_and!; [done|lia|done|done].
    + replace (k + n - k) with n by lia. rewrite <- Ht, skipn_firstn_comm, take_take. f_equal. lia.
  - eexists true, _, _. split; [done|]. cbn. split_and!; try done. exists k. split; [lia|]. split.
    + split_and!; [done|lia|lia|]. exists b'. cbn. split_and!; [done|lia|done|done].
    + by rewrite Z.sub_diag.
  - eexists false, _, _. split; [done|]. done.
Qed.

Lemma take_more {A} (l : list A) k n :
  0 <= k <= n → take (Z.to_nat k) l ++ take (Z.to_nat (n - k)) (drop (Z.to_nat k) l) = take (Z.to_nat n) l.
Proof.
  intros H. replace (Z.to_nat n) with (Z.to_nat k + Z.to_nat (n - k))%nat by lia.
  apply take_take_drop.
Qed.

Lemma write_cbs_sending F sz k ws c :
  Forall wr_ok ws → 4 <= sz → sending F sz k c →
  ∃ out c', write_cbs ws c = Some (out, c') ∧
    ((∃ n, k <= n ∧ sending F sz n c' ∧ out = take (Z.to_nat (n - k)) (drop (Z.to_nat k) F)) ∨
     (dead_ c' = true ∧ ∃ n, k <= n <= sz ∧ out = take (Z.to_nat (n - k)) (drop (Z.to_nat k) F))).
Proof.
  intros Hws Hsz. revert k c. induction Hws as [|w ws Hw Hws IH]; intros k c Hs; cbn [write_cbs].
  { exists [], c. split; [done|]. left. exists k. by rewrite Z.sub_diag. }
  pose proof Hs as (Hd & Hk & b & Hp & _). rewrite Hd. unfold write_cb. rewrite Hd.
  assert (cb_sz (wpdu_ c) = sz) as -> by (by rewrite Hp).
  replace (sz =? 0) with false by lia.
  destruct (writepdu_sending F sz k c w Hw Hsz Hs) as (ok & out & c1 & -> & Hd1 & _ & _ & _ & Hok).
  cbn [mbind option_bind]. destruct ok; cbn [negb].
  - destruct Hok as (n & Hkn & Hs1 & ->). pose proof Hs1 as (_ & Hn & b1 & Hp1 & _).
    destruct (IH n c1 Hs1) as (out' & c' & Hc & Hcase).
    assert (∃ x, (if cb_solong (wpdu_ c1) <? 0 then None
      else if cb_solong (wpdu_ c1) <? cb_sz (wpdu_ c1)
           then Some (false, take (Z.to_nat (n - k)) (drop (Z.to_nat k) F), c1)
           else Some (true, take (Z.to_nat (n - k)) (drop (Z.to_nat k) F), c1)) =
      Some (x, take (Z.to_nat (n - k)) (drop (Z.to_nat k) F), c1)) as (x & ->).
    { rewrite Hp1. cbn [cb_solong cb_sz]. replace (n <? 0) with false by lia. destruct (n <? sz); eauto. }
    cbn [mbind option_bind]. rewrite Hc. cbn [mbind option_bind]. eexists _, c'. split; [done|].
    assert (∀ m, n <= m → take (Z.to_nat (n - k)) (drop (Z.to_nat k) F) ++
      take (Z.to_nat (m - n)) (drop (Z.to_nat n) F) = take (Z.to_nat (m - k)) (drop (Z.to_nat k) F)) as Hjoin.
    { intros m Hm. rewrite <- (take_more (drop (Z.to_nat k) F) (n - k) (m - k)) by lia.
      rewrite drop_drop. do 2 f_equal; [lia|]. f_equal. lia. }
    destruct Hcase as [(m & Hm & Hs2 & ->)|(Hd2 & m & Hm & ->)].
    + left. exists m. split; [lia|]. split; [done|]. apply Hjoin. lia.
    + right. split; [done|]. exists m. split; [lia|]. apply Hjoin. lia.
  - destruct Hok as (-> & _). exists [], (set_dead true c1). split; [by destruct ws|]. right. split; [done|]. exists k. split; [lia|]. by rewrite Z.sub_diag.
Qed.

(** What [send] puts on the wire, whatever [write] does: always a prefix of the frame,
    and the whole frame when it returns true. *)
Lemma send_run_spec b sz w ws c :
  wr_ok w → Forall wr_ok ws → 4 <= sz <= Z.of_nat (length b) → dead_ c = false →
  ∃ st out c', send_run b sz w ws c = Some (st, out, c') ∧ out `prefix_of` frame junk b sz ∧
    (st = SendReturned true → out = frame junk b sz ∧ dead_ c' = false) ∧
    (∀ r, st = SendReturned r → cb_buf (wpdu_ c') = None).
Proof.
  intros Hw Hws Hsz Hd. unfold send_run, send_start. cbn [dead_ set_waiters]. rewrite Hd.
  set (F := frame junk b sz). set (c0 := set_wpdu _ _).
  assert (length F = Z.to_nat sz) as HF by (apply length_frame; lia).
  assert (sending F sz 0 c0) as Hs0.
  { split_and!; [done|lia|lia|]. exists b. split_and!; [done|lia|done|done]. }
  assert (∀ n, take (Z.to_nat n) F `prefix_of` F) as Hpre
    by (intros n; rewrite <- (take_drop (Z.to_nat n) F) at 2; by apply prefix_app_r).
  destruct (writepdu_sending F sz 0 c0 w Hw ltac:(lia) Hs0) as (ok & out & c1 & -> & Hd1 & _ & _ & _ & Hok).
  cbn [mbind option_bind]. destruct ok; cbn [negb].
  - destruct Hok as (n & Hn & Hs1 & ->). rewrite Z.sub_0_r, drop_0.
    pose proof Hs1 as (_ & Hn1 & b1 & Hp1 & _). rewrite Hp1. cbn [cb_solong cb_sz].
    destruct (Z.eqb_spec n sz) as [->|Hne].
    + eexists _, _, _. split; [done|]. cbn. split_and!; [apply Hpre| |done].
      intros _. split; [apply take_ge; lia|done].
    + cbn [mbind option_bind]. destruct (write_cbs_sending F sz n ws c1 Hws ltac:(lia) Hs1) as (out' & c2 & -> & Hcase).
      cbn [mbind option_bind]. unfold send_woken, send_finish.
      destruct Hcase as [(m & Hm & Hs2 & ->)|(Hd2 & m & Hm & ->)].
      * pose proof Hs2 as (Hd2 & Hm1 & b2 & Hp2 & _). rewrite Hd2, Hp2. cbn [cb_solong cb_sz negb andb].
        rewrite (proj2 (Z.leb_le 0 m)) by lia. cbn [andb]. destruct (Z.ltb_spec m sz).
        -- eexists _, _, _. split; [done|]. rewrite take_more by lia. split_and!; [apply Hpre|done|done].
        -- eexists _, _, _. split; [done|]. rewrite take_more by lia. split_and!; [apply Hpre| |done].
           intros _. split; [apply take_ge; lia|done].
      * rewrite Hd2. cbn [negb andb]. eexists _, _, _. split; [done|]. rewrite take_more by lia.
        split_and!; [apply Hpre|done|done].
  - destruct Hok as (-> & _). eexists _, _, _. split; [done|]. split_and!; [apply prefix_nil|done|done].
Qed.
End sender.

(** ** What a receiver delivers *)

Local Transparent enc_u32.
Lemma ntohl_enc_u32 x : 0 <= x <= INT_MAX → ntohl (enc_u32 x) = Some x.
Proof.
  intros Hx. unfold enc_u32, ntohl. rewrite !byte_of_byte_at, byte_of_land.
  replace (Z.land x 255) with (Z.shiftl (byte_at x 0) 0) by (unfold byte_at; by rewrite Z.shiftl_0_r, Z.shiftr_0_r).
  rewrite bytes_combine. f_equal. rewrite s32_of_u32; [done|]. unfold is_s32, INT_MAX in *. lia.
Qed.
Local Opaque enc_u32.

(** The socket as seen by [read]: the bytes still to come, of which at most [limit] are
    there. *)
Definition sys_read (limit : nat) (st : cstring) (n : Z) : rresult :=
  match limit, st with
  | O, _ | _, [] => RdFail (-1) true
  | _, _ => RdOk (take (limit `min` Z.to_nat n) st)
  end.

Definition rd_len (r : rresult) : nat := match r with RdOk l => length l | RdFail _ _ => 0 end.

(** The socket is readable: one call of [read_cb] by the poll manager, with [h] bytes
    there for the first [read] and [b] for the second. *)
Definition read_event (h b : nat) (st : cstring) (c : connection)
    : option (option (block * Z) * cstring * connection) :=
  let fresh := cb_sz (rpdu_ c) =? 0 in
  let r1 := sys_read h st sizeof_int in
  let st1 := if fresh then drop (rd_len r1) st else st in
  '(_, c1) ← (if fresh then readpdu_size r1 c else Some (true, c));
  let st2 := drop (rd_len (sys_read b st1 (body_request c1))) st1 in
  '(d, c) ← read_cb (λ _ _, true) r1 (sys_read b st1) c;
  Some (d, st2, c).

Fixpoint read_run (sch : list (nat * nat)) (st : cstring) (c : connection)
    : option (list (block * Z) * cstring * connection) :=
  match sch with
  | [] => Some ([], st, c)
  | (h, b) :: sch =>
      match st with
      | [] => read_run sch st c
      | _ =>
          '(d, st, c) ← read_event h b st c;
          '(ds, st, c) ← read_run sch st c;
          Some (option_list d ++ ds, st, c)
      end
  end.

(** A frame that can be received: more than the size itself, at most [MAX_PDU]. *)
Definition good_frame (f : cstring) : Prop :=
  4 < Z.of_nat (length f) <= MAX_PDU ∧ ntohl (take 4 f) = Some (Z.of_nat (length f)).

(** What the owner of the connection is handed: the frame in a buffer of four bytes
    more. *)
Definition pdu_of (f : cstring) : block * Z :=
  ((Some <$> f) ++ replicate 4 None, Z.of_nat (length f)).

Definition idle (c : connection) : Prop := dead_ c = false ∧ rpdu_ c = CharBuf None 0 0.

(** [k] bytes of [f] have been read. *)
Definition part_buf (f : cstring) (k : nat) : block :=
  (Some <$> take k f) ++ replicate (length f + 4 - k) None.
Definition reading (f : cstring) (k : nat) (c : connection) : Prop :=
  dead_ c = false ∧ rpdu_ c = CharBuf (Some (part_buf f k)) (Z.of_nat (length f)) (Z.of_nat k) ∧
  (4 <= k < length f)%nat.

Definition receiving (fs : list cstring) (st : cstring) (c : connection) : Prop :=
  (idle c ∧ st = concat fs) ∨
  (∃ f fs' k, fs = f :: fs' ∧ reading f k c ∧ st = drop k f ++ concat fs').

Lemma part_buf_more f k n :
  (k + n <= length f)%nat →
  memcpy_in (part_buf f k) (Z.of_nat k) (take n (drop k f)) = Some (part_buf f (k + n)).
Proof.
  intros H. unfold memcpy_in, part_buf.
  assert (length (take n (drop k f)) = n) as Hn by (rewrite length_take, length_drop; lia).
  assert (length (Some <$> take k f) = k) as Hk by (rewrite length_fmap, length_take; lia).
  rewrite Hn, !length_app, Hk, length_replicate.
  destruct (Z.leb_spec (Z.of_nat k + Z.of_nat n) (Z.of_nat (k + (length f + 4 - k)))); [|lia].
  rewrite (proj2 (Z.leb_le 0 _)) by lia. cbn [andb]. f_equal.
  rewrite Nat2Z.id, take_app_length' by done.
  rewrite drop_app_ge by lia. rewrite Hk, drop_replicate.
  rewrite (assoc_L (++)), <- fmap_app, take_take_drop. f_equal. f_equal. lia.
Qed.

Lemma part_buf_all f : part_buf f (length f) = fst (pdu_of f).
Proof. unfold part_buf, pdu_of. cbn [fst]. rewrite take_ge by lia. do 2 f_equal. lia. Qed.

Lemma sys_read_some limit st n :
  limit ≠ O → st ≠ [] → sys_read limit st n = RdOk (take (limit `min` Z.to_nat n) st).
Proof. destruct limit, st; done. Qed.

Definition body_len (b : nat) (f : cstring) (k : nat) : nat := b `min` (length f - k).

(** The second half of [readpdu] with the rest of the frame still to come. *)
Lemma readpdu_body_reading f k b rest c :
  Z.of_nat (length f) <= MAX_PDU → reading f k c →
  body_request c = Z.of_nat (length f - k) ∧
  ∃ c', readpdu_body (sys_read b (drop k f ++ rest) (body_request c)) c = Some (true, c') ∧
    rd_len (sys_read b (drop k f ++ rest) (body_request c)) = body_len b f k ∧
    dead_ c' = false ∧
    rpdu_ c' = CharBuf (Some (part_buf f (k + body_len b f k))) (Z.of_nat (length f))
                 (Z.of_nat (k + body_len b f k)).
Proof.
  intros Hmax (Hd & Hr & Hk).
  assert (body_request c = Z.of_nat (length f - k)) as Hq.
  { unfold body_request. rewrite Hr. cbn. change MAX_PDU with 10485760 in Hmax.
    rewrite u32_id by (unfold is_u32; lia). lia. }
  split; [done|]. rewrite Hq. destruct (decide (b = O)) as [->|Hb].
  { exists c. cbn. rewrite Hr. unfold body_len. cbn [Nat.min]. by rewrite !Nat.add_0_r. }
  assert (length (drop k f) = length f - k)%nat as Hl by apply length_drop.
  rewrite sys_read_some; [|done|]; [|intros E; apply (f_equal length) in E;
    rewrite length_app, Hl in E; simpl in E; lia].
  rewrite Nat2Z.id. fold (body_len b f k).
  assert (body_len b f k <= length f - k)%nat as Hbl by (unfold body_len; lia).
  rewrite take_app_le by lia. cbn [readpdu_body rd_len]. rewrite Hr. cbn [cb_buf cb_solong cb_sz mbind option_bind].
  rewrite part_buf_more by lia. cbn [mbind option_bind].
  assert (length (take (body_len b f k) (drop k f)) = body_len b f k) as -> by (rewrite length_take; lia).
  eexists. split; [done|]. cbn. split; [done|]. split; [done|]. f_equal. lia.
Qed.

(** The first half, with a whole frame to come and its size there. *)
Lemma readpdu_size_idle f h rest c :
  good_frame f → (4 <= h)%nat → idle c →
  rd_len (sys_read h (f ++ rest) sizeof_int) = 4%nat ∧
  ∃ c', readpdu_size (sys_read h (f ++ rest) sizeof_int) c = Some (true, c') ∧ reading f 4 c'.
Proof.
  intros [Hlen Hsz] Hh [Hd Hr].
  rewrite sys_read_some; [|lia|destruct f; simpl in *; [lia|done]].
  change (Z.to_nat sizeof_int) with 4%nat. rewrite Nat.min_r by lia. rewrite take_app_le by lia.
  cbn [rd_len readpdu_size]. rewrite length_take. split; [lia|]. rewrite Hsz, Hr.
  destruct (Z.gtb_spec (Z.of_nat (length f)) MAX_PDU); [lia|]. cbn [cb_buf].
  change MAX_PDU with 10485760 in Hlen. change sizeof_int with 4. rewrite u32_id by (unfold is_u32; lia).
  assert (malloc (Z.of_nat (length f) + 4) = part_buf f 0) as ->.
  { unfold malloc, part_buf. rewrite take_0, fmap_nil, app_nil_l. f_equal. lia. }
  pose proof (part_buf_more f 0 4 ltac:(lia)) as Hm. rewrite drop_0 in Hm.
  change (Z.of_nat 0) with 0 in Hm. rewrite Hm. cbn [mbind option_bind]. eexists. split; [done|]. split; [done|]. split; [done|lia].
Qed.

Lemma concat_good_nil (fs : list cstring) : Forall good_frame fs → concat fs ≠ [] → ∃ f fs', fs = f :: fs'.
Proof. destruct fs; [done|eauto]. Qed.

(** After the second half: the frame is delivered when it is complete. *)
Lemma body_done f fs k c' :
  Forall good_frame fs → dead_ c' = false →
  rpdu_ c' = CharBuf (Some (part_buf f k)) (Z.of_nat (length f)) (Z.of_nat k) → (4 <= k <= length f)%nat →
  ∃ d c, match cb_buf (rpdu_ c') with
    | Some b =>
        if cb_sz (rpdu_ c') =? cb_solong (rpdu_ c')
        then Some (Some (b, cb_sz (rpdu_ c')), set_rpdu (CharBuf None 0 0) c')
        else Some (None, c')
    | None => Some (None, c')
    end = Some (d, c) ∧
    ((d = None ∧ receiving (f :: fs) (drop k f ++ concat fs) c) ∨
     (d = Some (pdu_of f) ∧ receiving fs (drop k f ++ concat fs) c)).
Proof.
  intros Hfs Hd Hr Hk. rewrite Hr. cbn [cb_buf cb_sz cb_solong].
  destruct (Z.eqb_spec (Z.of_nat (length f)) (Z.of_nat k)) as [He|He].
  - assert (k = length f) as -> by lia. rewrite part_buf_all. eexists _, _. split; [done|].
    right. split; [done|]. left. split; [done|]. by rewrite drop_ge by lia.
  - eexists _, _. split; [done|]. left. split; [done|]. right. exists f, fs, k.
    split; [done|]. split; [|done]. split; [done|]. split; [done|lia].
Qed.

Lemma read_event_receiving h b fs st c :
  Forall good_frame fs → (4 <= h)%nat → receiving fs st c → st ≠ [] →
  ∃ d st' c', read_event h b st c = Some (d, st', c') ∧
    (length st' <= length st)%nat ∧ (b ≠ O → (length st' < length st)%nat) ∧
    ((d = None ∧ receiving fs st' c') ∨
     (∃ f fs', fs = f :: fs' ∧ d = Some (pdu_of f) ∧ receiving fs' st' c')).
Proof.
  intros Hg Hh Hr Hne. unfold read_event.
  destruct Hr as [[Hi ->]|(f & fs' & k & -> & Hrd & ->)].
  - destruct (concat_good_nil fs Hg Hne) as (f & fs' & ->). apply Forall_cons in Hg as [Hf Hg].
    cbn [concat] in *. pose proof Hi as [Hd Hr].
    destruct (readpdu_size_idle f h (concat fs') c Hf Hh Hi) as (H4 & c1 & Hc1 & Hrd).
    rewrite Hr, H4, Hc1. change (cb_sz _ =? 0) with true. cbn [mbind option_bind].
    pose proof Hf as [Hlen _].
    rewrite (drop_app_le f) by lia.
    destruct (readpdu_body_reading f 4 b (concat fs') c1) as (Hq & c2 & Hb & Hl & Hd2 & Hr2); [lia|done|].
    unfold read_cb. rewrite Hd, Hr. cbn [cb_buf]. unfold readpdu. rewrite Hr. change (cb_sz _ =? 0) with true.
    rewrite Hc1. cbn [mbind option_bind negb]. rewrite Hb. cbn [mbind option_bind negb].
    destruct (body_done f fs' (4 + body_len b f 4) c2 Hg Hd2 Hr2) as (d & c3 & -> & Hcase);
      [unfold body_len; lia|].
    cbn [mbind option_bind]. rewrite Hl, (drop_app_le (drop 4 f)) by (rewrite length_drop; unfold body_len; lia).
    rewrite drop_drop. eexists _, _, _. split; [done|].
    rewrite !length_app, length_drop. split; [lia|]. split; [lia|].
    destruct Hcase as [[-> ?]|[-> ?]]; [by left|right; eauto].
  - apply Forall_cons in Hg as [Hf Hg]. pose proof Hf as [Hlen _]. pose proof Hrd as (Hd & Hr & Hk).
    assert (cb_sz (rpdu_ c) =? 0 = false) as Hs by (rewrite Hr; cbn; lia).
    rewrite Hs. cbn [mbind option_bind].
    destruct (readpdu_body_reading f k b (concat fs') c) as (Hq & c2 & Hb & Hl & Hd2 & Hr2); [lia|done|].
    unfold read_cb. rewrite Hd.
    assert (match cb_buf (rpdu_ c) with None => true | Some _ => cb_solong (rpdu_ c) <? cb_sz (rpdu_ c) end
            = true) as -> by (rewrite Hr; cbn; lia).
    unfold readpdu. rewrite Hs, Hb. cbn [mbind option_bind negb].
    destruct (body_done f fs' (k + body_len b f k) c2 Hg Hd2 Hr2) as (d & c3 & -> & Hcase);
      [unfold body_len; lia|].
    cbn [mbind option_bind]. rewrite Hl, (drop_app_le (drop k f)) by (rewrite length_drop; unfold body_len; lia).
    rewrite drop_drop. eexists _, _, _. split; [done|].
    rewrite !length_app, !length_drop. split; [lia|]. split; [unfold body_len; lia|].
    destruct Hcase as [[-> ?]|[-> ?]]; [by left|right; eauto].
Qed.

Lemma receiving_end fs c : Forall good_frame fs → receiving fs [] c → fs = [].
Proof.
  intros Hg [[_ H]|(f & fs' & k & -> & (_ & _ & Hk) & H)].
  - destruct Hg as [|f fs [Hf _] _]; [done|]. cbn in H. destruct f; simpl in *; [lia|done].
  - apply (f_equal length) in H. rewrite length_app, length_drop in H. simpl in H. lia.
Qed.

(** The rounds of a schedule in which the body makes progress. *)
Definition productive (sch : list (nat * nat)) : nat := length (filter (λ p, snd p ≠ O) sch).

Lemma read_run_receiving sch fs st c :
  Forall good_frame fs → Forall (λ p, (4 <= fst p)%nat) sch → receiving fs st c →
  ∃ ds st' c' fs', read_run sch st c = Some (pdu_of <$> ds, st', c') ∧ fs = ds ++ fs' ∧
    receiving fs' st' c' ∧ ((length st <= productive sch)%nat → fs' = []).
Proof.
  intros Hg Hs. revert fs st c Hg. induction Hs as [|[h b] sch Hh _ IH]; intros fs st c Hg Hr; cbn [read_run].
  - exists [], st, c, fs. split_and!; try done. cbn. intros Hl. destruct st; [|simpl in Hl; lia].
    by eapply receiving_end.
  - destruct st as [|x st0].
    { pose proof (receiving_end fs c Hg Hr) as ->.
      destruct (IH [] [] c Hg Hr) as (ds & st' & c' & fs' & -> & E & ? & _).
      exists ds, st', c', fs'. split_and!; try done. intros _. by destruct ds, fs'. }
    set (st := x :: st0) in *. assert (st ≠ []) as Hne by done. clearbody st. cbn [fst] in Hh.
    destruct (read_event_receiving h b fs st c Hg Hh Hr Hne) as (d & st1 & c1 & -> & Hl1 & Hl2 & Hcase).
    cbn [mbind option_bind].
    assert (∃ f1 fs1, fs = f1 ++ fs1 ∧ option_list d = pdu_of <$> f1 ∧ receiving fs1 st1 c1 ∧
      Forall good_frame fs1) as (f1 & fs1 & -> & Hd & Hr1 & Hg1).
    { destruct Hcase as [[-> ?]|(f & fs' & -> & -> & ?)]; [by exists [], fs|].
      exists [f], fs'. split_and!; try done. by apply Forall_cons in Hg as [_ ?]. }
    destruct (IH fs1 st1 c1 Hg1 Hr1) as (ds & st2 & c2 & fs2 & -> & -> & Hr2 & Hprog).
    cbn [mbind option_bind]. exists (f1 ++ ds), st2, c2, fs2. rewrite fmap_app, Hd, (assoc_L (++)).
    split_and!; try done. intros Hp. apply Hprog. unfold productive in *. rewrite filter_cons in Hp.
    cbn [snd] in Hp. destruct (decide (b ≠ O)) as [Hb|Hb]; cbn [length] in Hp; [specialize (Hl2 Hb)|]; lia.
Qed.

(** ** A stream of messages *)

Record message := Message {
  msg_buf : block; msg_sz : Z; msg_first : Z → wresult; msg_rest : list (Z → wresult);
}.

Definition msg_ok (m : message) : Prop :=
  4 < msg_sz m <= MAX_PDU ∧ msg_sz m <= Z.of_nat (length (msg_buf m)) ∧
  wr_ok (msg_first m) ∧ Forall wr_ok (msg_rest m).

(** The messages one after the other, as long as [send] returns true. *)
Fixpoint send_all (junk : nat → ascii) (ms : list message) (c : connection)
    : option (cstring * connection) :=
  match ms with
  | [] => Some ([], c)
  | m :: ms =>
      '(st, out, c) ← send_run junk (msg_buf m) (msg_sz m) (msg_first m) (msg_rest m) c;
      match st with
      | SendReturned true => '(out', c) ← send_all junk ms c; Some (out ++ out', c)
      | _ => None
      end
  end.

Definition msg_frame (junk : nat → ascii) (m : message) : cstring := frame junk (msg_buf m) (msg_sz m).

Lemma msg_frame_good junk m : msg_ok m → good_frame (msg_frame junk m).
Proof.
  intros (Hsz & Hl & _). unfold good_frame, msg_frame. rewrite length_frame by lia.
  rewrite Z2Nat.id by lia. split; [done|]. unfold frame.
  rewrite take_app_length' by (by rewrite length_enc_u32). apply ntohl_enc_u32.
  change MAX_PDU with 10485760 in Hsz. unfold INT_MAX. lia.
Qed.

Lemma send_all_frames junk ms c out c' :
  Forall msg_ok ms → dead_ c = false → send_all junk ms c = Some (out, c') →
  out = concat (msg_frame junk <$> ms).
Proof.
  intros Hms. revert c out c'. induction Hms as [|m ms Hm Hms IH]; intros c out c' Hd Hs; cbn [send_all] in Hs.
  { by simplify_eq. }
  destruct Hm as (Hsz & Hl & Hw & Hws).
  destruct (send_run_spec junk (msg_buf m) (msg_sz m) (msg_first m) (msg_rest m) c Hw Hws)
    as (st & o & c1 & E & _ & Hok & _); [lia|done|]. rewrite E in Hs. cbn [mbind option_bind] in Hs.
  destruct st as [[]|]; [|done..]. destruct (Hok eq_refl) as [-> Hd1].
  apply bind_Some in Hs as ([o' c2] & H2 & H3). simplify_eq. cbn [fmap list_fmap concat]. f_equal.
  by eapply IH.
Qed.



(** A size field of one to three is accepted: the body is then read with the
    [size_t] value of a negative number as its length, past the end of the buffer. *)
Theorem small_size_overflows sz b rest c :
  idle c → 0 < sz < 4 → (Z.to_nat sz < b `min` length rest)%nat → Z.of_nat b < 2 ^ 31 →
  readpdu (RdOk (enc_u32 sz)) (sys_read b rest) c = None.
Proof.
  intros [Hd Hr] Hsz Hb Hmax. unfold readpdu. rewrite Hr. cbn [cb_sz]. change (0 =? 0) with true.
  unfold readpdu_size. rewrite ntohl_enc_u32 by (unfold INT_MAX; lia). rewrite Hr.
  destruct (Z.gtb_spec sz MAX_PDU) as [Hgt|]; [change MAX_PDU with 10485760 in Hgt; lia|]. cbn [cb_buf].
  change sizeof_int with 4. rewrite u32_id by (unfold is_u32; lia).
  unfold memcpy_in at 1. rewrite length_enc_u32. unfold malloc at 1. rewrite length_replicate.
  destruct (Z.leb_spec (0 + Z.of_nat 4) (Z.of_nat (Z.to_nat (sz + 4)))); [|lia]. change (0 <=? 0) with true.
  cbn [mbind option_bind negb andb].
  set (blk := take _ _ ++ _ ++ _).
  assert (length blk = Z.to_nat (sz + 4)) as Hblk.
  { unfold blk. rewrite !length_app, length_fmap, length_enc_u32, length_take, length_drop.
    unfold malloc. rewrite length_replicate. lia. }
  unfold body_request. cbn [rpdu_ set_rpdu cb_sz cb_solong].
  assert (u32 (sz - 4) = 2 ^ 32 + (sz - 4)) as ->.
  { unfold u32. symmetry. apply (Z.mod_unique_pos _ _ (-1)); lia. }
  rewrite sys_read_some by (destruct rest; simpl in *; lia || done).
  cbn [readpdu_body rpdu_ set_rpdu cb_buf cb_solong mbind option_bind].
  unfold memcpy_in. rewrite Hblk, length_take.
  destruct (Z.leb_spec (4 + Z.of_nat (b `min` Z.to_nat (2 ^ 32 + (sz - 4)) `min` length rest))
    (Z.of_nat (Z.to_nat (sz + 4)))) as [Hle|]; [lia|]. by rewrite andb_false_r.
Qed.

Lemma small_size_overflows_witness :
  readpdu (RdOk (enc_u32 1)) (sys_read 10 ($"hello")) new_connection = None.
Proof.
  apply (small_size_overflows 1 10 ($"hello") new_connection); [split; reflexivity|lia|cbn; lia|lia].
Defined.
