(* ===== verification/ConnHeap.v ===== *)
(** * Shared connections

    Connection objects are shared between the poll manager, the accept loop, the RPC client
    or server and the threads that send on them.  A heap maps their names to their state; the
    use of a deleted object is [None].  The lemmas say when the reference counts are right.
    [tcpsconn] of rpc/connection.cc keeps the connections a server accepted. *)

From S2P Require Import Prelude.
From S2P Require Import Marshall.
From S2P Require Import Connection.

(** ** Connections in the heap *)

Abbreviation conn_heap := (gmap nat connection).

Definition incref_at (c : nat) (hp : conn_heap) : option conn_heap :=
  x ← hp !! c; Some (<[c := incref x]> hp).

Definition decref_at (c : nat) (hp : conn_heap) : option conn_heap :=
  x ← hp !! c; r ← decref x;
  Some (match r with Some x => <[c := x]> hp | None => delete c hp end).

Definition isdead_at (c : nat) (hp : conn_heap) : option bool := isdead <$> hp !! c.

(** ** Reference counts *)

Definition ind (P : Prop) `{Decision P} : Z := if decide P then 1 else 0.

Lemma ind_true (P : Prop) `{Decision P} : P → ind P = 1.
Proof. intros HP. unfold ind. by rewrite decide_True. Qed.
Lemma ind_false (P : Prop) `{Decision P} : ¬ P → ind P = 0.
Proof. intros HP. unfold ind. by rewrite decide_False. Qed.
Lemma ind_pos (P : Prop) `{Decision P} : 0 <= ind P.
Proof. unfold ind. case_decide; lia. Qed.

(** [r c] is the number of references to [c]. *)
Definition heap_ok (r : nat → Z) (hp : conn_heap) : Prop :=
  (∀ c x, hp !! c = Some x → refno_ x = r c ∧ cb_buf (wpdu_ x) = None) ∧
  (∀ c, r c ≠ 0 → is_Some (hp !! c)) ∧ (∀ c, 0 <= r c).

Definition bump (c : nat) (n : Z) (r : nat → Z) : nat → Z := λ d, r d + n * ind (d = c).

Lemma heap_ok_ext r r' hp : (∀ c, r c = r' c) → heap_ok r hp → heap_ok r' hp.
Proof.
  intros E (H1 & H2 & H3). split_and!.
  - intros c x Hx. rewrite <- E. auto.
  - intros c. rewrite <- E. auto.
  - intros c. rewrite <- E. auto.
Qed.

Lemma bump_same c n r : bump c n r c = r c + n.
Proof. unfold bump. rewrite ind_true by done. lia. Qed.
Lemma bump_other c n r d : d ≠ c → bump c n r d = r d.
Proof. intros H. unfold bump. rewrite ind_false by done. lia. Qed.

(** One connection changes. *)
Lemma heap_ok_change r hp hp' c n :
  heap_ok r hp → (∀ d, d ≠ c → hp' !! d = hp !! d) → 0 <= r c + n →
  (∀ y, hp' !! c = Some y → refno_ y = r c + n ∧ cb_buf (wpdu_ y) = None) →
  (r c + n ≠ 0 → is_Some (hp' !! c)) → heap_ok (bump c n r) hp'.
Proof.
  intros (H1 & H2 & H3) Ho Hn Hy Hs. split_and!.
  - intros d y Hd. destruct (decide (d = c)) as [->|]; [rewrite bump_same; by apply Hy|].
    rewrite bump_other by done. apply H1. by rewrite <- Ho.
  - intros d. destruct (decide (d = c)) as [->|]; [rewrite bump_same; by apply Hs|].
    rewrite bump_other by done. rewrite Ho by done. apply H2.
  - intros d. destruct (decide (d = c)) as [->|]; [by rewrite bump_same|]. by rewrite bump_other.
Qed.

(** A change that is not one of the count. *)
Lemma heap_ok_same_refs r (hp : conn_heap) c x y :
  heap_ok r hp → hp !! c = Some x → refno_ y = refno_ x → wpdu_ y = wpdu_ x → heap_ok r (<[c := y]> hp).
Proof.
  intros H Hx Hr Hw. pose proof H as (H1 & H2 & H3). destruct (H1 c x Hx) as [Hxr Hxw].
  eapply (heap_ok_ext (bump c 0 r)); [intros d; unfold bump; lia|].
  apply (heap_ok_change r hp); [done| |rewrite Z.add_0_r; apply H3| |].
  - intros d Hne. by rewrite lookup_insert_ne.
  - intros z. rewrite lookup_insert_eq. intros [= <-]. rewrite Z.add_0_r, Hr, Hw. done.
  - rewrite lookup_insert_eq. eauto.
Qed.

Lemma incref_ok r hp c :
  heap_ok r hp → r c ≠ 0 → ∃ hp', incref_at c hp = Some hp' ∧ heap_ok (bump c 1 r) hp'.
Proof.
  intros H Hc. pose proof H as (H1 & H2 & H3). destruct (H2 c Hc) as [x Hx].
  unfold incref_at. rewrite Hx. cbn [mbind option_bind]. eexists. split; [done|].
  destruct (H1 c x Hx) as [Hr Hw]. pose proof (H3 c). apply (heap_ok_change r hp); [done| |lia| |].
  - intros d Hne. by rewrite lookup_insert_ne.
  - intros y. rewrite lookup_insert_eq. intros [= <-]. cbn. split; [lia|done].
  - rewrite lookup_insert_eq. eauto.
Qed.

Lemma decref_ok r hp c :
  heap_ok r hp → r c ≠ 0 → ∃ hp', decref_at c hp = Some hp' ∧ heap_ok (bump c (-1) r) hp'.
Proof.
  intros H Hc. pose proof H as (H1 & H2 & H3). destruct (H2 c Hc) as [x Hx].
  destruct (H1 c x Hx) as [Hr Hw]. pose proof (H3 c).
  unfold decref_at. rewrite Hx. cbn [mbind option_bind]. unfold decref. cbn [refno_ set_refno].
  destruct (Z.ltb_spec (refno_ x - 1) 0); [lia|].
  assert (∀ hp', hp' = <[c := set_refno (refno_ x - 1) x]> hp → heap_ok (bump c (-1) r) hp') as Hins.
  { intros hp' ->. apply (heap_ok_change r hp); [done| |lia| |].
    - intros d Hne. by rewrite lookup_insert_ne.
    - intros y. rewrite lookup_insert_eq. intros [= <-]. cbn. split; [lia|done].
    - rewrite lookup_insert_eq. eauto. }
  destruct (Z.eqb_spec (refno_ x - 1) 0) as [E0|E0]; cbn [andb dead_ set_refno].
  - destruct (dead_ x) eqn:Hd; [|cbn [mbind option_bind]; eexists; split; [done|by apply Hins]].
    unfold delete_connection. cbn [dead_ set_refno wpdu_]. rewrite Hd, Hw. cbn [negb mbind option_bind].
    eexists. split; [done|]. apply (heap_ok_change r hp); [done| |lia| |].
    + intros d Hne. by rewrite lookup_delete_ne.
    + intros y Hy. by rewrite lookup_delete_eq in Hy.
    + lia.
  - cbn [mbind option_bind]. eexists. split; [done|by apply Hins].
Qed.

(** Occurrences in lists and maps. *)
Definition occ (c : nat) (l : list nat) : Z := Z.of_nat (length (filter (λ d, c = d) l)).
Definition occ_map (c : nat) (m : gmap Z nat) : Z := occ c (map_to_list m).*2.

Lemma occ_app c l1 l2 : occ c (l1 ++ l2) = occ c l1 + occ c l2.
Proof. unfold occ. rewrite filter_app, length_app. lia. Qed.
Lemma occ_cons c d l : occ c (d :: l) = ind (c = d) + occ c l.
Proof. unfold occ, ind. rewrite filter_cons. destruct (decide (c = d)); cbn; lia. Qed.
Lemma occ_nil c : occ c [] = 0.
Proof. done. Qed.
Lemma occ_pos c l : 0 <= occ c l.
Proof. unfold occ. lia. Qed.
Lemma occ_perm c l1 l2 : l1 ≡ₚ l2 → occ c l1 = occ c l2.
Proof. intros H. unfold occ. by rewrite H. Qed.
Lemma occ_delete c l k d : l !! k = Some d → occ c l = ind (c = d) + occ c (delete k l).
Proof. intros H. rewrite (occ_perm c l (d :: delete k l)) by by apply delete_Permutation. apply occ_cons. Qed.
Lemma occ_map_insert c m k d :
  m !! k = None → occ_map c (<[k := d]> m) = ind (c = d) + occ_map c m.
Proof. intros H. unfold occ_map. rewrite <- occ_cons. apply occ_perm. by rewrite map_to_list_insert. Qed.
Lemma occ_map_replace c m k d0 d :
  m !! k = Some d0 → occ_map c (<[k := d]> m) + ind (c = d0) = ind (c = d) + occ_map c m.
Proof.
  intros H. rewrite <- (insert_delete_eq m k d).
  rewrite occ_map_insert by apply lookup_delete_eq.
  rewrite <- (insert_delete_id m k d0 H) at 2. rewrite occ_map_insert by apply lookup_delete_eq. lia.
Qed.
Lemma occ_in c l : c ∈ l → occ c l ≠ 0.
Proof.
  intros H. unfold occ. assert (c ∈ filter (λ d, c = d) l) as Hf by (by apply list_elem_of_filter).
  destruct (filter _ l); [by apply elem_of_nil in Hf|cbn; lia].
Qed.

(** ** The accept loop

    [conns_] of [tcpsconn]: file descriptor to connection. *)

(** The collection of dead connections: [None] once an element was erased, since the
    iterator the loop goes on with is not valid any more. *)
Fixpoint collect_dead (l : list (Z * nat)) (hp : conn_heap) : option conn_heap :=
  match l with
  | [] => Some hp
  | (fd, c) :: l =>
      x ← hp !! c;
      if isdead x && (ref x =? 1) then None else collect_dead l hp
  end.

(** [accept] returned [fd]; [c] is the new object. *)
Definition process_accept (fd : Z) (c : nat) (m : gmap Z nat) (hp : conn_heap)
    : option (gmap Z nat * conn_heap) :=
  let hp := <[c := new_connection]> hp in
  hp ← collect_dead (map_entries m) hp;
  Some (<[fd := c]> m, hp).

(** The destructor closes every connection and gives its reference back. *)
Definition close_one (c : nat) (hp : conn_heap) : option conn_heap :=
  x ← hp !! c; decref_at c (<[c := snd (closeconn x)]> hp).

Fixpoint close_all (l : list (Z * nat)) (hp : conn_heap) : option conn_heap :=
  match l with
  | [] => Some hp
  | (_, c) :: l => hp ← close_one c hp; close_all l hp
  end.

(** [connect] of a client: [None] when the system call fails. *)
Definition connect_to_dst (fresh : option nat) (hp : conn_heap) : option nat * conn_heap :=
  match fresh with
  | None => (None, hp)
  | Some c => (Some c, <[c := new_connection]> hp)
  end.

Lemma close_one_ok r hp c :
  heap_ok r hp → r c ≠ 0 → ∃ hp', close_one c hp = Some hp' ∧ heap_ok (bump c (-1) r) hp'.
Proof.
  intros H Hc. pose proof H as (_ & H2 & _). destruct (H2 c Hc) as [x Hx].
  unfold close_one. rewrite Hx. cbn [mbind option_bind]. apply decref_ok; [|done].
  eapply heap_ok_same_refs; [done..| |]; unfold closeconn; by destruct (dead_ x).
Qed.

Definition collectable (hp : conn_heap) (p : Z * nat) : bool :=
  match hp !! snd p with Some x => isdead x && (ref x =? 1) | None => false end.

(** Accepting works exactly as long as there is nothing to collect. *)
Lemma collect_dead_spec l hp :
  Forall (λ p, is_Some (hp !! snd p)) l →
  collect_dead l hp = if existsb (collectable hp) l then None else Some hp.
Proof.
  induction 1 as [|[fd c] l [x Hx] _ IH]; [done|]. cbn [collect_dead existsb]. unfold collectable at 1.
  cbn [snd] in *. rewrite Hx. cbn [mbind option_bind]. by destruct (_ && _).
Qed.

(** A dead connection: the loop erases its entry and then advances the iterator that
    pointed to it. *)
Example accept_after_death :
  process_accept 7 3 {[ 5 := 1%nat; 6 := 2%nat ]}
    {[ 1%nat := set_dead true new_connection; 2%nat := new_connection ]} = None.
Proof. reflexivity. Qed.
