(* ===== verification/Listener.v ===== *)
(** * The listening side of a server

    [tcpsconn] of rpc/connection.cc: the socket a server listens on, the thread that accepts
    connections, and the destructor, which ends the thread by closing a pipe.  The system
    [lsys] is the object with its thread, the descriptors of the process, the connections that
    wait to be accepted, and the connection objects, to which other threads take and
    give back references.  A failed assertion, the use of a deleted object and of an invalid
    iterator are [None]. *)

From S2P Require Import Prelude.
From S2P Require Import Marshall.
From S2P Require Import Connection.
From S2P Require Import ConnHeap.

(** ** State *)

(** [th_]: before [select], before [accept], or ended; [clean] when it ended because the
    pipe was closed. *)
Inductive accept_thread := AtSelect | AtAccept | Exited (clean : bool).
#[export] Instance accept_thread_eq_dec : EqDecision accept_thread.
Proof. solve_decision. Defined.

(** The destructor: not called; the pipe is closed; in its loop; returned. *)
Inductive life := Alive | Joining | Closing (l : list (Z * nat)) | Gone.

Record tcpsconn := Tcpsconn { tcp_ : Z; pipe_0 : Z; pipe_1 : Z; conns_ : gmap Z nat }.

Record lsys := LSys {
  srv : tcpsconn;
  th_ : accept_thread;
  phase : life;
  open_ : gset Z;         (* the open descriptors of the process *)
  eof : bool;             (* whether the write end of the pipe is closed *)
  backlog : nat;          (* connections that wait at [tcp_] *)
  hp : conn_heap;
  fd_of : gmap nat Z;     (* [fd_] of the connection objects *)
  others : nat → Z;       (* references other threads hold *)
}.

Definition set_th x s := LSys (srv s) x (phase s) (open_ s) (eof s) (backlog s) (hp s) (fd_of s) (others s).
Definition set_phase x s := LSys (srv s) (th_ s) x (open_ s) (eof s) (backlog s) (hp s) (fd_of s) (others s).
Definition set_backlog x s := LSys (srv s) (th_ s) (phase s) (open_ s) (eof s) x (hp s) (fd_of s) (others s).
Definition set_others x s := LSys (srv s) (th_ s) (phase s) (open_ s) (eof s) (backlog s) (hp s) (fd_of s) x.
Definition set_hp x s := LSys (srv s) (th_ s) (phase s) (open_ s) (eof s) (backlog s) x (fd_of s) (others s).
Definition set_eof x s := LSys (srv s) (th_ s) (phase s) (open_ s) x (backlog s) (hp s) (fd_of s) (others s).
Definition close_fd (fd : Z) s :=
  LSys (srv s) (th_ s) (phase s) (open_ s ∖ {[fd]}) (eof s) (backlog s) (hp s) (fd_of s) (others s).

(** The heap after a count went down: the destructor of a connection closes [fd_]. *)
Definition drop_conn (c : nat) (h : conn_heap) (s : lsys) : lsys :=
  match h !! c, fd_of s !! c with
  | None, Some fd =>
      LSys (srv s) (th_ s) (phase s) (open_ s ∖ {[fd]}) (eof s) (backlog s) h (delete c (fd_of s)) (others s)
  | _, _ => set_hp h s
  end.

(** ** Operations *)

(** The constructor, with the results of [socket], [bind], [listen] and [pipe]. *)
Definition new_tcpsconn (tcp bound listening piped p0 p1 : Z) : option tcpsconn :=
  if tcp <? 0 then None else
  if bound <? 0 then None else
  if listening <? 0 then None else
  if piped <? 0 then None else
  Some (Tcpsconn tcp p0 p1 ∅).

(** What [select] finds: end of file at the pipe, connections at the socket.  Only
    descriptors below its first argument are looked at. *)
Definition readable (s : lsys) (fd : Z) : bool :=
  (bool_decide (fd = pipe_0 (srv s)) && eof s) ||
  (bool_decide (fd = tcp_ (srv s)) && (0 <? backlog s)%nat).

Definition select (nfds : Z) (rfds : gset Z) (s : lsys) : gset Z :=
  filter (λ fd, fd < nfds ∧ readable s fd = true) rfds.

Definition max_fd (s : lsys) : Z :=
  if pipe_0 (srv s) >? tcp_ (srv s) then pipe_0 (srv s) else tcp_ (srv s).

(** The descriptors ready in the round that begins now. *)
Definition ready (s : lsys) : gset Z :=
  select (max_fd s + 1) {[ pipe_0 (srv s); tcp_ (srv s) ]} s.

Inductive sresult := SelFail (eintr : bool) | SelReady (rfds : gset Z).

(** One round of the loop of [accept_conn], up to the call of [accept]. *)
Definition accept_conn (r : sresult) (s : lsys) : option lsys :=
  match r with
  | SelFail eintr => if eintr then Some s else None
  | SelReady rfds =>
      if bool_decide (pipe_0 (srv s) ∈ rfds)
      then Some (set_th (Exited true) (close_fd (tcp_ (srv s)) (close_fd (pipe_0 (srv s)) s)))
      else if bool_decide (tcp_ (srv s) ∈ rfds) then Some (set_th AtAccept s)
      else None
  end.

(** The rest of the round: [accept] failed, or it gave [fd], for which the object [c] is
    created. *)
Definition accepted (r : option (Z * nat)) (s : lsys) : option lsys :=
  match r with
  | None => Some (set_th (Exited false) s)
  | Some (fd, c) =>
      '(m, h) ← process_accept fd c (conns_ (srv s)) (hp s);
      Some (LSys (Tcpsconn (tcp_ (srv s)) (pipe_0 (srv s)) (pipe_1 (srv s)) m) AtSelect (phase s)
              ({[fd]} ∪ open_ s) (eof s) (pred (backlog s)) h (<[c := fd]> (fd_of s)) (others s))
  end.

(** The destructor: [close] of an open descriptor succeeds. *)
Definition dtor_begin (s : lsys) : option lsys :=
  if bool_decide (pipe_1 (srv s) ∈ open_ s)
  then Some (set_phase Joining (set_eof true (close_fd (pipe_1 (srv s)) s))) else None.

Definition dtor_joined (s : lsys) : lsys := set_phase (Closing (map_entries (conns_ (srv s)))) s.

Definition dtor_round (s : lsys) : option lsys :=
  match phase s with
  | Closing ((_, c) :: l) => h ← close_one c (hp s); Some (set_phase (Closing l) (drop_conn c h s))
  | Closing [] => Some (set_phase Gone s)
  | _ => None
  end.

(** ** Runs *)

Inductive label :=
  | LConnect | LAbort                        (* a client connects, or gives up while it waits *)
  | LIntr | LSelect                          (* [select] is interrupted, or returns *)
  | LAccept (fd : Z) (c : nat) | LAcceptFail
  | LTake (c : nat) | LGive (c : nat)        (* another thread takes or gives back a reference *)
  | LChange (c : nat) (y : connection)       (* a connection receives, or dies *)
  | LStop | LJoin | LClose.                  (* the destructor *)

(** When a step can happen; [select], [accept] and [pthread_join] block otherwise. *)
Definition enabled (l : label) (s : lsys) : Prop :=
  match l with
  | LConnect => tcp_ (srv s) ∈ open_ s
  | LAbort => (0 < backlog s)%nat
  | LIntr => th_ s = AtSelect
  | LSelect => th_ s = AtSelect ∧ ready s ≠ ∅
  | LAccept fd c =>
      th_ s = AtAccept ∧ (0 < backlog s)%nat ∧ 0 <= fd ∧ fd ∉ open_ s ∧ hp s !! c = None
  | LAcceptFail => th_ s = AtAccept
  | LTake c => is_Some (hp s !! c)
  | LGive c => 0 < others s c
  | LChange c y =>
      ∃ x, hp s !! c = Some x ∧ refno_ y = refno_ x ∧ wpdu_ y = wpdu_ x ∧ (dead_ x = true → dead_ y = true)
  | LStop => phase s = Alive
  | LJoin => phase s = Joining ∧ ∃ b, th_ s = Exited b
  | LClose => ∃ l, phase s = Closing l
  end.

Definition exec (l : label) (s : lsys) : option lsys :=
  match l with
  | LConnect => Some (set_backlog (S (backlog s)) s)
  | LAbort => Some (set_backlog (pred (backlog s)) s)
  | LIntr => accept_conn (SelFail true) s
  | LSelect => accept_conn (SelReady (ready s)) s
  | LAccept fd c => accepted (Some (fd, c)) s
  | LAcceptFail => accepted None s
  | LTake c => h ← incref_at c (hp s); Some (set_others (bump c 1 (others s)) (set_hp h s))
  | LGive c => h ← decref_at c (hp s); Some (set_others (bump c (-1) (others s)) (drop_conn c h s))
  | LChange c y => Some (set_hp (<[c := y]> (hp s)) s)
  | LStop => dtor_begin s
  | LJoin => Some (dtor_joined s)
  | LClose => dtor_round s
  end.

Section listener.
(** The descriptors the process has open besides. *)
Variable rest : gset Z.

Definition lstart (s : lsys) : Prop :=
  ∃ tcp p0 p1, NoDup [tcp; p0; p1] ∧ tcp ∉ rest ∧ p0 ∉ rest ∧ p1 ∉ rest ∧
    new_tcpsconn tcp 0 0 0 p0 p1 = Some (srv s) ∧ th_ s = AtSelect ∧ phase s = Alive ∧ eof s = false ∧
    open_ s = {[tcp; p0; p1]} ∪ rest ∧ hp s = ∅ ∧ fd_of s = ∅ ∧ ∀ c, others s c = 0.

Inductive lruns : lsys → Prop :=
  | lruns_start s : lstart s → lruns s
  | lruns_step l s s' : lruns s → enabled l s → exec l s = Some s' → lruns s'.

(** ** Invariant *)

(** The connections the object holds a reference to, and all references. *)
Definition held (s : lsys) : list (Z * nat) :=
  match phase s with
  | Alive | Joining => map_entries (conns_ (srv s))
  | Closing l => l
  | Gone => []
  end.
Definition refs (s : lsys) (c : nat) : Z := others s c + occ c (held s).*2.

(** The descriptors of its own that are open. *)
Definition own (s : lsys) : gset Z :=
  match th_ s with Exited true => ∅ | _ => {[ tcp_ (srv s); pipe_0 (srv s) ]} end ∪
  match phase s with Alive => {[ pipe_1 (srv s) ]} | _ => ∅ end.

(** Counts: an object in the heap has a reference, and is dead unless the listener
    holds it. *)
Record counts_ok (s : lsys) : Prop := CountsOk {
  i_heap : heap_ok (refs s) (hp s);
  i_others : ∀ c, 0 <= others s c;
  i_live : ∀ c x, hp s !! c = Some x → refs s c ≠ 0 ∧ (c ∈ (held s).*2 ∨ dead_ x = true);
}.

(** Descriptors: each object has its own; nothing else is open but [rest]. *)
Record fds_ok (s : lsys) : Prop := FdsOk {
  i_dom : ∀ c, is_Some (fd_of s !! c) ↔ is_Some (hp s !! c);
  i_inj : ∀ c d fd, fd_of s !! c = Some fd → fd_of s !! d = Some fd → c = d;
  i_held : ∀ fd c, (fd, c) ∈ held s → fd_of s !! c = Some fd;
  i_fresh : ∀ c fd, fd_of s !! c = Some fd →
    fd ∉ rest ∧ fd ≠ tcp_ (srv s) ∧ fd ≠ pipe_0 (srv s) ∧ (phase s = Alive → fd ≠ pipe_1 (srv s));
  i_open : ∀ fd, fd ∈ open_ s ↔ fd ∈ rest ∨ fd ∈ own s ∨ ∃ c, fd_of s !! c = Some fd;
}.

(** The thread ends before the destructor goes on, and only for it when it ends well. *)
Record stages_ok (s : lsys) : Prop := StagesOk {
  i_distinct : tcp_ (srv s) ≠ pipe_0 (srv s) ∧ tcp_ (srv s) ≠ pipe_1 (srv s) ∧ pipe_0 (srv s) ≠ pipe_1 (srv s);
  i_rest : tcp_ (srv s) ∉ rest ∧ pipe_0 (srv s) ∉ rest ∧ pipe_1 (srv s) ∉ rest;
  i_eof : if eof s then phase s ≠ Alive else phase s = Alive;
  i_clean : th_ s = Exited true → phase s ≠ Alive;
  i_joined : phase s = Alive ∨ phase s = Joining ∨ ∃ b, th_ s = Exited b;
}.

Definition linv (s : lsys) : Prop := counts_ok s ∧ fds_ok s ∧ stages_ok s.

Lemma heap_ok_new r (h : conn_heap) c :
  heap_ok r h → h !! c = None → heap_ok (bump c 1 r) (<[c := new_connection]> h).
Proof.
  intros H Hc. pose proof H as (_ & H2 & _).
  assert (r c = 0) as H0.
  { destruct (decide (r c = 0)) as [|Hn]; [done|]. destruct (H2 c Hn). congruence. }
  apply (heap_ok_change r h); [done| |lia| |].
  - intros d Hne. by rewrite lookup_insert_ne.
  - intros y. rewrite lookup_insert_eq. intros [= <-]. cbn. split; [lia|done].
  - rewrite lookup_insert_eq. eauto.
Qed.

Lemma occ_zero c l : c ∉ l → occ c l = 0.
Proof.
  intros H. induction l as [|d l IH]; [done|]. rewrite occ_cons, IH by set_solver.
  rewrite ind_false by set_solver. done.
Qed.

(** What giving back a reference does to the heap. *)
Lemma decref_cases (h h' : conn_heap) c :
  decref_at c h = Some h' → ∃ x, h !! c = Some x ∧
    (h' = delete c h ∨ (refno_ x ≠ 1 ∨ dead_ x = false) ∧ h' = <[c := set_refno (refno_ x - 1) x]> h).
Proof.
  unfold decref_at, decref. intros (x & Hx & H)%bind_Some. exists x. split; [done|].
  apply bind_Some in H as (r & Hr & H). injection H as <-. cbn [refno_ set_refno dead_] in Hr.
  destruct (_ <? _); [done|]. destruct (Z.eqb_spec (refno_ x - 1) 0); cbn [andb] in Hr.
  - destruct (dead_ x) eqn:Hd.
    + apply bind_Some in Hr as (? & _ & [= <-]). by left.
    + injection Hr as <-. right. split; [by right|done].
  - injection Hr as <-. right. split; [left; lia|done].
Qed.

(** A connection loses a reference, and may go with its descriptor. *)
Lemma drop_fds s s' c h x :
  fds_ok s → hp s !! c = Some x →
  h = delete c (hp s) ∧ c ∉ (held s').*2 ∨ (∃ y, h = <[c := y]> (hp s)) →
  (∀ p, p ∈ held s' → p ∈ held s) →
  srv s' = srv s → own s' = own s → (phase s' = Alive → phase s = Alive) →
  hp s' = hp (drop_conn c h s) → open_ s' = open_ (drop_conn c h s) → fd_of s' = fd_of (drop_conn c h s) →
  fds_ok s'.
Proof.
  intros I Hx Hh Hheld Hsrv Hown Hph. unfold drop_conn.
  destruct (proj2 (i_dom _ I c) ltac:(eauto)) as [fd Hfd]. rewrite Hfd.
  destruct Hh as [[-> Hnin]|[y ->]].
  - rewrite lookup_delete_eq. cbn [hp open_ fd_of]. intros Ehp Eo Ef. destruct (i_fresh _ I _ _ Hfd) as (F1 & F2 & F3 & F4).
    split; rewrite ?Ehp, ?Eo, ?Ef, ?Hsrv, ?Hown.
    + intros d. destruct (decide (d = c)) as [->|]; [by rewrite !lookup_delete_eq|].
      rewrite !lookup_delete_ne by done. apply (i_dom _ I).
    + intros a b f [_ Ha]%lookup_delete_Some [_ Hb]%lookup_delete_Some. by apply (i_inj _ I a b f).
    + intros f d Hd. rewrite lookup_delete_ne; [by apply (i_held _ I), Hheld|].
      intros <-. apply Hnin. apply list_elem_of_fmap. by exists (f, c).
    + intros d f [_ Hd]%lookup_delete_Some. destruct (i_fresh _ I _ _ Hd) as (? & ? & ? & ?). split_and!; auto.
    + intros f. rewrite elem_of_difference, (i_open _ I), elem_of_singleton. split.
      * intros [[?|[?|[d Hd]]] Hne]; [auto..|]. right. right. exists d.
        rewrite lookup_delete_ne; [done|]. congruence.
      * intros [Hr|[Ho|[d [Hne Hd]%lookup_delete_Some]]].
        -- split; [auto|]. by intros ->.
        -- split; [auto|]. intros ->. unfold own in Ho.
           destruct (th_ s) as [| |[]], (phase s); set_solver.
        -- split; [eauto|]. intros ->. apply Hne. by apply (i_inj _ I c d fd).
  - rewrite lookup_insert_eq. cbn [hp open_ fd_of set_hp]. intros Ehp Eo Ef.
    split; rewrite ?Ehp, ?Eo, ?Ef, ?Hsrv, ?Hown.
    + intros d. rewrite (i_dom _ I). destruct (decide (d = c)) as [->|]; [rewrite lookup_insert_eq, Hx; naive_solver|].
      by rewrite lookup_insert_ne.
    + apply (i_inj _ I).
    + intros f d Hd. by apply (i_held _ I), Hheld.
    + intros d f Hd. destruct (i_fresh _ I _ _ Hd) as (? & ? & ? & ?). split_and!; auto.
    + apply (i_open _ I).
Qed.

Lemma held_counted (s : lsys) c : 0 <= others s c → c ∈ (held s).*2 → refs s c ≠ 0.
Proof. intros H Hc. unfold refs. pose proof (occ_in _ _ Hc). pose proof (occ_pos c (held s).*2). lia. Qed.

(** [h0] is the heap in which [c] may have been marked dead. *)
Lemma drop_counts s s' c (h0 h : conn_heap) x :
  counts_ok s → heap_ok (refs s) h0 → (∀ d, d ≠ c → h0 !! d = hp s !! d) → h0 !! c = Some x →
  decref_at c h0 = Some h → hp s' = h →
  (∀ d, refs s' d = bump c (-1) (refs s) d) → (∀ d, 0 <= others s' d) →
  (∀ d, d ≠ c → d ∈ (held s).*2 → d ∈ (held s').*2) → c ∈ (held s').*2 ∨ dead_ x = true →
  refs s c ≠ 0 → counts_ok s'.
Proof.
  intros I H0 Hne Hx Hd Ehp Hrefs Hoth Hheld Hdead Hc.
  destruct (decref_ok _ _ _ H0 Hc) as (h' & E & Hok). rewrite Hd in E. injection E as <-.
  assert (heap_ok (refs s') h) as Hok' by (eapply heap_ok_ext; [|exact Hok]; done).
  split; [by rewrite Ehp|done|]. rewrite Ehp. intros d y Hy.
  destruct (decref_cases _ _ _ Hd) as (x' & Hx' & Hcase). rewrite Hx in Hx'. injection Hx' as <-.
  destruct (decide (d = c)) as [->|Hdc].
  - destruct Hcase as [->|[Hr ->]]; [by rewrite lookup_delete_eq in Hy|].
    rewrite lookup_insert_eq in Hy. injection Hy as <-. cbn [dead_ set_refno]. split; [|done].
    destruct Hdead as [Hin|Hdead]; [by apply held_counted|].
    rewrite Hrefs, bump_same. destruct H0 as (H1 & _). destruct (H1 c x Hx) as [Hxr _].
    destruct Hr as [Hr|Hr]; [lia|congruence].
  - assert (hp s !! d = Some y) as Hy'.
    { rewrite <- Hne by done. destruct Hcase as [->|[_ ->]]; [by rewrite lookup_delete_ne in Hy|].
      by rewrite lookup_insert_ne in Hy. }
    destruct (i_live _ I d y Hy') as [Hl Hor]. rewrite Hrefs, bump_other by done. split; [done|].
    destruct Hor; [left; by apply Hheld|by right].
Qed.

Lemma drop_gone s' c (h : conn_heap) : counts_ok s' → hp s' = h → h !! c = None → c ∉ (held s').*2.
Proof.
  intros I <- Hn Hin. destruct (i_heap _ I) as (_ & H2 & _).
  destruct (H2 c) as [y Hy]; [|congruence]. apply held_counted; [apply (i_others _ I)|done].
Qed.

Lemma drop_cases (h0 h h1 : conn_heap) c :
  decref_at c h0 = Some h → (∀ d, d ≠ c → h0 !! d = h1 !! d) →
  h = delete c h1 ∨ ∃ y, h = <[c := y]> h1.
Proof.
  intros (x & Hx & [->|[_ ->]])%decref_cases Hne; [left|right; eexists]; apply map_eq; intros d;
    (destruct (decide (d = c)) as [->|]; [by rewrite ?lookup_delete_eq, ?lookup_insert_eq|]).
  - rewrite !lookup_delete_ne by done. auto.
  - rewrite !lookup_insert_ne by done. auto.
Qed.

Lemma hp_drop c h s : hp (drop_conn c h s) = h.
Proof. unfold drop_conn. by destruct (h !! c), (fd_of s !! c). Qed.
Lemma srv_drop c h s : srv (drop_conn c h s) = srv s.
Proof. unfold drop_conn. by destruct (h !! c), (fd_of s !! c). Qed.
Lemma th_drop c h s : th_ (drop_conn c h s) = th_ s.
Proof. unfold drop_conn. by destruct (h !! c), (fd_of s !! c). Qed.
Lemma phase_drop c h s : phase (drop_conn c h s) = phase s.
Proof. unfold drop_conn. by destruct (h !! c), (fd_of s !! c). Qed.
Lemma eof_drop c h s : eof (drop_conn c h s) = eof s.
Proof. unfold drop_conn. by destruct (h !! c), (fd_of s !! c). Qed.
Lemma others_drop c h s : others (drop_conn c h s) = others s.
Proof. unfold drop_conn. by destruct (h !! c), (fd_of s !! c). Qed.

(** Another thread gives back a reference. *)
Lemma give_ok s c :
  counts_ok s → fds_ok s → 0 < others s c →
  ∃ s', exec (LGive c) s = Some s' ∧ counts_ok s' ∧ fds_ok s'.
Proof.
  intros I F Hc. assert (refs s c ≠ 0) as Hr by (unfold refs; pose proof (occ_pos c (held s).*2); lia).
  destruct (decref_ok _ _ c (i_heap _ I) Hr) as (h & E & _). cbn [exec]. rewrite E. cbn [mbind option_bind].
  eexists. split; [done|]. pose proof E as (x & Hx & _)%decref_cases.
  set (s' := set_others _ _).
  assert (held s' = held s) as Hheld by (unfold held; cbn [phase srv s' set_others]; by rewrite phase_drop, srv_drop).
  assert (counts_ok s') as I'.
  { apply (drop_counts s s' c (hp s) h x); [done|apply (i_heap _ I)|done|done|done|apply hp_drop| | | | |done].
    - intros d. unfold refs. rewrite Hheld. cbn [others s' set_others]. unfold bump. lia.
    - intros d. cbn [others s' set_others]. unfold bump. pose proof (i_others _ I d).
      unfold ind. case_decide; subst; lia.
    - by rewrite Hheld.
    - rewrite Hheld. by apply (i_live _ I). }
  split; [done|]. apply (drop_fds s s' c h x); try done.
  - destruct (drop_cases _ _ (hp s) _ E) as [->|]; [done| |by right]. left. split; [done|].
    eapply drop_gone; [done|apply hp_drop|apply lookup_delete_eq].
  - by rewrite Hheld.
  - apply srv_drop.
  - unfold own. cbn [srv th_ phase s' set_others]. by rewrite srv_drop, th_drop, phase_drop.
  - cbn [phase s' set_others]. by rewrite phase_drop.
Qed.

(** A round of the destructor. *)
Lemma close_one_step s f c l :
  counts_ok s → fds_ok s → phase s = Closing ((f, c) :: l) →
  ∃ s', dtor_round s = Some s' ∧ phase s' = Closing l ∧ counts_ok s' ∧ fds_ok s'.
Proof.
  intros I F Hp. assert (held s = (f, c) :: l) as Hh by (unfold held; by rewrite Hp).
  assert (refs s c ≠ 0) as Hr by (apply held_counted; [apply (i_others _ I)|rewrite Hh; left]).
  destruct (close_one_ok _ _ c (i_heap _ I) Hr) as (h & E & _). unfold dtor_round. rewrite Hp, E. cbn [mbind option_bind].
  eexists. split; [done|]. split; [done|]. unfold close_one in E. apply bind_Some in E as (x & Hx & E).
  set (s' := set_phase _ _). set (h0 := <[c := _]> (hp s)) in E.
  assert (held s' = l) as Hheld by done.
  assert (heap_ok (refs s) h0) as H0.
  { eapply heap_ok_same_refs; [apply (i_heap _ I)|done|..]; unfold closeconn; by destruct (dead_ x). }
  assert (∀ d, d ≠ c → h0 !! d = hp s !! d) as Hne by (intros; by apply lookup_insert_ne).
  assert (counts_ok s') as I'.
  { apply (drop_counts s s' c h0 h (snd (closeconn x))); [done|done|done|apply lookup_insert_eq|done|apply hp_drop| | | | |done].
    - intros d. unfold refs. rewrite Hheld. unfold bump. rewrite Hh. cbn [others s' set_phase fmap list_fmap snd].
      rewrite occ_cons, others_drop. lia.
    - intros d. cbn [others s' set_phase]. rewrite others_drop. apply (i_others _ I).
    - intros d Hd. rewrite Hh, Hheld, fmap_cons, elem_of_cons. cbn [snd]. naive_solver.
    - right. unfold closeconn. by destruct (dead_ x) eqn:?. }
  split; [done|]. apply (drop_fds s s' c h x); try done.
  - destruct (drop_cases _ _ (hp s) _ E Hne) as [->|]; [|by right]. left. split; [done|].
    eapply drop_gone; [done|apply hp_drop|apply lookup_delete_eq].
  - intros p. rewrite Hheld, Hh. by right.
  - apply srv_drop.
  - unfold own. cbn [srv th_ phase s' set_phase]. by rewrite srv_drop, th_drop, Hp.
Qed.

Lemma collect_dead_same l (h h' : conn_heap) : collect_dead l h = Some h' → h' = h.
Proof.
  induction l as [|[f d] l IH]; cbn [collect_dead]; [naive_solver|].
  destruct (h !! d); [|done]. cbn [mbind option_bind]. by destruct (_ && _).
Qed.

Lemma occ_entries_insert (m : gmap Z nat) fd c d :
  m !! fd = None → occ d (map_entries (<[fd := c]> m)).*2 = ind (d = c) + occ d (map_entries m).*2.
Proof.
  intros Hn. rewrite !(occ_perm d _ _ (fmap_Permutation snd _ _ (map_entries_perm _))).
  by apply occ_map_insert.
Qed.

Lemma entries_insert (m : gmap Z nat) fd c d :
  m !! fd = None → d ∈ (map_entries (<[fd := c]> m)).*2 ↔ d = c ∨ d ∈ (map_entries m).*2.
Proof.
  intros Hn. rewrite !list_elem_of_fmap. split.
  - intros ([f e] & -> & [[-> ->]|[Hf He]]%map_entries_elem%lookup_insert_Some); [by left|].
    right. exists (f, e). split; [done|]. by apply map_entries_elem.
  - intros [->|([f e] & -> & He%map_entries_elem)].
    + exists (fd, c). split; [done|]. apply map_entries_elem, lookup_insert_eq.
    + exists (f, e). split; [done|]. apply map_entries_elem. rewrite lookup_insert_ne; congruence.
Qed.

(** The system with a new connection. *)
Definition with_conn (fd : Z) (c : nat) (s : lsys) : lsys :=
  LSys (Tcpsconn (tcp_ (srv s)) (pipe_0 (srv s)) (pipe_1 (srv s)) (<[fd := c]> (conns_ (srv s)))) AtSelect (phase s)
    ({[fd]} ∪ open_ s) (eof s) (pred (backlog s)) (<[c := new_connection]> (hp s)) (<[c := fd]> (fd_of s)) (others s).

Definition accepting (s : lsys) : Prop := phase s = Alive ∨ phase s = Joining.

Lemma held_accepting s : accepting s → held s = map_entries (conns_ (srv s)).
Proof. unfold held. by intros [->| ->]. Qed.

Lemma accepted_new s fd c s' : accepted (Some (fd, c)) s = Some s' → s' = with_conn fd c s.
Proof.
  unfold accepted, process_accept. intros ([m h] & (h' & ->%collect_dead_same & [= <- <-])%bind_Some & [= <-])%bind_Some.
  done.
Qed.

Lemma new_fd s fd c : fds_ok s → fd ∉ open_ s → fd_of s !! c ≠ Some fd.
Proof. intros F Hfd Hc. apply Hfd, (i_open _ F). eauto. Qed.

(** The entry of an accepted connection replaces no other. *)
Lemma new_entry s fd : fds_ok s → accepting s → fd ∉ open_ s → conns_ (srv s) !! fd = None.
Proof.
  intros F Hp Hfd. destruct (conns_ (srv s) !! fd) as [d|] eqn:Ed; [|done].
  destruct (new_fd s fd d F Hfd). apply (i_held _ F). rewrite held_accepting by done. by apply map_entries_elem.
Qed.

Lemma accept_counts s fd c :
  counts_ok s → fds_ok s → accepting s → fd ∉ open_ s → hp s !! c = None → counts_ok (with_conn fd c s).
Proof.
  intros I F Hp Hfd Hc. pose proof (new_entry s fd F Hp Hfd) as Hn.
  assert (∀ d, refs (with_conn fd c s) d = bump c 1 (refs s) d) as Hrefs.
  { intros d. unfold refs, bump. rewrite !held_accepting by done. cbn [others conns_ srv with_conn].
    rewrite occ_entries_insert by done. lia. }
  assert (∀ d, d ∈ (held (with_conn fd c s)).*2 ↔ d = c ∨ d ∈ (held s).*2) as Hin.
  { intros d. rewrite !held_accepting by done. by apply entries_insert. }
  split.
  - eapply heap_ok_ext; [|by apply heap_ok_new; [apply (i_heap _ I)|]]. intros d. by rewrite Hrefs.
  - apply (i_others _ I).
  - intros d x. cbn [hp with_conn]. intros [[<- _]|[Hdc Hd]]%lookup_insert_Some; rewrite Hin.
    + split; [|by left; left]. apply held_counted; [apply (i_others _ I)|]. apply Hin. by left.
    + destruct (i_live _ I d x Hd) as [Hl Ho]. rewrite Hrefs, bump_other by done. tauto.
Qed.

Lemma accept_fds s fd c :
  fds_ok s → accepting s → th_ s = AtAccept → fd ∉ open_ s → hp s !! c = None → fds_ok (with_conn fd c s).
Proof.
  intros F Hp Ht Hfd Hc.
  assert (fd_of s !! c = None) as Hcf.
  { apply eq_None_not_Some. rewrite (i_dom _ F), Hc. by intros []. }
  assert (fd ∉ rest ∧ fd ∉ own s) as [Hfr Hfo] by (split; intros Hx; apply Hfd, (i_open _ F); auto).
  assert (own (with_conn fd c s) = own s) as Hown by (unfold own; cbn [th_ srv phase tcp_ pipe_0 pipe_1 with_conn]; by rewrite Ht).
  unfold own in Hfo. rewrite Ht in Hfo.
  split; rewrite ?Hown; cbn [hp fd_of open_ srv tcp_ pipe_0 pipe_1 phase with_conn].
  - intros d. rewrite !lookup_insert_is_Some', (i_dom _ F). done.
  - intros a b f [[<- <-]|[Ha1 Ha2]]%lookup_insert_Some [[Hb1 Hb2]|[Hb1 Hb2]]%lookup_insert_Some; subst.
    + done.
    + by apply new_fd in Hb2.
    + by apply new_fd in Ha2.
    + by apply (i_inj _ F a b f).
  - intros f d. rewrite held_accepting by done. cbn [conns_ srv with_conn].
    intros [[<- <-]|[Hf Hd]]%map_entries_elem%lookup_insert_Some; [apply lookup_insert_eq|].
    assert (fd_of s !! d = Some f) as Hdf.
    { apply (i_held _ F). rewrite held_accepting by done. by apply map_entries_elem. }
    rewrite lookup_insert_ne; congruence.
  - intros d f [[_ <-]|[_ Hd]]%lookup_insert_Some; [destruct (phase s); set_solver|by apply (i_fresh _ F) in Hd].
  - intros f. rewrite elem_of_union, elem_of_singleton, (i_open _ F). split.
    + intros [->|[?|[?|[d Hd]]]]; [|auto..|].
      * right. right. exists c. apply lookup_insert_eq.
      * right. right. exists d. rewrite lookup_insert_ne; [done|]. congruence.
    + intros [?|[?|[d [[-> <-]|[_ Hd]]%lookup_insert_Some]]]; eauto.
Qed.

(** Steps that leave counts, or descriptors, alone. *)
Lemma counts_same s s' :
  counts_ok s → held s' = held s → hp s' = hp s → others s' = others s → counts_ok s'.
Proof. intros [H1 H2 H3] Eh Ep Eo. split; unfold refs in *; by rewrite ?Eh, ?Ep, ?Eo. Qed.

Lemma fds_same s s' :
  fds_ok s → held s' = held s → (∀ c, is_Some (hp s' !! c) ↔ is_Some (hp s !! c)) → fd_of s' = fd_of s →
  open_ s' = open_ s → own s' = own s → srv s' = srv s → (phase s' = Alive → phase s = Alive) → fds_ok s'.
Proof.
  intros [H1 H2 H3 H4 H5] Eh Ep Ef Eo Ew Es Ea. split; rewrite ?Eh, ?Ef, ?Eo, ?Ew, ?Es; try done.
  - intros c. by rewrite Ep.
  - intros c fd Hc. destruct (H4 c fd Hc) as (? & ? & ? & ?). split_and!; auto.
Qed.

Lemma own_elem s fd :
  fd ∈ own s → fd = tcp_ (srv s) ∨ fd = pipe_0 (srv s) ∨ fd = pipe_1 (srv s) ∧ phase s = Alive.
Proof using. unfold own. clear. destruct (th_ s) as [| |[]], (phase s); set_solver. Qed.

(** The thread or the destructor closes descriptors of its own. *)
Lemma fds_closed s s' :
  fds_ok s → stages_ok s → held s' = held s → hp s' = hp s → fd_of s' = fd_of s → srv s' = srv s →
  (phase s' = Alive → phase s = Alive) → own s' ⊆ own s → open_ s' = open_ s ∖ (own s ∖ own s') → fds_ok s'.
Proof.
  intros [H1 H2 H3 H4 H5] G Eh Ep Ef Es Ea Hsub Eo. split; rewrite ?Eh, ?Ep, ?Ef, ?Es; try done.
  - intros c fd Hc. destruct (H4 c fd Hc) as (? & ? & ? & ?). split_and!; auto.
  - intros fd. rewrite Eo, elem_of_difference, H5. split.
    { rewrite elem_of_difference. intros [[?|[?|?]] Hn]; [auto| |auto].
      destruct (decide (fd ∈ own s')); [auto|]. by destruct Hn. }
    assert (fd ∈ own s → fd ∉ rest ∧ ∀ c, fd_of s !! c ≠ Some fd) as Hown.
    { intros Ho%own_elem. destruct (i_rest _ G) as (? & ? & ?). split; [naive_solver|].
      intros c Hc. destruct (H4 c fd Hc) as (? & ? & ? & ?). naive_solver. }
    rewrite elem_of_difference.
    intros [Hr|[Ho|[c Hc]]]; (split; [auto|]).
    + intros [Ho _]. by apply Hown in Ho as [].
    + by intros [_ []].
    + eauto.
    + intros [Ho _]. apply Hown in Ho as [_ Ho]. by apply (Ho c).
Qed.

(** What [select] returns. *)
Lemma elem_ready s fd :
  fd ∈ ready s ↔ fd = pipe_0 (srv s) ∧ eof s = true ∨ fd = tcp_ (srv s) ∧ (0 < backlog s)%nat.
Proof.
  unfold ready, select, readable, max_fd. rewrite elem_of_filter, orb_true_iff, !andb_true_iff, !bool_decide_eq_true, Nat.ltb_lt.
  rewrite elem_of_union, !elem_of_singleton. rewrite Z.gtb_ltb. destruct (Z.ltb_spec (tcp_ (srv s)) (pipe_0 (srv s))); naive_solver lia.
Qed.

Lemma select_ok s :
  linv s → th_ s = AtSelect → ready s ≠ ∅ → ∃ s', exec LSelect s = Some s' ∧ linv s' ∧
    th_ s' = if eof s then Exited true else AtAccept.
Proof.
  intros (I & F & G) Ht Hr. cbn [exec accept_conn].
  assert (bool_decide (pipe_0 (srv s) ∈ ready s) = eof s) as ->.
  { destruct (i_distinct _ G) as (Hne & _). case_bool_decide as Hin; rewrite elem_ready in Hin.
    - destruct (eof s); naive_solver.
    - destruct (eof s); naive_solver. }
  pose proof (i_eof _ G) as Heof. destruct (eof s) eqn:He.
  - eexists. split; [done|]. split; [|done]. set (s' := set_th _ _).
    assert (own s = {[ tcp_ (srv s); pipe_0 (srv s) ]}) as Ho by (unfold own; rewrite Ht; destruct (phase s); [done|clear; set_solver..]).
    assert (own s' = ∅) as Ho' by (unfold own; cbn; destruct (phase s); [done|clear; set_solver..]).
    split_and!.
    + by apply (counts_same s).
    + apply (fds_closed s); try done; rewrite Ho, Ho'; [clear; set_solver|cbn [open_ s' set_th close_fd]; clear; set_solver].
    + destruct G. split; cbn; rewrite ?He; try done. right. right. eauto.
  - apply set_choose_L in Hr as [fd Hfd]. rewrite elem_ready, He in Hfd.
    rewrite bool_decide_true by (rewrite elem_ready; naive_solver).
    eexists. split; [done|]. split; [|done]. split_and!.
    + by apply (counts_same s).
    + apply (fds_same s); try done. unfold own. cbn. by rewrite Ht.
    + destruct G. split; cbn; rewrite ?He; try done. auto.
Qed.

Lemma take_ok s c :
  counts_ok s → fds_ok s → is_Some (hp s !! c) → ∃ s', exec (LTake c) s = Some s' ∧ counts_ok s' ∧ fds_ok s'.
Proof.
  intros I F [x Hx]. destruct (i_live _ I c x Hx) as [Hr Hl].
  destruct (incref_ok _ _ c (i_heap _ I) Hr) as (h & E & Hok). cbn [exec]. rewrite E. cbn [mbind option_bind].
  eexists. split; [done|]. unfold incref_at in E. rewrite Hx in E. injection E as <-. set (s' := set_others _ _).
  assert (∀ d, refs s' d = bump c 1 (refs s) d) as Hrefs by (intros d; unfold refs, bump; cbn [others s' set_others held]; unfold held, bump; cbn; lia).
  assert (held s' = held s) as Hh by done. split; [split|].
  - eapply heap_ok_ext; [|exact Hok]. done.
  - intros d. cbn [others s' set_others]. unfold bump. pose proof (i_others _ I d). pose proof (ind_pos (d = c)). lia.
  - intros d y. cbn [hp s' set_others set_hp]. rewrite Hh, Hrefs.
    intros [[<- <-]|[Hne Hd]]%lookup_insert_Some.
    + split; [|done]. rewrite bump_same. destruct (i_heap _ I) as (_ & _ & H3). pose proof (H3 c). lia.
    + rewrite bump_other by done. by apply (i_live _ I).
  - apply (fds_same s); try done. intros d. cbn [hp s' set_others set_hp]. rewrite lookup_insert_is_Some'. naive_solver.
Qed.

Lemma change_ok s c y x :
  counts_ok s → fds_ok s → hp s !! c = Some x → refno_ y = refno_ x → wpdu_ y = wpdu_ x →
  (dead_ x = true → dead_ y = true) → counts_ok (set_hp (<[c := y]> (hp s)) s) ∧ fds_ok (set_hp (<[c := y]> (hp s)) s).
Proof.
  intros I F Hx Hr Hw Hd. split; [split|].
  - by eapply heap_ok_same_refs; [apply (i_heap _ I)|..].
  - apply (i_others _ I).
  - intros d z. cbn [hp set_hp]. intros [[<- <-]|[Hne Hz]]%lookup_insert_Some.
    + destruct (i_live _ I c x Hx) as [? []]; split; auto.
    + by apply (i_live _ I).
  - apply (fds_same s); try done. intros d. cbn [hp set_hp]. rewrite lookup_insert_is_Some'. naive_solver.
Qed.

Lemma stop_ok s : linv s → phase s = Alive → ∃ s', exec LStop s = Some s' ∧ linv s'.
Proof.
  intros (I & F & G) Hp. pose proof G as G0. destruct G as [(D1 & D2 & D3) Hrest Heof Hcl Hj]. cbn [exec]. unfold dtor_begin.
  assert (own s = {[pipe_1 (srv s)]} ∪ own (set_phase Joining s)) as Ho.
  { unfold own. rewrite Hp. cbn [th_ srv phase set_phase]. clear. destruct (th_ s) as [| |[]]; set_solver. }
  assert (pipe_1 (srv s) ∉ own (set_phase Joining s)) as Hn.
  { intros [E|[E|[_ E]]]%own_elem; cbn in E; congruence. }
  rewrite bool_decide_true by (apply (i_open _ F); right; left; rewrite Ho; clear; set_solver).
  eexists. split; [done|]. split_and!.
  - apply (counts_same s); try done. unfold held. by rewrite Hp.
  - apply (fds_closed s); try done.
    + unfold held. by rewrite Hp.
    + rewrite Ho. clear. set_solver.
    + rewrite Ho. cbn [open_ set_phase set_eof close_fd]. f_equal.
      assert (own (set_phase Joining (set_eof true (close_fd (pipe_1 (srv s)) s))) = own (set_phase Joining s)) as -> by done.
      clear -Hn. set_solver.
  - split; cbn; auto.
Qed.

Definition collect_hazard (l : label) (s : lsys) : Prop :=
  ∃ fd c p x, l = LAccept fd c ∧ p ∈ (held s).*2 ∧ hp s !! p = Some x ∧ dead_ x = true ∧ refno_ x = 1.

Lemma accept_none s fd c :
  fds_ok s → accepting s → hp s !! c = None →
  accepted (Some (fd, c)) s = None ↔ ∃ p x, p ∈ (held s).*2 ∧ hp s !! p = Some x ∧ dead_ x = true ∧ refno_ x = 1.
Proof.
  intros F Ha Hc. unfold accepted, process_accept.
  assert (∀ f d, (f, d) ∈ held s → d ≠ c ∧ is_Some (hp s !! d)) as Hex.
  { intros f d Hd%(i_held _ F). assert (is_Some (hp s !! d)) as [x Hx] by (apply (i_dom _ F); eauto).
    split; [congruence|eauto]. }
  rewrite collect_dead_spec.
  2:{ apply Forall_forall. intros [f d] Hd. rewrite <- held_accepting in Hd by done.
      apply Hex in Hd as [Hne Hd]. cbn [snd]. by rewrite lookup_insert_ne. }
  rewrite <- held_accepting by done.
  transitivity (existsb (collectable (<[c := new_connection]> (hp s))) (held s) = true); [by destruct (existsb _ _)|].
  rewrite existsb_exists. split.
  - intros ([f d] & Hd%list_elem_of_In & Hcol). destruct (Hex f d Hd) as [Hne [x Hx]]. exists d, x.
    unfold collectable in Hcol. cbn [snd] in Hcol. rewrite lookup_insert_ne, Hx in Hcol by done.
    apply andb_true_iff in Hcol as [H1 H2%Z.eqb_eq]. split_and!; [|done..]. apply list_elem_of_fmap. by exists (f, d).
  - intros (d & x & ([f d'] & -> & Hd)%list_elem_of_fmap & Hx & Hdead & Hr). exists (f, d'). rewrite <- list_elem_of_In. split; [done|].
    destruct (Hex _ _ Hd) as [Hne _]. unfold collectable. cbn [snd] in *. rewrite lookup_insert_ne, Hx by done.
    unfold isdead, ref. by rewrite Hdead, Hr.
Qed.

Lemma at_accept s : stages_ok s → th_ s = AtAccept → accepting s.
Proof. intros G Ht. destruct (i_joined _ G) as [?|[?|[b Hb]]]; [by left|by right|congruence]. Qed.

Lemma accept_step s fd c :
  linv s → enabled (LAccept fd c) s →
  match exec (LAccept fd c) s with Some s' => linv s' | None => collect_hazard (LAccept fd c) s end.
Proof.
  intros (I & F & G) (Ht & Hb & _ & Hfd & Hc). pose proof (at_accept s G Ht) as Ha.
  destruct (exec (LAccept fd c) s) as [s'|] eqn:E; cbn [exec] in E.
  - apply accepted_new in E as ->. split_and!; [by apply accept_counts|by apply accept_fds|].
    destruct G. split; cbn; try done. by destruct Ha; auto.
  - apply accept_none in E as (p & x & ?); [|done..]. by exists fd, c, p, x.
Qed.

Lemma close_step s l :
  linv s → phase s = Closing l → ∃ s', dtor_round s = Some s' ∧ linv s' ∧ th_ s' = th_ s ∧
    phase s' = match l with [] => Gone | _ :: l => Closing l end.
Proof.
  intros (I & F & G) Hp. destruct l as [|[f c] l].
  - unfold dtor_round. rewrite Hp. eexists. split_and!; [done|split_and!|done..].
    + apply (counts_same s); try done. unfold held. by rewrite Hp.
    + apply (fds_same s); try done; [unfold held|unfold own; cbn]; by rewrite Hp.
    + destruct G. split; cbn; try done; [destruct (eof s); congruence|]. rewrite Hp in *. naive_solver.
  - destruct (close_one_step s f c l I F Hp) as (s' & E & Hp' & ? & ?). exists s'. split; [done|].
    unfold dtor_round in E. rewrite Hp in E. apply bind_Some in E as (h & _ & [= <-]).
    split_and!; [split_and!; [done..|]|apply th_drop|done].
    destruct G. split; cbn [srv th_ phase eof set_phase]; rewrite ?srv_drop, ?th_drop, ?eof_drop; try done.
    + destruct (eof s); congruence.
    + rewrite Hp in *. naive_solver.
Qed.

(** A step goes wrong only when a connection is to be collected. *)
Lemma step_ok s l :
  linv s → enabled l s →
  match exec l s with
  | Some s' => linv s'
  | None => collect_hazard l s
  end.
Proof.
  intros Hinv. pose proof Hinv as (I & F & G). destruct l as [| | | |fd c| |c|c|c y| | |]; cbn [enabled].
  1,2,3: intros _; cbn [exec accept_conn]; split_and!; [by apply (counts_same s)|by apply (fds_same s)|by destruct G].
  - intros [Ht Hr]. by destruct (select_ok s Hinv Ht Hr) as (s' & -> & ? & _).
  - by apply accept_step.
  - intros Ht. cbn [exec accepted]. split_and!; [by apply (counts_same s)| |].
    + apply (fds_same s); try done. unfold own. cbn. by rewrite Ht.
    + destruct G. split; cbn; try done. eauto.
  - intros Hc. destruct (take_ok s c I F Hc) as (s' & E & ? & ?). rewrite E.
    cbn [exec] in E. apply bind_Some in E as (h & _ & [= <-]). split_and!; [done..|by destruct G].
  - intros Hc. destruct (give_ok s c I F Hc) as (s' & E & ? & ?). rewrite E.
    cbn [exec] in E. apply bind_Some in E as (h & _ & [= <-]). split_and!; [done..|].
    destruct G. split; cbn [srv th_ phase eof set_others]; rewrite ?srv_drop, ?th_drop, ?phase_drop, ?eof_drop; done.
  - intros (x & Hx & Hr & Hw & Hd). cbn [exec]. destruct (change_ok s c y x I F Hx Hr Hw Hd). split_and!; [done..|by destruct G].
  - intros Hp. by destruct (stop_ok s Hinv Hp) as (s' & -> & ?).
  - intros [Hp [b Hb]]. cbn [exec]. split_and!.
    + apply (counts_same s); try done. unfold held. by rewrite Hp.
    + apply (fds_same s); try done; [unfold held|unfold own; cbn]; by rewrite Hp.
    + destruct G. split; cbn; try done; [|eauto]. destruct (eof s); congruence.
  - intros [l Hp]. cbn [exec]. by destruct (close_step s l Hinv Hp) as (s' & -> & ? & _).
Qed.

Lemma start_ok s : lstart s → linv s.
Proof.
  intros (tcp & p0 & p1 & Hnd & H1 & H2 & H3 & Hnew & Ht & Hp & He & Ho & Hh & Hf & Hoth).
  unfold new_tcpsconn in Hnew. destruct (tcp <? 0); [done|]. injection Hnew as Hs.
  assert (held s = []) as Hheld by (unfold held; rewrite Hp, <- Hs; done).
  assert (∀ c, refs s c = 0) as Hr by (intros c; unfold refs; by rewrite Hheld, Hoth).
  rewrite !NoDup_cons in Hnd. destruct Hnd as (Hn1 & Hn2 & _).
  split_and!; split; rewrite ?Hh, ?Hf, ?Hheld, ?Hp, ?He, ?Ht, <- ?Hs; cbn [tcp_ pipe_0 pipe_1]; try done.
  - split_and!; [done|intros c; by rewrite Hr|intros c; by rewrite Hr].
  - intros c. by rewrite Hoth.
  - intros c. rewrite !lookup_empty. done.
  - intros fd c Hc. by apply elem_of_nil in Hc.
  - intros fd. rewrite Ho. unfold own. rewrite Ht, Hp, <- Hs. cbn [tcp_ pipe_0 pipe_1].
    setoid_rewrite lookup_empty. clear. set_solver.
  - clear -Hn1 Hn2. set_solver.
  - by left.
Qed.

Lemma lruns_inv s : lruns s → linv s.
Proof.
  induction 1 as [s Hs|l s s' _ IH Hen E]; [by apply start_ok|].
  pose proof (step_ok s l IH Hen) as H. by rewrite E in H.
Qed.

(** A sequence of steps, each possible when it is made. *)
Fixpoint steps (ls : list label) (s s' : lsys) : Prop :=
  match ls with
  | [] => s' = s
  | l :: ls => enabled l s ∧ ∃ s1, exec l s = Some s1 ∧ steps ls s1 s'
  end.

Lemma steps_runs ls s s' : lruns s → steps ls s s' → lruns s'.
Proof.
  revert s. induction ls as [|l ls IH]; intros s Hs; cbn [steps]; [by intros ->|].
  intros (Hen & s1 & E & H). apply (IH s1); [by eapply lruns_step|done].
Qed.

Lemma closing_steps l s :
  linv s → phase s = Closing l →
  ∃ s', steps (replicate (S (length l)) LClose) s s' ∧ phase s' = Gone ∧ th_ s' = th_ s.
Proof.
  revert s. induction l as [|p l IH]; intros s Hinv Hp; destruct (close_step s _ Hinv Hp) as (s1 & E & Hinv1 & Ht & Hp1).
  - exists s1. split; [|done]. cbn. split; [eauto|]. eauto.
  - destruct (IH s1 Hinv1 Hp1) as (s' & Hs & ? & ?). exists s'. split; [|split; congruence].
    cbn [length]. rewrite replicate_S. cbn [steps]. split; [cbn; eauto|]. exists s1. by split.
Qed.

(** When the destructor has returned. *)
Lemma gone_ok s :
  linv s → phase s = Gone →
  (∀ c x, hp s !! c = Some x → dead_ x = true ∧ refno_ x = others s c ∧ 0 < others s c) ∧
  ((∀ c, others s c = 0) → hp s = ∅ ∧
    open_ s = rest ∪ if decide (th_ s = Exited true) then ∅ else {[ tcp_ (srv s); pipe_0 (srv s) ]}).
Proof.
  intros (I & F & G) Hp. assert (held s = []) as Hh by (unfold held; by rewrite Hp).
  assert (∀ c, refs s c = others s c) as Hr by (intros c; unfold refs; rewrite Hh, occ_nil; lia).
  assert (∀ c x, hp s !! c = Some x → dead_ x = true ∧ refno_ x = others s c ∧ 0 < others s c) as Hall.
  { intros c x Hx. destruct (i_live _ I c x Hx) as [Hn [Hin|Hd]]; [rewrite Hh in Hin; by apply elem_of_nil in Hin|].
    destruct (i_heap _ I) as (H1 & _ & H3). destruct (H1 c x Hx) as [Hx1 _]. pose proof (H3 c). rewrite Hr in *.
    split_and!; [done..|lia]. }
  split; [done|]. intros Hz.
  assert (hp s = ∅) as He.
  { apply map_eq. intros c. rewrite lookup_empty. destruct (hp s !! c) as [x|] eqn:Hx; [|done].
    destruct (Hall c x Hx) as (_ & _ & ?). rewrite Hz in *. lia. }
  split; [done|]. apply set_eq. intros fd. rewrite (i_open _ F), elem_of_union.
  assert (own s = if decide (th_ s = Exited true) then ∅ else {[ tcp_ (srv s); pipe_0 (srv s) ]}) as ->.
  { unfold own. rewrite Hp. destruct (th_ s) as [| |[]]; clear; case_decide; try done; set_solver. }
  split; [|tauto]. intros [?|[?|[c Hc]]]; [auto..|].
  destruct (proj1 (i_dom _ F c)) as [x Hx]; [eauto|]. rewrite He in Hx. by rewrite lookup_empty in Hx.
Qed.

(** In every run of the listener the count of a connection is the number of its
    references, a new connection never takes the entry of another, no assertion fails and no deleted
    connection is used, with one exception: accepting while a dead connection is only
    referenced by the listener, which makes the loop go on with an iterator to an erased
    element. *)
Theorem listener_safe s l :
  lruns s → enabled l s →
  (exec l s = None ↔ collect_hazard l s) ∧
  (∀ c x, hp s !! c = Some x → refno_ x = others s c + occ c (held s).*2) ∧
  (∀ fd c s', l = LAccept fd c → exec l s = Some s' → conns_ (srv s) !! fd = None).
Proof.
  intros Hs%lruns_inv Hen. pose proof (step_ok s l Hs Hen) as H. pose proof Hs as (I & F & G). split_and!.
  - split; [intros E; by rewrite E in H|]. intros (fd & c & p & x & -> & Hp).
    destruct Hen as (Ht & _ & _ & _ & Hc). apply accept_none; [done|by apply at_accept|done|eauto].
  - intros c x Hx. destruct (i_heap _ I) as (H1 & _). by apply H1.
  - intros fd c s' -> _. destruct Hen as (Ht & Hb & _ & Hfd & Hc). apply new_entry; [done|by apply at_accept|done].
Qed.

(** C34. Stopping a server: once the destructor has closed the pipe, the thread ends when its
    [select] returns, however many clients wait; the destructor then closes the
    connections and returns.  What is left are dead connections that other threads still
    hold; without such, every connection is deleted and every descriptor closed. *)
Theorem listener_stops s :
  lruns s → phase s = Joining → th_ s = AtSelect →
  ∃ s', steps (LSelect :: LJoin :: replicate (S (size (conns_ (srv s)))) LClose) s s' ∧ phase s' = Gone ∧
    (∀ c x, hp s' !! c = Some x → dead_ x = true ∧ refno_ x = others s' c ∧ 0 < others s' c) ∧
    ((∀ c, others s' c = 0) → hp s' = ∅ ∧ open_ s' = rest).
Proof.
  intros Hs Hp Ht. pose proof (lruns_inv s Hs) as Hinv. pose proof Hinv as (_ & _ & G).
  assert (eof s = true) as He by (pose proof (i_eof _ G); destruct (eof s); congruence).
  assert (pipe_0 (srv s) ∈ ready s) as Hr by (apply elem_ready; auto).
  destruct (select_ok s Hinv Ht) as (s1 & E1 & Hinv1 & Ht1); [set_solver|]. rewrite He in Ht1.
  assert (phase s1 = Joining ∧ srv s1 = srv s) as [Hp1 Hsrv].
  { cbn [exec accept_conn] in E1. rewrite bool_decide_true in E1 by done. injection E1 as <-. by cbn. }
  assert (linv (dtor_joined s1)) as Hinv2 by (apply (step_ok s1 LJoin Hinv1); cbn; eauto).
  destruct (closing_steps (map_entries (conns_ (srv s1))) (dtor_joined s1) Hinv2 eq_refl) as (s' & Hst & Hp' & Ht').
  exists s'. rewrite map_entries_length, Hsrv in Hst.
  assert (steps (LSelect :: LJoin :: replicate (S (size (conns_ (srv s)))) LClose) s s') as Hall.
  { cbn [steps]. split; [cbn; split; [done|set_solver]|]. exists s1. split; [done|]. split; [cbn; eauto|].
    exists (dtor_joined s1). by split. }
  split_and!; [done|done|..]; pose proof (lruns_inv s' (steps_runs _ _ _ Hs Hall)) as Hinv';
    destruct (gone_ok s' Hinv' Hp') as [H1 H2]; [done|].
  intros Hz. destruct (H2 Hz) as [? Ho]. split; [done|]. rewrite Ho, decide_True by (by rewrite Ht'). set_solver.
Qed.

End listener.

(** ** Runs *)

Definition others0 : gset Z := {[0; 1; 2]}.
Definition listener0 : lsys :=
  LSys (Tcpsconn 3 4 5 ∅) AtSelect Alive {[0; 1; 2; 3; 4; 5]} false 0 ∅ ∅ (λ _, 0).

Fixpoint exec_all (ls : list label) (s : lsys) : option lsys :=
  match ls with [] => Some s | l :: ls => s ← exec l s; exec_all ls s end.

(** Each step can be made, checked by computation. *)
Fixpoint possible (ls : list label) (s : lsys) : Prop :=
  match ls with
  | [] => True
  | l :: ls => enabled l s ∧ match exec l s with Some s => possible ls s | None => False end
  end.

Lemma exec_all_runs rest ls s s' :
  lruns rest s → possible ls s → exec_all ls s = Some s' → lruns rest s'.
Proof.
  revert s. induction ls as [|l ls IH]; intros s Hs; cbn [possible exec_all]; [by intros _ [= ->]|].
  intros [Hen Hp] (s1 & E & H)%bind_Some. rewrite E in Hp. apply (IH s1); [by eapply lruns_step|done|done].
Qed.

Lemma listener0_start : lruns others0 listener0.
Proof.
  apply lruns_start. exists 3, 4, 5. split_and!; try done; try by vm_compute.
  apply (bool_decide_unpack _). by vm_compute.
Qed.

(** A client connects; the server is stopped while another one waits. *)
Definition run_stop : list label := [LConnect; LSelect; LAccept 6 0%nat; LConnect; LStop].
Definition stop_state : lsys := default listener0 (exec_all run_stop listener0).

(** A client connects and its connection dies; another one connects. *)
Definition run_dead : list label :=
  [LConnect; LSelect; LAccept 6 0%nat; LChange 0%nat (set_dead true new_connection); LConnect; LSelect].
Definition dead_state : lsys := default listener0 (exec_all run_dead listener0).

Ltac possible_tac :=
  cbn [possible]; repeat match goal with
  | |- True => exact I
  | |- _ ∧ _ => split
  | |- match exec ?l ?s with Some _ => _ | None => _ end =>
      let r := eval vm_compute in (exec l s) in
      match r with Some ?s' => replace (exec l s) with (Some s') by (vm_compute; reflexivity) end; cbn [possible]
  | |- enabled _ _ => cbn [enabled]
  | |- ready _ ≠ ∅ => let H := fresh in intros H; apply (f_equal elements) in H; vm_compute in H; discriminate
  | |- _ ∉ _ => apply (bool_decide_unpack _); vm_compute; reflexivity
  | |- _ ∈ _ => apply (bool_decide_unpack _); vm_compute; reflexivity
  | |- (_ < _)%nat => apply Nat.ltb_lt; vm_compute; reflexivity
  | |- _ <= _ => lia
  | |- _ = _ => vm_compute; reflexivity
  | |- ∃ x, _ => eexists
  | |- _ → _ => intros _
  end.

Lemma stop_state_runs : lruns others0 stop_state.
Proof. apply (exec_all_runs _ run_stop listener0); [apply listener0_start| |reflexivity]. unfold run_stop. possible_tac. Qed.

Lemma dead_state_runs : lruns others0 dead_state.
Proof. apply (exec_all_runs _ run_dead listener0); [apply listener0_start| |reflexivity]. unfold run_dead. possible_tac. Qed.

Lemma listener_safe_witness :
  exec (LAccept 7 1%nat) dead_state = None ↔ collect_hazard (LAccept 7 1%nat) dead_state.
Proof.
  assert (enabled (LAccept 7 1%nat) dead_state) as Hen by (cbn [enabled]; possible_tac).
  exact (proj1 (listener_safe others0 dead_state (LAccept 7 1%nat) dead_state_runs Hen)).
Defined.

(** The exception does happen: a server that lost a client fails when the next connects. *)
Example accept_after_loss : lruns others0 dead_state ∧ exec (LAccept 7 1%nat) dead_state = None.
Proof. split; [apply dead_state_runs|reflexivity]. Qed.

Lemma listener_stops_witness :
  ∃ s', steps [LSelect; LJoin; LClose; LClose] stop_state s' ∧ phase s' = Gone ∧
    (∀ c x, hp s' !! c = Some x → dead_ x = true ∧ refno_ x = others s' c ∧ 0 < others s' c) ∧
    ((∀ c, others s' c = 0) → hp s' = ∅ ∧ open_ s' = others0).
Proof. apply (listener_stops others0 stop_state); [apply stop_state_runs|reflexivity|reflexivity]. Defined.

(** [accept] blocks: a client that gives up between [select] and [accept] leaves the thread there,
    and the destructor waits for it until another client connects. *)
Definition hung (s : lsys) : Prop := phase s = Joining ∧ th_ s = AtAccept ∧ backlog s = 0%nat.

Definition run_hang : list label := [LConnect; LSelect; LAbort; LStop].

Lemma hung_stays s l s' :
  hung s → enabled l s → exec l s = Some s' → l ≠ LConnect → l ≠ LAcceptFail → hung s'.
Proof.
  intros (Hp & Ht & Hb) Hen E H1 H2. unfold hung. destruct l; cbn [enabled exec] in *; try done; try lia.
  - congruence.
  - destruct Hen. congruence.
  - apply bind_Some in E as (h & _ & [= <-]). done.
  - apply bind_Some in E as (h & _ & [= <-]). cbn. unfold drop_conn. by destruct (h !! c), (fd_of s !! c).
  - by injection E as <-.
  - congruence.
  - destruct Hen as [_ [b Hx]]. congruence.
  - destruct Hen as [l Hx]. congruence.
Qed.

Example stop_hangs : ∃ s, lruns others0 s ∧ hung s.
Proof.
  exists (default listener0 (exec_all run_hang listener0)). split; [|done].
  apply (exec_all_runs _ run_hang listener0); [apply listener0_start| |reflexivity]. unfold run_hang. possible_tac.
Qed.

(** A failed [accept] ends the thread for good, and its descriptors stay open. *)
Definition run_fail : list label := [LConnect; LSelect; LAcceptFail; LStop; LJoin; LClose].

Example accept_failure :
  ∃ s, lruns others0 s ∧ phase s = Gone ∧ open_ s = {[0; 1; 2; 3; 4]}.
Proof.
  exists (default listener0 (exec_all run_fail listener0)). split; [|split; [done|by vm_compute]].
  apply (exec_all_runs _ run_fail listener0); [apply listener0_start| |by vm_compute]. unfold run_fail. possible_tac.
Qed.
