(* ===== verification/PollMgr.v ===== *)
(** * The poll manager

    rpc/pollmgr.cc: the thread that waits for file descriptors and calls the connections
    back.  The interface [aio_mgr] is the class [AioMgr] with the promise [AioMgrOk];
    [SelectAIO], the one in use, keeps it, and the theorems about the poll manager are
    proved against it. *)

From S2P Require Import Prelude.
From S2P Require Import Marshall.

Inductive poll_flag := CB_NONE | CB_RDONLY | CB_WRONLY | CB_RDWR.

#[export] Instance poll_flag_eq_dec : EqDecision poll_flag.
Proof. solve_decision. Defined.

Definition MAX_POLL_FDS : Z := 128.

(** The bits of a flag. *)
Definition reads (f : poll_flag) : bool := match f with CB_RDONLY | CB_RDWR => true | _ => false end.
Definition writes (f : poll_flag) : bool := match f with CB_WRONLY | CB_RDWR => true | _ => false end.

(** ** The interface; [None] is a failed assertion *)

Class AioMgr (Σ : Type) := {
  watch_fd : Z → poll_flag → Σ → option Σ;
  unwatch_fd : Z → poll_flag → Σ → option (bool * Σ);
  is_watched : Z → poll_flag → Σ → bool;
  rd_set : Σ → gset Z;
  wr_set : Σ → gset Z;
}.

Definition set_bit (on : bool) (fd : Z) (s : gset Z) : gset Z := if on then {[fd]} ∪ s else s.
Definition clr_bit (off : bool) (fd : Z) (s : gset Z) : gset Z := if off then s ∖ {[fd]} else s.

Class AioMgrOk (Σ : Type) `{AioMgr Σ} := {
  watch_ok fd f s s' : f ≠ CB_NONE → watch_fd fd f s = Some s' →
    rd_set s' = set_bit (reads f) fd (rd_set s) ∧ wr_set s' = set_bit (writes f) fd (wr_set s);
  unwatch_ok fd f s b s' : f ≠ CB_NONE → unwatch_fd fd f s = Some (b, s') →
    rd_set s' = clr_bit (reads f) fd (rd_set s) ∧ wr_set s' = clr_bit (writes f) fd (wr_set s) ∧
    b = bool_decide (fd ∉ rd_set s' ∧ fd ∉ wr_set s');
  is_watched_ok fd f s : f ≠ CB_NONE →
    is_watched fd f s = bool_decide ((reads f = true → fd ∈ rd_set s) ∧ (writes f = true → fd ∈ wr_set s));
}.

(** ** SelectAIO *)

Module select_aio.

(** [pipe_len]: bytes in the pipe that interrupts [select]. *)
Record t := Mk { rfds_ : gset Z; wfds_ : gset Z; highfds_ : Z; pipefd0 : Z; pipe_len : nat }.

Definition new_select_aio (fd0 : Z) : t := Mk {[fd0]} ∅ fd0 fd0 0.

Definition watch_fd (fd : Z) (flag : poll_flag) (s : t) : option t :=
  let high := if highfds_ s <=? fd then fd else highfds_ s in
  let '(r, w) :=
    match flag with
    | CB_RDONLY => ({[fd]} ∪ rfds_ s, wfds_ s)
    | CB_WRONLY => (rfds_ s, {[fd]} ∪ wfds_ s)
    | _ => ({[fd]} ∪ rfds_ s, {[fd]} ∪ wfds_ s)
    end in
  Some (Mk r w high (pipefd0 s) (S (pipe_len s))).

Definition is_watched (fd : Z) (flag : poll_flag) (s : t) : bool :=
  match flag with
  | CB_RDONLY => bool_decide (fd ∈ rfds_ s)
  | CB_WRONLY => bool_decide (fd ∈ wfds_ s)
  | _ => bool_decide (fd ∈ rfds_ s) && bool_decide (fd ∈ wfds_ s)
  end.

(** The loop that looks for the new highest descriptor. *)
Definition new_high (r w : gset Z) (fd0 high : Z) : Z :=
  foldl (λ newh i, if bool_decide (i ∈ r) then i else if bool_decide (i ∈ w) then i else newh) fd0 (seqZ 0 (high + 1)).

Definition unwatch_fd (fd : Z) (flag : poll_flag) (s : t) : option (bool * t) :=
  '(r, w) ← match flag with
            | CB_RDONLY => Some (rfds_ s ∖ {[fd]}, wfds_ s)
            | CB_WRONLY => Some (rfds_ s, wfds_ s ∖ {[fd]})
            | CB_RDWR => Some (rfds_ s ∖ {[fd]}, wfds_ s ∖ {[fd]})
            | CB_NONE => None
            end;
  let gone := negb (bool_decide (fd ∈ r)) && negb (bool_decide (fd ∈ w)) in
  let high := if gone && (fd =? highfds_ s) then new_high r w (pipefd0 s) (highfds_ s) else highfds_ s in
  let n := if bool_decide (flag = CB_RDWR) then S (pipe_len s) else pipe_len s in
  Some (gone, Mk r w high (pipefd0 s) n).

(** The loop over the descriptors after [select] left the sets [tr] and [tw]; the byte
    in the pipe is read. *)
Definition wait_ready (tr tw : gset Z) (high : Z) (s : t) : option (list Z * list Z * t) :=
  let fds := filter (λ fd, ¬ (fd = pipefd0 s ∧ fd ∈ tr)) (seqZ 0 (high + 1)) in
  s ← (if bool_decide (pipefd0 s ∈ tr) then
         match pipe_len s with
         | O => None
         | S n => Some (Mk (rfds_ s) (wfds_ s) (highfds_ s) (pipefd0 s) n)
         end
       else Some s);
  Some (filter (λ fd, fd ∈ tr) fds, filter (λ fd, fd ∈ tw) fds, s).
End select_aio.

#[export] Instance select_aio_mgr : AioMgr select_aio.t := {
  watch_fd := select_aio.watch_fd;
  unwatch_fd := select_aio.unwatch_fd;
  is_watched := select_aio.is_watched;
  rd_set := select_aio.rfds_;
  wr_set := select_aio.wfds_;
}.

#[export] Instance select_aio_ok : AioMgrOk select_aio.t.
Proof.
  split.
  - intros fd f s s' Hf H. cbn in *. unfold select_aio.watch_fd in H.
    destruct f; try done; injection H as <-; by cbn.
  - intros fd f s b s' Hf H. cbn in *. unfold select_aio.unwatch_fd in H.
    destruct f; try done; cbn in H; injection H as <- <-; cbn; (split; [done|]; split; [done|]);
      by rewrite bool_decide_and, !bool_decide_not.
  - intros fd f s Hf. cbn. destruct f; try done; cbn; rewrite <- ?bool_decide_and; apply bool_decide_ext; naive_solver.
Qed.

Module select_props.
Import select_aio.

(** Every watched descriptor is below the bound given to [select], and the pipe is
    watched. *)
Definition sel_inv (s : t) : Prop :=
  pipefd0 s ∈ rfds_ s ∧ ∀ fd, fd ∈ rfds_ s ∪ wfds_ s → 0 <= fd <= highfds_ s.

Lemma new_high_ge (r w : gset Z) (fd0 : Z) (n : nat) (fd : Z) :
  fd ∈ r ∪ w → 0 <= fd < Z.of_nat n →
  fd <= foldl (λ newh i, if bool_decide (i ∈ r) then i else if bool_decide (i ∈ w) then i else newh) fd0 (seqZ 0 (Z.of_nat n)).
Proof.
  intros Hs. induction n as [|n IH]; intros Hfd; [lia|].
  rewrite seqZ_S, foldl_app, Z.add_0_l. cbn [foldl].
  destruct (decide (fd = Z.of_nat n)) as [->|].
  - apply elem_of_union in Hs as [Hs|Hs]; [by rewrite bool_decide_true|].
    case_bool_decide; [done|]. by rewrite bool_decide_true.
  - case_bool_decide; [lia|]. case_bool_decide; [lia|]. apply IH. lia.
Qed.

Lemma watch_inv fd f s s' : sel_inv s → 0 <= fd → watch_fd fd f s = Some s' → sel_inv s'.
Proof.
  intros [Hp Hall] Hfd H. unfold watch_fd in H.
  assert (∀ j, j ∈ rfds_ s ∪ wfds_ s ∨ j = fd → 0 <= j <= (if highfds_ s <=? fd then fd else highfds_ s)) as Hb.
  { intros j [Hj| ->]; [specialize (Hall j Hj)|]; bool_cases; lia. }
  destruct f; injection H as <-; (split; cbn; [set_solver|]); intros j Hj; apply Hb; set_solver.
Qed.

Lemma unwatch_inv fd f s b s' : sel_inv s → fd ≠ pipefd0 s → unwatch_fd fd f s = Some (b, s') → sel_inv s'.
Proof.
  intros [Hp Hall] Hfd H. unfold unwatch_fd in H. apply bind_Some in H as ([r w] & Hrw & H).
  assert (pipefd0 s ∈ r ∧ r ∪ w ⊆ rfds_ s ∪ wfds_ s) as [Hr Hsub] by (destruct f; simplify_eq; set_solver).
  injection H as <- <-. split; cbn; [done|]. intros j Hj. assert (0 <= j <= highfds_ s) by (apply Hall; set_solver).
  destruct (_ && _); [|done]. split; [lia|]. unfold new_high.
  replace (highfds_ s + 1) with (Z.of_nat (Z.to_nat (highfds_ s + 1))) by lia. apply new_high_ge; [done|lia].
Qed.

(** [select] with these bounds reports descriptors the loop passes on, the pipe's apart. *)
Lemma wait_ready_lists tr tw high s s1 s' rl wl :
  sel_inv s1 → tr ⊆ rfds_ s1 → tw ⊆ wfds_ s1 → high = highfds_ s1 → pipefd0 s = pipefd0 s1 →
  wait_ready tr tw high s = Some (rl, wl, s') →
  (∀ fd, fd ∈ rl ↔ fd ∈ tr ∧ fd ≠ pipefd0 s) ∧ (∀ fd, fd ∈ wl ↔ fd ∈ tw ∧ ¬ (fd = pipefd0 s ∧ fd ∈ tr)).
Proof.
  intros [_ Hall] Hr Hw -> Hp H. unfold wait_ready in H. apply bind_Some in H as (s2 & _ & H). injection H as <- <- _.
  split; intros fd; rewrite !list_elem_of_filter, elem_of_seqZ; split.
  - intros (? & ? & ?). split; [done|]. intros ->. tauto.
  - intros [Hf Hne]. specialize (Hall fd ltac:(set_solver)). split_and!; [done|naive_solver|lia|lia].
  - intros (? & ? & ?). done.
  - intros [Hf Hne]. specialize (Hall fd ltac:(set_solver)). split_and!; [done|done|lia|lia].
Qed.
End select_props.

(** ** EPollAIO, which is not in use *)

Module epoll_aio.

Definition flag_bits (f : poll_flag) : Z := match f with CB_NONE => 0 | CB_RDONLY => 1 | CB_WRONLY => 16 | CB_RDWR => 17 end.
Definition CB_MASK : Z := Z.lnot 17.
Definition EPOLLIN : Z := 1.
Definition EPOLLOUT : Z := 4.
Definition EPOLLET : Z := 2147483648.

(** [epolled]: the events the kernel watches, by descriptor. *)
Record t := Mk { fdstatus_ : gmap Z Z; epolled : gmap Z Z }.

Definition new_epoll_aio : t := Mk ∅ ∅.

Definition status (fd : Z) (s : t) : Z := map_at 0 fd (fdstatus_ s).

(** The events for a status. *)
Definition events (st : Z) : Z :=
  let ev := if negb (Z.land st 1 =? 0) then Z.lor EPOLLET EPOLLIN else EPOLLET in
  if negb (Z.land st 16 =? 0) then Z.lor ev EPOLLOUT else ev.

Definition poll_flag_to_event (flag : poll_flag) : Z :=
  match flag with CB_RDONLY => EPOLLIN | CB_WRONLY => EPOLLOUT | _ => Z.lor EPOLLIN EPOLLOUT end.

(** The conversion, which nothing calls, agrees with the events that are set. *)
Lemma events_flag f : f ≠ CB_NONE → events (flag_bits f) = Z.lor EPOLLET (poll_flag_to_event f).
Proof. by destruct f. Qed.

(** [epoll_ctl] refuses to add a descriptor that is there and to change or remove one that
    is not. *)
Definition watch_fd (fd : Z) (flag : poll_flag) (s : t) : option t :=
  if negb (fd <? MAX_POLL_FDS) then None else
  let is_mod := negb (status fd s =? 0) in
  let st := Z.lor (status fd s) (flag_bits flag) in
  if bool_decide (flag = CB_RDWR) && negb (events st =? Z.lor EPOLLET (Z.lor EPOLLIN EPOLLOUT)) then None else
  if bool_decide (is_mod = map_count fd (epolled s))
  then Some (Mk (<[fd := st]> (fdstatus_ s)) (<[fd := events st]> (epolled s))) else None.

Definition unwatch_fd (fd : Z) (flag : poll_flag) (s : t) : option (bool * t) :=
  if negb (fd <? MAX_POLL_FDS) then None else
  let st := Z.land (status fd s) (Z.lnot (flag_bits flag)) in
  let is_del := st =? 0 in
  if bool_decide (flag = CB_RDWR) && negb is_del then None else
  if map_count fd (epolled s)
  then Some (is_del, Mk (<[fd := st]> (fdstatus_ s))
                        (if is_del then delete fd (epolled s) else <[fd := events st]> (epolled s)))
  else None.

Definition is_watched (fd : Z) (flag : poll_flag) (s : t) : bool := Z.land (status fd s) CB_MASK =? flag_bits flag.

Definition wait_ready (ready : list (Z * Z)) : list Z * list Z :=
  (fst <$> filter (λ p, Z.land (snd p) EPOLLIN ≠ 0) ready, fst <$> filter (λ p, Z.land (snd p) EPOLLOUT ≠ 0) ready).

(** The mask keeps the bits that are not flags, so that nothing ever counts as watched. *)
Lemma never_watched fd f g s s' :
  f ≠ CB_NONE → g ≠ CB_NONE → status fd s = 0 → watch_fd fd f s = Some s' → is_watched fd g s' = false.
Proof.
  intros Hf Hg Hs H. unfold watch_fd in H. destruct (negb _); [done|]. destruct (_ && _); [done|].
  case_bool_decide; [|done]. injection H as <-. unfold is_watched, status. cbn.
  rewrite (map_at_some _ _ _ (Z.lor (status fd s) (flag_bits f))) by apply lookup_insert_eq. rewrite Hs.
  by destruct f, g.
Qed.
End epoll_aio.

(** ** The poll manager *)

Section pollmgr.
Context {Σ : Type} `{AioMgrOk Σ}.

(** [callbacks_]: the objects that are called, by their number. *)
Record pollmgr := PollMgr { callbacks_ : gmap Z nat; aio_ : Σ; pending_change_ : bool }.

Definition add_callback (fd : Z) (flag : poll_flag) (ch : nat) (s : pollmgr) : option pollmgr :=
  if negb (fd <? MAX_POLL_FDS) then None else
  a ← watch_fd fd flag (aio_ s);
  match callbacks_ s !! fd with
  | Some c => if bool_decide (c = ch) then Some (PollMgr (<[fd := ch]> (callbacks_ s)) a (pending_change_ s)) else None
  | None => Some (PollMgr (<[fd := ch]> (callbacks_ s)) a (pending_change_ s))
  end.

(** Up to the wait, and after it. *)
Definition block_remove_begin (fd : Z) (s : pollmgr) : option pollmgr :=
  '(_, a) ← unwatch_fd fd CB_RDWR (aio_ s); Some (PollMgr (callbacks_ s) a true).

Definition block_remove_end (fd : Z) (s : pollmgr) : pollmgr :=
  PollMgr (delete fd (callbacks_ s)) (aio_ s) (pending_change_ s).

Definition del_callback (fd : Z) (flag : poll_flag) (s : pollmgr) : option pollmgr :=
  '(b, a) ← unwatch_fd fd flag (aio_ s);
  Some (PollMgr (if b : bool then delete fd (callbacks_ s) else callbacks_ s) a (pending_change_ s)).

Definition has_callback (fd : Z) (flag : poll_flag) (c : nat) (s : pollmgr) : bool :=
  match callbacks_ s !! fd with
  | Some c' => if bool_decide (c' = c) then is_watched fd flag (aio_ s) else false
  | None => false
  end.

(** The thread of [wait_loop]: at the top of the loop, before [wait_ready], in [select] with
    copies of the sets, and calling back. *)
Inductive loop_pos :=
  | LTop
  | LWait
  | LSelect (tr tw : gset Z)
  | LCall (readable writable : list Z).

(** [waiting], [released]: descriptors of calls of [block_remove_fd] before and after the
    broadcast; [gone]: those whose call returned and that were not added again. *)
Record psys := PSys {
  mgr : pollmgr;
  loop : loop_pos;
  waiting : gset Z;
  released : gset Z;
  gone : gset Z;
}.

Inductive pstep : psys → psys → Prop :=
  | ps_add fd flag ch m s :
      flag ≠ CB_NONE → add_callback fd flag ch (mgr s) = Some m →
      pstep s (PSys m (loop s) (waiting s ∖ {[fd]}) (released s ∖ {[fd]}) (gone s ∖ {[fd]}))
  | ps_del fd flag m s :
      flag ≠ CB_NONE → del_callback fd flag (mgr s) = Some m → pstep s (PSys m (loop s) (waiting s) (released s) (gone s))
  | ps_remove fd m s :
      block_remove_begin fd (mgr s) = Some m →
      pstep s (PSys m (loop s) ({[fd]} ∪ waiting s) (released s ∖ {[fd]}) (gone s ∖ {[fd]}))
  | ps_removed fd s :
      fd ∈ released s →
      pstep s (PSys (block_remove_end fd (mgr s)) (loop s) (waiting s) (released s ∖ {[fd]}) ({[fd]} ∪ gone s))
  | ps_top s :
      loop s = LTop →
      pstep s (if pending_change_ (mgr s)
               then PSys (PollMgr (callbacks_ (mgr s)) (aio_ (mgr s)) false) LWait ∅ (waiting s ∪ released s) (gone s)
               else PSys (mgr s) LWait (waiting s) (released s) (gone s))
  | ps_select s :
      loop s = LWait →
      pstep s (PSys (mgr s) (LSelect (rd_set (aio_ (mgr s))) (wr_set (aio_ (mgr s)))) (waiting s) (released s) (gone s))
  | ps_ready tr tw rl wl s :
      loop s = LSelect tr tw → (∀ fd, fd ∈ rl → fd ∈ tr) → (∀ fd, fd ∈ wl → fd ∈ tw) →
      pstep s (PSys (mgr s) (if bool_decide (rl = [] ∧ wl = []) then LTop else LCall rl wl) (waiting s) (released s) (gone s))
  | ps_read fd rl wl s :
      loop s = LCall (fd :: rl) wl → pstep s (PSys (mgr s) (LCall rl wl) (waiting s) (released s) (gone s))
  | ps_write fd wl s :
      loop s = LCall [] (fd :: wl) → pstep s (PSys (mgr s) (LCall [] wl) (waiting s) (released s) (gone s))
  | ps_again s :
      loop s = LCall [] [] → pstep s (PSys (mgr s) LTop (waiting s) (released s) (gone s)).

(** The descriptors the loop may still call. *)
Definition may_call (l : loop_pos) (fd : Z) : Prop :=
  match l with
  | LTop | LWait => False
  | LSelect tr tw => fd ∈ tr ∨ fd ∈ tw
  | LCall rl wl => fd ∈ rl ∨ fd ∈ wl
  end.

Record quiet (s : psys) : Prop := Quiet {
  q_unwatched fd : fd ∈ waiting s ∪ released s ∪ gone s → fd ∉ rd_set (aio_ (mgr s)) ∧ fd ∉ wr_set (aio_ (mgr s));
  q_called fd : fd ∈ released s ∪ gone s → ¬ may_call (loop s) fd;
  q_pending : waiting s ≠ ∅ → pending_change_ (mgr s) = true;
}.

Lemma set_bit_other on fd fd' s : fd ≠ fd' → fd' ∈ set_bit on fd s ↔ fd' ∈ s.
Proof. intros Hne. unfold set_bit. destruct on; set_solver. Qed.

Lemma clr_bit_sub off fd fd' s : fd' ∈ clr_bit off fd s → fd' ∈ s.
Proof. unfold clr_bit. destruct off; set_solver. Qed.

Lemma add_sets fd flag ch s m :
  flag ≠ CB_NONE → add_callback fd flag ch s = Some m →
  (∀ j, j ≠ fd → (j ∈ rd_set (aio_ m) ↔ j ∈ rd_set (aio_ s)) ∧ (j ∈ wr_set (aio_ m) ↔ j ∈ wr_set (aio_ s))) ∧
  pending_change_ m = pending_change_ s.
Proof using Type*.
  intros Hf Ha. unfold add_callback in Ha. destruct (negb _); [done|]. apply bind_Some in Ha as (a & Hw & Ha).
  destruct (watch_ok fd flag _ _ Hf Hw) as [E1 E2].
  assert (m = PollMgr (<[fd := ch]> (callbacks_ s)) a (pending_change_ s)) as ->
    by (destruct (callbacks_ s !! fd); [case_bool_decide|]; by simplify_eq).
  split; [|done]. intros j Hj. cbn. rewrite E1, E2. split; by apply set_bit_other.
Qed.

Lemma del_sets fd flag s m :
  flag ≠ CB_NONE → del_callback fd flag s = Some m →
  rd_set (aio_ m) ⊆ rd_set (aio_ s) ∧ wr_set (aio_ m) ⊆ wr_set (aio_ s) ∧ pending_change_ m = pending_change_ s.
Proof using Type*.
  intros Hf Ha. unfold del_callback in Ha. apply bind_Some in Ha as ([b a] & Hu & Ha). injection Ha as <-. cbn.
  destruct (unwatch_ok fd flag _ _ _ Hf Hu) as (E1 & E2 & _). rewrite E1, E2.
  split_and!; [intros j; apply clr_bit_sub..|done].
Qed.

Lemma quiet_step s s' : quiet s → pstep s s' → quiet s'.
Proof using Type*.
  intros [Q1 Q2 Q3] Hs.
  destruct Hs as [fd flag ch m s Hf Ha|fd flag m s Hf Ha|fd m s Ha|fd s Hr|s Hl|s Hl|tr tw rl wl s Hl Hrl Hwl|fd rl wl s Hl|fd wl s Hl|s Hl].
  - destruct (add_sets _ _ _ _ _ Hf Ha) as [Hset Hp]. split; cbn.
    + intros j Hj. assert (j ≠ fd) as Hne by set_solver. destruct (Hset j Hne) as [-> ->]. apply Q1. set_solver.
    + intros j Hj. apply Q2. set_solver.
    + intros Hw. rewrite Hp. apply Q3. set_solver.
  - destruct (del_sets _ _ _ _ Hf Ha) as (S1 & S2 & Hp). split; cbn.
    + intros j Hj. destruct (Q1 j Hj). set_solver.
    + done.
    + by rewrite Hp.
  - unfold block_remove_begin in Ha. apply bind_Some in Ha as ([b a] & Hu & Ha). injection Ha as <-.
    destruct (unwatch_ok fd CB_RDWR _ _ _ ltac:(done) Hu) as (E1 & E2 & _). split; cbn; [| |done].
    + intros j Hj. rewrite E1, E2. cbn. destruct (decide (j = fd)) as [->|]; [set_solver|].
      destruct (Q1 j); set_solver.
    + intros j Hj. apply Q2. set_solver.
  - split; cbn.
    + intros j Hj. apply Q1. set_solver.
    + intros j Hj. apply Q2. set_solver.
    + done.
  - destruct (pending_change_ (mgr s)) eqn:E; split; cbn.
    + intros j Hj. apply Q1. set_solver.
    + intros j _ [].
    + done.
    + done.
    + intros j _ [].
    + intros Hw. by rewrite (Q3 Hw) in E.
  - split; cbn; [done| |done]. intros j Hj. destruct (Q1 j); [set_solver|]. tauto.
  - split; cbn; [done| |done]. intros j Hj Hc. apply (Q2 j Hj). rewrite Hl. cbn.
    case_bool_decide; [done|]. destruct Hc; auto.
  - split; cbn; [done| |done]. intros j Hj Hc. apply (Q2 j Hj). rewrite Hl. cbn.
    destruct Hc; [left; by right|by right].
  - split; cbn; [done| |done]. intros j Hj Hc. apply (Q2 j Hj). rewrite Hl. cbn.
    destruct Hc as [Hc|Hc]; [by apply elem_of_nil in Hc|right; by right].
  - split; cbn; [done| |done]. by intros j _ [].
Qed.

End pollmgr.

Arguments pollmgr _ : clear implicits.
Arguments psys _ : clear implicits.

