(* ===== verification/Fifo.v ===== *)
(** * The bounded queue and the thread pool

    rpc/fifo.h and rpc/thr_pool.cc.  [enq] and [deq] are the bodies of the loops between
    two waits; the threads that call them, sleep at a condition variable and are woken are
    the state of a step relation. *)

From S2P Require Import Prelude.

(** ** fifo.h *)

Section fifo.
Context {T : Type}.

Record fifo := Fifo { q_ : list T; max_ : Z }.

Definition new_fifo (limit : Z) : fifo := Fifo [] (u32 limit).

(** [size] returns a [bool]. *)
Definition fifo_size (f : fifo) : bool := negb (Z.of_nat (length (q_ f)) =? 0).

(** The queue after the element was added, with [non_empty_c_] signalled; or the wait at
    [has_space_c_]; or the return of false. *)
Inductive enq_result := EnqPushed (f : fifo) | EnqWaits | EnqRefused.

Definition enq (e : T) (blocking : bool) (f : fifo) : enq_result :=
  if (max_ f =? 0) || (Z.of_nat (length (q_ f)) <? max_ f)
  then EnqPushed (Fifo (q_ f ++ [e]) (max_ f))
  else if blocking then EnqWaits else EnqRefused.

(** The element, the queue and whether [has_space_c_] is signalled; [None] is the wait
    at [non_empty_c_]. *)
Definition deq (f : fifo) : option (T * fifo * bool) :=
  match q_ f with
  | [] => None
  | e :: q => Some (e, Fifo q (max_ f), negb (max_ f =? 0) && (Z.of_nat (length q) <? max_ f))
  end.

(** *** Threads *)

Record fstate := FState {
  fq : fifo;
  wait_p : list T;     (* producers asleep at has_space_c_, with their element *)
  woken_p : list T;    (* producers that were woken and have not run yet *)
  wait_c : nat;        (* consumers asleep at non_empty_c_ *)
  woken_c : nat;
  ins : list T;        (* elements added so far, in order *)
  outs : list T;       (* elements taken so far, in order *)
}.

Definition fstart (limit : Z) : fstate := FState (new_fifo limit) [] [] 0 0 [] [].

(** [pthread_cond_signal] wakes one sleeping thread, if there is one; [k] chooses. *)
Definition signal_c (s : fstate) : fstate :=
  match wait_c s with
  | O => s
  | S n => FState (fq s) (wait_p s) (woken_p s) n (S (woken_c s)) (ins s) (outs s)
  end.

Definition signal_p (k : nat) (s : fstate) : fstate :=
  let k := (k `mod` length (wait_p s))%nat in
  match wait_p s !! k with
  | None => s
  | Some e => FState (fq s) (delete k (wait_p s)) (woken_p s ++ [e]) (wait_c s) (woken_c s) (ins s) (outs s)
  end.

(** A producer with [e] runs up to its return or its wait. *)
Definition try_enq (e : T) (blocking : bool) (s : fstate) : fstate :=
  match enq e blocking (fq s) with
  | EnqPushed f =>
      signal_c (FState f (wait_p s) (woken_p s) (wait_c s) (woken_c s) (ins s ++ [e]) (outs s))
  | EnqWaits => FState (fq s) (wait_p s ++ [e]) (woken_p s) (wait_c s) (woken_c s) (ins s) (outs s)
  | EnqRefused => s
  end.

Definition try_deq (k : nat) (s : fstate) : fstate :=
  match deq (fq s) with
  | None => FState (fq s) (wait_p s) (woken_p s) (S (wait_c s)) (woken_c s) (ins s) (outs s)
  | Some (e, f, signal) =>
      let s := FState f (wait_p s) (woken_p s) (wait_c s) (woken_c s) (ins s) (outs s ++ [e]) in
      if signal then signal_p k s else s
  end.

Definition unwoken_p (k : nat) (s : fstate) : fstate :=
  FState (fq s) (wait_p s) (delete k (woken_p s)) (wait_c s) (woken_c s) (ins s) (outs s).
Definition unwoken_c (s : fstate) : fstate :=
  FState (fq s) (wait_p s) (woken_p s) (wait_c s) (pred (woken_c s)) (ins s) (outs s).

Inductive fstep (s : fstate) : fstate → Prop :=
  | FNewEnq e blocking : fstep s (try_enq e blocking s)
  | FWokenEnq k e : woken_p s !! k = Some e → fstep s (try_enq e true (unwoken_p k s))
  | FNewDeq k : fstep s (try_deq k s)
  | FWokenDeq k : woken_c s ≠ O → fstep s (try_deq k (unwoken_c s))
  | FSpurious_p k : fstep s (signal_p k s)
  | FSpurious_c : fstep s (signal_c s).

(** A sleeping consumer means that every element has a woken consumer to take it; a
    sleeping producer, that every free slot has a woken producer.  [dc] and [dp]: how
    many signals are still owed. *)
Record finv (dc dp : nat) (s : fstate) : Prop := FInv {
  fi_order : outs s ++ q_ (fq s) = ins s;
  fi_bound : max_ (fq s) ≠ 0 → Z.of_nat (length (q_ (fq s))) <= max_ (fq s);
  fi_max : 0 <= max_ (fq s);
  fi_cons : wait_c s ≠ O → (length (q_ (fq s)) <= woken_c s + dc)%nat;
  fi_prod : wait_p s ≠ [] → max_ (fq s) ≠ 0 ∧
    max_ (fq s) - Z.of_nat (length (q_ (fq s))) <= Z.of_nat (length (woken_p s) + dp);
}.

Lemma finv_weaken dc dp s : finv 0 0 s → finv dc dp s.
Proof.
  intros [H1 H2 H3 H4 H5]. split; try done.
  - intros Hw. specialize (H4 Hw). lia.
  - intros Hw. destruct (H5 Hw). split; [done|lia].
Qed.

Lemma signal_c_inv s : finv 1 0 s → finv 0 0 (signal_c s).
Proof.
  intros [H1 H2 H3 H4 H5]. unfold signal_c. destruct (wait_c s) as [|n] eqn:E.
  - split; try done; congruence.
  - specialize (H4 ltac:(done)). split; cbn; try done. intros _. lia.
Qed.

Lemma signal_p_inv k s : finv 0 1 s → finv 0 0 (signal_p k s).
Proof.
  intros [H1 H2 H3 H4 H5]. unfold signal_p. set (i := (k `mod` _)%nat).
  destruct (wait_p s !! i) as [e|] eqn:E.
  - assert (wait_p s ≠ []) as Hne by (by intros Hn; rewrite Hn in E).
    specialize (H5 Hne). split; cbn; try done. intros _. rewrite length_app. cbn. split; [tauto|lia].
  - assert (wait_p s = []) as Hn.
    { destruct (wait_p s) as [|x l] eqn:Hw; [done|]. apply lookup_ge_None in E.
      unfold i in E. pose proof (Nat.mod_upper_bound k (length (x :: l)) ltac:(done)). lia. }
    split; try done.
Qed.

Lemma try_enq_inv e blocking s : finv 0 1 s → finv 0 0 (try_enq e blocking s).
Proof.
  intros [H1 H2 H3 H4 H5]. unfold try_enq, enq.
  destruct (Z.eqb_spec (max_ (fq s)) 0) as [H0|H0]; cbn [orb].
  - apply signal_c_inv. split; cbn; rewrite ?length_app; cbn; try done.
    + by rewrite (assoc_L (++)), H1.
    + intros Hw. specialize (H4 Hw). lia.
    + intros Hw. by destruct (H5 Hw).
  - specialize (H2 H0). destruct (Z.ltb_spec (Z.of_nat (length (q_ (fq s)))) (max_ (fq s))).
    + apply signal_c_inv. split; cbn; rewrite ?length_app; cbn; try done.
      * by rewrite (assoc_L (++)), H1.
      * lia.
      * intros Hw. specialize (H4 Hw). lia.
      * intros Hw. destruct (H5 Hw). split; [done|lia].
    + destruct blocking; split; cbn; try done; intros _; (split; [done|lia]).
Qed.

Lemma try_deq_inv k s : finv 1 0 s → finv 0 0 (try_deq k s).
Proof.
  intros [H1 H2 H3 H4 H5]. unfold try_deq, deq. destruct (q_ (fq s)) as [|e q] eqn:Eq.
  - split; cbn; rewrite ?Eq; try done. cbn. lia.
  - cbn [length] in *.
    assert (finv 0 1 (FState (Fifo q (max_ (fq s))) (wait_p s) (woken_p s) (wait_c s) (woken_c s)
                        (ins s) (outs s ++ [e]))) as I.
    { split; cbn; try done.
      - by rewrite <- (assoc_L (++)).
      - intros H0. specialize (H2 H0). lia.
      - intros Hw. specialize (H4 Hw). lia.
      - intros Hw. destruct (H5 Hw). split; [done|lia]. }
    destruct (Z.eqb_spec (max_ (fq s)) 0) as [H0|H0]; cbn [negb andb].
    + destruct I as [I1 I2 I3 I4 I5]. split; cbn in *; try done. intros Hw. by destruct (I5 Hw).
    + specialize (H2 H0). destruct (Z.ltb_spec (Z.of_nat (length q)) (max_ (fq s))); [|lia].
      by apply signal_p_inv.
Qed.

Lemma fstep_inv s s' : finv 0 0 s → fstep s s' → finv 0 0 s'.
Proof.
  intros I Hs. destruct Hs as [e b|k e He|k|k Hk|k|].
  - by apply try_enq_inv, finv_weaken.
  - apply try_enq_inv. destruct I as [H1 H2 H3 H4 H5]. split; cbn; try done.
    intros Hw. destruct (H5 Hw). rewrite length_delete by eauto.
    pose proof (lookup_lt_Some _ _ _ He). split; [done|lia].
  - by apply try_deq_inv, finv_weaken.
  - apply try_deq_inv. destruct I as [H1 H2 H3 H4 H5]. split; cbn; try done.
    intros Hw. specialize (H4 Hw). lia.
  - by apply signal_p_inv, finv_weaken.
  - by apply signal_c_inv, finv_weaken.
Qed.

Lemma fstart_inv limit : finv 0 0 (fstart limit).
Proof.
  split; cbn; try done; [intros _|]; destruct (u32_range limit); lia.
Qed.

Lemma frun_inv limit s : rtc fstep (fstart limit) s → finv 0 0 s.
Proof.
  intros H. pose proof (fstart_inv limit) as I. revert I.
  induction H as [|s1 s2 s3 H12 _ IH]; [done|]. intros I. apply IH. by eapply fstep_inv.
Qed.
End fifo.

Arguments fifo T : clear implicits.
Arguments fstate T : clear implicits.

(** The queue is first-in first-out and bounded: in every interleaving of
    producers and consumers the elements taken and those in the queue are the elements
    added, in order, and a limited queue never exceeds its limit. *)
Theorem fifo_order {T} limit (s : fstate T) :
  rtc fstep (fstart limit) s →
  outs s ++ q_ (fq s) = ins s ∧ (max_ (fq s) ≠ 0 → Z.of_nat (length (q_ (fq s))) <= max_ (fq s)).
Proof. intros H. destruct (frun_inv limit s H). done. Qed.

(** No wake-up is lost: when a consumer sleeps although the queue is not empty, a
    woken consumer is on its way and its next step takes the first element; when a producer
    sleeps although there is room, a woken producer is on its way and its next step adds its
    element. *)
Theorem fifo_progress {T} limit (s : fstate T) :
  rtc fstep (fstart limit) s →
  (∀ e q, wait_c s ≠ O → q_ (fq s) = e :: q →
     woken_c s ≠ O ∧ ∀ k, q_ (fq (try_deq k (unwoken_c s))) = q ∧
       outs (try_deq k (unwoken_c s)) = outs s ++ [e]) ∧
  (wait_p s ≠ [] → Z.of_nat (length (q_ (fq s))) < max_ (fq s) →
     ∃ k e, woken_p s !! k = Some e ∧ q_ (fq (try_enq e true (unwoken_p k s))) = q_ (fq s) ++ [e]).
Proof.
  intros H. destruct (frun_inv limit s H) as [H1 H2 H3 H4 H5]. split.
  - intros e q Hw Hq. specialize (H4 Hw). rewrite Hq in H4. cbn in H4. split; [lia|]. intros k.
    unfold try_deq, deq. cbn [fq unwoken_c]. rewrite Hq. destruct (_ && _); cbn; [|done].
    unfold signal_p. cbn. by destruct (wait_p s !! _).
  - intros Hw Hlt. destruct (H5 Hw) as [H0 Hle]. destruct (woken_p s) as [|e l] eqn:Hp; [cbn in Hle; lia|].
    exists O, e. split; [done|]. unfold try_enq, enq. cbn [fq unwoken_p].
    rewrite (proj2 (Z.ltb_lt _ _) Hlt), orb_true_r. unfold signal_c. cbn. by destruct (wait_c s).
Qed.

Lemma fifo_order_witness :
  let s := try_deq 0 (try_enq 6 true (try_enq 5 true (fstart 1))) in
  rtc fstep (fstart 1) s ∧ outs s ++ q_ (fq s) = [5] ∧ wait_p s = [] ∧ woken_p s = [6].
Proof.
  intros s. assert (rtc fstep (fstart 1) s) as H.
  { eapply rtc_l; [apply (FNewEnq _ 5 true)|]. eapply rtc_l; [apply (FNewEnq _ 6 true)|].
    eapply rtc_l; [apply (FNewDeq _ 0)|]. apply rtc_refl. }
  destruct (fifo_order 1 s H) as [H1 _]. split; [exact H|]. split; [rewrite H1; reflexivity|].
  split; reflexivity.
Defined.

Lemma fifo_progress_witness :
  let s := try_enq 5 true (try_deq 0 (try_deq 0 (fstart 0))) in
  rtc fstep (fstart 0) s ∧ wait_c s = 1%nat ∧ woken_c s ≠ O ∧ outs (try_deq 0 (unwoken_c s)) = [5].
Proof.
  intros s. assert (rtc fstep (fstart 0) s) as H.
  { eapply rtc_l; [apply (FNewDeq _ 0)|]. eapply rtc_l; [apply (FNewDeq _ 0)|].
    eapply rtc_l; [apply (FNewEnq _ 5 true)|]. apply rtc_refl. }
  destruct (fifo_progress 0 s H) as [H1 _].
  destruct (H1 5 [] ltac:(discriminate) eq_refl) as [H2 H3].
  split; [exact H|]. split; [reflexivity|]. split; [exact H2|]. exact (proj2 (H3 O)).
Defined.

(** ** thr_pool.cc

    A job is a function and its argument; the poison pill, a null function, is [None]. *)

Section pool.
Context {J : Type}.

Record pool := Pool {
  nthreads_ : nat;
  blockadd_ : bool;
  jobq_ : fifo (option J);
  workers : nat;              (* worker threads that have not exited *)
  ran : list J;               (* jobs taken by workers, in order *)
}.

Definition new_pool (sz : nat) (blocking : bool) : pool :=
  Pool sz blocking (new_fifo (100 * Z.of_nat sz)) sz [].

(** [None] inside: the caller waits. *)
Definition addJob (j : J) (p : pool) : option bool * pool :=
  match enq (Some j) (blockadd_ p) (jobq_ p) with
  | EnqPushed f => (Some true, Pool (nthreads_ p) (blockadd_ p) f (workers p) (ran p))
  | EnqWaits => (None, p)
  | EnqRefused => (Some false, p)
  end.

(** A worker calls [takeJob] and runs the job or exits; [None]: it waits. *)
Definition do_worker (p : pool) : option pool :=
  '(j, f, _) ← deq (jobq_ p);
  match j with
  | Some j => Some (Pool (nthreads_ p) (blockadd_ p) f (workers p) (ran p ++ [j]))
  | None => Some (Pool (nthreads_ p) (blockadd_ p) f (pred (workers p)) (ran p))
  end.

(** One round of the destructor's first loop; [None]: it waits. *)
Definition add_pill (p : pool) : option pool :=
  match enq None true (jobq_ p) with
  | EnqPushed f => Some (Pool (nthreads_ p) (blockadd_ p) f (workers p) (ran p))
  | _ => None
  end.

(** The destructor, with [n] pills to add, and the workers. *)
Inductive shutdown : nat * pool → nat * pool → Prop :=
  | SPill n p p' : add_pill p = Some p' → shutdown (S n, p) (n, p')
  | SWork n p p' : workers p ≠ O → do_worker p = Some p' → shutdown (n, p) (n, p').

(** The jobs [all] were there before; [n] pills are to come. *)
Definition pool_inv (all : list J) (x : nat * pool) : Prop :=
  let '(n, p) := x in
  ∃ js k, q_ (jobq_ p) = (Some <$> js) ++ replicate k None ∧ ran p ++ js = all ∧
    workers p = (n + k)%nat ∧ (js ≠ [] → n + k ≠ 0)%nat ∧
    0 < max_ (jobq_ p) ∧ Z.of_nat (length (q_ (jobq_ p))) <= max_ (jobq_ p).

Definition work_left (x : nat * pool) : nat := 2 * fst x + length (q_ (jobq_ (snd x))).

Lemma shutdown_step all x y :
  pool_inv all x → shutdown x y → pool_inv all y ∧ (work_left y < work_left x)%nat.
Proof.
  intros I Hs. destruct Hs as [n p p' Hp|n p p' Hw Hp];
    destruct I as (js & k & Hq & Hall & Hwk & Hne & Hm & Hb).
  - unfold add_pill, enq in Hp. destruct (_ || _) eqn:E; [|done]. injection Hp as <-. cbn. split.
    + exists js, (S k). rewrite Hq, replicate_S_end, (assoc_L (++)), Hwk. split_and!; try done; [lia|intros; lia|].
      rewrite <- Hq, length_app. cbn. apply orb_true_iff in E as [E|E]; lia.
    + rewrite length_app. cbn. lia.
  - unfold do_worker, deq in Hp. rewrite Hq in Hp. unfold work_left. cbn [fst snd]. rewrite Hq in Hb |- *.
    destruct js as [|j js]; [destruct k as [|k]; [done|]|]; cbn in Hp; injection Hp as <-; cbn in Hb |- *.
    + split; [|lia]. exists [], k. cbn. rewrite Hwk. split_and!; try done; lia.
    + split; [|lia]. exists js, k. cbn. rewrite <- (assoc_L (++)), Hwk. split_and!; try done; [|lia].
      intros _. apply Hne. done.
Qed.

Lemma shutdown_progress all n p :
  pool_inv all (n, p) →
  (∃ y, shutdown (n, p) y) ∨ (n = O ∧ workers p = O ∧ ran p = all ∧ q_ (jobq_ p) = []).
Proof.
  intros (js & k & Hq & Hall & Hwk & Hne & Hm & Hb). destruct (q_ (jobq_ p)) as [|j q] eqn:E.
  - destruct js; [|done]. destruct k; [|done]. destruct n as [|n].
    + right. rewrite app_nil_r in Hall. rewrite Nat.add_0_r in Hwk. done.
    + left. eexists. apply SPill. unfold add_pill, enq. rewrite E.
      change (Z.of_nat (length [])) with 0. by rewrite (proj2 (Z.ltb_lt _ _) Hm), orb_true_r.
  - left. destruct j as [j|]; eexists; apply SWork; try (unfold do_worker, deq; rewrite E; reflexivity).
    + destruct js; [by destruct k|]. specialize (Hne ltac:(done)). lia.
    + destruct js; [|done]. destruct k; [done|]. lia.
Qed.
End pool.

Arguments pool J : clear implicits.


