(* ===== verification/Threads.v ===== *)
(** * Methods as threads and as jobs

    rpc/method_thread.h and the template of rpc/thr_pool.h: a call of a method that another
    thread is to make is an object on the heap with the receiver, the method and the
    arguments.  A new thread copies and deletes it before the call, a worker of the pool
    deletes it after the call.  An access to an object that does not exist is [None]. *)

From S2P Require Import Prelude.
From S2P Require Import Fifo.

Section glue.
(** [A] is the type of the arguments, a tuple. *)
Context {O M A : Type}.

(** The classes XXX and objfunc_wrapper. *)
Record closure := Closure { x_o : O; x_m : M; x_a : A }.

Record glue := Glue {
  heap : gmap nat closure;      (* the objects, by address *)
  starting : list nat;          (* arguments of threads that were created and have not begun *)
  waiting : list nat;           (* jobs whose sender waits for space in the queue *)
  jobs : pool nat;              (* the pool; a job is the address of its object *)
  running : list nat;           (* objects of jobs whose method runs *)
  refused : list nat;           (* objects of jobs the pool did not take *)
  asked : list closure;         (* the calls that were to be made, and those made so far *)
  called : list closure;
}.

(** The process goes on, or [exit(1)]. *)
Inductive gout := Goes (g : glue) | Ends.

(** [new], which returns [x], and the assignments. *)
Definition new_closure (x : nat) (c : closure) (g : glue) : option glue :=
  match heap g !! x with
  | Some _ => None
  | None => Some (Glue (<[x := c]> (heap g)) (starting g) (waiting g) (jobs g) (running g) (refused g)
                    (asked g) (called g))
  end.

Definition delete_closure (x : nat) (g : glue) : option glue :=
  _ ← heap g !! x;
  Some (Glue (delete x (heap g)) (starting g) (waiting g) (jobs g) (running g) (refused g) (asked g) (called g)).

(** [created]: whether [pthread_create] succeeds.  That a thread is detached has no
    effect here. *)
Definition method_thread_parent (created : bool) (x : nat) (c : closure) (g : glue) : gout :=
  if created
  then Goes (Glue (heap g) (starting g ++ [x]) (waiting g) (jobs g) (running g) (refused g) (asked g ++ [c]) (called g))
  else Ends.

Definition method_thread (created : bool) (x : nat) (o : O) (m : M) (a : A) (g : glue) : option gout :=
  let c := Closure o m a in
  g ← new_closure x c g; Some (method_thread_parent created x c g).

(** [yyy], which the [k]-th of the new threads runs. *)
Definition yyy (k : nat) (g : glue) : option glue :=
  x ← starting g !! k; c ← heap g !! x; g ← delete_closure x g;
  Some (Glue (heap g) (delete k (starting g)) (waiting g) (jobs g) (running g) (refused g) (asked g) (called g ++ [c])).

(** [addJob] of the object [x]: queued, refused, or the sender waits. *)
Definition add_closure (x : nat) (c : closure) (g : glue) : option bool * glue :=
  match addJob x (jobs g) with
  | (Some true, p) =>
      (Some true, Glue (heap g) (starting g) (waiting g) p (running g) (refused g) (asked g ++ [c]) (called g))
  | (Some false, p) =>
      (Some false, Glue (heap g) (starting g) (waiting g) p (running g) (refused g ++ [x]) (asked g) (called g))
  | (None, p) =>
      (None, Glue (heap g) (starting g) (waiting g ++ [x]) p (running g) (refused g) (asked g ++ [c]) (called g))
  end.

Definition addObjJob (x : nat) (o : O) (m : M) (a : A) (g : glue) : option (option bool * glue) :=
  let c := Closure o m a in
  g ← new_closure x c g; Some (add_closure x c g).

(** A sender that waited finds space. *)
Definition resume_add (k : nat) (g : glue) : option glue :=
  x ← waiting g !! k;
  match addJob x (jobs g) with
  | (Some true, p) =>
      Some (Glue (heap g) (starting g) (delete k (waiting g)) p (running g) (refused g) (asked g) (called g))
  | _ => None
  end.

(** A worker takes the next job and calls [func], which calls the method; or it takes a
    poison pill. *)
Definition run_job (g : glue) : option glue :=
  '(j, _, _) ← deq (jobq_ (jobs g)); p ← do_worker (jobs g);
  match j with
  | None => Some (Glue (heap g) (starting g) (waiting g) p (running g) (refused g) (asked g) (called g))
  | Some x =>
      c ← heap g !! x;
      Some (Glue (heap g) (starting g) (waiting g) p (running g ++ [x]) (refused g) (asked g) (called g ++ [c]))
  end.

(** The method returns and [func] deletes the object. *)
Definition end_job (k : nat) (g : glue) : option glue :=
  x ← running g !! k; g ← delete_closure x g;
  Some (Glue (heap g) (starting g) (waiting g) (jobs g) (delete k (running g)) (refused g) (asked g) (called g)).

(** A poison pill of the destructor of the pool. *)
Definition pill (g : glue) : option glue :=
  p ← add_pill (jobs g);
  Some (Glue (heap g) (starting g) (waiting g) p (running g) (refused g) (asked g) (called g)).

Inductive glabel :=
  | GThread (x : nat) (o : O) (m : M) (a : A) | GStart (k : nat)
  | GAdd (x : nat) (o : O) (m : M) (a : A) | GResume (k : nat) | GRun | GEnd (k : nat) | GPill.

Definition gstep (l : glabel) (g : glue) : option glue :=
  match l with
  | GThread x o m a => match method_thread true x o m a g with Some (Goes g) => Some g | _ => None end
  | GStart k => yyy k g
  | GAdd x o m a => snd <$> addObjJob x o m a g
  | GResume k => resume_add k g
  | GRun => run_job g
  | GEnd k => end_job k g
  | GPill => pill g
  end.

Definition glue_start (sz : nat) (blocking : bool) : glue := Glue ∅ [] [] (new_pool sz blocking) [] [] [] [].

Inductive gruns (sz : nat) (blocking : bool) : glue → Prop :=
  | gruns_start : gruns sz blocking (glue_start sz blocking)
  | gruns_step g l g' : gruns sz blocking g → gstep l g = Some g' → gruns sz blocking g'.

(** ** Where the objects are *)

Definition queued (g : glue) : list nat := omap id (q_ (jobq_ (jobs g))).
(** Calls that are still to be made, and all references to objects. *)
Definition pending (g : glue) : list nat := starting g ++ waiting g ++ queued g.
Definition pointers (g : glue) : list nat := pending g ++ running g ++ refused g.

(** The objects are the targets of the references, each referred to once; the calls asked
    for are those made and those pending. *)
Definition accounted (h : gmap nat closure) (P Q : list nat) (a c : list closure) : Prop :=
  NoDup (P ++ Q) ∧ (∀ x, x ∈ P ++ Q ↔ is_Some (h !! x)) ∧ a ≡ₚ c ++ omap (h !!.) P.

Definition glue_inv (g : glue) : Prop :=
  accounted (heap g) (pending g) (running g ++ refused g) (asked g) (called g).

Section accounted.
Implicit Types (h : gmap nat closure) (P Q : list nat) (a c : list closure).

#[local] Instance accounted_proper h :
  Proper ((≡ₚ) ==> (≡ₚ) ==> eq ==> eq ==> iff) (accounted h).
Proof.
  intros P P' HP Q Q' HQ a ? <- c ? <-. unfold accounted. rewrite HP, HQ.
  split; intros (H1 & H2 & H3); (split_and!; [done| |done]); intros x; rewrite <- H2; by rewrite HP, HQ.
Qed.

Lemma omap_insert_fresh h P x cl : x ∉ P → omap (<[x := cl]> h !!.) P = omap (h !!.) P.
Proof.
  intros Hx. apply list_omap_ext, Forall_Forall2_diag, Forall_forall. intros y Hy. apply lookup_insert_ne. by intros ->.
Qed.
Lemma omap_delete_fresh h P x : x ∉ P → omap (delete x h !!.) P = omap (h !!.) P.
Proof.
  intros Hx. apply list_omap_ext, Forall_Forall2_diag, Forall_forall. intros y Hy. apply lookup_delete_ne. by intros ->.
Qed.

Lemma accounted_fresh h P Q a c x : accounted h P Q a c → h !! x = None → x ∉ P ++ Q.
Proof. intros (_ & H2 & _) Hx Hin. apply H2 in Hin as [? Hs]. congruence. Qed.

Lemma accounted_ask h P Q a c x cl :
  accounted h P Q a c → h !! x = None → accounted (<[x := cl]> h) (x :: P) Q (a ++ [cl]) c.
Proof.
  intros H Hx. pose proof (accounted_fresh _ _ _ _ _ _ H Hx) as Hf. destruct H as (H1 & H2 & H3). split_and!.
  - by constructor.
  - intros y. cbn [app]. rewrite elem_of_cons, H2, lookup_insert_is_Some'. naive_solver.
  - cbn [omap list_omap]. rewrite lookup_insert_eq, omap_insert_fresh by set_solver. rewrite H3. solve_Permutation.
Qed.

Lemma accounted_refuse h P Q a c x cl :
  accounted h P Q a c → h !! x = None → accounted (<[x := cl]> h) P (x :: Q) a c.
Proof.
  intros H Hx. pose proof (accounted_fresh _ _ _ _ _ _ H Hx) as Hf. destruct H as (H1 & H2 & H3). split_and!.
  - rewrite <- Permutation_middle. by constructor.
  - intros y. rewrite <- Permutation_middle, elem_of_cons, H2, lookup_insert_is_Some'. naive_solver.
  - by rewrite omap_insert_fresh by set_solver.
Qed.

Lemma accounted_start h P Q a c x cl :
  accounted h (x :: P) Q a c → h !! x = Some cl → accounted (delete x h) P Q a (c ++ [cl]).
Proof.
  intros (H1 & H2 & H3) Hx. cbn [app] in H1. apply NoDup_cons in H1 as [Hf H1]. split_and!; [done| |].
  - intros y. rewrite lookup_delete_is_Some, <- H2. cbn [app]. rewrite elem_of_cons. split; [|naive_solver].
    intros Hy. split; [by intros ->|by right].
  - cbn [omap list_omap] in H3. rewrite Hx in H3. rewrite omap_delete_fresh by set_solver. rewrite H3. solve_Permutation.
Qed.

Lemma accounted_run h P Q a c x cl :
  accounted h (x :: P) Q a c → h !! x = Some cl → accounted h P (x :: Q) a (c ++ [cl]).
Proof.
  intros (H1 & H2 & H3) Hx. split_and!.
  - by rewrite <- Permutation_middle.
  - intros y. by rewrite <- Permutation_middle, <- H2.
  - cbn [omap list_omap] in H3. rewrite Hx in H3. rewrite H3. solve_Permutation.
Qed.

Lemma accounted_end h P Q a c x : accounted h P (x :: Q) a c → accounted (delete x h) P Q a c.
Proof.
  intros (H1 & H2 & H3). rewrite <- Permutation_middle in H1. apply NoDup_cons in H1 as [Hf H1]. split_and!; [done| |].
  - intros y. rewrite lookup_delete_is_Some, <- H2, <- Permutation_middle, elem_of_cons. split; [|naive_solver].
    intros Hy. split; [by intros ->|by right].
  - by rewrite omap_delete_fresh by set_solver.
Qed.
End accounted.

Lemma addJob_queued x (p : pool nat) r p' :
  addJob x p = (r, p') → q_ (jobq_ p') = q_ (jobq_ p) ++ (if r is Some true then [Some x] else []).
Proof.
  unfold addJob. destruct (enq _ _ _) as [f| |] eqn:E; intros [= <- <-]; [|by rewrite app_nil_r..].
  unfold enq in E. destruct (_ || _); [by injection E as <-|by destruct (blockadd_ p)].
Qed.

Lemma taken {X} (l : list X) k x : l !! k = Some x → ∃ d, delete k l = d ∧ l ≡ₚ x :: d.
Proof. intros H. exists (delete k l). split; [done|by apply delete_Permutation]. Qed.

(** The lists of a state after one of them changed. *)
Ltac lists := unfold glue_inv, pending, queued in *; cbn [heap starting waiting jobs running refused asked called] in *.

Lemma gstep_inv l g g' : glue_inv g → gstep l g = Some g' → glue_inv g'.
Proof.
  intros I H. destruct l as [x o m a|k|x o m a|k| |k|]; cbn [gstep] in H.
  - unfold method_thread, new_closure in H. destruct (heap g !! x) eqn:Hx; [done|]. injection H as <-. lists.
    eapply accounted_proper; [..|exact (accounted_ask _ _ _ _ _ x (Closure o m a) I Hx)]; try done. solve_Permutation.
  - unfold yyy, delete_closure in H. apply bind_Some in H as (x & Hk & H). apply bind_Some in H as (c & Hc & H).
    rewrite Hc in H. injection H as <-. lists. apply (accounted_start _ _ _ _ _ x c); [|done].
    destruct (taken _ _ _ Hk) as (d & -> & Hd). eapply accounted_proper; [..|exact I]; try done. by rewrite Hd.
  - unfold addObjJob, new_closure in H. destruct (heap g !! x) eqn:Hx; [done|]. injection H as <-.
    unfold add_closure. cbn [heap starting waiting jobs running refused asked called].
    destruct (addJob x (jobs g)) as [[[]|] p] eqn:Ea; apply addJob_queued in Ea; cbn [snd]; lists; rewrite Ea, ?app_nil_r.
    + eapply accounted_proper; [..|exact (accounted_ask _ _ _ _ _ x (Closure o m a) I Hx)]; try done.
      rewrite omap_app. cbn. solve_Permutation.
    + eapply accounted_proper; [..|exact (accounted_refuse _ _ _ _ _ x (Closure o m a) I Hx)]; try done. solve_Permutation.
    + eapply accounted_proper; [..|exact (accounted_ask _ _ _ _ _ x (Closure o m a) I Hx)]; try done. solve_Permutation.
  - unfold resume_add in H. apply bind_Some in H as (x & Hk & H).
    destruct (addJob x (jobs g)) as [[[]|] p] eqn:Ea; try done. apply addJob_queued in Ea. injection H as <-. lists. rewrite Ea.
    destruct (taken _ _ _ Hk) as (d & -> & Hd). eapply accounted_proper; [..|exact I]; try done.
    rewrite omap_app, Hd. cbn. solve_Permutation.
  - unfold run_job, do_worker, deq in H. destruct (q_ (jobq_ (jobs g))) as [|j q] eqn:Eq; [done|]. cbn [mbind option_bind] in H.
    destruct j as [x|]; cbn [mbind option_bind] in H.
    + apply bind_Some in H as (c & Hc & [= <-]). lists. cbn [jobq_ q_]. rewrite Eq in I.
      assert (accounted (heap g) (x :: starting g ++ waiting g ++ omap id q) (running g ++ refused g) (asked g) (called g)) as I1.
      { eapply accounted_proper; [..|exact I]; try done. cbn. solve_Permutation. }
      eapply accounted_proper; [..|exact (accounted_run _ _ _ _ _ x c I1 Hc)]; try done. solve_Permutation.
    + injection H as <-. lists. rewrite Eq in I. exact I.
  - unfold end_job, delete_closure in H. apply bind_Some in H as (x & Hk & H). apply bind_Some in H as (g1 & H1 & [= <-]).
    apply bind_Some in H1 as (c & Hc & [= <-]). lists. apply accounted_end.
    destruct (taken _ _ _ Hk) as (d & -> & Hd). eapply accounted_proper; [..|exact I]; try done. by rewrite Hd.
  - unfold pill, add_pill in H. destruct (enq _ _ _) as [f| |] eqn:E; [|done..]. injection H as <-. lists. cbn [jobq_ q_].
    unfold enq in E. destruct (_ || _); [|done]. injection E as <-. cbn [q_]. by rewrite omap_app, app_nil_r.
Qed.

Lemma gruns_inv sz blocking g : gruns sz blocking g → glue_inv g.
Proof.
  induction 1 as [|g l g' _ IH Hs]; [|by eapply gstep_inv]. split_and!; [constructor| |done].
  intros x. cbn. rewrite lookup_empty. split; [by intros ?%not_elem_of_nil|by intros []].
Qed.

Lemma inv_pending g x : glue_inv g → x ∈ pointers g → is_Some (heap g !! x).
Proof. intros (_ & H & _). apply H. Qed.

(** C30. Closures are used as they should: in every run of threads and pool, every thread
    that was created can begin, every job at the head of the queue can be run and every
    method that returns can be followed by the deletion, that is, no object is missing when it
    is used or deleted; the methods called are exactly those asked for, with their
    receivers and arguments, apart from the pending ones; and the objects that exist are
    those pending, running, or refused by the pool.  When everything has run, only the
    refused ones are left. *)
Theorem closures_safe sz blocking g :
  gruns sz blocking g →
  (∀ k, (k < length (starting g))%nat → is_Some (yyy k g)) ∧
  (∀ k, (k < length (running g))%nat → is_Some (end_job k g)) ∧
  (q_ (jobq_ (jobs g)) ≠ [] → is_Some (run_job g)) ∧
  asked g ≡ₚ called g ++ omap (heap g !!.) (pending g) ∧
  (∀ x, is_Some (heap g !! x) ↔ x ∈ pending g ∨ x ∈ running g ∨ x ∈ refused g) ∧
  (pending g = [] → running g = [] → refused g = [] → heap g = ∅ ∧ asked g ≡ₚ called g).
Proof.
  intros H. apply gruns_inv in H as I. pose proof (λ x, inv_pending g x I) as Hp. destruct I as (I1 & I2 & I3). split_and!.
  - intros k Hk. apply lookup_lt_is_Some in Hk as [x Hx]. destruct (Hp x) as [c Hc].
    { unfold pointers, pending. apply list_elem_of_lookup_2 in Hx. set_solver. }
    unfold yyy, delete_closure. rewrite Hx. cbn [mbind option_bind]. rewrite Hc. by eexists.
  - intros k Hk. apply lookup_lt_is_Some in Hk as [x Hx]. destruct (Hp x) as [c Hc].
    { unfold pointers. apply list_elem_of_lookup_2 in Hx. set_solver. }
    unfold end_job, delete_closure. rewrite Hx. cbn [mbind option_bind]. rewrite Hc. by eexists.
  - intros Hq. unfold run_job, do_worker, deq. destruct (q_ (jobq_ (jobs g))) as [|[x|] q] eqn:Eq; [done| |by eexists].
    destruct (Hp x) as [c Hc]; [|cbn; rewrite Hc; by eexists].
    unfold pointers, pending, queued. rewrite Eq. cbn. set_solver.
  - done.
  - intros x. rewrite <- I2. unfold pointers. rewrite !elem_of_app. done.
  - intros E1 E2 E3. rewrite E1, E2, E3 in *. split; [|by rewrite app_nil_r in I3].
    apply map_empty. intros x. apply eq_None_not_Some. rewrite <- I2. apply not_elem_of_nil.
Qed.
End glue.

Arguments closure : clear implicits.
Arguments glue : clear implicits.
Arguments glabel : clear implicits.

(** The overloads of [method_thread], by the number of arguments. *)
Definition method_thread0 {O M} (created : bool) (x : nat) (o : O) (m : M) :
  glue O M unit → option (gout (O := O) (M := M) (A := unit)) := method_thread created x o m tt.
Definition method_thread2 {O M A1 A2} (created : bool) (x : nat) (o : O) (m : M) (a1 : A1) (a2 : A2) :
  glue O M (A1 * A2) → option (gout (O := O) (M := M) (A := A1 * A2)) := method_thread created x o m (a1, a2).
Definition method_thread3 {O M A1 A2 A3} (created : bool) (x : nat) (o : O) (m : M) (a1 : A1) (a2 : A2) (a3 : A3) :
  glue O M (A1 * A2 * A3) → option (gout (O := O) (M := M) (A := A1 * A2 * A3)) :=
  method_thread created x o m (a1, a2, a3).

Fixpoint grun {O M A} (ls : list (glabel O M A)) (g : glue O M A) : option (glue O M A) :=
  match ls with [] => Some g | l :: ls => g ← gstep l g; grun ls g end.

Lemma grun_runs {O M A} sz blocking ls (g g' : glue O M A) :
  gruns sz blocking g → grun ls g = Some g' → gruns sz blocking g'.
Proof.
  revert g. induction ls as [|l ls IH]; intros g H E; cbn [grun] in E; [by injection E as <-|].
  apply bind_Some in E as (g1 & E1 & E). eapply IH; [|exact E]. by eapply gruns_step.
Qed.

(** A thread and two jobs; a full queue refuses a job, whose object is lost. *)
Definition demo_glue : glue Z Z Z := glue_start 1 false.
Definition demo_asked : list (glabel Z Z Z) := [GThread 1 7 0 5; GAdd 2 8 1 6; GAdd 3 8 1 7; GStart 0; GRun; GEnd 0; GRun].

Definition demo_glue_end : glue Z Z Z := default demo_glue (grun demo_asked demo_glue).

Lemma closures_safe_witness :
  called demo_glue_end = [Closure 7 0 5; Closure 8 1 6; Closure 8 1 7] ∧ is_Some (end_job 0 demo_glue_end).
Proof.
  assert (gruns 1 false demo_glue_end) as Hr.
  { apply (grun_runs 1 false demo_asked demo_glue); [apply gruns_start|]. vm_compute. reflexivity. }
  destruct (closures_safe 1 false demo_glue_end Hr) as (_ & H2 & _). split; [vm_compute; reflexivity|].
  apply (H2 0%nat). vm_compute. lia.
Defined.

Example refused_job_leaks :
  grun ((λ x, GAdd x 8 1 0) <$> seq 0 101) demo_glue ≫= grun (concat (replicate 100 [GRun; GEnd 0]))
  = Some (Glue {[100%nat := Closure 8 1 0]} [] []
            (Pool 1 false (Fifo [] 100) 1 (seq 0 100)) [] [100%nat] (replicate 100 (Closure 8 1 0)) (replicate 100 (Closure 8 1 0))).
Proof. vm_compute. reflexivity. Qed.
