(* ===== verification/RpcServer.v ===== *)
(** * The RPC server

    class rpcs of rpc/rpc.cc: received messages become jobs of the dispatch pool, a pool
    thread runs [dispatch] on each.  [dispatch] is cut at the call of the handler, where
    other threads run: [dispatch_begin] is the part before, [dispatch_exec] the handler and
    the part after.  Connections are shared objects with reference counts in a heap; the use
    of a deleted connection is [None], like a failed assertion. *)

From S2P Require Import Prelude.
From S2P Require Import Marshall.
From S2P Require Import RpcWindow.
From S2P Require Import RpcStubs.
From S2P Require Import Connection.
From S2P Require Import ConnHeap.
From S2P Require Import Fifo.

(** ** State *)

Record djob_t := DJob { j_conn : nat; j_buf : block; j_sz : Z }.

Section server.
Context {S : Type}.

Record rpcs := Rpcs {
  nonce_ : Z;
  procs_ : gmap Z (handler S);
  reply_window_ : reply_window;
  conns_ : gmap Z nat;
  counting_ : Z;
  curr_counts_ : Z;
  counts_ : gmap Z Z;
  reachable_ : bool;
  service : S;
}.

Definition on_window f s := Rpcs (nonce_ s) (procs_ s) (f (reply_window_ s)) (conns_ s) (counting_ s)
  (curr_counts_ s) (counts_ s) (reachable_ s) (service s).
Definition on_conns f s := Rpcs (nonce_ s) (procs_ s) (reply_window_ s) (f (conns_ s)) (counting_ s)
  (curr_counts_ s) (counts_ s) (reachable_ s) (service s).
Definition set_stat n m s := Rpcs (nonce_ s) (procs_ s) (reply_window_ s) (conns_ s) (counting_ s)
  n m (reachable_ s) (service s).
Definition set_procs x s := Rpcs (nonce_ s) x (reply_window_ s) (conns_ s) (counting_ s)
  (curr_counts_ s) (counts_ s) (reachable_ s) (service s).
Definition set_service x s := Rpcs (nonce_ s) (procs_ s) (reply_window_ s) (conns_ s) (counting_ s)
  (curr_counts_ s) (counts_ s) (reachable_ s) x.
Definition set_reachable x s := Rpcs (nonce_ s) (procs_ s) (reply_window_ s) (conns_ s) (counting_ s)
  (curr_counts_ s) (counts_ s) x (service s).

(** A handler call under way: its connection, header and arguments. *)
Record ctx := Ctx { x_conn : nat; x_hdr : req_header; x_req : unmarshall; x_f : handler S }.

(** The server with the connections, the queue of the dispatch pool, the handler calls
    under way, the messages given to living connections and the connections [tcpsconn]
    holds.  [w_ran] and [w_leaked] record handler calls (client, xid) and lost references
    for the statements below. *)
Record world := World {
  w_srv : rpcs;
  w_heap : conn_heap;
  w_jobs : fifo djob_t;
  w_running : list ctx;
  w_sent : list (nat * block * Z);
  w_listen : gset nat;
  w_ran : list (Z * Z);
  w_leaked : list nat;
}.

Definition upd (s : rpcs) (hp : conn_heap) (w : world) : world :=
  World s hp (w_jobs w) (w_running w) (w_sent w) (w_listen w) (w_ran w) (w_leaked w).
Definition set_heap (hp : conn_heap) (w : world) : world := upd (w_srv w) hp w.
Definition set_jobs (q : fifo djob_t) (w : world) : world :=
  World (w_srv w) (w_heap w) q (w_running w) (w_sent w) (w_listen w) (w_ran w) (w_leaked w).
Definition set_running (l : list ctx) (w : world) : world :=
  World (w_srv w) (w_heap w) (w_jobs w) l (w_sent w) (w_listen w) (w_ran w) (w_leaked w).
Definition log_ran (r : Z * Z) (w : world) : world :=
  World (w_srv w) (w_heap w) (w_jobs w) (w_running w) (w_sent w) (w_listen w) (w_ran w ++ [r]) (w_leaked w).
Definition log_leak (c : nat) (w : world) : world :=
  World (w_srv w) (w_heap w) (w_jobs w) (w_running w) (w_sent w) (w_listen w) (w_ran w) (w_leaked w ++ [c]).

Definition w_decref (c : nat) (w : world) : option world :=
  hp ← decref_at c (w_heap w); Some (set_heap hp w).
Definition w_incref (c : nat) (w : world) : option world :=
  hp ← incref_at c (w_heap w); Some (set_heap hp w).

(** [c->send(b, sz)]: nothing leaves on a dead connection. *)
Definition w_send (c : nat) (b : option block) (sz : Z) (w : world) : option world :=
  b ← b; d ← isdead_at c (w_heap w);
  Some (if d : bool then w else
        World (w_srv w) (w_heap w) (w_jobs w) (w_running w) (w_sent w ++ [(c, b, sz)]) (w_listen w)
          (w_ran w) (w_leaked w)).

(** ** Operations *)

Definition rpcbind (s : rpcs) (a r : sint) : Z * sint := (0, SInt (s32 (nonce_ s))).

Definition rpcs_reg_handler (n : Z) (h : handler S) (s : rpcs) : option rpcs :=
  if map_count n (procs_ s) then None else Some (set_procs (<[n := h]> (procs_ s)) s).

(** The constructor: [rnd] is the value of [random()], [bind] is the only procedure. *)
Definition new_rpcs (rnd count : Z) (x : S) : option rpcs :=
  let s := Rpcs (u32 rnd) ∅ ∅ ∅ count count ∅ true x in
  rpcs_reg_handler bind_proc
    (rpcs_reg1 (SInt 0) (λ a r x, let '(ret, r) := rpcbind s a r in Some (ret, r, x))) s.

(** The printed statistics are left out. *)
Definition updatestat (n : Z) (s : rpcs) : rpcs :=
  let counts := map_update 0 n (λ k, s32 (k + 1)) (counts_ s) in
  let curr := s32 (curr_counts_ s - 1) in
  if curr =? 0 then set_stat (counting_ s) counts s else set_stat curr counts s.

(** The upcall of a connection; false when the queue is full. *)
Definition got_pdu (c : nat) (b : block) (sz : Z) (w : world) : option (bool * world) :=
  if negb (reachable_ (w_srv w)) then Some (true, w) else
  w ← w_incref c w;
  match enq (DJob c b sz) false (w_jobs w) with
  | EnqPushed q => Some (true, set_jobs q w)
  | EnqRefused => w ← w_decref c w; Some (false, w)
  | EnqWaits => None
  end.

(** A reply without a result. *)
Definition send_header (c : nat) (h : reply_header) (w : world) : option world :=
  m ← pack_reply_header h new_marshall;
  w_send c (m_buf m) (m_ind m) w.

(** The latest connection to the client is remembered. *)
Definition save_conn (clt : Z) (c : nat) (w : world) : option world :=
  match conns_ (w_srv w) !! clt with
  | None =>
      w ← w_incref c w; Some (upd (on_conns <[clt := c]> (w_srv w)) (w_heap w) w)
  | Some c0 =>
      if bool_decide (c0 = c) then Some w else
      w ← w_decref c0 w; w ← w_incref c w;
      Some (upd (on_conns <[clt := c]> (w_srv w)) (w_heap w) w)
  end.

(** The part of [dispatch] for clients that want at-most-once execution. *)
Definition dispatch_check (c : nat) (h : req_header) (w : world)
    : option ((rpcstate_t * option (block * Z)) * world) :=
  if rq_clt_nonce h =? 0 then Some ((NEW, None), w) else
  let w := upd (on_window (map_touch [] (rq_clt_nonce h)) (w_srv w)) (w_heap w) w in
  w ← save_conn (rq_clt_nonce h) c w;
  '(st, win) ← checkduplicate_and_update (rq_clt_nonce h) (u32 (rq_xid h)) (u32 (rq_xid_rep h))
                 (reply_window_ (w_srv w));
  Some (st, upd (on_window (λ _, win) (w_srv w)) (w_heap w) w).

(** A pool thread takes a job and runs [dispatch] up to the call of the handler. *)
Definition dispatch_begin (w : world) : option world :=
  '(j, q, _) ← deq (w_jobs w);
  let w := set_jobs q w in
  let c := j_conn j in
  '(h, req) ← unpack_req_header (unmarshall_of_buf (j_buf j) (j_sz j));
  if negb (u_ok req) then w_decref c w else
  if negb (rq_srv_nonce h =? 0) && negb (rq_srv_nonce h =? nonce_ (w_srv w)) then
    w ← send_header c (ReplyHeader (rq_xid h) rpc_oldsrv_failure) w; Some (log_leak c w)
  else
  match procs_ (w_srv w) !! rq_proc h with
  | None => w_decref c w
  | Some f =>
      '((st, rep), w) ← dispatch_check c h w;
      match st with
      | NEW =>
          let s := if counting_ (w_srv w) =? 0 then w_srv w else updatestat (rq_proc h) (w_srv w) in
          Some (set_running (w_running w ++ [Ctx c h req f])
                  (log_ran (rq_clt_nonce h, u32 (rq_xid h)) (upd s (w_heap w) w)))
      | INPROGRESS => w_decref c w
      | DONE => '(b, sz) ← rep; w ← w_send c (Some b) sz w; w_decref c w
      | FORGOTTEN => w ← send_header c (ReplyHeader (rq_xid h) rpc_atmostonce_failure) w; w_decref c w
      end
  end.

(** The connection the reply goes to: the latest one when the request's is dead.  A
    client without nonce has no entry: the pointer is null. *)
Definition reply_conn (c : nat) (clt : Z) (w : world) : option (nat * world) :=
  d ← isdead_at c (w_heap w);
  if (d : bool) && negb (bool_decide (conns_ (w_srv w) !! clt = Some c)) then
    w ← w_decref c w; c ← conns_ (w_srv w) !! clt; w ← w_incref c w; Some (c, w)
  else Some (c, w).

(** The handler runs and the thread finishes [dispatch]. *)
Definition dispatch_exec (k : nat) (w : world) : option world :=
  x ← w_running w !! k;
  let w := set_running (delete k (w_running w)) w in
  let h := x_hdr x in
  '(ret, rep, svc) ← x_f x (x_req x) new_marshall (service (w_srv w));
  if negb ((0 <=? ret) || (ret =? unmarshal_args_failure)) then None else
  let w := upd (set_service svc (w_srv w)) (w_heap w) w in
  rep ← pack_reply_header (ReplyHeader (rq_xid h) ret) rep;
  let '((b, sz), _) := m_take_buf rep in
  b ← b;
  let w := if rq_clt_nonce h >? 0
           then upd (on_window (add_reply (rq_clt_nonce h) (u32 (rq_xid h)) b sz) (w_srv w)) (w_heap w) w
           else w in
  '(c, w) ← reply_conn (x_conn x) (rq_clt_nonce h) w;
  w ← w_send c (Some b) sz w;
  w_decref c w.
End server.

Arguments rpcs S : clear implicits.
Arguments world S : clear implicits.
Arguments ctx S : clear implicits.

(** ** Reference counts *)

Section refs.
Context {S : Type}.
Implicit Types w : world S.

(** The references the server's data structures hold, and those that were lost. *)
Definition refs w (c : nat) : Z :=
  ind (c ∈ w_listen w) + occ c (j_conn <$> q_ (w_jobs w)) + occ c (x_conn <$> w_running w) +
  occ_map c (conns_ (w_srv w)) + occ c (w_leaked w).

Definition refs_inv w : Prop := heap_ok (refs w) (w_heap w).
(** A thread holds one more reference, to [c]. *)
Definition refs_held (c : nat) w : Prop := heap_ok (bump c 1 (refs w)) (w_heap w).

(** The five parts of a count, each of them not negative. *)
Ltac refs_parts w c :=
  unfold refs, occ_map; pose proof (ind_pos (c ∈ w_listen w));
  pose proof (occ_pos c (j_conn <$> q_ (w_jobs w))); pose proof (occ_pos c (x_conn <$> w_running w));
  pose proof (occ_pos c (w_leaked w)); pose proof (occ_pos c ((map_to_list (conns_ (w_srv w))).*2)).

Lemma refs_pos w c : 0 <= refs w c.
Proof.
  refs_parts w c. lia.
Qed.

Lemma held_pos c w : bump c 1 (refs w) c ≠ 0.
Proof. rewrite bump_same. pose proof (refs_pos w c). lia. Qed.

(** Equality of two counts of references. *)
Ltac ref_arith :=
  let d := fresh "d" in
  intros d; unfold bump, refs;
  cbn [w_listen w_jobs w_running w_srv w_leaked w_heap conns_ q_ j_conn x_conn
       upd set_heap set_jobs set_running log_ran log_leak on_conns on_window set_service set_stat];
  rewrite ?fmap_app, ?fmap_cons, ?fmap_nil, ?occ_app, ?occ_cons, ?occ_nil; cbn [j_conn x_conn]; lia.

Lemma w_decref_held c w w' : refs_held c w → w_decref c w = Some w' → refs_inv w'.
Proof.
  intros H Hd. destruct (decref_ok _ _ c H (held_pos c w)) as (hp & E & Hok).
  unfold w_decref in Hd. rewrite E in Hd. injection Hd as <-.
  eapply heap_ok_ext; [|exact Hok]. ref_arith.
Qed.

Lemma w_decref_safe c w : refs_held c w → is_Some (w_decref c w).
Proof.
  intros H. destruct (decref_ok _ _ c H (held_pos c w)) as (hp & E & _).
  unfold w_decref. rewrite E. eexists. reflexivity.
Qed.

Lemma w_incref_inv c w w' : refs_inv w → refs w c ≠ 0 → w_incref c w = Some w' → refs_held c w' ∧ w_srv w' = w_srv w.
Proof.
  intros H Hc Hd. destruct (incref_ok _ _ c H Hc) as (hp & E & Hok).
  unfold w_incref in Hd. rewrite E in Hd. injection Hd as <-. split; [|done].
  eapply heap_ok_ext; [|exact Hok]. ref_arith.
Qed.

Lemma w_send_same c b sz w w' : w_send c b sz w = Some w' → w_heap w' = w_heap w ∧ (∀ d, refs w' d = refs w d) ∧
  w_srv w' = w_srv w ∧ w_ran w' = w_ran w.
Proof.
  unfold w_send. intros H. apply bind_Some in H as (b' & _ & H). apply bind_Some in H as (d & _ & H).
  destruct d; by simplify_eq.
Qed.

Lemma w_send_held c x b sz w w' : w_send c b sz w = Some w' → refs_held x w → refs_held x w'.
Proof.
  intros (Hh & Hr & _)%w_send_same H. unfold refs_held. rewrite Hh.
  eapply heap_ok_ext; [|exact H]. intros d. unfold bump. by rewrite Hr.
Qed.

Lemma send_header_held c x h w w' : send_header c h w = Some w' → refs_held x w → refs_held x w'.
Proof. unfold send_header. intros H. apply bind_Some in H as (m & _ & H). by eapply w_send_held. Qed.

Lemma conns_ref w clt c : conns_ (w_srv w) !! clt = Some c → refs w c ≠ 0.
Proof.
  intros H. refs_parts w c.
  assert (occ c (map_to_list (conns_ (w_srv w))).*2 ≠ 0); [|lia].
  apply occ_in. apply list_elem_of_fmap. exists (clt, c). split; [done|]. by apply elem_of_map_to_list.
Qed.

Lemma listen_ref w c : c ∈ w_listen w → refs w c ≠ 0.
Proof.
  intros H. refs_parts w c. rewrite ind_true by done. lia.
Qed.

Lemma queue_ref w c : c ∈ (j_conn <$> q_ (w_jobs w)) → refs w c ≠ 0.
Proof.
  intros H%occ_in. refs_parts w c. lia.
Qed.

Lemma running_ref w c : c ∈ (x_conn <$> w_running w) → refs w c ≠ 0.
Proof.
  intros H%occ_in. refs_parts w c. lia.
Qed.

Lemma save_conn_held clt c w w' : refs_held c w → save_conn clt c w = Some w' → refs_held c w'.
Proof.
  intros H Hs. unfold save_conn in Hs. destruct (conns_ (w_srv w) !! clt) as [c0|] eqn:E.
  - case_bool_decide as Hc; [by simplify_eq|].
    assert (bump c 1 (refs w) c0 ≠ 0) as Hc0 by (rewrite bump_other by done; by eapply conns_ref).
    destruct (decref_ok _ _ c0 H Hc0) as (hp & Ed & Hok). unfold w_decref in Hs. rewrite Ed in Hs.
    cbn [mbind option_bind] in Hs.
    assert (bump c0 (-1) (bump c 1 (refs w)) c ≠ 0) as Hc1
      by (rewrite bump_other by done; apply held_pos).
    destruct (incref_ok _ _ c Hok Hc1) as (hp2 & Ei & Hok2). unfold w_incref, set_heap in Hs.
    cbn [w_heap upd] in Hs. rewrite Ei in Hs. injection Hs as <-. eapply heap_ok_ext; [|exact Hok2].
    intros d. pose proof (occ_map_replace d _ clt c0 c E) as Hrep. revert d Hrep. clear. intros d Hrep.
    unfold bump, refs. cbn [w_listen w_jobs w_running w_srv w_leaked conns_ upd on_conns set_heap]. lia.
  - destruct (incref_ok _ _ c H (held_pos c w)) as (hp & Ei & Hok). unfold w_incref in Hs. rewrite Ei in Hs.
    injection Hs as <-. eapply heap_ok_ext; [|exact Hok].
    intros d. pose proof (occ_map_insert d _ clt c E) as Hins. revert d Hins. clear. intros d Hins.
    unfold bump, refs. cbn [w_listen w_jobs w_running w_srv w_leaked conns_ upd on_conns set_heap]. lia.
Qed.

Lemma held_upd x w s : conns_ s = conns_ (w_srv w) → refs_held x w → refs_held x (upd s (w_heap w) w).
Proof. intros Hc H. unfold refs_held in *. eapply heap_ok_ext; [|exact H]. intros d. unfold bump, refs. cbn. by rewrite Hc. Qed.

Lemma dispatch_check_held c h w st w' :
  refs_held c w → dispatch_check c h w = Some (st, w') → refs_held c w'.
Proof.
  intros H Hd. unfold dispatch_check in Hd. destruct (rq_clt_nonce h =? 0); [by simplify_eq|].
  apply bind_Some in Hd as (w1 & Hs & Hd). apply bind_Some in Hd as ([st' win] & _ & Hd). simplify_eq.
  apply held_upd; [done|]. eapply save_conn_held; [|exact Hs]. by apply held_upd.
Qed.

Lemma reply_conn_held c clt w c' w' :
  refs_held c w → reply_conn c clt w = Some (c', w') → refs_held c' w'.
Proof.
  intros H Hr. unfold reply_conn in Hr. apply bind_Some in Hr as (d & _ & Hr).
  destruct (_ && _); [|by simplify_eq].
  apply bind_Some in Hr as (w1 & Hd & Hr). pose proof (w_decref_held _ _ _ H Hd) as I1.
  apply bind_Some in Hr as (c1 & Hc & Hr). apply bind_Some in Hr as (w2 & Hi & Hr). simplify_eq.
  eapply w_incref_inv; [exact I1| |exact Hi]. by eapply conns_ref.
Qed.

(** A job leaves the queue: the thread holds its reference. *)
Lemma take_job_held w j q f :
  refs_inv w → q_ (w_jobs w) = j :: q → refs_held (j_conn j) (set_jobs (Fifo q f) w).
Proof.
  intros H Hq. eapply heap_ok_ext; [|exact H]. intros d. unfold bump, refs.
  rewrite Hq, fmap_cons, occ_cons.
  cbn [w_listen w_jobs w_running w_srv w_leaked set_jobs q_]. lia.
Qed.

Lemma take_running_held w k x :
  refs_inv w → w_running w !! k = Some x →
  refs_held (x_conn x) (set_running (delete k (w_running w)) w).
Proof.
  intros H Hk. eapply heap_ok_ext; [|exact H]. intros d. unfold bump, refs.
  rewrite (occ_delete d (x_conn <$> w_running w) k (x_conn x)) by by rewrite list_lookup_fmap, Hk.
  rewrite <- list_fmap_delete. cbn [w_listen w_jobs w_running w_srv w_leaked set_running]. lia.
Qed.

Lemma dispatch_begin_refs w w' : refs_inv w → dispatch_begin w = Some w' → refs_inv w'.
Proof.
  intros I H. unfold dispatch_begin in H. apply bind_Some in H as ([[j q] sg] & Hq & H).
  unfold deq in Hq. destruct (q_ (w_jobs w)) as [|j0 q0] eqn:Eq; [done|]. injection Hq as <- <- _.
  pose proof (take_job_held w j0 q0 (max_ (w_jobs w)) I Eq) as Hh. revert Hh H.
  generalize (set_jobs (Fifo q0 (max_ (w_jobs w))) w). clear w I Eq. intros w Hh H.
  apply bind_Some in H as ([h req] & _ & H).
  destruct (negb (u_ok req)); [by eapply w_decref_held|].
  destruct (_ && _).
  { apply bind_Some in H as (w1 & Hs & H). injection H as <-.
    pose proof (send_header_held _ (j_conn j0) _ _ _ Hs Hh) as Hh1.
    eapply heap_ok_ext; [|exact Hh1]. ref_arith. }
  destruct (procs_ _ !! _) as [f|]; [|by eapply w_decref_held].
  apply bind_Some in H as ([[st rep] w1] & Hc & H). pose proof (dispatch_check_held _ _ _ _ _ Hh Hc) as Hh1.
  destruct st.
  - injection H as <-.
    assert (conns_ (if counting_ (w_srv w1) =? 0 then w_srv w1 else updatestat (rq_proc h) (w_srv w1))
            = conns_ (w_srv w1)) as Hcs.
    { unfold updatestat. destruct (counting_ _ =? 0); [done|]. by destruct (s32 _ =? 0). }
    eapply heap_ok_ext; [|exact (held_upd _ _ _ Hcs Hh1)].
    ref_arith.
  - by eapply w_decref_held.
  - apply bind_Some in H as ([b sz] & _ & H). apply bind_Some in H as (w2 & Hs & H).
    eapply w_decref_held; [|exact H]. by eapply w_send_held.
  - apply bind_Some in H as (w2 & Hs & H). eapply w_decref_held; [|exact H]. by eapply send_header_held.
Qed.

Lemma dispatch_exec_refs k w w' : refs_inv w → dispatch_exec k w = Some w' → refs_inv w'.
Proof.
  intros I H. unfold dispatch_exec in H. apply bind_Some in H as (x & Hk & H).
  pose proof (take_running_held w k x I Hk) as Hh. revert Hh H.
  generalize (set_running (delete k (w_running w)) w). clear w I Hk. intros w Hh H.
  apply bind_Some in H as ([[ret rep] svc] & _ & H). destruct (negb _); [done|].
  apply bind_Some in H as (rep' & _ & H). destruct (m_take_buf rep') as [[b sz] m].
  apply bind_Some in H as (b' & _ & H). apply bind_Some in H as ([c w1] & Hr & H).
  apply bind_Some in H as (w2 & Hs & H). eapply w_decref_held; [|exact H].
  eapply w_send_held; [exact Hs|]. eapply reply_conn_held; [|exact Hr].
  assert (refs_held (x_conn x) (upd (set_service svc (w_srv w)) (w_heap w) w)) as Hh1 by by apply held_upd.
  destruct (rq_clt_nonce (x_hdr x) >? 0); [|exact Hh1]. exact (held_upd _ _ _ eq_refl Hh1).
Qed.

Lemma got_pdu_refs c b sz w r w' :
  refs_inv w → refs w c ≠ 0 → got_pdu c b sz w = Some (r, w') → refs_inv w'.
Proof.
  intros I Hc H. unfold got_pdu in H. destruct (negb _); [by simplify_eq|].
  apply bind_Some in H as (w1 & Hi & H). destruct (w_incref_inv _ _ _ I Hc Hi) as [Hh _].
  unfold enq in H. destruct (_ || _).
  - injection H as <- <-. eapply heap_ok_ext; [|exact Hh].
    intros d. unfold bump, refs. cbn [w_listen w_jobs w_running w_srv w_leaked set_jobs q_].
    rewrite fmap_app, occ_app, fmap_cons, occ_cons, occ_nil. cbn [j_conn]. lia.
  - apply bind_Some in H as (w2 & Hd & H). simplify_eq. by eapply w_decref_held.
Qed.
End refs.

(** ** Runs of a server *)

(** [tcpsconn] accepts a connection; a connection dies; [tcpsconn] closes one and gives
    its reference back; a message arrives on a living connection; a pool thread
    starts a job; a handler call under way finishes. *)
Inductive srv_label :=
  | LAccept (c : nat) | LDie (c : nat) | LDrop (c : nat)
  | LPdu (c : nat) (b : block) (sz : Z) | LDispatch | LExec (k : nat) | LReach (b : bool).

Definition srv_step {S} (l : srv_label) (w : world S) : option (world S) :=
  match l with
  | LAccept c =>
      match w_heap w !! c with
      | Some _ => None
      | None => Some (World (w_srv w) (<[c := new_connection]> (w_heap w)) (w_jobs w) (w_running w)
                        (w_sent w) ({[c]} ∪ w_listen w) (w_ran w) (w_leaked w))
      end
  | LDie c => x ← w_heap w !! c; Some (set_heap (<[c := set_dead true x]> (w_heap w)) w)
  | LDrop c =>
      if bool_decide (c ∈ w_listen w) then
        x ← w_heap w !! c;
        hp ← decref_at c (<[c := snd (closeconn x)]> (w_heap w));
        Some (World (w_srv w) hp (w_jobs w) (w_running w) (w_sent w) (w_listen w ∖ {[c]}) (w_ran w)
                (w_leaked w))
      else None
  | LPdu c b sz =>
      d ← isdead_at c (w_heap w);
      if (d : bool) || negb (bool_decide (c ∈ w_listen w)) then None else
      '(_, w) ← got_pdu c b sz w; Some w
  | LDispatch => dispatch_begin w
  | LExec k => dispatch_exec k w
  | LReach b => Some (upd (set_reachable b (w_srv w)) (w_heap w) w)
  end.

(** A server that was just created, with its registered procedures. *)
Definition fresh_world {S} (s : rpcs S) (w : world S) : Prop :=
  w_srv w = s ∧ reply_window_ s = ∅ ∧ conns_ s = ∅ ∧ w_heap w = ∅ ∧ w_running w = [] ∧
  q_ (w_jobs w) = [] ∧ w_listen w = ∅ ∧ w_ran w = [] ∧ w_leaked w = [].

Inductive srv_runs {S} (s : rpcs S) : world S → Prop :=
  | srv_runs_start w : fresh_world s w → srv_runs s w
  | srv_runs_step w l w' : srv_runs s w → srv_step l w = Some w' → srv_runs s w'.

Section invariants.
Context {S : Type}.
Implicit Types w : world S.

Lemma srv_step_refs l w w' : refs_inv w → srv_step l w = Some w' → refs_inv w'.
Proof.
  intros I H. destruct l as [c|c|c|c b sz| |k|b]; cbn [srv_step] in H.
  - destruct (w_heap w !! c) eqn:E; [done|]. injection H as <-.
    assert (refs w c = 0) as H0.
    { destruct (decide (refs w c = 0)) as [|Hn]; [done|]. destruct I as (_ & I2 & _).
      destruct (I2 c Hn). congruence. }
    assert (c ∉ w_listen w) as Hl by (intros Hin; by apply (listen_ref w c)).
    apply (heap_ok_ext (bump c 1 (refs w)));
      [|apply (heap_ok_change (refs w) (w_heap w) (<[c := new_connection]> (w_heap w)) c 1 I)].
    + intros d. unfold bump, refs. cbn [w_listen w_jobs w_running w_srv w_leaked].
      assert (ind (d ∈ {[c]} ∪ w_listen w) = ind (d ∈ w_listen w) + ind (d = c)) as ->; [|lia].
      destruct (decide (d = c)) as [->|Hne].
      * rewrite (ind_true (c = c)), ind_true, ind_false by set_solver. lia.
      * rewrite (ind_false (d = c)) by done. rewrite Z.add_0_r.
        destruct (decide (d ∈ w_listen w)); [rewrite !ind_true by set_solver|rewrite !ind_false by set_solver]; done.
    + intros d Hne. by rewrite lookup_insert_ne.
    + lia.
    + intros y. rewrite lookup_insert_eq. intros [= <-]. cbn. split; [lia|done].
    + rewrite lookup_insert_eq. eauto.
  - apply bind_Some in H as (x & Hx & H). injection H as <-. eapply heap_ok_same_refs; [exact I|exact Hx|done|done].
  - case_bool_decide as Hin; [|done]. apply bind_Some in H as (x & Hx & H).
    assert (heap_ok (refs w) (<[c := snd (closeconn x)]> (w_heap w))) as I1.
    { eapply heap_ok_same_refs; [exact I|exact Hx|unfold closeconn; by destruct (dead_ x)..]. }
    pose proof (listen_ref w c Hin) as Hc.
    destruct (decref_ok _ _ c I1 Hc) as (hp & E & Hok). rewrite E in H. injection H as <-.
    eapply heap_ok_ext; [|exact Hok]. intros d. unfold bump, refs. cbn [w_listen w_jobs w_running w_srv w_leaked].
    assert (ind (d ∈ w_listen w ∖ {[c]}) = ind (d ∈ w_listen w) - ind (d = c)) as ->; [|lia].
    destruct (decide (d = c)) as [->|Hne].
    + rewrite (ind_true (c = c)), (ind_true (c ∈ w_listen w)), ind_false by set_solver. lia.
    + rewrite (ind_false (d = c)) by done. rewrite Z.sub_0_r.
      destruct (decide (d ∈ w_listen w)); [rewrite !ind_true by set_solver|rewrite !ind_false by set_solver]; done.
  - apply bind_Some in H as (d & Hd & H). destruct d; [done|]. cbn [orb] in H. case_bool_decide as Hin; [|done].
    cbn [negb] in H. apply bind_Some in H as ([r w1] & Hg & H). injection H as <-.
    eapply got_pdu_refs; [exact I|by apply listen_ref|exact Hg].
  - by eapply dispatch_begin_refs.
  - by eapply dispatch_exec_refs.
  - injection H as <-. exact I.
Qed.

Lemma srv_runs_refs (s : rpcs S) w : srv_runs s w → refs_inv w.
Proof.
  induction 1 as [w (Es & _ & Hc & Hh & Hr & Hq & Hl & _ & Hk)|w l w' _ IH Hs]; [|by eapply srv_step_refs].
  assert (∀ c, refs w c = 0) as H0.
  { intros c. unfold refs. rewrite Es, Hc, Hr, Hq, Hl, Hk. cbn. unfold occ_map.
    rewrite map_to_list_empty. cbn. rewrite ind_false by set_solver. done. }
  split_and!.
  - intros c x Hx. by rewrite Hh, lookup_empty in Hx.
  - intros c Hn. by rewrite H0 in Hn.
  - intros c. by rewrite H0.
Qed.

(** *** At most once *)

Definition view w := (reply_window_ (w_srv w), w_ran w).

Lemma w_decref_view c w w' : w_decref c w = Some w' → view w' = view w.
Proof. intros H. apply bind_Some in H as (hp & _ & H). by simplify_eq. Qed.
Lemma w_incref_view c w w' : w_incref c w = Some w' → view w' = view w.
Proof. intros H. apply bind_Some in H as (hp & _ & H). by simplify_eq. Qed.
Lemma w_send_view c b sz w w' : w_send c b sz w = Some w' → view w' = view w.
Proof. intros (_ & _ & Hs & Hr)%w_send_same. unfold view. by rewrite Hs, Hr. Qed.
Lemma send_header_view c h w w' : send_header c h w = Some w' → view w' = view w.
Proof. intros H. apply bind_Some in H as (m & _ & H). by eapply w_send_view. Qed.

Lemma save_conn_view clt c w w' : save_conn clt c w = Some w' → view w' = view w.
Proof.
  unfold save_conn. destruct (conns_ _ !! clt).
  - case_bool_decide as Hc; [by intros [= ->]|]. intros H. apply bind_Some in H as (w1 & H1 & H).
    apply bind_Some in H as (w2 & H2 & H). injection H as <-.
    by rewrite <- (w_decref_view _ _ _ H1), <- (w_incref_view _ _ _ H2).
  - intros H. apply bind_Some in H as (w2 & H2 & H). injection H as <-. by rewrite <- (w_incref_view _ _ _ H2).
Qed.

Lemma reply_conn_view c clt w c' w' : reply_conn c clt w = Some (c', w') → view w' = view w.
Proof.
  intros H. apply bind_Some in H as (d & _ & H). destruct (_ && _); [|by simplify_eq].
  apply bind_Some in H as (w1 & H1 & H). apply bind_Some in H as (c1 & _ & H).
  apply bind_Some in H as (w2 & H2 & H). injection H as _ <-.
  by rewrite (w_incref_view _ _ _ H2), (w_decref_view _ _ _ H1).
Qed.

Lemma got_pdu_view c b sz w r w' : got_pdu c b sz w = Some (r, w') → view w' = view w.
Proof.
  unfold got_pdu. destruct (negb _); [by intros [= _ ->]|]. intros H.
  apply bind_Some in H as (w1 & H1 & H). apply w_incref_view in H1.
  destruct (enq _ _ _); [|done|].
  - injection H as _ <-. exact H1.
  - apply bind_Some in H as (w2 & H2 & H). injection H as _ <-. by rewrite (w_decref_view _ _ _ H2).
Qed.

(** The header of the job the next pool thread takes, when it can be decoded. *)
Definition next_header w : option req_header :=
  j ← head (q_ (w_jobs w));
  '(h, req) ← unpack_req_header (unmarshall_of_buf (j_buf j) (j_sz j));
  if u_ok req then Some h else None.

(** [R] is the highest acknowledgement of each client so far; requests carry
    acknowledgements below their own xid, and none comes after one that covers it. *)
Definition acks_in_order (R : gmap Z Z) (l : srv_label) w : Prop :=
  match l, next_header w with
  | LDispatch, Some h =>
      rq_clt_nonce h ≠ 0 → u32 (rq_xid_rep h) < u32 (rq_xid h) ∧ map_at 0 (rq_clt_nonce h) R < u32 (rq_xid h)
  | _, _ => True
  end.

Definition ack_after (h : req_header) (R : gmap Z Z) : gmap Z Z :=
  <[rq_clt_nonce h := Z.max (map_at 0 (rq_clt_nonce h) R) (u32 (rq_xid_rep h))]> R.

Definition acks_after (R : gmap Z Z) (l : srv_label) w : gmap Z Z :=
  match l, next_header w with
  | LDispatch, Some h => ack_after h R
  | _, _ => R
  end.

Inductive ordered_runs (s : rpcs S) : gmap Z Z → world S → Prop :=
  | ordered_start w : fresh_world s w → ordered_runs s ∅ w
  | ordered_step R w l w' :
      ordered_runs s R w → acks_in_order R l w → srv_step l w = Some w' →
      ordered_runs s (acks_after R l w) w'.

Lemma ordered_runs_runs s R w : ordered_runs s R w → srv_runs s w.
Proof. induction 1; [by constructor|by econstructor]. Qed.

Definition calls_of_clients (r : list (Z * Z)) : list (Z * Z) := filter (λ p, fst p ≠ 0) r.

(** Every handler call for a client is acknowledged or recorded in its window. *)
Definition amo (R : gmap Z Z) (v : reply_window * list (Z * Z)) : Prop :=
  window_inv (fst v) ∧ NoDup (calls_of_clients (snd v)) ∧
  ∀ clt x, (clt, x) ∈ snd v → clt ≠ 0 → x <= map_at 0 clt R ∨ started_at (fst v) clt x ≠ None.

Lemma amo_same_started R win win' r :
  window_inv win' → (∀ c x, started_at win c x ≠ None → started_at win' c x ≠ None) →
  amo R (win, r) → amo R (win', r).
Proof.
  intros Hw Hst (_ & H2 & H3). split_and!; [done|done|]. intros clt x Hin Hne.
  destruct (H3 clt x Hin Hne) as [|Hn]; [by left|]. right. by apply Hst.
Qed.

Lemma add_reply_started clt xid b sz win :
  window_inv win → window_inv (add_reply clt xid b sz win) ∧
  ∀ c x, started_at win c x ≠ None → started_at (add_reply clt xid b sz win) c x ≠ None.
Proof.
  intros Hw. destruct (window_inv_at win clt Hw) as (lo & Hlo & Hc & Hm).
  destruct (set_reply_consecutive lo xid b sz _ Hc) as [Hc' Hlen].
  unfold started_at, add_reply, map_update. split.
  - intros c l Hl. destruct (decide (c = clt)) as [->|]; simplify_map_eq; [|by apply (Hw c)].
    exists lo. by rewrite Hlen.
  - intros c x Hn. rewrite map_at_insert. destruct (decide (clt = c)) as [->|]; [|done].
    rewrite (set_reply_started lo) by done. by destruct (started _ x).
Qed.

Lemma window_inv_touch clt win : window_inv win → window_inv (map_touch [] clt win).
Proof.
  intros Hw c l. destruct (decide (clt = c)) as [->|].
  - rewrite map_touch_lookup. intros [= <-]. by apply window_inv_at.
  - rewrite map_touch_lookup_ne by done. apply Hw.
Qed.

(** The duplicate check for a client with a nonce, on an ordered acknowledgement. *)
Lemma dispatch_check_amo R c h w st rep w' :
  amo R (view w) → rq_clt_nonce h ≠ 0 →
  u32 (rq_xid_rep h) < u32 (rq_xid h) → map_at 0 (rq_clt_nonce h) R < u32 (rq_xid h) →
  dispatch_check c h w = Some ((st, rep), w') →
  amo (ack_after h R) (view w') ∧
  (st, rep) = reply_state (started_at (reply_window_ (w_srv w)) (rq_clt_nonce h) (u32 (rq_xid h))) ∧
  started_at (reply_window_ (w_srv w')) (rq_clt_nonce h) (u32 (rq_xid h)) ≠ None ∧
  w_ran w' = w_ran w.
Proof.
  intros (Hw & Hnd & Hran) Hclt Hack Hfresh H. cbn [view fst snd] in Hw, Hnd, Hran. unfold dispatch_check in H.
  destruct (Z.eqb_spec (rq_clt_nonce h) 0) as [|_]; [done|].
  apply bind_Some in H as (w1 & Hs & H). apply bind_Some in H as ([st1 win] & Hck & H).
  injection H as -> <-. pose proof (save_conn_view _ _ _ _ Hs) as Hv. injection Hv as Hwin Hr.
  cbn [w_srv upd on_window reply_window_] in Hwin, Hr |- *. rewrite Hwin in Hck.
  destruct (checkduplicate_spec _ (rq_clt_nonce h) _ _ (window_inv_touch (rq_clt_nonce h) _ Hw)
              (u32_range (rq_xid h)) (u32_range (rq_xid_rep h)) ltac:(lia))
    as (win' & Hck' & Hwi & Hxs & Hne & Hot).
  rewrite Hck' in Hck. injection Hck as Hst <-.
  assert (∀ k x, started_at (map_touch [] (rq_clt_nonce h) (reply_window_ (w_srv w))) k x
                 = started_at (reply_window_ (w_srv w)) k x) as Htouch.
  { intros k x. unfold started_at. by rewrite map_touch_at. }
  split_and!; [split_and!|by rewrite <- Hst, Htouch|exact Hxs|exact Hr].
  - exact Hwi.
  - cbn [view snd w_ran upd]. by rewrite Hr.
  - cbn [view fst snd w_ran upd w_srv on_window reply_window_]. rewrite Hr. intros clt x Hin Hn.
    unfold ack_after. rewrite map_at_insert. destruct (decide (rq_clt_nonce h = clt)) as [<-|Hk].
    + destruct (decide (x = u32 (rq_xid h))) as [->|Hx]; [by right|]. rewrite Hne by done.
      destruct (Z.leb_spec x (u32 (rq_xid_rep h))); [left; lia|]. rewrite Htouch.
      destruct (Hran _ _ Hin Hn) as [|]; [left; lia|by right].
    + destruct (Hran _ _ Hin Hn) as [|Hst2]; [by left|right]. unfold started_at, map_at in *.
      rewrite Hot, map_touch_lookup_ne; done.
Qed.

Lemma amo_ack R v k r : (k ≠ 0 → map_at 0 k R <= r) → amo R v → amo (<[k := r]> R) v.
Proof.
  intros Hr (H1 & H2 & H3). split_and!; [done|done|]. intros clt x Hin Hne.
  rewrite map_at_insert. destruct (decide (k = clt)) as [->|]; [|by apply H3].
  destruct (H3 clt x Hin Hne) as [|]; [left; specialize (Hr Hne); lia|by right].
Qed.

Lemma amo_call R win r clt x :
  (clt ≠ 0 → (clt, x) ∉ r ∧ started_at win clt x ≠ None) → amo R (win, r) → amo R (win, r ++ [(clt, x)]).
Proof.
  intros Hf (H1 & H2 & H3). split_and!; [done| |].
  - cbn [snd] in *. unfold calls_of_clients in *. rewrite filter_app, filter_cons. cbn [fst].
    destruct (decide (clt ≠ 0)) as [Hn|]; [|by rewrite filter_nil, app_nil_r].
    apply NoDup_app. rewrite filter_nil. split_and!; [done| |apply NoDup_singleton].
    intros p Hp ->%list_elem_of_singleton. apply list_elem_of_filter in Hp as [_ Hp]. by destruct (Hf Hn).
  - intros k y [Hin|Hin]%elem_of_app Hne; [by apply H3|]. apply list_elem_of_singleton in Hin.
    injection Hin as -> ->. right. by apply Hf.
Qed.

Lemma dispatch_check_none c h w st rep w' :
  rq_clt_nonce h = 0 → dispatch_check c h w = Some ((st, rep), w') → w' = w.
Proof. unfold dispatch_check. intros ->. cbn. congruence. Qed.

Lemma dispatch_begin_amo R w w' :
  amo R (view w) → acks_in_order R LDispatch w → dispatch_begin w = Some w' →
  amo (acks_after R LDispatch w) (view w').
Proof.
  intros I Ho H. unfold dispatch_begin, deq in H. unfold acks_in_order, acks_after, next_header in *.
  destruct (q_ (w_jobs w)) as [|j q]; [done|]. cbn [mbind option_bind head] in *.
  change (view w) with (view (set_jobs (Fifo q (max_ (w_jobs w))) w)) in I. revert I H.
  generalize (set_jobs (Fifo q (max_ (w_jobs w))) w). clear w. intros w I H.
  destruct (unpack_req_header _) as [[h req]|]; [|done]. cbn [mbind option_bind] in *.
  destruct (u_ok req); cbn [negb] in *; [|by rewrite (w_decref_view _ _ _ H)].
  assert (amo (ack_after h R) (view w)) as Ia by (apply amo_ack; [lia|done]).
  destruct (_ && _).
  { apply bind_Some in H as (w1 & H1 & H). injection H as <-. rewrite <- (send_header_view _ _ _ _ H1) in Ia.
    exact Ia. }
  destruct (procs_ _ !! _) as [f|]; [|by rewrite (w_decref_view _ _ _ H)].
  apply bind_Some in H as ([[st rep] w1] & Hc & H).
  assert (amo (ack_after h R) (view w1) ∧
          (st = NEW → rq_clt_nonce h ≠ 0 →
           (rq_clt_nonce h, u32 (rq_xid h)) ∉ w_ran w1 ∧
           started_at (reply_window_ (w_srv w1)) (rq_clt_nonce h) (u32 (rq_xid h)) ≠ None)) as [I1 Hnew].
  { destruct (decide (rq_clt_nonce h = 0)) as [H0|H0].
    - apply dispatch_check_none in Hc as ->; [|done]. done.
    - specialize (Ho H0) as [Ho1 Ho2]. destruct (dispatch_check_amo R _ _ _ _ _ _ I H0 Ho1 Ho2 Hc) as (I1 & Hst & Hs & Hr).
      split; [done|]. intros -> _. split; [|done]. rewrite Hr. intros Hin. destruct I as (_ & _ & I).
      destruct (I _ _ Hin H0) as [|Hn]; [lia|]. cbn [view fst] in Hn.
      destruct (started_at _ _ (u32 (rq_xid h))) as [[[]|]|]; [discriminate Hst..|done]. }
  destruct st.
  - injection H as <-. specialize (Hnew eq_refl). unfold view in I1 |- *.
    cbn [w_srv w_ran upd log_ran set_running].
    replace (reply_window_ (if counting_ (w_srv w1) =? 0 then w_srv w1 else updatestat (rq_proc h) (w_srv w1)))
      with (reply_window_ (w_srv w1)); [by apply amo_call|].
    unfold updatestat. destruct (counting_ _ =? 0); [done|]. by destruct (s32 _ =? 0).
  - by rewrite (w_decref_view _ _ _ H).
  - apply bind_Some in H as ([b sz] & _ & H). apply bind_Some in H as (w2 & H2 & H).
    by rewrite (w_decref_view _ _ _ H), (w_send_view _ _ _ _ _ H2).
  - apply bind_Some in H as (w2 & H2 & H).
    by rewrite (w_decref_view _ _ _ H), (send_header_view _ _ _ _ H2).
Qed.

Lemma dispatch_exec_amo R k w w' : amo R (view w) → dispatch_exec k w = Some w' → amo R (view w').
Proof.
  intros I H. unfold dispatch_exec in H. apply bind_Some in H as (x & _ & H).
  apply bind_Some in H as ([[ret rep] svc] & _ & H). destruct (negb _); [done|].
  apply bind_Some in H as (rep' & _ & H). destruct (m_take_buf rep') as [[b sz] m].
  apply bind_Some in H as (b' & _ & H). apply bind_Some in H as ([c w1] & Hr & H).
  apply bind_Some in H as (w2 & Hs & H).
  rewrite (w_decref_view _ _ _ H), (w_send_view _ _ _ _ _ Hs), (reply_conn_view _ _ _ _ _ Hr).
  destruct (rq_clt_nonce (x_hdr x) >? 0); [|exact I].
  unfold view in *. cbn [w_srv w_ran upd set_running on_window set_service reply_window_].
  destruct (add_reply_started (rq_clt_nonce (x_hdr x)) (u32 (rq_xid (x_hdr x))) b' sz
              (reply_window_ (w_srv w)) (proj1 I)) as [Hw Hst].
  by eapply amo_same_started.
Qed.

Lemma srv_step_amo R l w w' :
  amo R (view w) → acks_in_order R l w → srv_step l w = Some w' → amo (acks_after R l w) (view w').
Proof.
  intros I Ho H. destruct l as [c|c|c|c b sz| |k|b]; cbn [srv_step] in H; cbn [acks_after].
  - destruct (_ !! c); [done|]. injection H as <-. exact I.
  - apply bind_Some in H as (x & _ & H). injection H as <-. exact I.
  - case_bool_decide; [|done]. apply bind_Some in H as (x & _ & H). apply bind_Some in H as (hp & _ & H).
    injection H as <-. exact I.
  - apply bind_Some in H as (d & _ & H). destruct (_ || _); [done|].
    apply bind_Some in H as ([r w1] & Hg & H). injection H as <-. by rewrite (got_pdu_view _ _ _ _ _ _ Hg).
  - by apply dispatch_begin_amo.
  - by eapply dispatch_exec_amo.
  - injection H as <-. exact I.
Qed.

Lemma ordered_runs_amo s R w : ordered_runs s R w → amo R (view w).
Proof.
  induction 1 as [w (Es & Hw & _ & _ & _ & _ & _ & Hr & _)|R w l w' _ IH Ho Hs]; [|by apply srv_step_amo].
  unfold view. rewrite Es, Hw, Hr. split_and!.
  - intros c l Hl. cbn [fst] in Hl. by rewrite lookup_empty in Hl.
  - constructor.
  - intros ?? Hin. by apply elem_of_nil in Hin.
Qed.

(** *** Dispatch does not fail *)

Lemma w_send_safe c b sz w : refs_held c w → is_Some (w_send c (Some b) sz w).
Proof.
  intros (_ & H & _). unfold w_send, isdead_at. destruct (H c (held_pos c w)) as [x ->].
  by eexists.
Qed.

Lemma send_header_safe c h w : refs_held c w → is_Some (send_header c h w).
Proof.
  intros H. unfold send_header. destruct (pack_reply_header_rep h _ _ new_marshall_rep) as (m & -> & Hm).
  cbn [mbind option_bind]. destruct Hm as (hdr & junk & -> & _). by apply w_send_safe.
Qed.

Lemma save_conn_safe clt c w : refs_held c w → is_Some (save_conn clt c w).
Proof.
  intros H. unfold save_conn. destruct (conns_ _ !! clt) as [c0|] eqn:E.
  - case_bool_decide as Hc; [by eexists|].
    assert (bump c 1 (refs w) c0 ≠ 0) as Hc0 by (rewrite bump_other by done; by eapply conns_ref).
    destruct (decref_ok _ _ c0 H Hc0) as (hp & Ed & Hok). unfold w_decref. rewrite Ed.
    cbn [mbind option_bind].
    assert (bump c0 (-1) (bump c 1 (refs w)) c ≠ 0) as Hc1
      by (rewrite bump_other by done; apply held_pos).
    destruct (incref_ok _ _ c Hok Hc1) as (hp2 & Ei & _). unfold w_incref, set_heap.
    cbn [w_heap upd]. rewrite Ei. by eexists.
  - destruct (incref_ok _ _ c H (held_pos c w)) as (hp & Ei & _). unfold w_incref. rewrite Ei. by eexists.
Qed.

Lemma dispatch_check_safe c h w :
  refs_held c w → window_inv (reply_window_ (w_srv w)) →
  (rq_clt_nonce h ≠ 0 → u32 (rq_xid_rep h) < u32 (rq_xid h)) →
  ∃ w', dispatch_check c h w
    = Some (reply_state (if rq_clt_nonce h =? 0 then None
                         else started_at (reply_window_ (w_srv w)) (rq_clt_nonce h) (u32 (rq_xid h))), w') ∧
    w_ran w' = w_ran w.
Proof.
  intros Hh Hw Ho. unfold dispatch_check. destruct (Z.eqb_spec (rq_clt_nonce h) 0) as [|Hne].
  { by exists w. }
  specialize (Ho Hne). set (w0 := upd _ _ _).
  assert (refs_held c w0) as H0 by by apply held_upd.
  destruct (save_conn_safe (rq_clt_nonce h) c w0 H0) as [w1 Hs]. rewrite Hs. cbn [mbind option_bind].
  apply save_conn_view in Hs. injection Hs as Hwin Hran.
  destruct (checkduplicate_spec _ (rq_clt_nonce h) _ _ (window_inv_touch (rq_clt_nonce h) _ Hw)
              (u32_range (rq_xid h)) (u32_range (rq_xid_rep h)) Ho) as (win' & Hck & _).
  rewrite Hwin. unfold w0. cbn [w_srv upd on_window reply_window_]. rewrite Hck. cbn [mbind option_bind].
  unfold started_at. rewrite map_touch_at. by eexists.
Qed.

Lemma dispatch_begin_safe R w h :
  refs_inv w → amo R (view w) → acks_in_order R LDispatch w → next_header w = Some h →
  is_Some (dispatch_begin w).
Proof.
  intros Ir I Ho Hh. unfold acks_in_order in Ho. rewrite Hh in Ho. unfold next_header in Hh.
  unfold dispatch_begin, deq. destruct (q_ (w_jobs w)) as [|j q] eqn:Eq; [done|].
  cbn [mbind option_bind head] in *. pose proof (take_job_held w j q (max_ (w_jobs w)) Ir Eq) as Hk.
  change (view w) with (view (set_jobs (Fifo q (max_ (w_jobs w))) w)) in I. revert I Hk.
  generalize (set_jobs (Fifo q (max_ (w_jobs w))) w). clear w Ir Eq. intros w I Hk.
  destruct (unpack_req_header _) as [[h' req]|]; [|done]. cbn [mbind option_bind] in *.
  destruct (u_ok req); [|done]. injection Hh as ->. cbn [negb].
  destruct (_ && _).
  { destruct (send_header_safe (j_conn j) (ReplyHeader (rq_xid h) rpc_oldsrv_failure) w Hk) as [w1 ->].
    by eexists. }
  destruct (procs_ _ !! _) as [f|]; [|by apply w_decref_safe].
  destruct (dispatch_check_safe (j_conn j) h w Hk (proj1 I)) as (w1 & Hc & _); [lia|].
  pose proof (dispatch_check_held _ _ _ _ _ Hk Hc) as Hk1. rewrite Hc. cbn [mbind option_bind].
  destruct (if _ =? 0 then _ else _) as [[[b sz]|]|]; cbn [reply_state mbind option_bind].
  - destruct (w_send_safe (j_conn j) b sz w1 Hk1) as [w2 H2]. rewrite H2. cbn [mbind option_bind].
    apply w_decref_safe. by eapply w_send_held.
  - by apply w_decref_safe.
  - by eexists.
Qed.
End invariants.


(** C14. At most once, for the whole server: whatever messages arrive on whatever
    connections, duplicated, garbled, while connections die and handler calls of several
    threads overlap, no request of a client with a nonce is executed twice, as long as no
    request arrives after an acknowledgement that covers it. *)
Theorem server_at_most_once {S} (s : rpcs S) R (w : world S) :
  ordered_runs s R w → NoDup (calls_of_clients (w_ran w)).
Proof. intros H. by destruct (ordered_runs_amo s R w H) as (_ & ? & _). Qed.

(** A pool thread that takes a job with a readable header gets through the part of
    [dispatch] before the handler: no deleted connection is used, no assertion fails and
    the duplicate check does not reach its [exit(1)]. *)
Theorem dispatch_safe {S} (s : rpcs S) R (w : world S) h :
  ordered_runs s R w → acks_in_order R LDispatch w → next_header w = Some h →
  is_Some (dispatch_begin w).
Proof.
  intros Hr. eapply dispatch_begin_safe; [by eapply srv_runs_refs, ordered_runs_runs|by eapply ordered_runs_amo].
Qed.

(** A new server with its listener and pool starts from such a state. *)
Lemma new_rpcs_fresh {S} rnd count (x : S) s sz :
  new_rpcs rnd count x = Some s → fresh_world s (World s ∅ (new_fifo sz) [] [] ∅ [] []).
Proof. unfold new_rpcs, rpcs_reg_handler. cbn. intros [= <-]. by split_and!. Qed.

(** ** A server that adds up its arguments *)

Definition demo_proc : Z := 16.
Definition demo_add (a : sint) (_ : sint) (x : Z) : option (Z * sint * Z) :=
  Some (0, SInt (x + sint_val a), x + sint_val a).
Definition demo_server : rpcs Z :=
  Rpcs 7 {[ demo_proc := rpcs_reg1 (SInt 0) demo_add ]} ∅ ∅ 0 0 ∅ true 0.
Definition demo_world : world Z := World demo_server ∅ (new_fifo 0) [] [] ∅ [] [].

(** The message of a request with argument 5. *)
Definition demo_block (h : req_header) : block :=
  default [] (m ← put_int 5 new_marshall; m ← pack_req_header h m; take 28 <$> m_buf m).
Definition demo_pdu (c : nat) (xid rep : Z) : srv_label :=
  LPdu c (demo_block (ReqHeader xid demo_proc 9 7 rep)) 28.

Definition srv_next {S} (l : srv_label) (w : world S) : world S := default w (srv_step l w).

Lemma ordered_go {S} (s : rpcs S) R w l :
  ordered_runs s R w → acks_in_order R l w →
  (match srv_step l w with Some _ => true | None => false end) = true →
  ordered_runs s (acks_after R l w) (srv_next l w).
Proof.
  intros Hr Ho Hs. apply ordered_step; [done|done|]. unfold srv_next. by destruct (srv_step l w).
Qed.

(** Request 1 arrives on two connections and is being executed. *)
Definition demo_running : world Z :=
  srv_next LDispatch (srv_next (demo_pdu 2 1 0) (srv_next (demo_pdu 1 1 0)
    (srv_next (LAccept 2) (srv_next (LAccept 1) demo_world)))).

Lemma demo_running_runs : ordered_runs demo_server (<[9 := 0]> ∅) demo_running.
Proof.
  pose (w := srv_next (demo_pdu 2 1 0) (srv_next (demo_pdu 1 1 0)
    (srv_next (LAccept 2) (srv_next (LAccept 1) demo_world)))).
  change demo_running with (srv_next LDispatch w).
  assert (<[9 := 0]> ∅ = acks_after ∅ LDispatch w) as -> by (vm_compute; reflexivity).
  apply ordered_go; [unfold w| |vm_compute; reflexivity].
  - apply (ordered_go _ ∅ _ (demo_pdu 2 1 0)); [|exact I|vm_compute; reflexivity].
    apply (ordered_go _ ∅ _ (demo_pdu 1 1 0)); [|exact I|vm_compute; reflexivity].
    apply (ordered_go _ ∅ _ (LAccept 2)); [|exact I|vm_compute; reflexivity].
    apply (ordered_go _ ∅ _ (LAccept 1)); [|exact I|vm_compute; reflexivity].
    apply ordered_start. by split_and!.
  - vm_compute. intros _. by split.
Qed.


Lemma server_at_most_once_witness :
  w_ran demo_running = [(9, 1)] ∧ NoDup (calls_of_clients (w_ran demo_running)).
Proof.
  split; [vm_compute; reflexivity|].
  exact (server_at_most_once demo_server (<[9 := 0]> ∅) demo_running demo_running_runs).
Defined.

(** The duplicate on the other connection is taken by a second thread. *)
Lemma dispatch_safe_witness : is_Some (dispatch_begin demo_running).
Proof.
  apply (dispatch_safe demo_server (<[9 := 0]> ∅) demo_running (ReqHeader 1 demo_proc 9 7 0) demo_running_runs).
  - vm_compute. intros _. by split.
  - vm_compute. reflexivity.
Defined.

(** The whole run: one execution, the reply goes to the connection of the first copy. *)
Example demo_server_run :
  let w := srv_next (LExec 0) (srv_next LDispatch demo_running) in
  service (w_srv w) = 5 ∧ w_ran w = [(9, 1)] ∧ (fst <$> (fst <$> w_sent w)) = [1%nat] ∧
  (refno_ <$> w_heap w !! 1%nat) = Some 1 ∧ (refno_ <$> w_heap w !! 2%nat) = Some 2.
Proof. vm_compute. by split_and!. Qed.

(** A request for an old server instance: the connection keeps a reference for ever. *)
Example old_instance_leaks :
  let w := srv_next (LDrop 1) (srv_next LDispatch
    (srv_next (LPdu 1 (demo_block (ReqHeader 1 demo_proc 9 6 0)) 28) (srv_next (LAccept 1) demo_world))) in
  w_listen w = ∅ ∧ q_ (w_jobs w) = [] ∧ w_running w = [] ∧ conns_ (w_srv w) = ∅ ∧
  (refno_ <$> w_heap w !! 1%nat) = Some 1.
Proof. vm_compute. by split_and!. Qed.

(** A client without nonce whose connection dies during the call: [conns_] has no
    connection for it and [dispatch] uses the null pointer. *)
Example no_nonce_dead_connection :
  let w := srv_next (LDie 1) (srv_next LDispatch
    (srv_next (LPdu 1 (demo_block (ReqHeader 1 demo_proc 0 7 0)) 28) (srv_next (LAccept 1) demo_world))) in
  length (w_running w) = 1%nat ∧ dispatch_exec 0 w = None.
Proof. vm_compute. by split_and!. Qed.
