(* ===== verification/RpcClient.v ===== *)
(** * The RPC client

    class rpcc of rpc/rpc.cc.  [call1] is cut at the points where other threads run: the
    registration of the call, the transmission, the computation of the next deadline, the
    end of the wait and the final bookkeeping.  A [caller] lives on the stack of its
    thread and is reachable for others through [calls_] only, so the map holds it.  The
    outcome of [connect], the clock and the way a wait ends are arguments. *)

From S2P Require Import Prelude.
From S2P Require Import Marshall.
From S2P Require Import RpcWindow.
From S2P Require Import Timespec.
From S2P Require Import RpcStubs.
From S2P Require Import Connection.
From S2P Require Import ConnHeap.

(** ** State *)

Definition to_max : Z := 120000.
Definition to_min : Z := 1000.

(** [intret] is not initialised. *)
Record caller := Caller { un : unmarshall; intret : option Z; done : bool }.
Definition new_caller : caller := Caller new_unmarshall None false.

Record rpcc := Rpcc {
  clt_nonce_ : Z;
  srv_nonce_ : Z;
  bind_done_ : bool;
  xid_ : Z;
  retrans_ : bool;
  clt_reachable_ : bool;
  chan_ : option nat;
  destroy_wait_ : bool;
  calls_ : gmap Z caller;
  xid_rep_window_ : list Z;
}.

(** [rnd] is the value of [random()]. *)
Definition new_rpcc (retrans : bool) (rnd : Z) : rpcc :=
  Rpcc (if retrans then u32 rnd else 0) 0 false 1 retrans true None false ∅ [0].

Definition set_bound nonce c := Rpcc (clt_nonce_ c) nonce true (xid_ c) (retrans_ c) (clt_reachable_ c)
  (chan_ c) (destroy_wait_ c) (calls_ c) (xid_rep_window_ c).
Definition set_xid x c := Rpcc (clt_nonce_ c) (srv_nonce_ c) (bind_done_ c) x (retrans_ c) (clt_reachable_ c)
  (chan_ c) (destroy_wait_ c) (calls_ c) (xid_rep_window_ c).
Definition set_clt_reachable r c := Rpcc (clt_nonce_ c) (srv_nonce_ c) (bind_done_ c) (xid_ c) (retrans_ c) r
  (chan_ c) (destroy_wait_ c) (calls_ c) (xid_rep_window_ c).
Definition set_chan x c := Rpcc (clt_nonce_ c) (srv_nonce_ c) (bind_done_ c) (xid_ c) (retrans_ c)
  (clt_reachable_ c) x (destroy_wait_ c) (calls_ c) (xid_rep_window_ c).
Definition set_destroy_wait x c := Rpcc (clt_nonce_ c) (srv_nonce_ c) (bind_done_ c) (xid_ c) (retrans_ c)
  (clt_reachable_ c) (chan_ c) x (calls_ c) (xid_rep_window_ c).
Definition on_calls f c := Rpcc (clt_nonce_ c) (srv_nonce_ c) (bind_done_ c) (xid_ c) (retrans_ c)
  (clt_reachable_ c) (chan_ c) (destroy_wait_ c) (f (calls_ c)) (xid_rep_window_ c).
Definition set_rep_window x c := Rpcc (clt_nonce_ c) (srv_nonce_ c) (bind_done_ c) (xid_ c) (retrans_ c)
  (clt_reachable_ c) (chan_ c) (destroy_wait_ c) (calls_ c) x.

(** The client with its connections and the messages given to living connections. *)
Record cworld := CWorld { cw_clt : rpcc; cw_heap : conn_heap; cw_sent : list (nat * block * Z) }.

(** ** Operations *)

(** [call1] up to its first unlock: a failure code, or the xid and the request with its
    header. *)
Definition call1_begin (proc : Z) (req : marshall) (c : rpcc) : option ((Z + Z * marshall) * rpcc) :=
  if (negb (proc =? bind_proc) && negb (bind_done_ c)) || ((proc =? bind_proc) && bind_done_ c)
  then Some (inl bind_failure, c) else
  if destroy_wait_ c then Some (inl cancel_failure, c) else
  let xid := xid_ c in
  let c := on_calls <[s32 xid := new_caller]> (set_xid (u32 (xid + 1)) c) in
  rep ← head (xid_rep_window_ c);
  req ← pack_req_header (ReqHeader (s32 xid) (s32 proc) (clt_nonce_ c) (srv_nonce_ c) (s32 rep)) req;
  Some (inr (xid, req), c).

(** The local variables of [call1]. *)
Record call := Call {
  k_xid : Z; k_req : marshall; k_final : timespec; k_to : Z; k_transmit : bool; k_ch : option nat;
}.

Definition call1_prepare (xid : Z) (req : marshall) (to : Z) (now : timespec) : option call :=
  final ← add_timespec now to;
  Some (Call xid req final to_min true None).

(** A new channel when there is none or it is dead; the caller's reference moves to it. *)
Definition get_refconn (fresh : option nat) (ch : option nat) (w : cworld) : option (option nat * cworld) :=
  '(chan, hp) ← match chan_ (cw_clt w) with
                | None => Some (connect_to_dst fresh (cw_heap w))
                | Some d =>
                    dead ← isdead_at d (cw_heap w);
                    if (dead : bool) then hp ← decref_at d (cw_heap w); Some (connect_to_dst fresh hp)
                    else Some (Some d, cw_heap w)
                end;
  let c := set_chan chan (cw_clt w) in
  match chan with
  | None => Some (ch, CWorld c hp (cw_sent w))
  | Some d =>
      hp ← match ch with Some e => decref_at e hp | None => Some hp end;
      hp ← incref_at d hp;
      Some (Some d, CWorld c hp (cw_sent w))
  end.

(** [ch->send(req.cstr(), req.size())]: nothing leaves on a dead connection. *)
Definition clt_send (d : nat) (req : marshall) (w : cworld) : option cworld :=
  b ← m_buf req; dead ← isdead_at d (cw_heap w);
  Some (if dead : bool then w else CWorld (cw_clt w) (cw_heap w) (cw_sent w ++ [(d, b, m_ind req)])).

Definition call1_transmit (fresh : option nat) (k : call) (w : cworld) : option (call * cworld) :=
  if negb (k_transmit k) then Some (k, w) else
  '(ch, w) ← get_refconn fresh (k_ch k) w;
  w ← match ch with
      | Some d => if clt_reachable_ (cw_clt w) then clt_send d (k_req k) w else Some w
      | None => Some w
      end;
  Some (Call (k_xid k) (k_req k) (k_final k) (k_to k) false ch, w).

(** The next deadline; [Some None] leaves the loop. *)
Definition call1_deadline (now : timespec) (k : call) : option (option (timespec * call)) :=
  if tv_sec (k_final k) =? 0 then Some None else
  next ← add_timespec now (k_to k);
  Some (Some (if cmp_timespec next (k_final k) >? 0
              then (k_final k, Call (k_xid k) (k_req k) (Timespec 0 (tv_nsec (k_final k))) (k_to k)
                                 (k_transmit k) (k_ch k))
              else (next, k))).

(** [pthread_cond_timedwait] refuses other deadlines with [EINVAL], and the loop around
    it waits again. *)
Definition valid_deadline (t : timespec) : bool := (0 <=? tv_nsec t) && (tv_nsec t <? nsec_per_sec).

(** The end of the wait: true when the call is done; [None] when the thread waits on. *)
Definition call1_wait (timeout : bool) (next : timespec) (k : call) (c : rpcc) : option bool :=
  ca ← calls_ c !! s32 (k_xid k);
  if done ca then Some true else
  if timeout && valid_deadline next then Some false else None.

Definition call1_retry (k : call) (w : cworld) : option call :=
  dead ← match k_ch k with None => Some true | Some d => isdead_at d (cw_heap w) end;
  to ← chk_int (k_to k * 2);
  Some (Call (k_xid k) (k_req k) (k_final k) to
          (if retrans_ (cw_clt w) && dead then true else k_transmit k) (k_ch k)).

(** After the loop: the return value and the reply object. *)
Definition call1_end (k : call) (w : cworld) : option (Z * unmarshall * cworld) :=
  ca ← calls_ (cw_clt w) !! s32 (k_xid k);
  let c := on_calls (delete (s32 (k_xid k))) (cw_clt w) in
  win ← update_xid_rep (k_xid k) (xid_rep_window_ c);
  let c := set_rep_window win c in
  hp ← match k_ch k with Some d => decref_at d (cw_heap w) | None => Some (cw_heap w) end;
  ret ← (if done ca then intret ca else Some rpc_timeout_failure);
  Some (ret, un ca, CWorld c hp (cw_sent w)).

(** The upcall of a connection with a reply; it always returns true. *)
Definition clt_got_pdu (b : block) (sz : Z) (c : rpcc) : option rpcc :=
  '(h, rep) ← unpack_reply_header (unmarshall_of_buf b sz);
  if negb (u_ok rep) then Some c else
  win ← update_xid_rep (u32 (rp_xid h)) (xid_rep_window_ c);
  let c := set_rep_window win c in
  match calls_ c !! rp_xid h with
  | None => Some c
  | Some ca =>
      if done ca then Some c
      else Some (on_calls <[rp_xid h := Caller (fst (take_in rep)) (Some (rp_ret h)) true]> c)
  end.

(** What [bind] does with the result of its call. *)
Definition bind_finish (ret r : Z) (c : rpcc) : rpcc := if ret =? 0 then set_bound (u32 r) c else c.

(** [cancel] makes every pending call fail, then waits while there are any. *)
Definition cancel (c : rpcc) : rpcc :=
  let c := on_calls (fmap (λ ca, Caller (un ca) (Some cancel_failure) true)) c in
  if bool_decide (calls_ c = ∅) then c else set_destroy_wait true c.

(** The destructor, when no call is pending. *)
Definition delete_rpcc (w : cworld) : option conn_heap :=
  hp ← match chan_ (cw_clt w) with
       | None => Some (cw_heap w)
       | Some d => x ← cw_heap w !! d; decref_at d (<[d := snd (closeconn x)]> (cw_heap w))
       end;
  if bool_decide (calls_ (cw_clt w) = ∅) then Some hp else None.

(** ** The loop of [call1] ends *)

(** One turn of the loop that ends with a time-out.  Other threads run before the
    transmission and during the wait, so the worlds at these points are arbitrary. *)
Inductive timed_out_round (now : timespec) (k k' : call) : Prop :=
  | timed_out_round_intro fresh w w1 w2 k1 next k2 :
      call1_transmit fresh k w = Some (k1, w1) →
      call1_deadline now k1 = Some (Some (next, k2)) →
      call1_wait true next k2 (cw_clt w2) = Some false →
      call1_retry k2 w2 = Some k' → timed_out_round now k k'.

Inductive rounds : call → list timespec → call → Prop :=
  | rounds_nil k : rounds k [] k
  | rounds_snoc k nows k1 now k2 : rounds k nows k1 → timed_out_round now k1 k2 → rounds k (nows ++ [now]) k2.

(** A time that is not before [t0], and more than [2^n] seconds before the end of time. *)
Definition clock_after (n : nat) (t0 t : timespec) : Prop :=
  clock_ok t ∧ nanos t0 <= nanos t ∧ tv_sec t + 2 ^ Z.of_nat n + 1 <= INT_MAX.

Lemma add_timespec_valid a b t :
  clock_ok a → 0 <= b → tv_sec a + b / 1000 + 1 <= INT_MAX → b mod 1000 = 0 →
  add_timespec a b = Some t → valid_deadline t = true ∧ nanos t = nanos a + b * 1000000.
Proof.
  intros Ha Hb Hm Hmod Ht. destruct (add_timespec_ok a b Ha Hb Hm) as (t' & Ht' & Hn & Hs & Hr).
  rewrite Ht' in Ht. injection Ht as ->. split; [|done]. unfold valid_deadline.
  destruct Ha as [Has Han]. unfold add_timespec in Ht'.
  rewrite Z.quot_div_nonneg, Z.rem_mod_nonneg, Hmod, Z.mul_0_l, Z.add_0_r in Ht' by lia.
  pose proof (Z.div_pos b 1000 Hb ltac:(lia)) as Hd. unfold INT_MAX, nsec_per_sec in *.
  rewrite (chk_int_id (tv_sec a + b / 1000)), (chk_int_id (tv_nsec a)) in Ht' by (unfold INT_MAX; lia).
  cbn [mbind option_bind] in Ht'. replace (tv_nsec a <? 0) with false in Ht' by lia.
  rewrite Z.div_small in Ht' by (unfold nsec_per_sec; lia). change (Z.to_nat 0) with O in Ht'. cbn [carry_nsec tv_nsec] in Ht'.
  replace (tv_nsec a >? nsec_per_sec) with false in Ht' by (unfold nsec_per_sec; lia).
  cbn in Ht'. injection Ht' as <-. cbn [tv_nsec]. lia.
Qed.

Lemma cmp_timespec_later a b :
  0 <= tv_nsec a <= nsec_per_sec → 0 <= tv_nsec b <= nsec_per_sec → nanos b < nanos a →
  cmp_timespec a b = 1.
Proof.
  intros Ha Hb Hlt. unfold cmp_timespec, nanos, nsec_per_sec in *.
  destruct (Z.gtb_spec (tv_sec a) (tv_sec b)); [done|].
  destruct (Z.ltb_spec (tv_sec a) (tv_sec b)); [lia|].
  destruct (Z.gtb_spec (tv_nsec a) (tv_nsec b)); [done|lia].
Qed.

Lemma call1_transmit_same fresh k w k' w' :
  call1_transmit fresh k w = Some (k', w') → k_final k' = k_final k ∧ k_to k' = k_to k.
Proof.
  unfold call1_transmit. destruct (negb _); [by intros [= -> ->]|]. intros H.
  apply bind_Some in H as ([ch w1] & _ & H). apply bind_Some in H as (w2 & _ & H). by simplify_eq.
Qed.

Lemma call1_retry_same k w k' :
  call1_retry k w = Some k' → k_final k' = k_final k ∧ k_to k' = k_to k * 2.
Proof.
  intros H. apply bind_Some in H as (d & _ & H). apply bind_Some in H as (to & Hto & H).
  injection H as <-. unfold chk_int in Hto. destruct (_ && _); by simplify_eq.
Qed.

(** After [i] time-outs: the interval has doubled [i] times, and the final deadline is
    still in force only when the interval was not longer than the whole time-out. *)
Definition loop_inv (to : Z) (final : timespec) (i : nat) (k : call) : Prop :=
  k_to k = to_min * 2 ^ Z.of_nat i ∧
  (tv_sec (k_final k) ≠ 0 →
   k_final k = final ∧ (i ≠ O → to_min * 2 ^ (Z.of_nat i - 1) <= to)) ∧
  (i ≠ O → to_min * 2 ^ (Z.of_nat i - 2) <= to).

Section call1_loop.
Context (to : Z) (n : nat) (now0 final : timespec).
Hypothesis Hto : 0 <= to < to_min * 2 ^ Z.of_nat n.
Hypothesis Hsec : to mod 1000 = 0.
Hypothesis Hnow0 : clock_after n now0 now0.
Hypothesis Hfinal : add_timespec now0 to = Some final.

Lemma to_div : to / 1000 < 2 ^ Z.of_nat n.
Proof. apply Z.div_lt_upper_bound; unfold to_min in *; lia. Qed.

Lemma final_ok : valid_deadline final = true ∧ nanos final = nanos now0 + to * 1000000.
Proof.
  destruct Hnow0 as (H1 & _ & H2). pose proof to_div.
  apply (add_timespec_valid now0 to final H1); [lia|lia|done|done].
Qed.

(** With the deadline in force, at most [n] rounds have passed. *)
Lemma loop_inv_bound i k : loop_inv to final i k → tv_sec (k_final k) ≠ 0 → (i <= n)%nat.
Proof.
  intros (_ & Hf & _) Hs. destruct i as [|i]; [lia|]. destruct (Hf Hs) as [_ Hle]. specialize (Hle ltac:(done)).
  unfold to_min in *. replace (Z.of_nat (S i) - 1) with (Z.of_nat i) in Hle by lia.
  assert (Z.of_nat i < Z.of_nat n); [|lia]. apply (Z.pow_lt_mono_r_iff 2); lia.
Qed.

Lemma call1_deadline_spec i k now :
  loop_inv to final i k → clock_after n now0 now → tv_sec (k_final k) ≠ 0 →
  ∃ next k', call1_deadline now k = Some (Some (next, k')) ∧ valid_deadline next = true ∧
    k_to k' = k_to k ∧
    (tv_sec (k_final k') ≠ 0 → k_final k' = final ∧ k_to k <= to).
Proof.
  intros Hi (Hc & Hge & Hmax) Hs. pose proof (loop_inv_bound i k Hi Hs) as Hin.
  destruct Hi as (Hkto & Hf & _). destruct (Hf Hs) as [Hfin _]. destruct final_ok as [Hvf Hnf].
  unfold call1_deadline. destruct (Z.eqb_spec (tv_sec (k_final k)) 0) as [|_]; [done|].
  assert (0 <= k_to k) as H0 by (rewrite Hkto; unfold to_min; pose proof (Z.pow_nonneg 2 (Z.of_nat i)); lia).
  assert (tv_sec now + k_to k / 1000 + 1 <= INT_MAX) as Hov.
  { rewrite Hkto. unfold to_min. rewrite Z.mul_comm, Z.div_mul by lia.
    pose proof (Z.pow_le_mono_r 2 (Z.of_nat i) (Z.of_nat n)). lia. }
  destruct (add_timespec_ok now (k_to k) Hc H0 Hov) as (next & Hnext & _).
  assert (k_to k mod 1000 = 0) as Hmod by (rewrite Hkto; unfold to_min; rewrite Z.mul_comm; apply Z_mod_mult).
  destruct (add_timespec_valid _ _ _ Hc H0 Hov Hmod Hnext) as (Hv & Hn).
  rewrite Hnext. cbn [mbind option_bind]. destruct (cmp_timespec next (k_final k) >? 0) eqn:Hcmp.
  - eexists _, _. split; [done|]. rewrite Hfin. split_and!; [done|done|]. cbn. done.
  - eexists _, _. split; [done|]. split_and!; [done|done|]. intros _. split; [done|].
    destruct (Z.le_gt_cases (k_to k) to) as [|Hgt]; [done|]. rewrite Hfin in Hcmp.
    rewrite cmp_timespec_later in Hcmp; [done| | |lia]; unfold valid_deadline in *; lia.
Qed.

Lemma round_inv i now k k' :
  clock_after n now0 now → loop_inv to final i k → timed_out_round now k k' → loop_inv to final (S i) k'.
Proof.
  intros Hnow Hi [fresh w w1 w2 k1 next k2 Ht Hd _ Hr].
  destruct (call1_transmit_same _ _ _ _ _ Ht) as [Ef Et]. destruct (call1_retry_same _ _ _ Hr) as [Ef' Et'].
  assert (loop_inv to final i k1) as Hi1 by (unfold loop_inv in *; by rewrite Ef, Et).
  assert (tv_sec (k_final k1) ≠ 0) as Hs.
  { intros H0. unfold call1_deadline in Hd. by rewrite H0 in Hd. }
  destruct (call1_deadline_spec i k1 now Hi1 Hnow Hs) as (next' & k2' & Hd' & _ & Hk & Hle).
  rewrite Hd' in Hd. injection Hd as -> ->. destruct Hi1 as (Hkto & Hf & _).
  split_and!.
  - rewrite Et', Hk, Hkto, Nat2Z.inj_succ, Z.pow_succ_r by lia. lia.
  - rewrite Ef'. intros Hs2. destruct (Hle Hs2) as [? Hto2]. split; [done|]. intros _.
    replace (Z.of_nat (S i) - 1) with (Z.of_nat i) by lia. rewrite <- Hkto. done.
  - intros _. destruct i as [|i]; [change (2 ^ (Z.of_nat 1 - 2)) with 0; lia|].
    destruct (Hf Hs) as [_ Hb]. specialize (Hb ltac:(done)).
    replace (Z.of_nat (S (S i)) - 2) with (Z.of_nat (S i) - 1) by lia. done.
Qed.

Lemma rounds_inv k0 nows k :
  loop_inv to final 0 k0 → rounds k0 nows k → Forall (clock_after n now0) nows →
  loop_inv to final (length nows) k.
Proof.
  intros H0 Hr. revert H0. induction Hr as [|k nows k1 now k2 _ IH Hr]; intros H0 Hf; [done|].
  apply Forall_app in Hf as [Hf1 [Hf2 _]%Forall_cons]. rewrite length_app, Nat.add_1_r.
  eapply round_inv; [exact Hf2|by apply IH|exact Hr].
Qed.
End call1_loop.

(** C31. [call1] comes back: with a time-out below [2^n] seconds and a clock that does not
    run backwards, at most [n+1] waits end with a time-out; whenever the thread is at the
    head of the loop it either leaves it or computes, without overflow, a deadline that
    [pthread_cond_timedwait] accepts, and only before the [n+1]st time-out.  The time-out
    must be in whole seconds: others may give a deadline with 1000000000 nanoseconds. *)
Theorem call1_terminates (xid : Z) (req : marshall) (to : Z) (n : nat) now0 nows k0 k :
  0 <= to < to_min * 2 ^ Z.of_nat n → to mod 1000 = 0 → clock_after n now0 now0 → Forall (clock_after n now0) nows →
  call1_prepare xid req to now0 = Some k0 → rounds k0 nows k →
  (length nows <= n + 1)%nat ∧
  ∀ now, clock_after n now0 now →
    call1_deadline now k = Some None ∨
    ∃ next k', call1_deadline now k = Some (Some (next, k')) ∧ valid_deadline next = true ∧
      (length nows <= n)%nat.
Proof.
  intros Hto Hsec Hnow0 Hnows Hp Hr. apply bind_Some in Hp as (final & Hfin & Hp). injection Hp as <-.
  assert (loop_inv to final (length nows) k) as Hi.
  { eapply rounds_inv; [done|done|done|done| |done|done]. split_and!; [done|done|done]. }
  split.
  - destruct Hi as (_ & _ & Hb). destruct (length nows) as [|[|i]]; [lia..|]. specialize (Hb ltac:(done)).
    replace (Z.of_nat (S (S i)) - 2) with (Z.of_nat i) in Hb by lia. unfold to_min in *.
    assert (Z.of_nat i < Z.of_nat n); [|lia]. apply (Z.pow_lt_mono_r_iff 2); lia.
  - intros now Hnow. destruct (decide (tv_sec (k_final k) = 0)) as [E|E].
    + left. unfold call1_deadline. by rewrite E.
    + right. pose proof (loop_inv_bound to n final Hto _ _ Hi E).
      destruct (call1_deadline_spec to n now0 final Hto Hsec Hnow0 Hfin _ _ _ Hi Hnow E)
        as (next & k' & Hd & Hv & _). eauto.
Qed.

(** A call with a time-out of five seconds to a server that cannot be reached. *)
Definition demo_clt : rpcc := on_calls <[1 := new_caller]> (set_xid 2 (set_bound 7 (new_rpcc true 9))).
Definition demo_cworld : cworld := CWorld demo_clt ∅ [].
Definition demo_call (to : Z) (transmit : bool) (final : timespec) : call :=
  Call 1 new_marshall final to transmit None.

Lemma call1_terminates_witness :
  let k := demo_call 2000 true (Timespec 15 7) in
  call1_prepare 1 new_marshall 5000 (Timespec 10 7) = Some (demo_call 1000 true (Timespec 15 7)) ∧
  rounds (demo_call 1000 true (Timespec 15 7)) [Timespec 10 8] k ∧
  (call1_deadline (Timespec 11 9) k = Some None ∨
   ∃ next k', call1_deadline (Timespec 11 9) k = Some (Some (next, k')) ∧ valid_deadline next = true ∧
     (1 <= 3)%nat).
Proof.
  intros k.
  assert (rounds (demo_call 1000 true (Timespec 15 7)) [Timespec 10 8] k) as Hr.
  { apply (rounds_snoc _ [] (demo_call 1000 true (Timespec 15 7))); [apply rounds_nil|].
    apply (timed_out_round_intro _ _ _ None demo_cworld demo_cworld demo_cworld
             (demo_call 1000 false (Timespec 15 7)) (Timespec 11 8) (demo_call 1000 false (Timespec 15 7)));
      reflexivity. }
  assert (∀ s ns, 10 <= s <= 11 → 7 <= ns <= 9 → clock_after 3 (Timespec 10 7) (Timespec s ns)) as Hc.
  { intros s ns Hs Hn. unfold clock_after, clock_ok, nanos, nsec_per_sec, INT_MAX. cbn [tv_sec tv_nsec].
    change (2 ^ Z.of_nat 3) with 8. lia. }
  split; [reflexivity|]. split; [exact Hr|].
  refine (proj2 (call1_terminates 1 new_marshall 5000 3 (Timespec 10 7) [Timespec 10 8]
                   (demo_call 1000 true (Timespec 15 7)) k _ _ _ _ eq_refl Hr) (Timespec 11 9) _).
  - by split.
  - reflexivity.
  - apply Hc; lia.
  - constructor; [apply Hc; lia|constructor].
  - apply Hc; lia.
Defined.

(** A time-out of half a second started half a second before a full one: the wait is
    refused again and again, the thread neither times out nor leaves the loop until a
    reply comes. *)
Example deadline_refused :
  call1_prepare 1 new_marshall 500 (Timespec 9 500000000)
    = Some (demo_call 1000 true (Timespec 9 1000000000)) ∧
  call1_deadline (Timespec 9 500000001) (demo_call 1000 false (Timespec 9 1000000000))
    = Some (Some (Timespec 9 1000000000, demo_call 1000 false (Timespec 0 1000000000))) ∧
  call1_wait true (Timespec 9 1000000000) (demo_call 1000 false (Timespec 0 1000000000)) demo_clt = None.
Proof. by split_and!. Qed.

(** ** Acknowledgements are sound *)

(** What happens to the state under [m_]: a call starts, a reply arrives, a call ends,
    the pending calls are cancelled, [bind] succeeds. *)
Inductive clt_label :=
  | CStart (proc : Z) (req : marshall) | CPdu (b : block) (sz : Z) | CEnd (xid : Z)
  | CCancel | CBind (ret r : Z) | CReach (r : bool).

(** The end of a call as far as [m_] protects it. *)
Definition end_locked (xid : Z) (c : rpcc) : option rpcc :=
  '(_, _, w) ← call1_end (Call xid new_marshall (Timespec 0 0) 0 false None) (CWorld c ∅ []);
  Some (cw_clt w).

(** The state and the log of the requests' (xid, xid_rep). *)
Definition clt_step (l : clt_label) (s : rpcc * list (Z * Z)) : option (rpcc * list (Z * Z)) :=
  let '(c, log) := s in
  match l with
  | CStart proc req =>
      '(r, c') ← call1_begin proc req c;
      Some (c', match r with
                | inl _ => log
                | inr (xid, _) => log ++ [(xid, front (xid_rep_window_ c))]
                end)
  | CPdu b sz => c ← clt_got_pdu b sz c; Some (c, log)
  | CEnd xid => c ← end_locked xid c; Some (c, log)
  | CCancel => Some (cancel c, log)
  | CBind ret r => Some (bind_finish ret r c, log)
  | CReach r => Some (set_clt_reachable r c, log)
  end.

(** Replies answer requests that were sent, xids do not wrap around. *)
Definition clt_ok (l : clt_label) (c : rpcc) : Prop :=
  match l with
  | CStart _ _ => xid_ c + 1 < 2 ^ 32
  | CPdu b sz =>
      ∀ h u, unpack_reply_header (unmarshall_of_buf b sz) = Some (h, u) → u_ok u = true →
             u32 (rp_xid h) < xid_ c
  | CEnd xid => is_u32 xid
  | _ => True
  end.

Inductive clt_runs (retrans : bool) (rnd : Z) : rpcc * list (Z * Z) → Prop :=
  | clt_runs_start : clt_runs retrans rnd (new_rpcc retrans rnd, [])
  | clt_runs_step s l s' :
      clt_runs retrans rnd s → clt_ok l (fst s) → clt_step l s = Some s' → clt_runs retrans rnd s'.

(** Requests in the order of their creation. *)
Definition later_request (p q : Z * Z) : Prop := fst p < fst q ∧ snd p <= snd q.

Record clt_inv (c : rpcc) (log : list (Z * Z)) : Prop := CltInv {
  ci_xid : 1 <= xid_ c < 2 ^ 32;
  ci_win : window_ok (xid_rep_window_ c);
  ci_acked x : acked (xid_rep_window_ c) x → x < xid_ c;
  ci_calls x ca : is_u32 x → calls_ c !! s32 x = Some ca →
    x < xid_ c ∧ (done ca = false → ¬ acked (xid_rep_window_ c) x);
  ci_log p : p ∈ log → snd p < fst p < xid_ c ∧ snd p <= front (xid_rep_window_ c);
  ci_sorted : StronglySorted later_request log;
}.

Lemma s32_inj x y : is_u32 x → is_u32 y → s32 x = s32 y → x = y.
Proof. intros Hx Hy He. rewrite <- (u32_id x), <- (u32_id y), <- (u32_s32 x), <- (u32_s32 y) by done. by rewrite He. Qed.

Lemma unpack_is_s32 u x u' : unpack u = Some (x, u') → is_s32 x.
Proof.
  unfold unpack. intros H. apply bind_Some in H as ([x1 u1] & _ & H). apply bind_Some in H as ([x2 u2] & _ & H).
  apply bind_Some in H as ([x3 u3] & _ & H). unfold get_or in H. apply bind_Some in H as ([b u4] & _ & H).
  injection H as <- <-. apply s32_range.
Qed.

Lemma reply_xid_s32 u h u' : unpack_reply_header u = Some (h, u') → is_s32 (rp_xid h).
Proof.
  unfold unpack_reply_header. intros H. apply bind_Some in H as ([x u1] & Hx & H).
  apply bind_Some in H as ([r u2] & _ & H). injection H as <- _. by eapply unpack_is_s32.
Qed.

Lemma front_acked w : window_ok w → acked w (front w).
Proof. intros _. left. lia. Qed.

(** The window grows by [x]; the calls with that xid are not waiting any more. *)
Lemma clt_inv_update c log x win calls :
  clt_inv c log → is_u32 x → x < xid_ c → update_xid_rep x (xid_rep_window_ c) = Some win →
  (∀ y ca, is_u32 y → calls !! s32 y = Some ca → y < xid_ c ∧
     (done ca = false → y ≠ x ∧ ¬ acked (xid_rep_window_ c) y)) →
  clt_inv (set_rep_window win (on_calls (λ _, calls) c)) log.
Proof.
  intros [I1 I2 I3 I4 I5 I6] Hx Hlt Hu Hcalls.
  destruct (update_xid_rep_spec x _ I2 Hx) as (win' & Hu' & Hok & Hfr & Hack).
  rewrite Hu in Hu'. injection Hu' as ->. split; cbn [xid_ calls_ xid_rep_window_ set_rep_window on_calls]; try done.
  - intros y. rewrite Hack. intros [?| ->]; [by apply I3|done].
  - intros y ca Hy Hc. destruct (Hcalls y ca Hy Hc) as [H1 H2]. split; [done|]. intros Hd. rewrite Hack.
    destruct (H2 Hd). tauto.
  - intros p Hp. destruct (I5 p Hp). split; [done|lia].
Qed.

Lemma call1_begin_inv proc req c log r c' :
  clt_inv c log → xid_ c + 1 < 2 ^ 32 → call1_begin proc req c = Some (r, c') →
  clt_inv c' (match r with inl _ => log | inr (xid, _) => log ++ [(xid, front (xid_rep_window_ c))] end).
Proof.
  intros I Hx H. unfold call1_begin in H.
  destruct (_ || _); [by simplify_eq|]. destruct (destroy_wait_ c); [by simplify_eq|].
  apply bind_Some in H as (rep & _ & H). apply bind_Some in H as (m & _ & H). injection H as <- <-.
  destruct I as [I1 I2 I3 I4 I5 I6].
  assert (u32 (xid_ c + 1) = xid_ c + 1) as Hu by (apply u32_id; unfold is_u32; lia).
  assert (front (xid_rep_window_ c) < xid_ c) as Hf by (by apply I3, front_acked).
  split; cbn [xid_ calls_ xid_rep_window_ set_xid on_calls]; rewrite ?Hu; [lia|done| | | |].
  - intros x Ha. specialize (I3 x Ha). lia.
  - intros x ca Hxu Hc. destruct (decide (s32 (xid_ c) = s32 x)) as [E|E].
    + apply (s32_inj (xid_ c) x ltac:(unfold is_u32; lia) Hxu) in E. subst x. split; [lia|].
      intros _ Ha. specialize (I3 _ Ha). lia.
    + rewrite lookup_insert_ne in Hc by done. destruct (I4 x ca Hxu Hc). split; [lia|done].
  - intros p [Hp|Hp%list_elem_of_singleton]%elem_of_app; [destruct (I5 p Hp); lia|]. subst p. cbn. lia.
  - apply StronglySorted_app_2; [|done|by repeat constructor].
    intros p q Hp Hq%list_elem_of_singleton. subst q. destruct (I5 p Hp). split; cbn; lia.
Qed.

Lemma clt_got_pdu_inv b sz c log c' :
  clt_inv c log → clt_ok (CPdu b sz) c → clt_got_pdu b sz c = Some c' → clt_inv c' log.
Proof.
  intros I Hok H. unfold clt_got_pdu in H. apply bind_Some in H as ([h rep] & Hh & H).
  pose proof (reply_xid_s32 _ _ _ Hh) as Hs. specialize (Hok h rep Hh).
  destruct (u_ok rep); cbn [negb] in H; [|by simplify_eq]. specialize (Hok eq_refl).
  apply bind_Some in H as (win & Hw & H). cbn [calls_ set_rep_window] in H.
  assert (s32 (u32 (rp_xid h)) = rp_xid h) as Hid by by apply s32_of_u32.
  assert (∀ y, is_u32 y → s32 y ≠ rp_xid h → y ≠ u32 (rp_xid h)) as Hne by (intros y _ Hy ->; by rewrite Hid in Hy).
  assert (∀ calls, (∀ k, k ≠ rp_xid h → calls !! k = calls_ c !! k) →
            (∀ ca, calls !! rp_xid h = Some ca → is_Some (calls_ c !! rp_xid h) ∧ done ca = true) →
            clt_inv (set_rep_window win (on_calls (λ _, calls) c)) log) as Hgen.
  { intros calls Hother Hsame. eapply clt_inv_update; [done|apply u32_range|done|done|].
    intros y ca Hy Hc. destruct (decide (s32 y = rp_xid h)) as [E|E].
    - rewrite E in Hc. destruct (Hsame ca Hc) as [[ca' Hc'] Hd]. rewrite <- E in Hc'.
      destruct (ci_calls _ _ I y ca' Hy Hc'). split; [done|]. congruence.
    - rewrite Hother in Hc by done. destruct (ci_calls _ _ I y ca Hy Hc) as [? Hn]. split; [done|].
      intros Hd. split; [by apply Hne|by apply Hn]. }
  destruct (calls_ c !! rp_xid h) as [ca|] eqn:E.
  - destruct (done ca) eqn:Ed; injection H as <-.
    + apply (Hgen (calls_ c)); [done|]. intros ca'. rewrite E. intros [= ->]. split; [by eexists|done].
    + set (calls := <[rp_xid h := Caller (fst (take_in rep)) (Some (rp_ret h)) true]> (calls_ c)).
      refine (Hgen calls _ _); unfold calls.
      * intros k Hk. by rewrite lookup_insert_ne.
      * intros ca'. rewrite lookup_insert_eq. intros [= <-]. split; [by eexists|done].
  - injection H as <-. apply (Hgen (calls_ c)); [done|]. intros ca'. by rewrite E.
Qed.

Lemma end_locked_inv xid c log c' :
  clt_inv c log → is_u32 xid → end_locked xid c = Some c' → clt_inv c' log.
Proof.
  intros I Hx H. unfold end_locked, call1_end in H. apply bind_Some in H as ([[r u] w] & H & Hw).
  injection Hw as <-. cbn [k_xid cw_clt k_ch cw_heap cw_sent] in H.
  apply bind_Some in H as (ca & Hc & H). apply bind_Some in H as (win & Hu & H).
  cbn [mbind option_bind] in H. apply bind_Some in H as (ret & _ & H). injection H as _ _ <-. cbn [cw_clt].
  destruct (ci_calls _ _ I xid ca Hx Hc) as [Hlt _].
  apply (clt_inv_update c log xid win (delete (s32 xid) (calls_ c)) I Hx Hlt Hu).
  intros y ca' Hy Hc'. destruct (decide (s32 xid = s32 y)) as [E|E].
  - by rewrite E, lookup_delete_eq in Hc'.
  - rewrite lookup_delete_ne in Hc' by done. destruct (ci_calls _ _ I y ca' Hy Hc') as [? Hn].
    split; [done|]. intros Hd. split; [congruence|by apply Hn].
Qed.

Lemma cancel_inv c log : clt_inv c log → clt_inv (cancel c) log.
Proof.
  intros [I1 I2 I3 I4 I5 I6]. unfold cancel.
  assert (clt_inv (on_calls (fmap (λ ca, Caller (un ca) (Some cancel_failure) true)) c) log) as [J1 J2 J3 J4 J5 J6].
  { split; cbn [xid_ calls_ xid_rep_window_ on_calls]; try done. intros x ca Hx Hc.
    rewrite lookup_fmap, fmap_Some in Hc. destruct Hc as (ca' & Hc & ->). destruct (I4 x ca' Hx Hc). done. }
  case_bool_decide; split; done.
Qed.

Lemma clt_step_inv l c log s' :
  clt_inv c log → clt_ok l c → clt_step l (c, log) = Some s' → clt_inv (fst s') (snd s').
Proof.
  intros I Hok H. destruct l as [proc req|b sz|xid| |ret r|r]; cbn [clt_step] in H.
  - apply bind_Some in H as ([r c'] & Hb & H). injection H as <-. by eapply call1_begin_inv.
  - apply bind_Some in H as (c' & Hb & H). injection H as <-. by eapply clt_got_pdu_inv.
  - apply bind_Some in H as (c' & Hb & H). injection H as <-. by eapply end_locked_inv.
  - injection H as <-. by apply cancel_inv.
  - injection H as <-. unfold bind_finish. destruct (ret =? 0); destruct I; by split.
  - injection H as <-. destruct I. by split.
Qed.

Lemma clt_runs_inv retrans rnd s : clt_runs retrans rnd s → clt_inv (fst s) (snd s).
Proof.
  induction 1 as [|[c log] l s' _ IH Hok Hs]; [|by eapply clt_step_inv].
  split; cbn; [lia| | | | |constructor].
  - split_and!; [done|by repeat constructor|by repeat constructor|set_solver].
  - intros x [Hx|Hx%list_elem_of_singleton]; cbn in Hx; lia.
  - intros x ca _ Hc. by rewrite lookup_empty in Hc.
  - intros p Hp. by apply elem_of_nil in Hp.
Qed.

(** What a client promises the server: in the order of their creation its requests
    have growing xids and acknowledgements that never go back and stay below the xid, and
    an acknowledgement never covers a call whose thread still waits for its reply, however
    calls, replies (duplicates included), time-outs and cancellations interleave. *)
Theorem acks_sound retrans rnd c log :
  clt_runs retrans rnd (c, log) →
  StronglySorted later_request log ∧ Forall (λ p, snd p < fst p < xid_ c) log ∧
  ∀ xid ca, is_u32 xid → calls_ c !! s32 xid = Some ca → done ca = false →
    front (xid_rep_window_ c) < xid.
Proof.
  intros H. destruct (clt_runs_inv _ _ _ H) as [I1 I2 I3 I4 I5 I6]. cbn [fst snd] in *.
  split_and!; [done| |].
  - apply Forall_forall. intros p Hp. by apply I5.
  - intros xid ca Hx Hc Hd. destruct (I4 xid ca Hx Hc) as [_ Hn]. specialize (Hn Hd). unfold acked in Hn. lia.
Qed.

(** Two calls; the reply to the first arrives before a third one starts. *)
Definition clt_next (l : clt_label) (s : rpcc * list (Z * Z)) : rpcc * list (Z * Z) := default s (clt_step l s).
Definition demo_reply (xid ret : Z) : block :=
  default [] (m ← pack_reply_header (ReplyHeader xid ret) new_marshall; take 24 <$> m_buf m).
Definition demo_clt_run : rpcc * list (Z * Z) :=
  clt_next (CStart 16 new_marshall) (clt_next (CPdu (demo_reply 1 0) 24) (clt_next (CStart 16 new_marshall)
    (clt_next (CStart 16 new_marshall) (clt_next (CBind 0 7) (new_rpcc true 9, []))))).

Lemma clt_go retrans rnd s l :
  clt_runs retrans rnd s → clt_ok l (fst s) →
  (match clt_step l s with Some _ => true | None => false end) = true →
  clt_runs retrans rnd (clt_next l s).
Proof.
  intros Hr Ho Hs. eapply clt_runs_step; [done|done|]. unfold clt_next. by destruct (clt_step l s).
Qed.

Lemma demo_clt_run_ok : clt_runs true 9 (fst demo_clt_run, snd demo_clt_run).
Proof.
  rewrite <- surjective_pairing.
  apply clt_go; [|vm_compute; reflexivity|vm_compute; reflexivity].
  apply clt_go; [| |vm_compute; reflexivity].
  { do 2 (apply clt_go; [|vm_compute; reflexivity|vm_compute; reflexivity]).
    apply clt_go; [apply clt_runs_start|exact I|reflexivity]. }
  intros h u Hh _. vm_compute in Hh. injection Hh as <- _. vm_compute. reflexivity.
Qed.

Lemma acks_sound_witness :
  snd demo_clt_run = [(1, 0); (2, 0); (3, 1)] ∧ front (xid_rep_window_ (fst demo_clt_run)) = 1 ∧
  StronglySorted later_request (snd demo_clt_run) ∧ front (xid_rep_window_ (fst demo_clt_run)) < 2.
Proof.
  destruct (acks_sound true 9 (fst demo_clt_run) (snd demo_clt_run)) as (H1 & _ & H3).
  { exact demo_clt_run_ok. }
  split; [vm_compute; reflexivity|]. split; [vm_compute; reflexivity|]. split; [exact H1|].
  apply (H3 2 new_caller); [by split|vm_compute; reflexivity|reflexivity].
Defined.
