(* ===== verification/RpcEnd.v ===== *)
(** * A remote call from end to end

    The client stub, the request header, the frame on the connection, the server's queue,
    [dispatch], the server stub, the method, the reply and its way back, composed: a remote
    call is the call of the method. *)

From S2P Require Import Prelude.
From S2P Require Import Marshall.
From S2P Require Import RpcWindow.
From S2P Require Import Timespec.
From S2P Require Import RpcStubs.
From S2P Require Import Connection.
From S2P Require Import ConnHeap.
From S2P Require Import Fifo.
From S2P Require Import RpcServer.
From S2P Require Import RpcClient.

(** ** What a sent buffer is at the other end *)

Definition delivered (junk : nat → ascii) (b : block) (sz : Z) : unmarshall :=
  unmarshall_of_buf (fst (pdu_of (frame junk b sz))) (snd (pdu_of (frame junk b sz))).

Lemma bytes_of_app junk b1 b2 :
  bytes_of junk (b1 ++ b2) = bytes_of junk b1 ++ bytes_of (λ i, junk (length b1 + i)%nat) b2.
Proof. unfold bytes_of. rewrite imap_app. done. Qed.

Lemma bytes_of_some junk l : bytes_of junk (Some <$> l) = l.
Proof.
  unfold bytes_of. rewrite imap_fmap. rewrite <- (list_fmap_id l) at 2. rewrite <- (imap_const id).
  by apply imap_ext.
Qed.

(** A buffer with header fields [xs] and content [bs]; [tl] are unused header bytes. *)
Lemma delivered_fields junk sz xs tl bs more n :
  length sz = 4%nat → (4 + 4 * length xs + length tl = 24)%nat → n = 24 + Z.of_nat (length bs) →
  n <= INT_MAX →
  let u := delivered junk (sz ++ (Some <$> header_bytes xs) ++ tl ++ (Some <$> bs) ++ more) n in
  u_rep (length tl + length bs) (u_set_ind sizeof_rpc_sz_t u) (header_bytes xs) ∧
  u_rep 0 (Unmarshall (u_buf u) (u_sz u) RPC_HEADER_SZ true) bs.
Proof.
  intros Hsz Htl Hn Hmax.
  set (tl' := bytes_of (λ i, junk (length (sz ++ (Some <$> header_bytes xs)) + i)%nat) tl).
  assert (length tl' = length tl) as Hl by apply length_bytes_of.
  assert (frame junk (sz ++ (Some <$> header_bytes xs) ++ tl ++ (Some <$> bs) ++ more) n
          = enc_u32 n ++ header_bytes xs ++ tl' ++ bs) as Hf.
  { unfold frame. f_equal.
    rewrite (assoc_L (++) sz), (assoc_L (++) (sz ++ _) tl), (assoc_L (++) ((sz ++ _) ++ tl) _ more).
    rewrite bytes_of_app, take_app_length'.
    2:{ rewrite length_bytes_of, !length_app, !length_fmap, length_header_bytes. lia. }
    rewrite bytes_of_app, bytes_of_some, (bytes_of_app _ (sz ++ _)). fold tl'.
    rewrite bytes_of_app, bytes_of_some, <- !(assoc_L (++)).
    apply drop_app_length'. by rewrite length_bytes_of. }
  unfold delivered, pdu_of, unmarshall_of_buf, u_set_ind. rewrite Hf. cbn [fst snd u_buf u_sz u_ok].
  rewrite !length_app, length_enc_u32, length_header_bytes, Hl, RPC_HEADER_SZ_eq. split.
  - split; [done|]. exists (Some <$> enc_u32 n), ((Some <$> tl') ++ (Some <$> bs) ++ replicate 4 None). cbn [u_buf u_ind u_sz].
    rewrite !fmap_app, <- !(assoc_L (++)), length_fmap, length_enc_u32, length_header_bytes.
    split_and!; [done|done|lia|lia].
  - split; [done|]. exists (Some <$> (enc_u32 n ++ header_bytes xs ++ tl')), (replicate 4 None).
    cbn [u_buf u_ind u_sz].
    rewrite length_fmap, !length_app, length_enc_u32, length_header_bytes, Hl, !fmap_app, <- !(assoc_L (++)).
    split_and!; [done|lia|lia|lia].
Qed.

Lemma unpacks_fields xs k u :
  Forall is_s32 xs → u_rep k u (header_bytes xs) →
  ∃ u', unpacks (length xs) u = Some (xs, u') ∧ u_ok u' = true ∧ u_buf u' = u_buf u ∧ u_sz u' = u_sz u.
Proof.
  intros Hwf Hu. rewrite <- (app_nil_r (header_bytes xs)) in Hu.
  destruct (unpacks_gets _ Hwf _ _ _ Hu) as (u1 & Hup & Hu1 & Hub & Hus & _).
  exists u1. split_and!; [done|by eapply u_rep_set|done|done].
Qed.

Lemma req_delivered junk h m bs :
  m_rep m bs → req_header_wf h → m_ind m <= INT_MAX →
  ∃ m' b u, pack_req_header h m = Some m' ∧ m_buf m' = Some b ∧
    unpack_req_header (delivered junk b (m_ind m')) = Some (h, u) ∧ u_rep 0 u bs.
Proof.
  intros Hm (Hx & Hp & Hc & Hs & Hr) Hmax.
  destruct (pack_fields_rep (req_fields h) m bs Hm) as
    (m' & sz & tl & more & Hpk & Hsz & Htl & Hm' & Hb); [simpl; lia|].
  assert (m_ind m = 24 + Z.of_nat (length bs)) as Hi.
  { destruct Hm as (hdr & j & _ & _ & Hi & _). by rewrite RPC_HEADER_SZ_eq in Hi. }
  destruct (delivered_fields junk sz (req_fields h) tl bs more (m_ind m) Hsz Htl Hi Hmax) as [Hu Hbs].
  rewrite pack_req_header_fields, Hpk. cbn [mbind option_bind].
  assert (Forall is_s32 (req_fields h)) as Hwf
    by (unfold req_fields; rewrite !Forall_cons, Forall_nil; auto 10 with yfs).
  destruct (unpacks_fields _ _ _ Hwf Hu) as (u1 & Hup & Hu1 & Hub & Hus).
  change (length (req_fields h)) with 5%nat in Hup.
  eexists _, _, (u_set_ind RPC_HEADER_SZ u1). split; [done|]. split; [exact Hb|]. cbn [m_set_ind m_ind m_buf].
  rewrite unpack_req_header_fields, Hup. cbn [mbind option_bind req_fields].
  rewrite !u32_s32, !u32_id by done. split; [by destruct h|].
  unfold u_set_ind. rewrite Hub, Hus, Hu1. exact Hbs.
Qed.

Lemma reply_delivered junk h m bs :
  m_rep m bs → reply_header_wf h → m_ind m <= INT_MAX →
  ∃ m' b u, pack_reply_header h m = Some m' ∧ m_buf m' = Some b ∧
    unpack_reply_header (delivered junk b (m_ind m')) = Some (h, u) ∧ u_rep 0 u bs ∧
    u_ind u = RPC_HEADER_SZ.
Proof.
  intros Hm (Hx & Hr) Hmax.
  destruct (pack_fields_rep (reply_fields h) m bs Hm) as
    (m' & sz & tl & more & Hpk & Hsz & Htl & Hm' & Hb); [simpl; lia|].
  assert (m_ind m = 24 + Z.of_nat (length bs)) as Hi.
  { destruct Hm as (hdr & j & _ & _ & Hi & _). by rewrite RPC_HEADER_SZ_eq in Hi. }
  destruct (delivered_fields junk sz (reply_fields h) tl bs more (m_ind m) Hsz Htl Hi Hmax) as [Hu Hbs].
  rewrite pack_reply_header_fields, Hpk. cbn [mbind option_bind].
  assert (Forall is_s32 (reply_fields h)) as Hwf
    by (unfold reply_fields; rewrite !Forall_cons, Forall_nil; auto 10 with yfs).
  destruct (unpacks_fields _ _ _ Hwf Hu) as (u1 & Hup & Hu1 & Hub & Hus).
  change (length (reply_fields h)) with 2%nat in Hup.
  eexists _, _, (u_set_ind RPC_HEADER_SZ u1). split; [done|]. split; [exact Hb|]. cbn [m_set_ind m_ind m_buf].
  rewrite unpack_reply_header_fields, Hup. cbn [mbind option_bind reply_fields].
  split; [by destruct h|].
  unfold u_set_ind. rewrite Hub, Hus, Hu1. split; [exact Hbs|done].
Qed.

(** ** One call *)

Section once.
Context {S : Type}.
Implicit Types w : world S.

(** The request leaves on the client's channel and arrives at the server's connection
    [cn], a pool thread takes it and runs the handler, the reply goes back. *)
Definition rpc_once (junk : nat → ascii) (cn : nat) (proc : Z) (req : marshall) (s : rpcc * world S)
    : option (Z * unmarshall * (rpcc * world S)) :=
  let '(c, w) := s in
  '(r, c) ← call1_begin proc req c;
  match r with
  | inl err => Some (err, new_unmarshall, (c, w))
  | inr (xid, req) =>
      b ← m_buf req;
      let '(pb, psz) := pdu_of (frame junk b (m_ind req)) in
      let running := length (w_running w) in
      let sent := length (w_sent w) in
      '(_, w) ← got_pdu cn pb psz w;
      w ← dispatch_begin w;
      w ← (if (length (w_running w) =? running)%nat then Some w else dispatch_exec running w);
      '(_, b, sz) ← w_sent w !! sent;
      let '(pb, psz) := pdu_of (frame junk b sz) in
      c ← clt_got_pdu pb psz c;
      '(ret, u, cw) ← call1_end (Call xid req (Timespec 0 0) 0 false None) (CWorld c ∅ []);
      Some (ret, u, (cw_clt cw, w))
  end.

(** A living connection stays alive while others come and go. *)
Definition alive (c : nat) (hp : conn_heap) : Prop := ∃ x, hp !! c = Some x ∧ dead_ x = false.

Lemma incref_alive c d hp hp' : alive c hp → incref_at d hp = Some hp' → alive c hp'.
Proof.
  intros (x & Hx & Hd) H. apply bind_Some in H as (y & Hy & H). injection H as <-.
  destruct (decide (d = c)) as [->|]; [|exists x; by rewrite lookup_insert_ne].
  simplify_eq. eexists. by rewrite lookup_insert_eq.
Qed.

Lemma decref_alive c d hp hp' : alive c hp → decref_at d hp = Some hp' → alive c hp'.
Proof.
  intros (x & Hx & Hd) H. apply bind_Some in H as (y & Hy & H). apply bind_Some in H as (r & Hr & H).
  injection H as <-. destruct (decide (d = c)) as [->|].
  - simplify_eq. unfold decref in Hr. cbn [refno_ dead_ set_refno] in Hr. rewrite Hd, andb_false_r in Hr.
    destruct (_ <? 0); [done|]. injection Hr as <-. eexists. by rewrite lookup_insert_eq.
  - exists x. destruct r; [by rewrite lookup_insert_ne|by rewrite lookup_delete_ne].
Qed.

(** The parts of the world a step does not touch. *)
Definition same_rest (w w' : world S) : Prop :=
  service (w_srv w') = service (w_srv w) ∧ w_sent w' = w_sent w ∧ w_running w' = w_running w.

Lemma save_conn_rest clt c w w' :
  save_conn clt c w = Some w' → same_rest w w' ∧ (alive c (w_heap w) → alive c (w_heap w')).
Proof.
  unfold save_conn. intros H. destruct (conns_ _ !! clt) as [c0|].
  - case_bool_decide; [by injection H as <-|]. unfold w_decref, w_incref, set_heap in H.
    apply bind_Some in H as (w1 & H1 & H). apply bind_Some in H1 as (hp1 & Hd & H1).
    apply bind_Some in H as (w2 & H2 & H). apply bind_Some in H2 as (hp2 & Hi & H2). simplify_eq.
    split; [done|]. intros Ha. cbn [w_heap upd] in *. eapply incref_alive; [|exact Hi].
    by eapply decref_alive.
  - unfold w_incref, set_heap in H. apply bind_Some in H as (w2 & H2 & H).
    apply bind_Some in H2 as (hp2 & Hi & H2). simplify_eq.
    split; [done|]. intros Ha. by eapply incref_alive.
Qed.

Lemma dispatch_check_rest c h w st w' :
  dispatch_check c h w = Some (st, w') → same_rest w w' ∧ (alive c (w_heap w) → alive c (w_heap w')).
Proof.
  unfold dispatch_check. destruct (_ =? 0); [by intros [= _ <-]|]. intros H.
  apply bind_Some in H as (w1 & H1 & H). apply bind_Some in H as ([s win] & _ & H). injection H as _ <-.
  destruct (save_conn_rest _ _ _ _ H1) as [(Hs1 & Hs2 & Hs3) Ha]. split; [|done]. by split_and!.
Qed.

(** A new request, up to the call of the handler. *)
Lemma dispatch_begin_new w j h u f :
  refs_inv w → q_ (w_jobs w) = [j] → window_inv (reply_window_ (w_srv w)) →
  unpack_req_header (unmarshall_of_buf (j_buf j) (j_sz j)) = Some (h, u) → u_ok u = true →
  rq_srv_nonce h = 0 ∨ rq_srv_nonce h = nonce_ (w_srv w) → procs_ (w_srv w) !! rq_proc h = Some f →
  (rq_clt_nonce h ≠ 0 → u32 (rq_xid_rep h) < u32 (rq_xid h) ∧
     started_at (reply_window_ (w_srv w)) (rq_clt_nonce h) (u32 (rq_xid h)) = None) →
  alive (j_conn j) (w_heap w) →
  ∃ w', dispatch_begin w = Some w' ∧ w_running w' = w_running w ++ [Ctx (j_conn j) h u f] ∧
    w_sent w' = w_sent w ∧ service (w_srv w') = service (w_srv w) ∧ alive (j_conn j) (w_heap w') ∧
    w_ran w' = w_ran w ++ [(rq_clt_nonce h, u32 (rq_xid h))] ∧ refs_inv w'.
Proof.
  intros I Hq Hwin Hu Hok Hn Hf Hnew Ha.
  assert (∃ w', dispatch_begin w = Some w' ∧ w_running w' = w_running w ++ [Ctx (j_conn j) h u f] ∧
    w_sent w' = w_sent w ∧ service (w_srv w') = service (w_srv w) ∧ alive (j_conn j) (w_heap w') ∧
    w_ran w' = w_ran w ++ [(rq_clt_nonce h, u32 (rq_xid h))]) as (w' & Hd & Hrest).
  2:{ exists w'. split; [done|]. destruct Hrest as (? & ? & ? & ? & ?). split_and!; try done.
      by eapply dispatch_begin_refs. }
  unfold dispatch_begin, deq. rewrite Hq. cbn [mbind option_bind].
  pose proof (take_job_held w j [] (max_ (w_jobs w)) I Hq) as Hk.
  set (w0 := set_jobs _ w) in *. rewrite Hu. cbn [mbind option_bind]. rewrite Hok. cbn [negb].
  change (nonce_ (w_srv w0)) with (nonce_ (w_srv w)).
  replace (negb _ && negb _) with false by (destruct Hn as [-> | ->]; by rewrite Z.eqb_refl, ?andb_false_r).
  change (procs_ (w_srv w0)) with (procs_ (w_srv w)). rewrite Hf.
  destruct (dispatch_check_safe (j_conn j) h w0 Hk Hwin) as (w1 & Hc & Hr); [intros Hne; by apply Hnew|].
  rewrite Hc. cbn [mbind option_bind].
  assert ((if rq_clt_nonce h =? 0 then None
           else started_at (reply_window_ (w_srv w0)) (rq_clt_nonce h) (u32 (rq_xid h))) = None) as ->.
  { destruct (Z.eqb_spec (rq_clt_nonce h) 0); [done|]. by apply Hnew. }
  cbn [reply_state]. destruct (dispatch_check_rest _ _ _ _ _ Hc) as [(Hs1 & Hs2 & Hs3) Ha'].
  eexists. split; [done|]. cbn [w_running w_sent w_srv w_heap w_ran set_running log_ran upd].
  rewrite Hr, Hs2, Hs3. split_and!; [done|done| |by apply Ha'|done].
  transitivity (service (w_srv w1)); [|done].
  unfold updatestat. destruct (counting_ _ =? 0); [done|]. by destruct (s32 _ =? 0).
Qed.

(** The results [dispatch] accepts from a handler. *)
Definition handler_ret (ret : Z) : Prop := 0 <= ret < 2 ^ 31 ∨ ret = unmarshal_args_failure.

Lemma handler_ret_ok ret : handler_ret ret → (0 <=? ret) || (ret =? unmarshal_args_failure) = true ∧ is_s32 ret.
Proof.
  unfold handler_ret, unmarshal_args_failure, is_s32. intros [H|H]; (split; [|lia]); apply orb_true_iff; [left|right]; lia.
Qed.

(** The handler call, on a living connection. *)
Lemma dispatch_exec_reply w k x ret rep svc bs :
  refs_inv w → w_running w !! k = Some x → alive (x_conn x) (w_heap w) →
  x_f x (x_req x) new_marshall (service (w_srv w)) = Some (ret, rep, svc) →
  handler_ret ret → m_rep rep bs →
  ∃ w' m b, dispatch_exec k w = Some w' ∧ pack_reply_header (ReplyHeader (rq_xid (x_hdr x)) ret) rep = Some m ∧
    m_buf m = Some b ∧ w_sent w' = w_sent w ++ [(x_conn x, b, m_ind m)] ∧ service (w_srv w') = svc ∧
    w_ran w' = w_ran w.
Proof.
  intros I Hk Ha Hf Hret Hrep. pose proof (take_running_held w k x I Hk) as Hh.
  unfold dispatch_exec. rewrite Hk. cbn [mbind option_bind].
  change (service (w_srv (set_running (delete k (w_running w)) w))) with (service (w_srv w)).
  rewrite Hf. cbn [mbind option_bind]. rewrite (proj1 (handler_ret_ok ret Hret)). cbn [negb].
  destruct (pack_reply_header_rep (ReplyHeader (rq_xid (x_hdr x)) ret) rep bs Hrep) as (m & Hm & Hmr).
  rewrite Hm. destruct Hmr as (hdr & more & Hb & _). cbn [mbind option_bind m_take_buf]. rewrite Hb.
  cbn [mbind option_bind]. set (w0 := set_running _ w) in *.
  set (w1 := upd (set_service svc (w_srv w0)) (w_heap w0) w0).
  assert (refs_held (x_conn x) w1) as Hh1 by by apply held_upd.
  match goal with |- context [reply_conn (x_conn x) (rq_clt_nonce (x_hdr x)) ?v] => set (w2 := v) end.
  assert (refs_held (x_conn x) w2 ∧ w_heap w2 = w_heap w ∧ w_sent w2 = w_sent w ∧ service (w_srv w2) = svc ∧
          w_ran w2 = w_ran w) as (Hh2 & Hhp & Hs2 & Hv2 & Hr2).
  { unfold w2. destruct (_ >? 0); by split_and!. }
  clearbody w2. destruct Ha as (y & Hy & Hd).
  unfold reply_conn, isdead_at. rewrite Hhp, Hy. cbn [fmap option_fmap option_map mbind option_bind].
  unfold isdead. rewrite Hd. cbn [andb mbind option_bind]. unfold w_send, isdead_at. cbn [mbind option_bind]. rewrite Hhp, Hy.
  cbn [mbind option_bind fmap option_fmap option_map]. unfold isdead. rewrite Hd.
  match goal with |- context [w_decref (x_conn x) ?v] => set (w3 := v) end.
  assert (refs_held (x_conn x) w3) as Hh3 by (unfold refs_held in Hh2; rewrite Hhp in Hh2; exact Hh2).
  destruct (w_decref_safe _ _ Hh3) as [w4 H4]. rewrite H4. eexists w4, m, _. split_and!; try done.
  all: apply bind_Some in H4 as (hp & _ & H4); injection H4 as <-; cbn; congruence.
Qed.

(** A client and a server with a living connection between them; the server has an empty
    queue and does not know the client's next xid. *)
Record linked (c : rpcc) (w : world S) (cn : nat) : Prop := Linked {
  ss_open : destroy_wait_ c = false;
  ss_nonces : is_u32 (clt_nonce_ c) ∧ is_u32 (srv_nonce_ c);
  ss_xid : front (xid_rep_window_ c) < xid_ c < 2 ^ 32;
  ss_acks : window_ok (xid_rep_window_ c);
  ss_refs : refs_inv w;
  ss_window : window_inv (reply_window_ (w_srv w));
  ss_new : clt_nonce_ c ≠ 0 → started_at (reply_window_ (w_srv w)) (clt_nonce_ c) (xid_ c) = None;
  ss_reachable : reachable_ (w_srv w) = true;
  ss_idle : q_ (w_jobs w) = [] ∧ 0 <= max_ (w_jobs w);
  ss_conn : refs w cn ≠ 0 ∧ alive cn (w_heap w);
}.

(** A client that is bound to the server. *)
Record session (c : rpcc) (w : world S) (cn : nat) : Prop := Session {
  ss_bound : bind_done_ c = true;
  ss_nonce : srv_nonce_ c = nonce_ (w_srv w);
  ss_linked : linked c w cn;
}.

(** Before it is bound it can call [bind] only, afterwards everything else. *)
Definition may_call (c : rpcc) (w : world S) (proc : Z) : Prop :=
  (proc =? bind_proc) = negb (bind_done_ c) ∧
  srv_nonce_ c = (if bind_done_ c then nonce_ (w_srv w) else 0).

Lemma session_may_call c w cn proc : session c w cn → proc ≠ bind_proc → may_call c w proc.
Proof. intros [Hb Hn _] Hp. unfold may_call. rewrite Hb. split; [cbn; lia|done]. Qed.

(** The message is queued. *)
Lemma got_pdu_queued cn b sz w :
  refs_inv w → refs w cn ≠ 0 → alive cn (w_heap w) → reachable_ (w_srv w) = true →
  q_ (w_jobs w) = [] → 0 <= max_ (w_jobs w) →
  ∃ w', got_pdu cn b sz w = Some (true, w') ∧ refs_inv w' ∧ q_ (w_jobs w') = [DJob cn b sz] ∧
    w_srv w' = w_srv w ∧ alive cn (w_heap w') ∧ w_running w' = w_running w ∧ w_sent w' = w_sent w ∧
    w_ran w' = w_ran w.
Proof.
  intros I Hr Ha Hre Hq Hm.
  assert (∃ w', got_pdu cn b sz w = Some (true, w') ∧ q_ (w_jobs w') = [DJob cn b sz] ∧
    w_srv w' = w_srv w ∧ alive cn (w_heap w') ∧ w_running w' = w_running w ∧ w_sent w' = w_sent w ∧
    w_ran w' = w_ran w) as (w' & Hg & Hrest).
  2:{ exists w'. split; [done|]. split; [by eapply got_pdu_refs|done]. }
  unfold got_pdu. rewrite Hre. cbn [negb]. unfold w_incref.
  destruct (incref_ok _ _ cn I Hr) as (hp & Hi & _). rewrite Hi. cbn [mbind option_bind].
  unfold enq. cbn [w_jobs set_heap upd]. rewrite Hq.
  replace ((max_ (w_jobs w) =? 0) || (Z.of_nat (length (@nil djob_t)) <? max_ (w_jobs w))) with true
    by (symmetry; apply orb_true_iff; rewrite Z.eqb_eq, Z.ltb_lt; cbn [length]; lia).
  eexists. split; [done|]. cbn. split_and!; try done. by eapply incref_alive.
Qed.

(** The reply arrives and the call ends. *)
Lemma client_finishes c xid b sz ret u bs :
  window_ok (xid_rep_window_ c) → is_u32 xid → calls_ c !! s32 xid = Some new_caller →
  unpack_reply_header (unmarshall_of_buf b sz) = Some (ReplyHeader (s32 xid) ret, u) →
  u_rep 0 u bs → u_ind u = RPC_HEADER_SZ →
  ∃ c1 u' cw, clt_got_pdu b sz c = Some c1 ∧
    call1_end (Call xid new_marshall (Timespec 0 0) 0 false None) (CWorld c1 ∅ []) = Some (ret, u', cw) ∧
    u_rep 0 u' bs ∧ calls_ (cw_clt cw) = delete (s32 xid) (calls_ c) ∧
    acked (xid_rep_window_ (cw_clt cw)) xid ∧ window_ok (xid_rep_window_ (cw_clt cw)) ∧
    (∀ x, acked (xid_rep_window_ (cw_clt cw)) x → acked (xid_rep_window_ c) x ∨ x = xid) ∧
    cw_clt cw = Rpcc (clt_nonce_ c) (srv_nonce_ c) (bind_done_ c) (xid_ c) (retrans_ c) (clt_reachable_ c) (chan_ c)
      (destroy_wait_ c) (calls_ (cw_clt cw)) (xid_rep_window_ (cw_clt cw)).
Proof.
  intros Hw Hx Hc Hh Hu Hi. pose proof (u_rep_set _ _ _ Hu) as Hok.
  unfold clt_got_pdu. rewrite Hh. cbn [mbind option_bind]. rewrite Hok. cbn [negb rp_xid rp_ret].
  rewrite u32_s32, u32_id by done.
  destruct (update_xid_rep_spec xid _ Hw Hx) as (w1 & H1 & Hok1 & _ & Ha1). rewrite H1.
  cbn [mbind option_bind calls_ set_rep_window]. rewrite Hc. cbn [done new_caller].
  destruct (update_xid_rep_spec xid _ Hok1 Hx) as (w2 & H2 & Hok2 & _ & Ha2).
  eexists _, (fst (take_in u)), _. split; [done|]. unfold call1_end.
  cbn [k_xid k_ch cw_clt cw_heap cw_sent calls_ on_calls set_rep_window xid_rep_window_].
  rewrite lookup_insert_eq. cbn [mbind option_bind]. rewrite H2. cbn [mbind option_bind done intret un].
  split; [done|]. cbn [cw_clt calls_ xid_rep_window_ set_rep_window on_calls]. split_and!.
  - destruct Hu as (_ & pre & post & Hb & Hpi & Hs & Hmax). rewrite Hi, RPC_HEADER_SZ_eq in Hpi.
    split; [cbn; rewrite RPC_HEADER_SZ_eq; lia|]. exists pre, post. cbn. rewrite RPC_HEADER_SZ_eq. by split_and!.
  - by rewrite delete_insert_eq.
  - rewrite Ha2. by right.
  - done.
  - intros x. rewrite Ha2, Ha1. tauto.
  - done.
Qed.
End once.

(** ** The stubs on both sides *)

Lemma reg1_handler `{WireOk A, WireOk R} {S} (r0 : R) (meth : A → R → S → option (Z * R * S)) a u x ret r x' :
  w_wf a → u_rep 0 u (w_enc a) → meth a r0 x = Some (ret, r, x') →
  w_wf r → Z.of_nat (length (w_enc r)) <= max_content →
  ∃ m, rpcs_reg1 r0 meth u new_marshall x = Some (ret, m, x') ∧ m_rep m (w_enc r).
Proof.
  intros Ha Hu Hm Hr Hl. unfold rpcs_reg1. rewrite <- (app_nil_r (w_enc a)) in Hu.
  destruct (w_get_ok a Ha 0%nat u [] Hu) as (u' & Hg & (Hok & pre & post & _ & Hi & Hs & _) & _).
  rewrite Hg. cbn [mbind option_bind]. replace (okdone u') with true.
  2:{ unfold okdone. rewrite Hok, Hi, Hs. cbn [length andb]. symmetry. apply Z.eqb_eq. lia. }
  cbn [negb]. unfold finish_call. rewrite Hm. cbn [mbind option_bind].
  destruct (w_put_ok r Hr new_marshall [] new_marshall_rep Hl) as (m & Hp & Hrep).
  rewrite Hp. by exists m.
Qed.

Lemma call_m_reply_into `{WireOk R} call1 proc req u ret (r0 r : R) :
  call1 proc req = Some (ret, u) → 0 <= ret → gets (w_get r0) (w_enc r) r → u_rep 0 u (w_enc r) →
  call_m call1 proc req r0 = Some (ret, r).
Proof.
  intros Hc Hret Hr Hu. unfold call_m. rewrite Hc. cbn [mbind option_bind].
  rewrite (proj2 (Z.ltb_ge _ _) Hret). rewrite <- (app_nil_r (w_enc r)) in Hu.
  destruct (Hr 0%nat u [] Hu) as (u' & Hg & (Hok & pre & post & _ & Hi & Hs & _) & _).
  rewrite Hg. cbn [mbind option_bind]. replace (okdone u') with true; [done|].
  unfold okdone. rewrite Hok, Hi, Hs. cbn [length andb]. symmetry. apply Z.eqb_eq. lia.
Qed.

Lemma call_m_reply `{WireOk R} call1 proc req u ret (r : R) :
  call1 proc req = Some (ret, u) → 0 <= ret → w_wf r → u_rep 0 u (w_enc r) →
  call_m call1 proc req w_def = Some (ret, r).
Proof. intros Hc Hret Hr Hu. apply (call_m_reply_into _ _ _ u); [done|done|by apply w_get_ok|done]. Qed.

(** ** One call of any handler *)

Section any_handler.
Context {S : Type}.
Context (junk : nat → ascii) (cn : nat) (c : rpcc) (w : world S) (proc : Z).

(** The client after its call. *)
Definition called (c c' : rpcc) : Prop :=
  calls_ c' = delete (s32 (xid_ c)) (calls_ c) ∧ acked (xid_rep_window_ c') (xid_ c) ∧
  window_ok (xid_rep_window_ c') ∧
  (∀ x, acked (xid_rep_window_ c') x → acked (xid_rep_window_ c) x ∨ x = xid_ c) ∧
  c' = Rpcc (clt_nonce_ c) (srv_nonce_ c) (bind_done_ c) (u32 (xid_ c + 1)) (retrans_ c) (clt_reachable_ c) (chan_ c)
    (destroy_wait_ c) (calls_ c') (xid_rep_window_ c').

(** The way of the call through the server. *)
Definition served (w w' : world S) : Prop :=
  ∃ b sz w1 w2 h u f, got_pdu cn b sz w = Some (true, w1) ∧ q_ (w_jobs w1) = [DJob cn b sz] ∧
    w_running w1 = w_running w ∧
    unpack_req_header (unmarshall_of_buf b sz) = Some (h, u) ∧ u_ok u = true ∧
    (rq_clt_nonce h = clt_nonce_ c ∧ u32 (rq_xid h) = xid_ c ∧ u32 (rq_xid_rep h) = front (xid_rep_window_ c)) ∧
    dispatch_begin w1 = Some w2 ∧ w_running w2 = w_running w ++ [Ctx cn h u f] ∧
    dispatch_exec (length (w_running w)) w2 = Some w'.

(** The client after the first half of its call, and the header it sends. *)
Definition calling : rpcc := on_calls <[s32 (xid_ c) := new_caller]> (set_xid (u32 (xid_ c + 1)) c).
Definition sent_header : req_header :=
  ReqHeader (s32 (xid_ c)) (s32 proc) (clt_nonce_ c) (srv_nonce_ c) (s32 (front (xid_rep_window_ c))).

Lemma fits_int m bs : m_rep m bs → Z.of_nat (length bs) + 24 <= MAX_PDU → m_ind m <= INT_MAX.
Proof using Type.
  intros (? & ? & _ & _ & -> & _) Hl. rewrite RPC_HEADER_SZ_eq. change MAX_PDU with 10485760 in Hl. unfold INT_MAX. lia.
Qed.

Lemma linked_xid : linked c w cn → 0 <= front (xid_rep_window_ c) ∧ is_u32 (xid_ c).
Proof using Type.
  intros [_ _ Hx (Hne & _ & Hu & _) _ _ _ _ _ _].
  assert (0 <= front (xid_rep_window_ c)) as Hf by (destruct (xid_rep_window_ c); [done|]; by apply Forall_cons in Hu as [[? _] _]).
  unfold is_u32. split_and!; lia.
Qed.

Lemma sent_header_ids :
  linked c w cn →
  u32 (rq_xid sent_header) = xid_ c ∧ u32 (rq_xid_rep sent_header) = front (xid_rep_window_ c).
Proof using Type.
  intros L. destruct (linked_xid L) as [Hf Hxu]. destruct L as [_ _ Hx _ _ _ _ _ _ _].
  unfold sent_header. cbn [rq_xid rq_xid_rep]. by rewrite !u32_s32, !u32_id by (unfold is_u32; lia).
Qed.

(** The request reaches the queue of the server. *)
Lemma request_arrives m bs :
  linked c w cn → (proc =? bind_proc) = negb (bind_done_ c) → m_rep m bs → Z.of_nat (length bs) + 24 <= MAX_PDU →
  ∃ m1 b1 u1 pb psz w1, call1_begin proc m c = Some (inr (xid_ c, m1), calling) ∧ m_buf m1 = Some b1 ∧
    pdu_of (frame junk b1 (m_ind m1)) = (pb, psz) ∧
    unpack_req_header (unmarshall_of_buf pb psz) = Some (sent_header, u1) ∧ u_rep 0 u1 bs ∧
    got_pdu cn pb psz w = Some (true, w1) ∧ refs_inv w1 ∧ q_ (w_jobs w1) = [DJob cn pb psz] ∧
    w_srv w1 = w_srv w ∧ alive cn (w_heap w1) ∧ w_running w1 = w_running w ∧ w_sent w1 = w_sent w ∧ w_ran w1 = w_ran w.
Proof using Type.
  intros [Ho [Hnc Hns] Hx Hwk I Hwi Hnew Hre [Hq Hmx] [Hrf Hal]] Hp Hmr Ha.
  assert (req_header_wf sent_header) as Hwf by (unfold req_header_wf, sent_header; cbn; auto 10 with yfs).
  destruct (req_delivered junk sent_header m _ Hmr Hwf (fits_int _ _ Hmr Ha)) as (m1 & b1 & u1 & Hpk & Hb1 & Hup & Hu1).
  destruct (pdu_of (frame junk b1 (m_ind m1))) as [pb psz] eqn:Epdu.
  unfold delivered in Hup. rewrite Epdu in Hup.
  destruct (got_pdu_queued cn pb psz w I Hrf Hal Hre Hq Hmx) as (w1 & Hg & Hrest).
  exists m1, b1, u1, pb, psz, w1. split; [|done]. unfold call1_begin. rewrite Ho, Hp.
  replace (_ || _) with false by by destruct (bind_done_ c). cbn [xid_rep_window_ set_xid on_calls].
  assert (head (xid_rep_window_ c) = Some (front (xid_rep_window_ c))) as ->
    by (destruct Hwk as (Hne & _); by destruct (xid_rep_window_ c)).
  cbn [mbind option_bind clt_nonce_ srv_nonce_ set_xid on_calls]. fold sent_header. by rewrite Hpk.
Qed.

(** The reply ends the call. *)
Lemma reply_returns rep rbs ret m3 b3 m1 :
  linked c w cn → m_rep rep rbs → is_s32 ret → Z.of_nat (length rbs) + 24 <= MAX_PDU →
  pack_reply_header (ReplyHeader (s32 (xid_ c)) ret) rep = Some m3 → m_buf m3 = Some b3 →
  ∃ pb psz c2 u cw, pdu_of (frame junk b3 (m_ind m3)) = (pb, psz) ∧ clt_got_pdu pb psz calling = Some c2 ∧
    call1_end (Call (xid_ c) m1 (Timespec 0 0) 0 false None) (CWorld c2 ∅ []) = Some (ret, u, cw) ∧
    u_rep 0 u rbs ∧ called c (cw_clt cw).
Proof using Type.
  intros L Hrep Hret Hl Hpk3 Hb3. destruct (linked_xid L) as [_ Hxu].
  destruct (reply_delivered junk (ReplyHeader (s32 (xid_ c)) ret) rep _ Hrep) as (m4 & b4 & u4 & Hpk4 & Hb4 & Hup4 & Hu4 & Hi4);
    [split; [apply s32_range|done]|by eapply fits_int|].
  rewrite Hpk4 in Hpk3. injection Hpk3 as ->. rewrite Hb4 in Hb3. injection Hb3 as ->.
  destruct (pdu_of (frame junk b3 (m_ind m3))) as [pb psz] eqn:Epdu.
  unfold delivered in Hup4. rewrite Epdu in Hup4. cbn [fst snd] in Hup4.
  destruct (client_finishes calling (xid_ c) pb psz ret u4 rbs)
    as (c2 & u5 & cw & Hg5 & He5 & Hu5 & Hc5 & Ha5 & Hok5 & Hak5 & Ecw);
    [apply L|done|by cbn; rewrite lookup_insert_eq|done|done|done|].
  exists pb, psz, c2, u5, cw. split_and!; [done|done| |done|].
  - rewrite <- He5. reflexivity.
  - split; [rewrite Hc5; cbn [calling calls_ on_calls set_xid]; by rewrite delete_insert_eq|done].
Qed.

Lemma rpc_once_handler f m bs ret rbs svc :
  linked c w cn → may_call c w proc → procs_ (w_srv w) !! s32 proc = Some f →
  m_rep m bs → Z.of_nat (length bs) + 24 <= MAX_PDU → handler_ret ret → Z.of_nat (length rbs) + 24 <= MAX_PDU →
  (∀ u, u_rep 0 u bs → ∃ rep, f u new_marshall (service (w_srv w)) = Some (ret, rep, svc) ∧ m_rep rep rbs) →
  ∃ u c' w', rpc_once junk cn proc m (c, w) = Some (ret, u, (c', w')) ∧ u_rep 0 u rbs ∧
    service (w_srv w') = svc ∧ w_ran w' = w_ran w ++ [(clt_nonce_ c, xid_ c)] ∧ called c c' ∧ served w w'.
Proof using Type.
  intros L [Hp Hn] Hpr Hmr Ha Hret Hr Hme. destruct (sent_header_ids L) as [Hh1 Hh2].
  destruct (request_arrives m bs L Hp Hmr Ha)
    as (m1 & b1 & u1 & pb & psz & w1 & Hcb & Hb1 & Epdu & Hup & Hu1 & Hg & I1 & Hq1 & Hs1 & Hal1 & Hru1 & Hse1 & Hra1).
  destruct (dispatch_begin_new w1 _ sent_header u1 f I1 Hq1) as (w2 & Hd & Hru2 & Hse2 & Hsv2 & Hal2 & Hra2 & I2).
  { rewrite Hs1. apply L. } { exact Hup. } { by eapply u_rep_set. }
  { rewrite Hs1. cbn [rq_srv_nonce sent_header]. rewrite Hn. destruct (bind_done_ c); [by right|by left]. } { by rewrite Hs1. }
  { rewrite Hs1, Hh1, Hh2. intros Hne. split; [apply L|by apply L]. } { done. }
  destruct (Hme u1 Hu1) as (rep & Hh & Hrep).
  destruct (dispatch_exec_reply w2 (length (w_running w)) (Ctx cn sent_header u1 f) ret rep svc rbs I2)
    as (w3 & m3 & b3 & He & Hpr3 & Hb3 & Hse3 & Hsv3 & Hra3); [|done| |done|done|].
  { rewrite Hru2, Hru1. by rewrite lookup_app_r, Nat.sub_diag by lia. }
  { cbn [x_f x_req]. by rewrite Hsv2, Hs1. }
  destruct (reply_returns rep rbs ret m3 b3 m1 L Hrep) as (pb3 & psz3 & c2 & u5 & cw & Ep3 & Hg5 & He5 & Hu5 & Hcd);
    [by apply handler_ret_ok|done|done|done|].
  exists u5, (cw_clt cw), w3. split_and!; [|done|done| |done|].
  - unfold rpc_once. rewrite Hcb. cbn [mbind option_bind]. rewrite Hb1. cbn [mbind option_bind]. rewrite Epdu, Hg.
    cbn [mbind option_bind]. rewrite Hd. cbn [mbind option_bind]. rewrite Hru2, length_app, Hru1. cbn [length].
    rewrite (proj2 (Nat.eqb_neq _ _)) by lia. rewrite He. cbn [mbind option_bind].
    rewrite Hse3, Hse2, Hse1, lookup_app_r, Nat.sub_diag by lia.
    cbn [lookup list_lookup mbind option_bind x_conn]. rewrite Ep3, Hg5. cbn [mbind option_bind]. by rewrite He5.
  - rewrite Hra3, Hra2, Hra1, Hh1. done.
  - exists pb, psz, w1, w2, sent_header, u1, f. rewrite <- Hru1.
    split_and!; try done; [by eapply u_rep_set|by rewrite Hru1].
Qed.

(** A client bound to an earlier server at this address is told so, and no handler runs. *)
Lemma rpc_once_oldsrv m bs :
  linked c w cn → bind_done_ c = true → proc ≠ bind_proc → srv_nonce_ c ≠ 0 → srv_nonce_ c ≠ nonce_ (w_srv w) →
  m_rep m bs → Z.of_nat (length bs) + 24 <= MAX_PDU →
  ∃ u c' w', rpc_once junk cn proc m (c, w) = Some (rpc_oldsrv_failure, u, (c', w')) ∧
    w_srv w' = w_srv w ∧ w_ran w' = w_ran w ∧ called c c' ∧ refs_inv w' ∧ q_ (w_jobs w') = [] ∧
    max_ (w_jobs w') = max_ (w_jobs w) ∧ ∀ d, w_heap w !! d = None → w_heap w' !! d = None.
Proof using Type.
  intros L Hb Hp Hn0 Hn Hmr Ha.
  destruct (request_arrives m bs L) as (m1 & b1 & u1 & pb & psz & w1 & Hcb & Hb1 & Epdu & Hup & Hu1 & Hg & I1 & Hq1 & Hs1
    & (y & Hy & Hdd) & Hru1 & Hse1 & Hra1); [rewrite Hb; cbn; lia|done|done|].
  destruct (pack_reply_header_rep (ReplyHeader (s32 (xid_ c)) rpc_oldsrv_failure) new_marshall [] new_marshall_rep)
    as (m3 & Hm3 & Hmr3). assert (∃ b3, m_buf m3 = Some b3) as [b3 Hb3] by (destruct Hmr3 as (? & ? & -> & _); eauto).
  destruct (reply_returns new_marshall [] rpc_oldsrv_failure m3 b3 m1 L new_marshall_rep ltac:(by split) ltac:(done) Hm3 Hb3)
    as (pb3 & psz3 & c2 & u5 & cw & Ep3 & Hg5 & He5 & _ & Hcd).
  assert (max_ (w_jobs w1) = max_ (w_jobs w) ∧ ∀ d, w_heap w !! d = None → w_heap w1 !! d = None) as [Hmx Hhp].
  { unfold got_pdu in Hg. destruct (negb _); [injection Hg as <-; by split|]. apply bind_Some in Hg as (w0 & Hi & Hg).
    apply bind_Some in Hi as (hp & Hi & [= <-]). apply bind_Some in Hi as (z & Hz & [= <-]).
    unfold enq in Hg. destruct (_ || _); [|by apply bind_Some in Hg as (? & _ & [= _])].
    injection Hg as <-. split; [done|]. intros d Hd. cbn. rewrite lookup_insert_ne; [done|]. by intros ->; rewrite Hd in Hz. }
  assert (∃ w2, dispatch_begin w1 = Some w2 ∧ w_running w2 = w_running w1 ∧ w_sent w2 = w_sent w1 ++ [(cn, b3, m_ind m3)] ∧
    w_srv w2 = w_srv w1 ∧ w_ran w2 = w_ran w1 ∧ w_jobs w2 = Fifo [] (max_ (w_jobs w1)) ∧ w_heap w2 = w_heap w1)
    as (w2 & Hd & Hru2 & Hse2 & Hs2 & Hra2 & Hj2 & Hh2).
  { unfold dispatch_begin, deq. rewrite Hq1. cbn [mbind option_bind j_conn j_buf j_sz].
    rewrite Hup. cbn [mbind option_bind]. rewrite (u_rep_set _ _ _ Hu1). cbn [negb].
    cbn [rq_srv_nonce sent_header w_srv set_jobs]. rewrite Hs1, !(proj2 (Z.eqb_neq _ _)) by done. cbn [negb andb].
    unfold send_header. cbn [rq_xid sent_header]. rewrite Hm3. cbn [mbind option_bind]. unfold w_send.
    rewrite Hb3. cbn [mbind option_bind]. unfold isdead_at. cbn [w_heap set_jobs]. rewrite Hy.
    cbn [fmap option_fmap option_map mbind option_bind]. unfold isdead. rewrite Hdd. cbn [mbind option_bind].
    eexists. split; [done|]. by split_and!. }
  exists u5, (cw_clt cw), w2. split.
  - unfold rpc_once. rewrite Hcb. cbn [mbind option_bind]. rewrite Hb1. cbn [mbind option_bind]. rewrite Epdu, Hg.
    cbn [mbind option_bind]. rewrite Hd. cbn [mbind option_bind]. rewrite Hru2, Hru1, Nat.eqb_refl. cbn [mbind option_bind].
    rewrite Hse2, Hse1, lookup_app_r, Nat.sub_diag by lia. cbn [lookup list_lookup mbind option_bind].
    rewrite Ep3, Hg5. cbn [mbind option_bind]. by rewrite He5.
  - split_and!; [by rewrite Hs2|by rewrite Hra2|done|by eapply dispatch_begin_refs|by rewrite Hj2|by rewrite Hj2|by rewrite Hh2].
Qed.
End any_handler.

Section transparent.
Context {S A R : Type} `{WireOk A, WireOk R}.
Context (junk : nat → ascii) (cn : nat) (c : rpcc) (w : world S) (proc : Z).

(** What fits into one message. *)
Definition fits {B} `{WireOk B} (b : B) : Prop := w_wf b ∧ Z.of_nat (length (w_enc b)) + 24 <= MAX_PDU.

Lemma fits_content {B} `{WireOk B} (b : B) : fits b → Z.of_nat (length (w_enc b)) <= max_content.
Proof. intros [_ Hl]. change MAX_PDU with 10485760 in Hl. change max_content with 536870888. lia. Qed.

Lemma rpc_once_ok (r0 : R) (meth : A → R → S → option (Z * R * S)) a m ret r svc :
  session c w cn → proc ≠ bind_proc → procs_ (w_srv w) !! s32 proc = Some (rpcs_reg1 r0 meth) →
  fits a → w_put a new_marshall = Some m → m_rep m (w_enc a) →
  meth a r0 (service (w_srv w)) = Some (ret, r, svc) → 0 <= ret < 2 ^ 31 → fits r →
  ∃ u c' w', rpc_once junk cn proc m (c, w) = Some (ret, u, (c', w')) ∧ u_rep 0 u (w_enc r) ∧
    service (w_srv w') = svc ∧ w_ran w' = w_ran w ++ [(clt_nonce_ c, xid_ c)] ∧
    calls_ c' = delete (s32 (xid_ c)) (calls_ c) ∧ acked (xid_rep_window_ c') (xid_ c).
Proof.
  intros Hs Hp Hpr Ha Hm Hmr Hme Hret Hr.
  destruct (rpc_once_handler junk cn c w proc (rpcs_reg1 r0 meth) m (w_enc a) ret (w_enc r) svc)
    as (u & c' & w' & Ho & Hu & Hsv & Hran & (Hc1 & Hc2 & _) & _); [apply Hs|by eapply session_may_call|done..|apply Ha|by left|apply Hr| |].
  - intros u Hu. apply reg1_handler with a; [apply Ha|done|done|apply Hr|by apply fits_content].
  - exists u, c', w'. by split_and!.
Qed.

(** C10. A remote call is a call of the method: the client's stub returns exactly the return
    value and the result of the method registered at the server, applied to the client's
    argument and the state of the service; the service is in the state the method left,
    the method ran exactly once, the call is not pending any more and its reply is
    acknowledged.  Marshalling, headers, framing, queueing, the duplicate check, dispatch
    and the stubs on both sides leave no trace in the result. *)
Theorem rpc_transparent (r0 : R) (meth : A → R → S → option (Z * R * S)) a ret r svc :
  session c w cn → proc ≠ bind_proc → procs_ (w_srv w) !! s32 proc = Some (rpcs_reg1 r0 meth) →
  fits a → meth a r0 (service (w_srv w)) = Some (ret, r, svc) → 0 <= ret < 2 ^ 31 → fits r →
  rpcc_call1 (λ p m, '(ret, u, _) ← rpc_once junk cn p m (c, w); Some (ret, u)) proc a w_def = Some (ret, r) ∧
  ∃ m u c' w', w_put a new_marshall = Some m ∧
    rpc_once junk cn proc m (c, w) = Some (ret, u, (c', w')) ∧ service (w_srv w') = svc ∧
    w_ran w' = w_ran w ++ [(clt_nonce_ c, xid_ c)] ∧
    calls_ c' = delete (s32 (xid_ c)) (calls_ c) ∧ acked (xid_rep_window_ c') (xid_ c).
Proof.
  intros Hs Hp Hpr Ha Hm Hret Hr.
  destruct (w_put_ok a (proj1 Ha) new_marshall [] new_marshall_rep (fits_content a Ha)) as (m & Hput & Hrep).
  destruct (rpc_once_ok r0 meth a m ret r svc Hs Hp Hpr Ha Hput Hrep Hm Hret Hr)
    as (u & c' & w' & Ho & Hu & Hrest).
  split; [|by exists m, u, c', w'].
  unfold rpcc_call1. rewrite Hput. cbn [mbind option_bind].
  apply (call_m_reply _ _ _ u); [by rewrite Ho|lia|apply Hr|done].
Qed.
End transparent.

(** The server of RpcServer.v that adds up its arguments, and a client bound to it. *)
Definition demo_session_world : world Z := srv_next (LAccept 1) demo_world.
Definition demo_session_clt : rpcc := set_bound 7 (new_rpcc true 9).

Lemma demo_session : session demo_session_clt demo_session_world 1.
Proof.
  assert (ordered_runs demo_server ∅ demo_session_world) as Hr.
  { apply (ordered_go _ ∅ _ (LAccept 1)); [|exact I|vm_compute; reflexivity].
    apply ordered_start. by split_and!. }
  apply Session; [reflexivity|vm_compute; reflexivity|]. apply Linked.
  - reflexivity.
  - by split.
  - by split.
  - split_and!; [done|by repeat constructor|by repeat constructor|set_solver].
  - by eapply srv_runs_refs, ordered_runs_runs.
  - apply (ordered_runs_amo _ _ _ Hr).
  - intros _. vm_compute. reflexivity.
  - vm_compute. reflexivity.
  - split; vm_compute; [reflexivity|discriminate].
  - split; [apply listen_ref; vm_compute; reflexivity|]. eexists. split; vm_compute; reflexivity.
Qed.

Lemma rpc_transparent_witness :
  rpcc_call1 (λ p m, '(ret, u, _) ← rpc_once (λ _, "?"%char) 1 p m (demo_session_clt, demo_session_world);
                     Some (ret, u)) demo_proc (SInt 5) w_def = Some (0, SInt 5) ∧
  ∃ m u c' w', w_put (SInt 5) new_marshall = Some m ∧
    rpc_once (λ _, "?"%char) 1 demo_proc m (demo_session_clt, demo_session_world) = Some (0, u, (c', w')) ∧
    service (w_srv w') = 5.
Proof.
  destruct (rpc_transparent (λ _, "?"%char) 1 demo_session_clt demo_session_world demo_proc
              (SInt 0) demo_add (SInt 5) 0 (SInt 5) 5 demo_session) as (H1 & m & u & c' & w' & H2 & H3 & H4 & _).
  - discriminate.
  - change (w_srv demo_session_world) with demo_server. apply lookup_singleton_eq.
  - split; [by split|vm_compute; discriminate].
  - reflexivity.
  - by split.
  - split; [by split|vm_compute; discriminate].
  - split; [exact H1|]. exists m, u, c', w'. split; [exact H2|]. split; [exact H3|exact H4].
Defined.
