(* ===== verification/RpcNet.v ===== *)
(** * Clients and server over a network

    Any number of RPC clients with at-most-once semantics (RpcClient.v), each with any number of
    threads, and a server (RpcServer.v).  The messages of a client travel in order;
    they may be lost, and a client sends the request of a call that is still waiting any
    number of times.  What the clients promise about acknowledgements is what the server
    needs. *)

From S2P Require Import Prelude.
From S2P Require Import Marshall.
From S2P Require Import RpcWindow.
From S2P Require Import Timespec.
From S2P Require Import RpcStubs.
From S2P Require Import Connection.
From S2P Require Import ConnHeap.
From S2P Require Import Fifo.
From S2P Require Import RpcServer.
From S2P Require Import RpcClient.
From S2P Require Import RpcEnd.

(** ** The system *)

(** A client with the log of its requests (xid and acknowledgement), their messages by
    xid as they come out of the connection, and the xids of those in transit. *)
Record cnode := CNode {
  n_clt : rpcc; n_log : list (Z * Z); n_msgs : gmap Z (block * Z); n_chan : list Z;
}.

Definition set_node (c : rpcc) (d : cnode) : cnode := CNode c (n_log d) (n_msgs d) (n_chan d).
Definition set_transit (l : list Z) (d : cnode) : cnode := CNode (n_clt d) (n_log d) (n_msgs d) l.

(** The clients by nonce. *)
Record net (S : Type) := Net { n_clts : gmap Z cnode; n_srv : world S }.
Arguments Net {S} _ _.
Arguments n_clts {S} _.
Arguments n_srv {S} _.

Inductive net_label :=
  | NNew (rnd : Z)                          (* a client is created *)
  | NClt (n : Z) (l : clt_label)            (* a step of a client *)
  | NSend (n xid : Z)                       (* a message is sent, for the first time or again *)
  | NLose (n : Z) (k : nat)                 (* a message is lost *)
  | NDeliver (n : Z) (c : nat)              (* the oldest message arrives on connection [c] *)
  | NSrv (l : srv_label).                   (* a step of the server *)

Section network.
(** The values of unwritten memory in messages. *)
Variable junk : nat → ascii.
Context {S : Type}.
Implicit Types w : world S.

(** A client's step; the message of a new call is recorded. *)
Definition node_step (l : clt_label) (d : cnode) : option cnode :=
  match l with
  | CStart proc req =>
      '(r, c) ← call1_begin proc req (n_clt d);
      match r with
      | inl _ => Some (set_node c d)
      | inr (xid, m) =>
          b ← m_buf m;
          Some (CNode c (n_log d ++ [(xid, front (xid_rep_window_ (n_clt d)))])
                  (<[xid := pdu_of (frame junk b (m_ind m))]> (n_msgs d)) (n_chan d))
      end
  | _ => '(c, _) ← clt_step l (n_clt d, n_log d); Some (set_node c d)
  end.

(** The call waits for its reply. *)
Definition waits (xid : Z) (c : rpcc) : bool :=
  match calls_ c !! s32 xid with Some ca => negb (done ca) | None => false end.

Definition net_step (l : net_label) (N : net S) : option (net S) :=
  match l with
  | NNew rnd =>
      if (u32 rnd =? 0) || map_count (u32 rnd) (n_clts N) then None
      else Some (Net (<[u32 rnd := CNode (new_rpcc true rnd) [] ∅ []]> (n_clts N)) (n_srv N))
  | NClt n l => d ← n_clts N !! n; d ← node_step l d; Some (Net (<[n := d]> (n_clts N)) (n_srv N))
  | NSend n xid =>
      d ← n_clts N !! n;
      if map_count xid (n_msgs d)
      then Some (Net (<[n := set_transit (n_chan d ++ [xid]) d]> (n_clts N)) (n_srv N)) else None
  | NLose n k =>
      d ← n_clts N !! n; Some (Net (<[n := set_transit (delete k (n_chan d)) d]> (n_clts N)) (n_srv N))
  | NDeliver n c =>
      d ← n_clts N !! n;
      match n_chan d with
      | [] => None
      | xid :: l =>
          '(b, sz) ← n_msgs d !! xid; w ← srv_step (LPdu c b sz) (n_srv N);
          Some (Net (<[n := set_transit l d]> (n_clts N)) w)
      end
  | NSrv l => match l with LPdu _ _ _ => None | _ => w ← srv_step l (n_srv N); Some (Net (n_clts N) w) end
  end.

(** Requests fit into a message; xids do not wrap around, replies answer requests that were
    sent; a call whose request is sent again still waits.  [call1] tests this when its wait times
    out, but sends after it has given up the mutex: see [late_retransmission]. *)
Definition net_ok (l : net_label) (N : net S) : Prop :=
  match l with
  | NClt n l =>
      ∀ d, n_clts N !! n = Some d → clt_ok l (n_clt d) ∧
        match l with
        | CStart _ req => ∃ bs, m_rep req bs ∧ Z.of_nat (length bs) + 24 <= MAX_PDU
        | _ => True
        end
  | NSend n xid => ∀ d, n_clts N !! n = Some d → waits xid (n_clt d) = true
  | _ => True
  end.

Inductive net_runs (s : rpcs S) : net S → Prop :=
  | net_runs_start w : fresh_world s w → net_runs s (Net ∅ w)
  | net_runs_step N l N' : net_runs s N → net_ok l N → net_step l N = Some N' → net_runs s N'.

(** ** The order of what arrives *)

Definition header_of (b : block) (sz : Z) : option req_header :=
  '(h, u) ← unpack_req_header (unmarshall_of_buf b sz); if u_ok u then Some h else None.

Definition ids (h : req_header) : Z * Z := (u32 (rq_xid h), u32 (rq_xid_rep h)).

(** The requests of client [n] that the server has queued, and those in transit. *)
Definition queued (n : Z) (q : list djob_t) : list (Z * Z) :=
  omap (λ j, h ← header_of (j_buf j) (j_sz j); if decide (rq_clt_nonce h = n) then Some (ids h) else None) q.
Definition transit (d : cnode) : list (Z * Z) :=
  omap (λ x, '(b, sz) ← n_msgs d !! x; h ← header_of b sz; Some (ids h)) (n_chan d).

(** A request never comes after an acknowledgement that covers it. *)
Definition uncovered (p q : Z * Z) : Prop := snd p < fst q.

Record node_ok (R : gmap Z Z) (n : Z) (d : cnode) (q : list djob_t) : Prop := NodeOk {
  o_inv : clt_inv (n_clt d) (n_log d);
  o_nonce : clt_nonce_ (n_clt d) = n ∧ n ≠ 0 ∧ is_u32 n ∧ is_u32 (srv_nonce_ (n_clt d));
  o_chan : Forall (λ x, is_Some (n_msgs d !! x)) (n_chan d);
  o_msgs x b sz : n_msgs d !! x = Some (b, sz) →
    ∃ h, header_of b sz = Some h ∧ rq_clt_nonce h = n ∧ fst (ids h) = x ∧ ids h ∈ n_log d;
  o_log : Forall (λ p, p ∈ n_log d ∧ map_at 0 n R < fst p) (queued n q ++ transit d);
  o_order : StronglySorted uncovered (queued n q ++ transit d);
  o_ack : map_at 0 n R <= front (xid_rep_window_ (n_clt d));
}.

Record net_inv (s : rpcs S) (R : gmap Z Z) (N : net S) : Prop := NetInv {
  v_runs : ordered_runs s R (n_srv N);
  v_nodes n d : n_clts N !! n = Some d → node_ok R n d (q_ (w_jobs (n_srv N)));
  v_jobs j h : j ∈ q_ (w_jobs (n_srv N)) → header_of (j_buf j) (j_sz j) = Some h → is_Some (n_clts N !! rq_clt_nonce h);
  v_acks n : is_Some (R !! n) → is_Some (n_clts N !! n);
}.

(** ** The server's queue *)

Lemma w_decref_jobs c w w' : w_decref c w = Some w' → w_jobs w' = w_jobs w.
Proof using Type. unfold w_decref. by intros (h & _ & [= <-])%bind_Some. Qed.
Lemma w_incref_jobs c w w' : w_incref c w = Some w' → w_jobs w' = w_jobs w.
Proof using Type. unfold w_incref. by intros (h & _ & [= <-])%bind_Some. Qed.
Lemma w_send_jobs c b sz w w' : w_send c b sz w = Some w' → w_jobs w' = w_jobs w.
Proof using Type. unfold w_send. intros (x & _ & (d & _ & [= <-])%bind_Some)%bind_Some. by destruct d. Qed.
Lemma send_header_jobs c h w w' : send_header c h w = Some w' → w_jobs w' = w_jobs w.
Proof using Type. unfold send_header. intros (m & _ & H)%bind_Some. by eapply w_send_jobs. Qed.

Lemma save_conn_jobs n c w w' : save_conn n c w = Some w' → w_jobs w' = w_jobs w.
Proof using Type.
  unfold save_conn. destruct (_ !! n); [case_bool_decide; [by intros [= <-]|]|].
  - intros (w1 & H1 & (w2 & H2 & [= <-])%bind_Some)%bind_Some. cbn.
    by rewrite (w_incref_jobs _ _ _ H2), (w_decref_jobs _ _ _ H1).
  - intros (w1 & H1 & [= <-])%bind_Some. by apply w_incref_jobs in H1.
Qed.

Lemma dispatch_check_jobs c h w r w' : dispatch_check c h w = Some (r, w') → w_jobs w' = w_jobs w.
Proof using Type.
  unfold dispatch_check. destruct (_ =? 0); [by intros [= _ <-]|].
  intros (w1 & H1 & ([st win] & _ & [= _ <-])%bind_Some)%bind_Some. by apply save_conn_jobs in H1.
Qed.

Lemma dispatch_begin_jobs w w' : dispatch_begin w = Some w' → q_ (w_jobs w') = tail (q_ (w_jobs w)).
Proof using Type.
  unfold dispatch_begin, deq. destruct (q_ (w_jobs w)) as [|j q]; [done|]. cbn [mbind option_bind tail].
  intros ([h u] & _ & H)%bind_Some. set (w0 := set_jobs _ w) in H.
  assert (∀ w1, w_jobs w1 = w_jobs w0 → q_ (w_jobs w1) = q) as Hw by (intros w1 ->; done).
  destruct (negb _); [by eapply Hw, w_decref_jobs|]. destruct (_ && _).
  { apply bind_Some in H as (w1 & H1 & [= <-]). apply Hw. by apply send_header_jobs in H1. }
  destruct (procs_ _ !! _); [|by eapply Hw, w_decref_jobs]. apply bind_Some in H as ([[st rep] w1] & H1 & H).
  apply dispatch_check_jobs in H1. destruct st.
  - injection H as <-. by apply Hw.
  - apply Hw. by rewrite (w_decref_jobs _ _ _ H).
  - apply bind_Some in H as ([b sz] & _ & H). apply bind_Some in H as (w2 & H2 & H). apply Hw.
    by rewrite (w_decref_jobs _ _ _ H), (w_send_jobs _ _ _ _ _ H2).
  - apply bind_Some in H as (w2 & H2 & H). apply Hw. by rewrite (w_decref_jobs _ _ _ H), (send_header_jobs _ _ _ _ H2).
Qed.

Lemma dispatch_exec_jobs k w w' : dispatch_exec k w = Some w' → w_jobs w' = w_jobs w.
Proof using Type.
  unfold dispatch_exec. intros (x & _ & H)%bind_Some. apply bind_Some in H as ([[ret rep] svc] & _ & H).
  destruct (negb _); [done|]. apply bind_Some in H as (rep' & _ & H). destruct (m_take_buf rep') as [[b sz] m].
  apply bind_Some in H as (b' & _ & H). apply bind_Some in H as ([c w1] & Hr & H). apply bind_Some in H as (w2 & Hs & H).
  rewrite (w_decref_jobs _ _ _ H), (w_send_jobs _ _ _ _ _ Hs). unfold reply_conn in Hr. apply bind_Some in Hr as (d & _ & Hr).
  destruct (_ && _); [apply bind_Some in Hr as (w3 & H3 & Hr); apply bind_Some in Hr as (c' & _ & Hr);
    apply bind_Some in Hr as (w4 & H4 & Hr)|]; injection Hr as _ <-.
  - rewrite (w_incref_jobs _ _ _ H4), (w_decref_jobs _ _ _ H3). by destruct (rq_clt_nonce _ >? 0).
  - by destruct (rq_clt_nonce _ >? 0).
Qed.

Lemma srv_step_jobs l w w' :
  srv_step l w = Some w' →
  match l with
  | LDispatch => q_ (w_jobs w') = tail (q_ (w_jobs w))
  | LPdu c b sz => q_ (w_jobs w') = q_ (w_jobs w) ∨ q_ (w_jobs w') = q_ (w_jobs w) ++ [DJob c b sz]
  | _ => q_ (w_jobs w') = q_ (w_jobs w)
  end.
Proof using Type.
  destruct l as [c|c|c|c b sz| |k|b]; cbn [srv_step].
  - destruct (_ !! c); [done|]. by intros [= <-].
  - by intros (x & _ & [= <-])%bind_Some.
  - case_bool_decide; [|done]. by intros (x & _ & (h & _ & [= <-])%bind_Some)%bind_Some.
  - intros (d & _ & H)%bind_Some. destruct (_ || _); [done|]. apply bind_Some in H as ([r w1] & Hg & [= <-]).
    unfold got_pdu in Hg. destruct (negb _); [injection Hg as _ <-; by left|].
    apply bind_Some in Hg as (w2 & Hi & Hg). apply w_incref_jobs in Hi. unfold enq in Hg.
    destruct (_ || _); [injection Hg as _ <-; right; cbn; by rewrite Hi|].
    apply bind_Some in Hg as (w3 & Hd & [= _ <-]). left. by rewrite (w_decref_jobs _ _ _ Hd), Hi.
  - apply dispatch_begin_jobs.
  - intros H. by rewrite (dispatch_exec_jobs _ _ _ H).
  - by intros [= <-].
Qed.

(** ** The clients *)

(** Acknowledgements grow. *)
Lemma update_front x win win' : window_ok win → is_u32 x → update_xid_rep x win = Some win' → front win <= front win'.
Proof using Type. intros Hw Hx H. destruct (update_xid_rep_spec x win Hw Hx) as (w1 & H1 & _ & ? & _). congruence. Qed.

Lemma clt_step_front l c log c' log' :
  clt_inv c log → clt_ok l c → clt_step l (c, log) = Some (c', log') →
  front (xid_rep_window_ c) <= front (xid_rep_window_ c') ∧ clt_nonce_ c' = clt_nonce_ c ∧
  (is_u32 (srv_nonce_ c) → is_u32 (srv_nonce_ c')).
Proof using Type.
  intros I Hok H. destruct l as [proc req|b sz|xid| |ret r|r]; cbn [clt_step] in H.
  - apply bind_Some in H as ([r c1] & Hb & [= <- _]). unfold call1_begin in Hb.
    destruct (_ || _); [injection Hb as _ <-; split_and!; [lia|done..]|]. destruct (destroy_wait_ c); [injection Hb as _ <-; split_and!; [lia|done..]|].
    apply bind_Some in Hb as (rep & _ & Hb). apply bind_Some in Hb as (m & _ & [= _ <-]). split_and!; [cbn; lia|done..].
  - apply bind_Some in H as (c1 & Hg & [= <- _]). unfold clt_got_pdu in Hg. apply bind_Some in Hg as ([h u] & _ & Hg).
    destruct (negb _); [injection Hg as <-; split_and!; [lia|done..]|]. apply bind_Some in Hg as (win & Hu & Hg).
    apply (update_front _ _ _ (ci_win _ _ I) (u32_range _)) in Hu. cbn [calls_ set_rep_window] in Hg.
    destruct (calls_ c !! rp_xid h) as [ca|]; [destruct (done ca)|]; injection Hg as <-; (split_and!; [exact Hu|done..]).
  - apply bind_Some in H as (c1 & He & [= <- _]). unfold end_locked, call1_end in He.
    apply bind_Some in He as ([[r u] w] & He & [= <-]). cbn [k_xid cw_clt k_ch cw_heap cw_sent] in He.
    apply bind_Some in He as (ca & _ & He). apply bind_Some in He as (win & Hu & He). cbn [mbind option_bind] in He.
    apply bind_Some in He as (ret & _ & [= _ _ <-]). split_and!; [|done..]. by apply (update_front _ _ _ (ci_win _ _ I) Hok) in Hu.
  - injection H as <- _. unfold cancel. case_bool_decide; (split_and!; [cbn; lia|done..]).
  - injection H as <- _. unfold bind_finish. destruct (ret =? 0); (split_and!; [cbn; lia|done|]); [intros _; apply u32_range|done].
  - injection H as <- _. split_and!; [cbn; lia|done..].
Qed.

(** The message of a new call. *)
Lemma message_ok proc req bs c log xid m c' b :
  clt_inv c log → is_u32 (clt_nonce_ c) → is_u32 (srv_nonce_ c) → m_rep req bs → Z.of_nat (length bs) + 24 <= MAX_PDU →
  call1_begin proc req c = Some (inr (xid, m), c') → m_buf m = Some b →
  xid = xid_ c ∧ ∃ h, uncurry header_of (pdu_of (frame junk b (m_ind m))) = Some h ∧
    rq_clt_nonce h = clt_nonce_ c ∧ ids h = (xid, front (xid_rep_window_ c)).
Proof using Type.
  intros [I1 I2 I3 _ _ _] Hn Hs Hm Hl H Hb. unfold call1_begin in H.
  destruct (_ || _); [done|]. destruct (destroy_wait_ c); [done|].
  apply bind_Some in H as (rep & Hrep & H). apply bind_Some in H as (m1 & Hpk & [= <- <- _]). split; [done|].
  cbn [xid_rep_window_ clt_nonce_ srv_nonce_ set_xid on_calls] in Hrep, Hpk.
  assert (rep = front (xid_rep_window_ c) ∧ is_u32 rep) as [-> Hru].
  { destruct I2 as (_ & _ & Hu & _). destruct (xid_rep_window_ c) as [|r l]; [done|]. injection Hrep as ->.
    by apply Forall_cons in Hu as [Hu _]. }
  set (h := ReqHeader _ _ _ _ _) in Hpk. assert (req_header_wf h) as Hwf by (unfold req_header_wf, h; cbn; auto 10 with yfs).
  destruct (req_delivered junk h req bs Hm Hwf (fits_int _ _ Hm Hl)) as (m' & b' & u & Hpk' & Hb' & Hup & Hu).
  rewrite Hpk in Hpk'. injection Hpk' as <-. rewrite Hb in Hb'. injection Hb' as <-.
  exists h. unfold delivered in Hup. destruct (pdu_of (frame junk b (m_ind m1))) as [pb psz]. cbn [uncurry fst snd] in *.
  unfold header_of. rewrite Hup. cbn [mbind option_bind]. rewrite (u_rep_set _ _ _ Hu). split_and!; [done..|].
  unfold ids, h. cbn [rq_xid rq_xid_rep]. rewrite !u32_s32, !u32_id by (try done; unfold is_u32; lia). done.
Qed.

(** ** The invariant *)

Lemma node_ok_grow R n d q c' log' msgs' :
  node_ok R n d q → clt_inv c' log' → (∀ p, p ∈ n_log d → p ∈ log') →
  front (xid_rep_window_ (n_clt d)) <= front (xid_rep_window_ c') →
  clt_nonce_ c' = clt_nonce_ (n_clt d) → (is_u32 (srv_nonce_ (n_clt d)) → is_u32 (srv_nonce_ c')) →
  (∀ x, is_Some (n_msgs d !! x) → msgs' !! x = n_msgs d !! x) →
  (∀ x b sz, msgs' !! x = Some (b, sz) → ∃ h, header_of b sz = Some h ∧ rq_clt_nonce h = n ∧ fst (ids h) = x ∧ ids h ∈ log') →
  node_ok R n (CNode c' log' msgs' (n_chan d)) q.
Proof using Type.
  intros [O1 (O2 & O3 & O4 & O5) O6 O7 O8 O9 O10] Hi Hlog Hf Hn Hs Hkeep Hm.
  assert (transit (CNode c' log' msgs' (n_chan d)) = transit d) as Ht.
  { unfold transit. cbn [n_chan n_msgs]. induction O6 as [|x l Hx _ IH]; [done|]. cbn [omap list_omap]. by rewrite Hkeep, IH. }
  split; cbn [n_clt n_log n_msgs n_chan]; rewrite ?Ht; try done.
  - split_and!; [congruence|done|done|auto].
  - eapply Forall_impl; [exact O6|]. intros x Hx. cbn. by rewrite Hkeep.
  - eapply Forall_impl; [exact O8|]. intros p [Hp ?]. split; [auto|done].
  - lia.
Qed.

Lemma node_step_ok R n d q l d' :
  node_ok R n d q → clt_ok l (n_clt d) →
  match l with CStart _ req => ∃ bs, m_rep req bs ∧ Z.of_nat (length bs) + 24 <= MAX_PDU | _ => True end →
  node_step l d = Some d' → node_ok R n d' q.
Proof using Type.
  intros O Hok Hreq H. pose proof O as [O1 (O2 & O3 & O4 & O5) _ O7 _ _ _].
  assert (∀ c log, clt_step l (n_clt d, n_log d) = Some (c, log) → n_log d = log → node_ok R n (set_node c d) q) as Hsame.
  { intros c log Hs Hlog. pose proof (clt_step_inv _ _ _ _ O1 Hok Hs) as Hi.
    destruct (clt_step_front _ _ _ _ _ O1 Hok Hs) as (? & ? & ?). subst log.
    by apply (node_ok_grow R n d q c (n_log d) (n_msgs d)). }
  assert ((∀ proc req, l ≠ CStart proc req) → node_ok R n d' q) as Hother.
  { intros Hl. assert ((∃ c log, clt_step l (n_clt d, n_log d) = Some (c, log) ∧ d' = set_node c d) ∧
      ∀ c log, clt_step l (n_clt d, n_log d) = Some (c, log) → n_log d = log) as [(c & log & Hs & ->) Hlog].
    { destruct l as [proc req|b sz|xid| |ret r|r]; [by destruct (Hl proc req)|..];
        (split; [unfold node_step in H; apply bind_Some in H as ([c log] & Hs & [= <-]); eauto|]);
        intros c log Hs; cbn [clt_step] in Hs; try (apply bind_Some in Hs as (? & _ & [= _ ->]); done); by injection Hs as _ ->. }
    eauto. }
  destruct l as [proc req|b sz|xid| |ret r|r]; [|by apply Hother..]. clear Hother. cbn [node_step] in H.
  apply bind_Some in H as ([r c] & Hb & H). destruct Hreq as (bs & Hm & Hl).
  assert (clt_step (CStart proc req) (n_clt d, n_log d) = Some (c, match r with inl _ => n_log d | inr (xid, _) =>
    n_log d ++ [(xid, front (xid_rep_window_ (n_clt d)))] end)) as Hs by (cbn [clt_step]; by rewrite Hb).
  destruct r as [e|[xid m]]; [injection H as <-; by eapply Hsame|]. apply bind_Some in H as (b & Hmb & [= <-]).
  rewrite <- O2 in O4. destruct (message_ok proc req bs _ _ xid m c b O1 O4 O5 Hm Hl Hb Hmb) as (Hx & h & Hh & Hhn & Hhi).
  pose proof (clt_step_inv _ _ _ _ O1 Hok Hs) as Hi. destruct (clt_step_front _ _ _ _ _ O1 Hok Hs) as (? & ? & ?).
  apply node_ok_grow; try done.
  - intros p Hp. apply elem_of_app. by left.
  - intros x [[b' sz'] Hx']. rewrite lookup_insert_ne; [done|]. intros <-.
    destruct (O7 _ _ _ Hx') as (h' & _ & _ & Hid & Hin). destruct (ci_log _ _ O1 _ Hin). rewrite Hid in *. lia.
  - intros x b' sz' [[<- Hp]|[_ Hp]]%lookup_insert_Some.
    + rewrite Hp in Hh. cbn [uncurry] in Hh. exists h. rewrite Hhi. split_and!; [done|congruence|done|].
      apply elem_of_app. right. by apply list_elem_of_singleton.
    + destruct (O7 _ _ _ Hp) as (h' & ? & ? & ? & ?). exists h'. split_and!; try done. apply elem_of_app. by left.
Qed.

Lemma sorted_sublist {A} (P : A → A → Prop) l1 l2 : l1 `sublist_of` l2 → StronglySorted P l2 → StronglySorted P l1.
Proof using Type.
  induction 1 as [|x l1 l2 Hs IH|x l1 l2 Hs IH]; intros H; [constructor|..]; apply StronglySorted_inv in H as [H1 H2]; [|auto].
  constructor; [auto|]. rewrite Forall_forall in *. intros y Hy. apply H2. by eapply elem_of_sublist.
Qed.

Lemma omap_sublist {A B} (f : A → option B) l1 l2 : l1 `sublist_of` l2 → omap f l1 `sublist_of` omap f l2.
Proof using Type.
  induction 1 as [|x l1 l2 Hs IH|x l1 l2 Hs IH]; [done|..]; cbn [omap list_omap]; destruct (f x); try done; by constructor.
Qed.

(** Messages are lost, or move from the channel to the queue. *)
Lemma node_ok_sub R n d q l q' :
  node_ok R n d q → l `sublist_of` n_chan d →
  queued n q' ++ transit (set_transit l d) `sublist_of` queued n q ++ transit d →
  node_ok R n (set_transit l d) q'.
Proof using Type.
  intros [O1 O2 O6 O7 O8 O9 O10] Hl Hs. split; cbn [n_clt n_log n_msgs n_chan set_transit]; try done.
  - rewrite Forall_forall in *. intros x Hx. apply O6. by eapply elem_of_sublist.
  - rewrite Forall_forall in *. intros p Hp. apply O8. by eapply elem_of_sublist.
  - by eapply sorted_sublist.
Qed.

Lemma queued_app n q1 q2 : queued n (q1 ++ q2) = queued n q1 ++ queued n q2.
Proof using Type. unfold queued. apply omap_app. Qed.

Lemma queued_other n q : (∀ j h, j ∈ q → header_of (j_buf j) (j_sz j) = Some h → rq_clt_nonce h ≠ n) → queued n q = [].
Proof using Type.
  induction q as [|j q IH]; intros H; [done|]. unfold queued in *. cbn [omap list_omap].
  rewrite IH by (intros j' h Hj; apply H; by right).
  destruct (header_of (j_buf j) (j_sz j)) as [h|] eqn:Eh; [|done]. cbn [mbind option_bind].
  rewrite decide_False; [done|]. apply (H j h); [by left|done].
Qed.

(** A waiting call is sent. *)
Lemma send_ok R n d q xid :
  node_ok R n d q → waits xid (n_clt d) = true → map_count xid (n_msgs d) = true →
  node_ok R n (set_transit (n_chan d ++ [xid]) d) q.
Proof using Type.
  intros O Hw Hm. pose proof O as [O1 O2 O6 O7 O8 O9 O10]. apply map_count_true in Hm as [[b sz] Hm].
  destruct (O7 _ _ _ Hm) as (h & Hh & Hhn & Hid & Hin).
  assert (front (xid_rep_window_ (n_clt d)) < xid) as Hf.
  { unfold waits in Hw. destruct (calls_ (n_clt d) !! s32 xid) as [ca|] eqn:Ec; [|done]. apply negb_true_iff in Hw.
    assert (is_u32 xid) as Hx by (rewrite <- Hid; apply u32_range).
    destruct (ci_calls _ _ O1 xid ca Hx Ec) as [_ Hn]. specialize (Hn Hw). unfold acked in Hn. lia. }
  assert (transit (set_transit (n_chan d ++ [xid]) d) = transit d ++ [ids h]) as Ht.
  { unfold transit. cbn [n_chan n_msgs set_transit]. rewrite omap_app. f_equal. cbn [omap list_omap]. rewrite Hm. cbn [mbind option_bind]. by rewrite Hh. }
  split; cbn [n_clt n_log n_msgs n_chan set_transit]; rewrite ?Ht, ?(assoc_L (++)); try done.
  - apply Forall_app. split; [done|]. constructor; [by eexists|constructor].
  - apply Forall_app. split; [done|]. constructor; [|constructor]. split; [done|]. rewrite Hid. lia.
  - apply StronglySorted_app_2; [|done|by repeat constructor]. intros p p' Hp ->%list_elem_of_singleton.
    rewrite Forall_forall in O8. destruct (O8 p Hp) as [Hl _]. destruct (ci_log _ _ O1 p Hl). unfold uncovered. rewrite Hid. lia.
Qed.

(** The server takes a request from its queue. *)
Lemma dispatch_ok R n d j q :
  node_ok R n d (j :: q) →
  node_ok (match header_of (j_buf j) (j_sz j) with Some h => ack_after h R | None => R end) n d q ∧
  (∀ h, header_of (j_buf j) (j_sz j) = Some h → rq_clt_nonce h = n →
     u32 (rq_xid_rep h) < u32 (rq_xid h) ∧ map_at 0 n R < u32 (rq_xid h)).
Proof using Type.
  intros [O1 O2 O6 O7 O8 O9 O10].
  assert (queued n (j :: q) = match header_of (j_buf j) (j_sz j) with
    | Some h => if decide (rq_clt_nonce h = n) then ids h :: queued n q else queued n q | None => queued n q end) as Eq.
  { unfold queued. cbn [omap list_omap]. destruct (header_of (j_buf j) (j_sz j)) as [h|]; [cbn [mbind option_bind]; by case_decide|done]. }
  rewrite Eq in O8, O9. destruct (header_of (j_buf j) (j_sz j)) as [h|]; [|by split; [split|]].
  assert (map_at 0 n (ack_after h R) = if decide (rq_clt_nonce h = n) then Z.max (map_at 0 n R) (u32 (rq_xid_rep h)) else map_at 0 n R) as Er.
  { unfold ack_after. rewrite map_at_insert. case_decide; [subst n; done|done]. }
  destruct (decide (rq_clt_nonce h = n)) as [Hn|Hn].
  - cbn [app] in O8, O9. apply Forall_cons in O8 as [[Hin Hlt] O8]. apply StronglySorted_inv in O9 as [O9 Hun].
    destruct (ci_log _ _ O1 _ Hin) as [[Hl _] Hfr]. cbn [ids fst snd] in Hlt, Hl, Hfr. split.
    + split; rewrite ?Er; try done; [|lia].
      rewrite Forall_forall in *. intros p Hp. destruct (O8 p Hp) as [? ?]. split; [done|]. specialize (Hun p Hp).
      unfold uncovered in Hun. cbn [ids snd] in Hun. lia.
    + intros h' [= <-] _. split; lia.
  - split; [by split; rewrite ?Er|]. by intros h' [= <-] ?.
Qed.

Section invariant.
Variable s : rpcs S.

Lemma new_client_inv R N rnd :
  net_inv s R N → u32 rnd ≠ 0 → n_clts N !! u32 rnd = None →
  net_inv s R (Net (<[u32 rnd := CNode (new_rpcc true rnd) [] ∅ []]> (n_clts N)) (n_srv N)).
Proof using Type.
  intros [V1 V2 V3 V4] Hn Hd. split; cbn [n_clts n_srv]; [done| | |].
  - intros n d [[<- <-]|[_ Hn']]%lookup_insert_Some; [|by apply V2].
    assert (R !! u32 rnd = None) as Hr by (apply eq_None_not_Some; intros Hs; apply V4 in Hs; rewrite Hd in Hs; by destruct Hs).
    assert (map_at 0 (u32 rnd) R = 0) as H0 by (unfold map_at; by rewrite Hr).
    assert (queued (u32 rnd) (q_ (w_jobs (n_srv N))) = []) as Hq.
    { apply queued_other. intros j h Hj Hh E. specialize (V3 j h Hj Hh). rewrite E, Hd in V3. by destruct V3. }
    split; cbn [n_clt n_log n_msgs n_chan transit omap list_omap]; rewrite ?Hq, ?H0.
    + exact (clt_runs_inv true rnd (new_rpcc true rnd, []) (clt_runs_start true rnd)).
    + split_and!; [done|done|apply u32_range..|]. done.
    + constructor.
    + done.
    + constructor.
    + constructor.
    + done.
  - intros j h Hj Hh. rewrite lookup_insert_is_Some'. right. by eapply V3.
  - intros n Hr. rewrite lookup_insert_is_Some'. right. by apply V4.
Qed.

(** A client changes. *)
Lemma node_inv R N n d d' :
  net_inv s R N → n_clts N !! n = Some d → node_ok R n d' (q_ (w_jobs (n_srv N))) →
  net_inv s R (Net (<[n := d']> (n_clts N)) (n_srv N)).
Proof using Type.
  intros [V1 V2 V3 V4] Hd Ho. split; cbn [n_clts n_srv]; [done| | |].
  - intros m e [[<- <-]|[_ He]]%lookup_insert_Some; [done|by apply V2].
  - intros j h Hj Hh. rewrite lookup_insert_is_Some'. right. by eapply V3.
  - intros m Hr. rewrite lookup_insert_is_Some'. right. by apply V4.
Qed.

Lemma deliver_inv R N n c d xid l b sz w' :
  net_inv s R N → n_clts N !! n = Some d → n_chan d = xid :: l → n_msgs d !! xid = Some (b, sz) →
  srv_step (LPdu c b sz) (n_srv N) = Some w' →
  net_inv s R (Net (<[n := set_transit l d]> (n_clts N)) w').
Proof using Type.
  intros [V1 V2 V3 V4] Hd Hc Hm Hs. pose proof (V2 n d Hd) as O. destruct (o_msgs _ _ _ _ O _ _ _ Hm) as (h & Hh & Hn & _).
  assert (transit d = ids h :: transit (set_transit l d)) as Ht.
  { unfold transit. rewrite Hc. cbn [omap list_omap n_msgs n_chan set_transit]. rewrite Hm. cbn [mbind option_bind]. by rewrite Hh. }
  assert (l `sublist_of` n_chan d) as Hl by (rewrite Hc; by constructor).
  pose proof (srv_step_jobs _ _ _ Hs) as Hq. cbn beta iota in Hq.
  assert (ordered_runs s R w') as Hr by (exact (ordered_step s R (n_srv N) (LPdu c b sz) w' V1 I Hs)).
  assert (∀ m, queued m [DJob c b sz] = if decide (n = m) then [ids h] else []) as Hj.
  { intros m. unfold queued. cbn [omap list_omap j_buf j_sz]. rewrite Hh. cbn [mbind option_bind]. rewrite Hn. by case_decide. }
  split; cbn [n_clts n_srv]; [done| | |].
  - intros m e [[<- <-]|[Hne He]]%lookup_insert_Some.
    + apply (node_ok_sub R n d (q_ (w_jobs (n_srv N)))); [done|done|]. rewrite Ht. destruct Hq as [->| ->].
      * apply sublist_app; [done|by constructor].
      * rewrite queued_app, Hj, decide_True, <- (assoc_L (++)) by done. done.
    + pose proof (V2 m e He) as Oe. destruct Hq as [->| ->]; [done|].
      destruct Oe as [O1 O2 O6 O7 O8 O9 O10]. split; try done; by rewrite queued_app, Hj, decide_False, app_nil_r.
  - intros j h' Hjin Hh'. rewrite lookup_insert_is_Some'. destruct Hq as [Hq|Hq]; rewrite Hq in Hjin; [right; by eapply V3|].
    apply elem_of_app in Hjin as [Hjin| ->%list_elem_of_singleton]; [right; by eapply V3|]. left.
    cbn [j_buf j_sz] in Hh'. congruence.
  - intros m Hm'. rewrite lookup_insert_is_Some'. right. by apply V4.
Qed.

Lemma dispatch_inv R N w' :
  net_inv s R N → srv_step LDispatch (n_srv N) = Some w' →
  acks_in_order R LDispatch (n_srv N) ∧ net_inv s (acks_after R LDispatch (n_srv N)) (Net (n_clts N) w').
Proof using Type.
  intros [V1 V2 V3 V4] Hs. pose proof (srv_step_jobs _ _ _ Hs) as Hq. cbn beta iota in Hq.
  assert (acks_in_order R LDispatch (n_srv N)) as Ha.
  { unfold acks_in_order. destruct (next_header (n_srv N)) as [h|] eqn:Eh; [|done]. intros Hne. unfold next_header in Eh.
    destruct (q_ (w_jobs (n_srv N))) as [|j q] eqn:Eq; [done|]. cbn [head mbind option_bind] in Eh.
    destruct (V3 j h) as [d Hd]; [by left|done|]. pose proof (V2 _ _ Hd) as O.
    destruct (dispatch_ok _ _ _ _ _ O) as [_ Hd']. by apply Hd'. }
  split; [done|]. pose proof (ordered_step s R _ _ _ V1 Ha Hs) as Hr.
  assert (∀ q j, q_ (w_jobs (n_srv N)) = j :: q → acks_after R LDispatch (n_srv N)
    = match header_of (j_buf j) (j_sz j) with Some h => ack_after h R | None => R end) as Hack.
  { intros q j Eq. unfold acks_after, next_header. rewrite Eq. cbn [head mbind option_bind]. by unfold header_of. }
  destruct (q_ (w_jobs (n_srv N))) as [|j q] eqn:Eq.
  { exfalso. cbn [srv_step] in Hs. unfold dispatch_begin, deq in Hs. by rewrite Eq in Hs. }
  split; cbn [n_clts n_srv]; [done| | |]; rewrite ?Hq; cbn [tail].
  - intros n d Hd. pose proof (V2 n d Hd) as O. rewrite (Hack q j eq_refl). by apply dispatch_ok.
  - intros j' h Hj Hh. apply (V3 j' h); [by right|done].
  - intros n Hn. rewrite (Hack q j eq_refl) in Hn. destruct (header_of (j_buf j) (j_sz j)) as [h|] eqn:Eh; [|by apply V4].
    unfold ack_after in Hn. apply lookup_insert_is_Some' in Hn as [<-|Hn]; [|by apply V4]. apply (V3 j h); [by left|done].
Qed.

Lemma net_step_inv R l N N' :
  net_inv s R N → net_ok l N → net_step l N = Some N' → ∃ R', net_inv s R' N'.
Proof using Type.
  intros V Hok H. destruct l as [rnd|n l|n xid|n k|n c|l]; cbn [net_step net_ok] in *.
  - destruct (Z.eqb_spec (u32 rnd) 0) as [|Hn]; [done|]. destruct (map_count _ _) eqn:Em; [done|]. injection H as <-.
    exists R. apply new_client_inv; [done|done|by apply map_count_false].
  - apply bind_Some in H as (d & Hd & H). apply bind_Some in H as (d' & Hs & [= <-]). exists R.
    destruct (Hok d Hd) as [Hc Hreq]. eapply node_inv; [done|done|]. eapply node_step_ok; [by apply (v_nodes _ _ _ V)|done|done|done].
  - apply bind_Some in H as (d & Hd & H). destruct (map_count _ _) eqn:Hm; [|done].
    injection H as <-. exists R. eapply node_inv; [done|done|]. apply send_ok; [by apply (v_nodes _ _ _ V)|by apply Hok|done].
  - apply bind_Some in H as (d & Hd & [= <-]). exists R. eapply node_inv; [done|done|].
    apply (node_ok_sub R n d (q_ (w_jobs (n_srv N)))); [by apply (v_nodes _ _ _ V)|apply sublist_delete|].
    apply sublist_app; [done|]. apply omap_sublist, sublist_delete.
  - apply bind_Some in H as (d & Hd & H). destruct (n_chan d) as [|xid l] eqn:Ec; [done|].
    apply bind_Some in H as ([b sz] & Hm & H). apply bind_Some in H as (w' & Hs & [= <-]). exists R. by eapply deliver_inv.
  - assert (l = LDispatch ∨ l ≠ LDispatch) as [->|Hl] by (destruct l; (by left) || (by right)).
    + apply bind_Some in H as (w' & Hs & [= <-]). eexists. by apply dispatch_inv.
    + assert (∃ w', srv_step l (n_srv N) = Some w' ∧ N' = Net (n_clts N) w' ∧ q_ (w_jobs w') = q_ (w_jobs (n_srv N)) ∧
        acks_in_order R l (n_srv N) ∧ acks_after R l (n_srv N) = R) as (w' & Hs & -> & Hq & Ha & Er).
      { destruct l; try done; apply bind_Some in H as (w' & Hs & [= <-]); exists w';
          (split_and!; [done|done|exact (srv_step_jobs _ _ _ Hs)|done|done]). }
      exists R. destruct V as [V1 V2 V3 V4]. split; cbn [n_clts n_srv]; rewrite ?Hq; try done.
      rewrite <- Er. by apply (ordered_step s R (n_srv N)).
Qed.

Lemma net_runs_inv N : net_runs s N → ∃ R, net_inv s R N.
Proof using Type.
  induction 1 as [w Hw|N l N' _ [R IH] Hok H]; [|by eapply net_step_inv].
  exists ∅. split; cbn [n_clts n_srv].
  - by apply ordered_start.
  - intros n d Hd. by rewrite lookup_empty in Hd.
  - intros j h Hj. destruct Hw as (_ & _ & _ & _ & _ & Hq & _). rewrite Hq in Hj. by apply elem_of_nil in Hj.
  - intros n Hn. rewrite lookup_empty in Hn. by destruct Hn.
Qed.
End invariant.


End network.

(** ** A client of the server that adds up its arguments *)

Definition net_next (l : net_label) (N : net Z) : net Z := default N (net_step (λ _, "?"%char) l N).

Lemma net_go (s : rpcs Z) l N :
  net_runs (λ _, "?"%char) s N → net_ok l N →
  (match net_step (λ _, "?"%char) l N with Some _ => true | None => false end) = true →
  net_runs (λ _, "?"%char) s (net_next l N).
Proof.
  intros Hr Hok H. apply (net_runs_step _ s N l); [done|done|]. unfold net_next. by destruct (net_step _ l N).
Qed.

Definition demo_req : marshall := default new_marshall (put_int 5 new_marshall).

(** The request is sent twice, both copies arrive and wait in the server's queue. *)
Definition demo_net0 : net Z :=
  net_next (NClt 9 (CStart demo_proc demo_req)) (net_next (NClt 9 (CBind 0 7)) (net_next (NNew 9)
    (net_next (NSrv (LAccept 1)) (Net ∅ demo_world)))).
Definition demo_net : net Z :=
  net_next (NSrv LDispatch) (net_next (NDeliver 9 1) (net_next (NDeliver 9 1)
    (net_next (NSend 9 1) (net_next (NSend 9 1) demo_net0)))).

Lemma demo_net0_runs : net_runs (λ _, "?"%char) demo_server demo_net0.
Proof.
  apply net_go; [|intros d Hd; split|vm_compute; reflexivity].
  - apply net_go; [|by intros d _; split|vm_compute; reflexivity].
    apply net_go; [|exact I|vm_compute; reflexivity]. apply net_go; [|exact I|vm_compute; reflexivity].
    apply net_runs_start. by split_and!.
  - vm_compute in Hd. injection Hd as <-. vm_compute. reflexivity.
  - exists (enc_u32 5). split; [|vm_compute; discriminate]. unfold demo_req.
    by destruct (put_int_puts 5 new_marshall [] new_marshall_rep) as (m & -> & Hm).
Qed.

Lemma demo_net_runs : net_runs (λ _, "?"%char) demo_server demo_net.
Proof.
  do 3 (apply net_go; [|exact I|vm_compute; reflexivity]).
  do 2 (apply net_go; [|intros d Hd; vm_compute in Hd; injection Hd as <-; vm_compute; reflexivity|vm_compute; reflexivity]).
  exact demo_net0_runs.
Qed.


(** [call1] decides to send request 1 again; before it does, the reply comes and a second call of
    the client acknowledges it.  The server executes request 1 twice. *)
Example late_retransmission :
  let N := net_next (NClt 9 (CPdu (demo_reply 1 0) 24)) (net_next (NSrv (LExec 0)) (net_next (NSrv LDispatch)
    (net_next (NDeliver 9 1) (net_next (NSend 9 1) demo_net0)))) in
  let N := net_next (NSrv LDispatch) (net_next (NDeliver 9 1) (net_next (NSend 9 2)
    (net_next (NClt 9 (CStart demo_proc demo_req)) N))) in
  let N := net_next (NSrv LDispatch) (net_next (NDeliver 9 1) (net_next (NSend 9 1) N)) in
  (waits 1 ∘ n_clt <$> n_clts N !! 9) = Some false ∧ w_ran (n_srv N) = [(9, 1); (9, 2); (9, 1)].
Proof. vm_compute. by split. Qed.
