(* ===== verification/RpcSession.v ===== *)
(** * Many calls over a connection

    RpcEnd.v follows one call; here the state it leaves is again one in which the client
    can call, so that a sequence of remote calls is the sequence of the calls of the handlers. *)

From S2P Require Import Prelude.
From S2P Require Import Marshall.
From S2P Require Import RpcWindow.
From S2P Require Import Timespec.
From S2P Require Import RpcStubs.
From S2P Require Import Connection.
From S2P Require Import ConnHeap.
From S2P Require Import Fifo.
From S2P Require Import RpcServer.
From S2P Require Import RpcClient.
From S2P Require Import RpcEnd.

Section session.
Context {S : Type}.
Implicit Types w : world S.

(** ** What a call leaves as it is *)

Definition framed w w' : Prop :=
  procs_ (w_srv w') = procs_ (w_srv w) ∧ nonce_ (w_srv w') = nonce_ (w_srv w) ∧
  reachable_ (w_srv w') = reachable_ (w_srv w) ∧ w_listen w' = w_listen w ∧ w_jobs w' = w_jobs w.

#[local] Instance framed_preorder : PreOrder framed.
Proof. split; [done|]. intros w1 w2 w3 (?&?&?&?&?) (?&?&?&?&?). split_and!; congruence. Qed.

Lemma w_decref_framed c w w' : w_decref c w = Some w' → framed w w'.
Proof. intros H. apply bind_Some in H as (hp & _ & [= <-]). done. Qed.
Lemma w_incref_framed c w w' : w_incref c w = Some w' → framed w w'.
Proof. intros H. apply bind_Some in H as (hp & _ & [= <-]). done. Qed.
Lemma w_send_framed c b sz w w' : w_send c b sz w = Some w' → framed w w'.
Proof. unfold w_send. intros H. apply bind_Some in H as (? & _ & H). apply bind_Some in H as ([] & _ & H); by simplify_eq. Qed.

Lemma save_conn_framed clt c w w' : save_conn clt c w = Some w' → framed w w'.
Proof.
  unfold save_conn. destruct (conns_ _ !! clt).
  - case_bool_decide; [by intros [= ->]|]. intros Hs. apply bind_Some in Hs as (w1 & H1 & Hs).
    apply bind_Some in Hs as (w2 & H2 & [= <-]). transitivity w1; [by eapply w_decref_framed|].
    apply w_incref_framed in H2 as (?&?&?&?&?). by split_and!.
  - intros H. apply bind_Some in H as (w2 & H2 & [= <-]). apply w_incref_framed in H2 as (?&?&?&?&?). by split_and!.
Qed.

Lemma reply_conn_framed c clt w c' w' :
  reply_conn c clt w = Some (c', w') →
  framed w w' ∧ reply_window_ (w_srv w') = reply_window_ (w_srv w) ∧ ∀ d, alive d (w_heap w) → alive d (w_heap w').
Proof.
  intros H. pose proof (reply_conn_view _ _ _ _ _ H) as Hv. injection Hv as Hv _.
  unfold reply_conn in H. apply bind_Some in H as (d & _ & H). destruct (_ && _); [|by injection H as _ <-].
  apply bind_Some in H as (w1 & H1 & H). apply bind_Some in H as (c1 & _ & H). apply bind_Some in H as (w2 & H2 & [= _ <-]).
  split_and!; [etrans; [by eapply w_decref_framed|by eapply w_incref_framed]|done|]. intros e He.
  apply bind_Some in H1 as (hp1 & E1 & [= <-]). apply bind_Some in H2 as (hp2 & E2 & [= <-]).
  eapply incref_alive; [|exact E2]. by eapply decref_alive.
Qed.

(** The duplicate check forgets and records requests of this client only. *)
Lemma dispatch_check_framed c h w st w' :
  window_inv (reply_window_ (w_srv w)) → (rq_clt_nonce h ≠ 0 → u32 (rq_xid_rep h) < u32 (rq_xid h)) →
  dispatch_check c h w = Some (st, w') →
  framed w w' ∧ window_inv (reply_window_ (w_srv w')) ∧
  (rq_clt_nonce h ≠ 0 → started_at (reply_window_ (w_srv w')) (rq_clt_nonce h) (u32 (rq_xid h)) ≠ None ∧
     ∀ x, x ≠ u32 (rq_xid h) → started_at (reply_window_ (w_srv w)) (rq_clt_nonce h) x = None →
          started_at (reply_window_ (w_srv w')) (rq_clt_nonce h) x = None).
Proof.
  intros Hw Hlt H. unfold dispatch_check in H. destruct (Z.eqb_spec (rq_clt_nonce h) 0) as [E0|Hne].
  { injection H as _ <-. split_and!; [done|done|]. by intros. }
  apply bind_Some in H as (w1 & Hs & H). apply bind_Some in H as ([st1 win] & Hck & [= _ <-]).
  pose proof (save_conn_view _ _ _ _ Hs) as Hv. injection Hv as Hwin _. cbn in Hwin. rewrite Hwin in Hck.
  destruct (checkduplicate_spec _ (rq_clt_nonce h) _ _ (window_inv_touch (rq_clt_nonce h) _ Hw)
    (u32_range (rq_xid h)) (u32_range (rq_xid_rep h)) (Hlt Hne)) as (win' & Hck' & Hwi & Hxs & Hst & _).
  rewrite Hck' in Hck. injection Hck as _ <-. split_and!; [|exact Hwi|].
  - apply save_conn_framed in Hs as (?&?&?&?&?). by split_and!.
  - intros _. split; [exact Hxs|]. intros x Hx Hn. cbn [w_srv upd on_window reply_window_]. rewrite Hst by done.
    destruct (_ <=? _); [done|]. unfold started_at in *. by rewrite map_touch_at.
Qed.

(** [dispatch] of a new request, up to the handler. *)
Lemma dispatch_begin_framed cn b sz h u f w w' :
  q_ (w_jobs w) = [DJob cn b sz] → unpack_req_header (unmarshall_of_buf b sz) = Some (h, u) → u_ok u = true →
  window_inv (reply_window_ (w_srv w)) → (rq_clt_nonce h ≠ 0 → u32 (rq_xid_rep h) < u32 (rq_xid h)) →
  dispatch_begin w = Some w' → w_running w' = w_running w ++ [Ctx cn h u f] →
  framed (set_jobs (Fifo [] (max_ (w_jobs w))) w) w' ∧ window_inv (reply_window_ (w_srv w')) ∧
  (rq_clt_nonce h ≠ 0 → started_at (reply_window_ (w_srv w')) (rq_clt_nonce h) (u32 (rq_xid h)) ≠ None ∧
     ∀ x, x ≠ u32 (rq_xid h) → started_at (reply_window_ (w_srv w)) (rq_clt_nonce h) x = None →
          started_at (reply_window_ (w_srv w')) (rq_clt_nonce h) x = None) ∧
  (alive cn (w_heap w) → alive cn (w_heap w')).
Proof.
  intros Hq Hu Hok Hw Hlt H Hrun. unfold dispatch_begin, deq in H. rewrite Hq in H. cbn [mbind option_bind j_conn j_buf j_sz] in H.
  rewrite Hu in H. cbn [mbind option_bind] in H. rewrite Hok in H. cbn [negb] in H.
  assert (∀ (v v' : world S) (d : nat), w_decref d v = Some v' → w_running v' = w_running v) as Hdr
    by (intros v v' d Hd; apply bind_Some in Hd as (? & _ & [= <-]); done).
  assert (∀ (v v' : world S) d b0 z, w_send d b0 z v = Some v' → w_running v' = w_running v) as Hsd
    by (intros v v' d b0 z Hd; apply bind_Some in Hd as (? & _ & Hd); apply bind_Some in Hd as ([] & _ & Hd); by simplify_eq).
  assert (∀ v : world S, w_running v = w_running w → w_running v ≠ w_running w ++ [Ctx cn h u f]) as Hno.
  { intros v -> E. apply (f_equal length) in E. rewrite length_app in E. cbn in E. lia. }
  set (w0 := set_jobs _ w) in *. change (w_running w) with (w_running w0) in Hno, Hrun.
  destruct (negb _ && _).
  { exfalso. apply bind_Some in H as (w1 & H1 & [= <-]). apply bind_Some in H1 as (m & _ & H1).
    apply (Hno (log_leak cn w1)); [exact (Hsd _ _ _ _ _ H1)|done]. }
  destruct (procs_ (w_srv w0) !! rq_proc h); [|exfalso; by apply (Hno w'); [eapply Hdr|]].
  apply bind_Some in H as ([[st rep] w1] & Hc & H).
  destruct (dispatch_check_framed cn h w0 _ w1 Hw Hlt Hc) as (F & Hwi & Hst).
  destruct (dispatch_check_rest _ _ _ _ _ Hc) as [(_ & _ & Er) Hal].
  destruct st.
  - injection H as <-. split_and!; [|destruct (counting_ _ =? 0); [done|unfold updatestat; by destruct (_ =? 0)]| |exact Hal].
    + destruct F as (?&?&?&?&?). cbn. unfold updatestat. destruct (counting_ _ =? 0); [by split_and!|].
      destruct (_ =? 0); by split_and!.
    + cbn. unfold updatestat. destruct (counting_ _ =? 0); [done|]. by destruct (_ =? 0).
  - exfalso. apply (Hno w'); [|done]. rewrite (Hdr _ _ _ H). exact Er.
  - exfalso. apply bind_Some in H as ([b1 z1] & _ & H). apply bind_Some in H as (w2 & H2 & H).
    apply (Hno w'); [|done]. rewrite (Hdr _ _ _ H), (Hsd _ _ _ _ _ H2). exact Er.
  - exfalso. apply bind_Some in H as (w2 & H2 & H). apply bind_Some in H2 as (m & _ & H2).
    apply (Hno w'); [|done]. rewrite (Hdr _ _ _ H), (Hsd _ _ _ _ _ H2). exact Er.
Qed.

(** The handler and its reply. *)
Lemma dispatch_exec_framed k x w w' :
  w_running w !! k = Some x → is_u32 (rq_clt_nonce (x_hdr x)) → window_inv (reply_window_ (w_srv w)) →
  (rq_clt_nonce (x_hdr x) ≠ 0 → started_at (reply_window_ (w_srv w)) (rq_clt_nonce (x_hdr x)) (u32 (rq_xid (x_hdr x))) ≠ None) →
  dispatch_exec k w = Some w' →
  framed w w' ∧ window_inv (reply_window_ (w_srv w')) ∧
  (∀ y, y ≠ u32 (rq_xid (x_hdr x)) → started_at (reply_window_ (w_srv w)) (rq_clt_nonce (x_hdr x)) y = None →
        started_at (reply_window_ (w_srv w')) (rq_clt_nonce (x_hdr x)) y = None) ∧
  (∀ d, alive d (w_heap w) → alive d (w_heap w')).
Proof.
  intros Hk Hu Hw Hst H. unfold dispatch_exec in H. rewrite Hk in H. cbn [mbind option_bind] in H.
  apply bind_Some in H as ([[ret rep] svc] & _ & H). destruct (negb _); [done|].
  apply bind_Some in H as (rep' & _ & H). destruct (m_take_buf rep') as [[b sz] m].
  apply bind_Some in H as (b' & _ & H). apply bind_Some in H as ([c w1] & Hr & H). apply bind_Some in H as (w2 & Hs & H).
  destruct (reply_conn_framed _ _ _ _ _ Hr) as (F1 & E1 & A1).
  assert (reply_window_ (w_srv w') = reply_window_ (w_srv w1)) as Ew.
  { pose proof (w_send_view _ _ _ _ _ Hs) as V1. pose proof (w_decref_view _ _ _ H) as V2.
    injection V1 as V1 _. injection V2 as V2 _. congruence. }
  split_and!.
  - transitivity w1; [|transitivity w2; [by eapply w_send_framed|by eapply w_decref_framed]].
    etrans; [|exact F1]. by destruct (_ >? 0).
  - rewrite Ew, E1. destruct (Z.gtb_spec (rq_clt_nonce (x_hdr x)) 0); [|done]. cbn. apply add_reply_spec; [done|]. apply Hst. lia.
  - intros y Hy Hn. rewrite Ew, E1. destruct (Z.gtb_spec (rq_clt_nonce (x_hdr x)) 0); [|done]. cbn.
    destruct (add_reply_spec (reply_window_ (w_srv w)) (rq_clt_nonce (x_hdr x)) (u32 (rq_xid (x_hdr x))) b' sz Hw)
      as (_ & _ & E & _); [apply Hst; lia|]. by rewrite E.
  - intros d Hd. apply bind_Some in H as (hp & Ed & [= <-]). eapply decref_alive; [|exact Ed].
    pose proof (w_send_same _ _ _ _ _ Hs) as (-> & _). apply A1. by destruct (_ >? 0).
Qed.

(** ** The state between calls *)

(** A connection that can go on: the listener keeps it, and neither side has anything
    recorded for the xids to come. *)
Record open_link (c : rpcc) w (cn : nat) : Prop := OpenLink {
  os_linked : linked c w cn;
  os_listen : cn ∈ w_listen w;
  os_new : clt_nonce_ c ≠ 0 → ∀ x, xid_ c <= x → started_at (reply_window_ (w_srv w)) (clt_nonce_ c) x = None;
  os_acked x : acked (xid_rep_window_ c) x → x < xid_ c;
}.

Record open_session (c : rpcc) w (cn : nat) : Prop := OpenSession {
  os_link : open_link c w cn;
  os_session : session c w cn;
}.

Lemma front_nonneg l : window_ok l → 0 <= front l.
Proof. intros (Hne & _ & Hu & _). destruct l; [done|]. by apply Forall_cons in Hu as [[? _] _]. Qed.

Lemma got_pdu_framed cn b sz w w1 :
  got_pdu cn b sz w = Some (true, w1) → q_ (w_jobs w1) = [DJob cn b sz] → q_ (w_jobs w) = [] →
  framed (set_jobs (w_jobs w1) w) w1 ∧ max_ (w_jobs w1) = max_ (w_jobs w) ∧ w_srv w1 = w_srv w ∧
  ∀ d, alive d (w_heap w) → alive d (w_heap w1).
Proof.
  unfold got_pdu. intros H Hq1 Hq. destruct (negb _); [injection H as <-; by rewrite Hq in Hq1|].
  apply bind_Some in H as (w0 & Hi & H). apply bind_Some in Hi as (hp & Hi & [= <-]).
  destruct (enq _ _ _) as [q| |] eqn:Ee; [|done|].
  - injection H as <-. split_and!; [done| |done|].
    + unfold enq in Ee. destruct (_ || _); [by injection Ee as <-|done].
    + intros d Hd. by eapply incref_alive.
  - by apply bind_Some in H as (w2 & _ & [= _]).
Qed.

Lemma link_next cn c c' w w' :
  open_link c w cn → called c c' → served cn c w w' → xid_ c + 1 < 2 ^ 32 →
  open_link c' w' cn ∧ procs_ (w_srv w') = procs_ (w_srv w) ∧ nonce_ (w_srv w') = nonce_ (w_srv w) ∧
  xid_ c' = xid_ c + 1.
Proof.
  intros [Ss Hli Hnew Hack] (_ & _ & Hok & Hak & Ec) Sv Hmax.
  destruct Sv as (b & sz & w1 & w2 & h & u & f & Hg & Hq & Hr1 & Hu & Huok & (E1 & E2 & E3) & Hb & Hr2 & He).
  destruct Ss as [S2 [S4 S4'] S5 S6 S7 S8 S9 S10 [S11 S12] [S13 S14]].
  pose proof (front_nonneg _ S6) as Hf0.
  assert (u32 (xid_ c + 1) = xid_ c + 1) as Ex by (apply u32_id; unfold is_u32; lia).
  destruct (got_pdu_framed cn b sz w w1 Hg Hq S11) as ((F1 & F2 & F3 & F4 & _) & Emx & Es1 & Al1). cbn in F1, F2, F3, F4.
  destruct (dispatch_begin_framed cn b sz h u f w1 w2 Hq Hu Huok) as ((G1 & G2 & G3 & G4 & G5) & Wi2 & St2 & Al2);
    [by rewrite Es1|intros _; rewrite E2, E3; lia|done|by rewrite Hr1|]. cbn in G1, G2, G3, G4, G5. rewrite E1, E2, Es1 in St2.
  destruct (dispatch_exec_framed (length (w_running w)) (Ctx cn h u f) w2 w') as ((K1 & K2 & K3 & K4 & K5) & Wi3 & St3 & Al3);
    [rewrite Hr2; by rewrite lookup_app_r, Nat.sub_diag by lia|cbn; by rewrite E1|done| |done|].
  { cbn. rewrite E1, E2. intros Hne. by apply St2. }
  cbn in St3. rewrite E1, E2 in St3.
  assert (cn ∈ w_listen w') as Hli' by (rewrite K4, G4, F4; done).
  assert (clt_nonce_ c ≠ 0 → ∀ x, xid_ c + 1 <= x → started_at (reply_window_ (w_srv w')) (clt_nonce_ c) x = None) as Hnew'.
  { intros Hne x Hx. destruct (St2 Hne) as [_ St2']. apply St3; [lia|]. apply St2'; [lia|]. apply (Hnew Hne). lia. }
  assert (∀ x, acked (xid_rep_window_ c') x → x < xid_ c + 1) as Hack'.
  { intros x Hx. destruct (Hak x Hx) as [Ha| ->]; [specialize (Hack x Ha)|]; lia. }
  assert (xid_ c' = xid_ c + 1 ∧ clt_nonce_ c' = clt_nonce_ c ∧ srv_nonce_ c' = srv_nonce_ c ∧
    bind_done_ c' = bind_done_ c ∧ destroy_wait_ c' = destroy_wait_ c) as (Q1 & Q2 & Q3 & Q4 & Q5).
  { rewrite Ec. cbn. rewrite Ex. done. }
  split; [|split_and!; [congruence|congruence|done]].
  split; [|done|by rewrite Q1, Q2|by rewrite Q1]. split; rewrite ?Q1, ?Q2, ?Q3, ?Q4, ?Q5; try done.
  - split; [|lia]. apply Hack'. left. lia.
  - eapply dispatch_exec_refs; [|exact He]. eapply dispatch_begin_refs; [|exact Hb]. by eapply got_pdu_refs.
  - intros Hne. apply Hnew'; [done|lia].
  - by rewrite K3, G3, F3.
  - rewrite K5, G5. cbn. split; [done|]. lia.
  - split; [by apply listen_ref|]. apply Al3, Al2. by apply Al1.
Qed.

Lemma session_next cn c c' w w' :
  open_session c w cn → called c c' → served cn c w w' → xid_ c + 1 < 2 ^ 32 →
  open_session c' w' cn ∧ procs_ (w_srv w') = procs_ (w_srv w) ∧ xid_ c' = xid_ c + 1 ∧ clt_nonce_ c' = clt_nonce_ c.
Proof.
  intros [L [Hb Hn Hl]] Hc Hs Hx. destruct (link_next cn c c' w w' L Hc Hs Hx) as (L' & Ep & En & Ex).
  destruct Hc as (_ & _ & _ & _ & Ec).
  split; [|split_and!; [done|done|by rewrite Ec]]. split; [done|].
  split; [by rewrite Ec|rewrite Ec, En; exact Hn|apply L'].
Qed.

(** ** Sequences *)

(** Requests are a procedure number and the marshalled arguments. *)
Fixpoint rpc_calls (junk : nat → ascii) (cn : nat) (l : list (Z * marshall)) (s : rpcc * world S)
    : option (list (Z * unmarshall) * (rpcc * world S)) :=
  match l with
  | [] => Some ([], s)
  | (proc, m) :: l =>
      '(ret, u, s) ← rpc_once junk cn proc m s; '(rs, s) ← rpc_calls junk cn l s; Some ((ret, u) :: rs, s)
  end.

(** The handler [f] on the arguments [bs]. *)
Definition handles (f : handler S) (bs : cstring) (x : S) (ret : Z) (rbs : cstring) (x' : S) : Prop :=
  ∀ u, u_rep 0 u bs → ∃ rep, f u new_marshall x = Some (ret, rep, x') ∧ m_rep rep rbs.

(** The same requests as calls of the registered handlers. *)
Inductive local_calls (procs : gmap Z (handler S)) : list (Z * marshall) → S → list (Z * cstring) → S → Prop :=
  | local_nil x : local_calls procs [] x [] x
  | local_cons proc m bs f l ret rbs rs x x1 x' :
      proc ≠ bind_proc → m_rep m bs → Z.of_nat (length bs) + 24 <= MAX_PDU → procs !! s32 proc = Some f →
      handles f bs x ret rbs x1 → handler_ret ret → Z.of_nat (length rbs) + 24 <= MAX_PDU →
      local_calls procs l x1 rs x' → local_calls procs ((proc, m) :: l) x ((ret, rbs) :: rs) x'.

(** The xids of [n] calls. *)
Definition xids (c : rpcc) (n : nat) : list (Z * Z) := (λ i, (clt_nonce_ c, xid_ c + Z.of_nat i)) <$> seq 0 n.

Lemma xids_S c c' n :
  xid_ c' = xid_ c + 1 → clt_nonce_ c' = clt_nonce_ c → xids c (1 + n) = (clt_nonce_ c, xid_ c) :: xids c' n.
Proof.
  intros E1 E2. unfold xids. cbn [seq Nat.add fmap list_fmap]. f_equal; [f_equal; lia|].
  rewrite <- fmap_S_seq, <- list_fmap_compose. apply list_fmap_ext. intros i j _. cbn. rewrite E1, E2. f_equal. lia.
Qed.

Lemma rpc_calls_ok junk cn l rs c w x' :
  open_session c w cn → local_calls (procs_ (w_srv w)) l (service (w_srv w)) rs x' →
  xid_ c + Z.of_nat (length l) < 2 ^ 32 →
  ∃ us c' w', rpc_calls junk cn l (c, w) = Some (us, (c', w')) ∧
    Forall2 (λ p q, fst p = fst q ∧ u_rep 0 (snd p) (snd q)) us rs ∧
    service (w_srv w') = x' ∧ w_ran w' = w_ran w ++ xids c (length l) ∧ open_session c' w' cn.
Proof.
  revert c w rs. induction l as [|[proc m] l IH]; intros c w rs O L Hx; inversion L; subst; clear L.
  - exists [], c, w. split_and!; [done|constructor|done|by rewrite app_nil_r|done].
  - cbn [length] in Hx. edestruct (rpc_once_handler junk cn c w proc) as (u & c1 & w1 & E & Hu & Hs & Hr & Hc & Hv);
      [apply O|eapply session_may_call; [apply O|done]|done|done|done|done|done|done|].
    destruct (session_next cn c c1 w w1 O Hc Hv) as (O1 & Ep & Ex & En); [lia|].
    edestruct (IH c1 w1) as (us & c2 & w2 & E2 & HF & HS & R2 & O2); [done|by rewrite Ep, Hs|lia|].
    exists ((ret, u) :: us), c2, w2. cbn [rpc_calls]. rewrite E. cbn [mbind option_bind]. rewrite E2. cbn [mbind option_bind].
    split_and!; [done|by constructor|done| |done].
    rewrite R2, Hr, <- (assoc_L (++)). cbn [length]. by rewrite (xids_S c c1).
Qed.
End session.

(** ** The beginning: [bind] *)

(** The stubs of [rpcc] over [rpc_once]: [call_m] with the state the call leaves. *)
Section remote.
Context {S : Type} (junk : nat → ascii) (cn : nat).

Definition remote_m `{Wire R} (proc : Z) (req : marshall) (r : R) (s : rpcc * world S)
    : option (Z * R * (rpcc * world S)) :=
  '(intret, u, s) ← rpc_once junk cn proc req s;
  '(intret, r) ← call_m (λ _ _, Some (intret, u)) proc req r;
  Some (intret, r, s).

Definition remote1 `{Wire A, Wire R} (proc : Z) (a : A) (r : R) (s : rpcc * world S) :=
  m ← w_put a new_marshall; remote_m proc m r s.
Definition remote2 `{Wire A, Wire B, Wire R} (proc : Z) (a : A) (b : B) (r : R) (s : rpcc * world S) :=
  m ← w_put a new_marshall; m ← w_put b m; remote_m proc m r s.

Definition remote3 `{Wire A, Wire B, Wire C, Wire R} (proc : Z) (a : A) (b : B) (c : C) (r : R) (s : rpcc * world S) :=
  m ← w_put a new_marshall; m ← w_put b m; m ← w_put c m; remote_m proc m r s.
Definition remote4 `{Wire A, Wire B, Wire C, Wire D, Wire R} (proc : Z) (a : A) (b : B) (c : C) (d : D) (r : R)
    (s : rpcc * world S) :=
  m ← w_put a new_marshall; m ← w_put b m; m ← w_put c m; m ← w_put d m; remote_m proc m r s.

(** Several arguments are a tuple. *)
Lemma remote2_tuple `{Wire A, Wire B, Wire R} n (a : A) (b : B) (r : R) s :
  remote2 n a b r s = remote1 n (a, b) r s.
Proof. unfold remote2, remote1. stub_tuple. Qed.
Lemma remote3_tuple `{Wire A, Wire B, Wire C, Wire R} n (a : A) (b : B) (c : C) (r : R) s :
  remote3 n a b c r s = remote1 n (a, (b, c)) r s.
Proof. unfold remote3, remote1. stub_tuple. Qed.
Lemma remote4_tuple `{Wire A, Wire B, Wire C, Wire D, Wire R} n (a : A) (b : B) (c : C) (d : D) (r : R) s :
  remote4 n a b c d r s = remote1 n (a, (b, (c, d))) r s.
Proof. unfold remote4, remote1. stub_tuple. Qed.

Definition rpcc_bind (s : rpcc * world S) : option (Z * (rpcc * world S)) :=
  '(ret, r, (c, w)) ← remote1 bind_proc (SInt 0) (SInt 0) s;
  Some (ret, (bind_finish ret (sint_val r) c, w)).

(** What a bound client's call returns. *)
Lemma remote_m_ok `{WireOk R} f proc m bs ret (r r' : R) c w x' :
  open_session c w cn → proc ≠ bind_proc → xid_ c + 1 < 2 ^ 32 → procs_ (w_srv w) !! s32 proc = Some f →
  m_rep m bs → Z.of_nat (length bs) + 24 <= MAX_PDU →
  handles f bs (service (w_srv w)) ret (if ret <? 0 then [] else w_enc r') x' → handler_ret ret →
  gets (w_get r) (w_enc r') r' → Z.of_nat (length (w_enc r')) + 24 <= MAX_PDU →
  ∃ c' w', remote_m proc m r (c, w) = Some (ret, if ret <? 0 then r else r', (c', w')) ∧ open_session c' w' cn ∧
    service (w_srv w') = x' ∧ procs_ (w_srv w') = procs_ (w_srv w) ∧ xid_ c' = xid_ c + 1 ∧ srv_nonce_ c' = srv_nonce_ c.
Proof.
  intros O Hp Hx Hf Hm Hl Hh Hr Hg Hlr.
  destruct (rpc_once_handler junk cn c w proc f m bs ret (if ret <? 0 then [] else w_enc r') x')
    as (u & c' & w' & E & Hu & Hs & _ & Hc & Hv);
    [apply O|eapply session_may_call; [apply O|done]|done..| |exact Hh|].
  { destruct (ret <? 0); [change MAX_PDU with 10485760; cbn; lia|done]. }
  destruct (session_next cn c c' w w' O Hc Hv Hx) as (O' & Ep & Ex & _).
  exists c', w'. split; [|split_and!; try done; destruct Hc as (_ & _ & _ & _ & ->); done]. unfold remote_m. rewrite E. cbn [mbind option_bind].
  destruct (Z.ltb_spec ret 0) as [Hlt|Hge].
  - unfold call_m. cbn [mbind option_bind]. by rewrite (proj2 (Z.ltb_lt _ _) Hlt).
  - by rewrite (call_m_reply_into _ _ _ u ret r r') by done.
Qed.
(** A call of a method, in a session. *)
Lemma remote1_ok `{WireOk A, WireOk R} f (r0 : R) (meth : A → R → S → option (Z * R * S)) n a ret (r1 r : R) c w x' :
  open_session c w cn → n ≠ bind_proc → xid_ c + 1 < 2 ^ 32 → procs_ (w_srv w) !! s32 n = Some f →
  (∀ u m x, f u m x = rpcs_reg1 r0 meth u m x) → fits a → meth a r0 (service (w_srv w)) = Some (ret, r, x') →
  0 <= ret < 2 ^ 31 → fits r → gets (w_get r1) (w_enc r) r →
  ∃ c' w', remote1 n a r1 (c, w) = Some (ret, r, (c', w')) ∧ open_session c' w' cn ∧
    service (w_srv w') = x' ∧ procs_ (w_srv w') = procs_ (w_srv w) ∧ xid_ c' = xid_ c + 1.
Proof.
  intros O Hn Hx Hf Ef Ha Hm Hret Hr Hg.
  destruct (w_put_ok a (proj1 Ha) new_marshall [] new_marshall_rep (fits_content a Ha)) as (m & Hput & Hrep).
  unfold remote1. rewrite Hput. cbn [mbind option_bind].
  assert ((ret <? 0) = false) as Hlt by lia.
  destruct (remote_m_ok f n m (w_enc a) ret r1 r c w x' O Hn Hx Hf Hrep) as (c' & w' & E & O' & Es & Ep & Ex & _);
    [apply Ha| |by left|done|apply Hr|].
  - rewrite Hlt. intros u Hu. rewrite Ef. apply reg1_handler with a; [apply Ha|done|done|apply Hr|by apply fits_content].
  - rewrite Hlt in E. exists c', w'. by split_and!.
Qed.
End remote.

(** A server after its constructor and the registration of its procedures. *)
Fixpoint reg_all {S} (l : list (Z * handler S)) (s : rpcs S) : option (rpcs S) :=
  match l with [] => Some s | (n, h) :: l => s ← rpcs_reg_handler n h s; reg_all l s end.
Definition start_rpcs {S} (rnd count : Z) (x : S) (l : list (Z * handler S)) : option (rpcs S) :=
  s ← new_rpcs rnd count x; reg_all l s.
(** The pool has ten threads and does not block, so its queue holds a thousand jobs. *)
Definition rpcs_world {S} (s : rpcs S) : world S := World s ∅ (new_fifo 1000) [] [] ∅ [] [].

Definition bind_handler {S} (s : rpcs S) : handler S :=
  rpcs_reg1 (SInt 0) (λ a r x, let '(ret, r) := rpcbind s a r in Some (ret, r, x)).

(** What registration keeps. *)
Definition reg_keeps {S} (s s' : rpcs S) : Prop :=
  nonce_ s' = nonce_ s ∧ reply_window_ s' = reply_window_ s ∧ conns_ s' = conns_ s ∧
  reachable_ s' = reachable_ s ∧ service s' = service s ∧ procs_ s ⊆ procs_ s'.

Lemma reg_all_spec {S} l (s s' : rpcs S) :
  reg_all l s = Some s' → reg_keeps s s' ∧ Forall (λ p, procs_ s' !! fst p = Some (snd p)) l.
Proof.
  revert s. induction l as [|[n h] l IH]; intros s H; cbn [reg_all] in H; [by injection H as <-|].
  unfold rpcs_reg_handler in H at 1. destruct (map_count n (procs_ s)) eqn:E; [done|]. cbn [mbind option_bind] in H.
  apply map_count_false in E. destruct (IH _ H) as ((?&?&?&?&?&Hp) & Hl). cbn [procs_ set_procs] in Hp. split.
  - split_and!; try done. etrans; [|exact Hp]. by apply insert_subseteq.
  - constructor; [|done]. cbn. eapply lookup_weaken; [|exact Hp]. apply lookup_insert_eq.
Qed.

Lemma start_rpcs_spec {S} rnd count (x : S) l s :
  start_rpcs rnd count x l = Some s →
  nonce_ s = u32 rnd ∧ reply_window_ s = ∅ ∧ conns_ s = ∅ ∧ reachable_ s = true ∧ service s = x ∧
  (∃ s0, nonce_ s0 = nonce_ s ∧ procs_ s !! bind_proc = Some (bind_handler s0)) ∧
  Forall (λ p, procs_ s !! fst p = Some (snd p)) l.
Proof.
  intros H. apply bind_Some in H as (s0 & H0 & H). unfold new_rpcs, rpcs_reg_handler in H0. cbn in H0. injection H0 as <-.
  apply reg_all_spec in H as ((E1 & E2 & E3 & E4 & E5 & Hp) & Hl). cbn in E1, E2, E3, E4, E5.
  split_and!; try done. exists (Rpcs (u32 rnd) ∅ ∅ ∅ count count ∅ true x). split; [done|].
  eapply lookup_weaken; [|exact Hp]. apply lookup_insert_eq.
Qed.

Lemma accept_first {S} (s : rpcs S) cn w :
  srv_step (LAccept cn) (rpcs_world s) = Some w →
  w = World s (<[cn := new_connection]> ∅) (new_fifo 1000) [] [] ({[cn]} ∪ ∅) [] [].
Proof. unfold srv_step. cbn [w_heap rpcs_world]. rewrite lookup_empty. by intros [= <-]. Qed.

(** A new client that connects to a server that does not know it. *)
Lemma open_link_accept {S} (w w' : world S) cn retrans rnd :
  refs_inv w → window_inv (reply_window_ (w_srv w)) → reachable_ (w_srv w) = true →
  q_ (w_jobs w) = [] → 0 <= max_ (w_jobs w) →
  (∀ x, started_at (reply_window_ (w_srv w)) (clt_nonce_ (new_rpcc retrans rnd)) x = None) →
  srv_step (LAccept cn) w = Some w' → open_link (new_rpcc retrans rnd) w' cn.
Proof.
  intros I Hw Hr Hq Hm Hn Ha. pose proof (srv_step_refs _ _ _ I Ha) as I'. unfold srv_step in Ha.
  destruct (w_heap w !! cn); [done|]. injection Ha as <-. assert (is_u32 (u32 rnd)) by apply u32_range.
  assert (cn ∈ {[cn]} ∪ w_listen w) as Hin by set_solver.
  split; [|exact Hin|intros _ y _; apply Hn|].
  2:{ intros y [Hy|Hy]; cbn in Hy; cbn; [lia|]. apply list_elem_of_singleton in Hy. lia. }
  split; try done; [by destruct retrans| |].
  - split_and!; [done|by repeat constructor|by repeat constructor|set_solver].
  - split; [by apply listen_ref|]. eexists. split; [apply lookup_insert_eq|done].
Qed.

Lemma open_link_new {S} rnds count (x : S) l s cn w retrans rnd :
  start_rpcs rnds count x l = Some s → srv_step (LAccept cn) (rpcs_world s) = Some w →
  open_link (new_rpcc retrans rnd) w cn.
Proof.
  intros Hs Ha. destruct (start_rpcs_spec _ _ _ _ _ Hs) as (_ & E2 & E3 & E4 & _).
  assert (ordered_runs s ∅ (rpcs_world s)) as Hr by (apply ordered_start; by split_and!).
  eapply (open_link_accept (rpcs_world s)); [by eapply srv_runs_refs, ordered_runs_runs|apply (ordered_runs_amo _ _ _ Hr)|done|done|done| |done].
  intros y. cbn [w_srv rpcs_world]. rewrite E2. by unfold started_at.
Qed.

(** [bind] of a client that is not bound yet opens the session. *)
Lemma rpcc_bind_ok {S} junk cn (s0 : rpcs S) c w :
  open_link c w cn → bind_done_ c = false → srv_nonce_ c = 0 → xid_ c + 1 < 2 ^ 32 →
  nonce_ s0 = nonce_ (w_srv w) → is_u32 (nonce_ (w_srv w)) →
  procs_ (w_srv w) !! bind_proc = Some (bind_handler s0) →
  ∃ c' w', rpcc_bind junk cn (c, w) = Some (0, (c', w')) ∧ open_session c' w' cn ∧
    service (w_srv w') = service (w_srv w) ∧ procs_ (w_srv w') = procs_ (w_srv w) ∧
    w_ran w' = w_ran w ++ [(clt_nonce_ c, xid_ c)] ∧ xid_ c' = xid_ c + 1 ∧ clt_nonce_ c' = clt_nonce_ c ∧
    srv_nonce_ c' = nonce_ (w_srv w).
Proof.
  intros L Hb Hz Hx Hn Hu Hp. set (nn := SInt (s32 (nonce_ s0))).
  assert (∀ z, 10 + 24 <= MAX_PDU ∧ Z.of_nat (length (w_enc (SInt z))) <= max_content ∧
               Z.of_nat (length (w_enc (SInt z))) + 24 <= MAX_PDU) as Hl.
  { intros z. cbn [w_enc sint_wire_ok sint_val]. rewrite length_enc_u32. split_and!; done. }
  assert (w_wf (SInt 0)) as H0 by by split. assert (w_wf nn) as Hnn by apply s32_range.
  destruct (w_put_ok (SInt 0) H0 new_marshall [] new_marshall_rep) as (m & Em & Rm); [apply Hl|].
  destruct (rpc_once_handler junk cn c w bind_proc (bind_handler s0) m (w_enc (SInt 0)) 0 (w_enc nn) (service (w_srv w)))
    as (u & c' & w' & E & Ru & Hs & Hr & Hc & Hv);
    [apply L|split; [by rewrite Hb|by rewrite Hb]|done|done|apply Hl|by left|apply Hl| |].
  { intros u Ru. unfold bind_handler. apply reg1_handler with (SInt 0); try done. }
  destruct (link_next cn c c' w w' L Hc Hv Hx) as (L' & Ep & En & Ex). destruct Hc as (_ & _ & _ & _ & Ec).
  exists (set_bound (nonce_ (w_srv w)) c'), w'. unfold rpcc_bind, remote1, remote_m. rewrite Em. cbn [mbind option_bind].
  rewrite E. cbn [mbind option_bind].
  pose proof (call_m_reply (λ _ _, Some (0, u)) bind_proc m u 0 nn eq_refl ltac:(done) Hnn Ru) as Hcm.
  change w_def with (SInt 0) in Hcm. rewrite Hcm. cbn [mbind option_bind].
  unfold bind_finish, nn. cbn [sint_val Z.eqb]. rewrite u32_s32, Hn, u32_id by done.
  split_and!; [done| |done|done|done|done|by rewrite Ec|done].
  destruct L' as [[? [? ?] ? ? ? ? ? ? ? ?] ? ? ?].
  assert (linked (set_bound (nonce_ (w_srv w)) c') w' cn) as Lk by by split.
  split; [by split|]. split; [done|by rewrite En|done].
Qed.

(** A new client of a server that was just started. *)
Lemma bind_new {S} junk rnd count (x : S) l srv cn w retrans rndc :
  start_rpcs rnd count x l = Some srv → srv_step (LAccept cn) (rpcs_world srv) = Some w →
  ∃ c1 w1, rpcc_bind junk cn (new_rpcc retrans rndc, w) = Some (0, (c1, w1)) ∧ open_session c1 w1 cn ∧
    service (w_srv w1) = x ∧ xid_ c1 = 2 ∧ Forall (λ p, procs_ (w_srv w1) !! fst p = Some (snd p)) l.
Proof.
  intros Hs Ha. pose proof (open_link_new _ _ _ _ _ _ _ retrans rndc Hs Ha) as L. pose proof (accept_first _ _ _ Ha) as Ew.
  destruct (start_rpcs_spec _ _ _ _ _ Hs) as (En & _ & _ & _ & Ek & (s0 & En0 & Hb) & Hp).
  destruct (rpcc_bind_ok junk cn s0 (new_rpcc retrans rndc) w L) as (c1 & w1 & E & O & Es & Ep & _ & Ex & _);
    [done|done|done|by rewrite Ew|rewrite Ew; cbn; rewrite En; apply u32_range|by rewrite Ew|].
  exists c1, w1. split_and!; [exact E|exact O|rewrite Es, Ew; exact Ek|exact Ex|rewrite Ep, Ew; exact Hp].
Qed.

(** A bound client does not bind again. *)
Lemma rpcc_bind_twice {S} junk cn c (w : world S) :
  bind_done_ c = true → rpcc_bind junk cn (c, w) = Some (bind_failure, (c, w)).
Proof.
  intros Hb. unfold rpcc_bind, remote1, remote_m.
  assert (w_wf (SInt 0)) as H0 by by split.
  destruct (w_put_ok (SInt 0) H0 new_marshall [] new_marshall_rep) as (m & -> & _); [done|].
  cbn [mbind option_bind]. unfold rpc_once, call1_begin. by rewrite Hb.
Qed.

Lemma accept_next {S} (s : rpcs S) : srv_step (LAccept 1) (rpcs_world s) = Some (srv_next (LAccept 1) (rpcs_world s)).
Proof. unfold srv_next, srv_step. cbn [w_heap rpcs_world]. by rewrite lookup_empty. Qed.

(** C11. A server is created and its procedures are registered; a client connects and binds.
    The bind succeeds, and any sequence of requests that the registered handlers answer
    one after the other is answered over the connection with the same return values and
    results; every handler runs once for its request, in the order of the calls, and the
    service ends in the same state.  A second bind is refused and changes nothing. *)
Theorem rpc_sequence {S} (junk : nat → ascii) rnds rnd retrans count (x x' : S) regs s cn w l rs :
  start_rpcs rnds count x regs = Some s → srv_step (LAccept cn) (rpcs_world s) = Some w →
  local_calls (procs_ s) l x rs x' → Z.of_nat (length l) + 2 < 2 ^ 32 →
  ∃ c1 w1 us c' w',
    rpcc_bind junk cn (new_rpcc retrans rnd, w) = Some (0, (c1, w1)) ∧
    rpc_calls junk cn l (c1, w1) = Some (us, (c', w')) ∧
    Forall2 (λ p q, fst p = fst q ∧ u_rep 0 (snd p) (snd q)) us rs ∧ service (w_srv w') = x' ∧
    w_ran w' = xids (new_rpcc retrans rnd) (1 + length l) ∧
    rpcc_bind junk cn (c', w') = Some (bind_failure, (c', w')).
Proof.
  intros Hs Ha Hl Hx. pose proof (open_link_new _ _ _ _ _ _ _ retrans rnd Hs Ha) as L.
  destruct (start_rpcs_spec _ _ _ _ _ Hs) as (E1 & _ & _ & _ & E5 & (s0 & En & Ep) & _).
  apply accept_first in Ha as Ew.
  destruct (rpcc_bind_ok junk cn s0 (new_rpcc retrans rnd) w L) as (c1 & w1 & B & O & Hsv & Hpr & Hran & Ex & Ec & _);
    [done|done|cbn; lia|by subst w|subst w; cbn; rewrite E1; apply u32_range|by subst w|].
  destruct (rpc_calls_ok junk cn l rs c1 w1 x' O) as (us & c' & w' & R & HF & HS & Hr & O').
  { rewrite Hpr, Hsv. by subst w; cbn; rewrite E5. } { rewrite Ex. cbn. lia. }
  exists c1, w1, us, c', w'. split_and!; [done|done|done|done| |apply rpcc_bind_twice, O'].
  rewrite Hr, Hran, (xids_S (new_rpcc retrans rnd) c1) by done. by subst w.
Qed.

(** The server that adds up its arguments. *)
Definition demo_regs : list (Z * handler Z) := [(demo_proc, rpcs_reg1 (SInt 0) demo_add)].
Definition demo_started : rpcs Z := default demo_server (start_rpcs 7 0 0 demo_regs).
Definition demo_accepted : world Z := srv_next (LAccept 1) (rpcs_world demo_started).
Definition demo_request (z : Z) : Z * marshall := (demo_proc, default new_marshall (w_put (SInt z) new_marshall)).

Lemma demo_local z x procs l rs x' :
  is_s32 z → is_s32 (x + z) → procs !! demo_proc = Some (rpcs_reg1 (SInt 0) demo_add) →
  local_calls procs l (x + z) rs x' →
  local_calls procs (demo_request z :: l) x ((0, w_enc (SInt (x + z))) :: rs) x'.
Proof.
  intros Hz Hx Hp Hl. assert (w_wf (SInt z)) as Hw by exact Hz. assert (w_wf (SInt (x + z))) as Hw' by exact Hx.
  destruct (w_put_ok (SInt z) Hw new_marshall [] new_marshall_rep) as (m & Em & Rm); [cbn [w_enc sint_wire_ok]; by rewrite length_enc_u32|].
  unfold demo_request. rewrite Em. apply local_cons with (w_enc (SInt z)) (rpcs_reg1 (SInt 0) demo_add) (x + z); try done.
  - intros u Hu. by apply reg1_handler with (SInt z).
  - by left.
Qed.

Lemma rpc_sequence_witness :
  ∃ c1 w1 us c' w',
    rpcc_bind (λ _, "?"%char) 1 (new_rpcc true 9, demo_accepted) = Some (0, (c1, w1)) ∧
    rpc_calls (λ _, "?"%char) 1 [demo_request 5; demo_request 7] (c1, w1) = Some (us, (c', w')) ∧
    Forall2 (λ p q, fst p = fst q ∧ u_rep 0 (snd p) (snd q)) us [(0, w_enc (SInt 5)); (0, w_enc (SInt 12))] ∧
    service (w_srv w') = 12 ∧ w_ran w' = [(9, 1); (9, 2); (9, 3)].
Proof.
  destruct (rpc_sequence (λ _, "?"%char) 7 9 true 0 0 12 demo_regs demo_started 1 demo_accepted
    [demo_request 5; demo_request 7] [(0, w_enc (SInt (0 + 5))); (0, w_enc (SInt (0 + 5 + 7)))])
    as (c1 & w1 & us & c' & w' & H1 & H2 & H3 & H4 & H5 & _).
  - reflexivity.
  - reflexivity.
  - apply demo_local; [unfold_int; lia..|reflexivity|]. apply demo_local; [unfold_int; lia..|reflexivity|]. apply local_nil.
  - cbn. lia.
  - exists c1, w1, us, c', w'. split_and!; [exact H1|exact H2|exact H3|exact H4|exact H5].
Defined.
