(* ===== verification/RpcTest.v ===== *)
(** * The tests of the RPC library

    rpc/rpctest.cc: its handlers and its server, the marshalling test, the simple tests, the
    calls of a client thread, and the calls before and after a restart of the server.  The
    calls go through the client, the frames, the server and back, as in RpcSession.v.  [None]
    is a failed assertion.  The threads run one at a time; the time limits given to the
    calls are left out, because every message arrives. *)

From S2P Require Import Prelude.
From S2P Require Import Marshall.
From S2P Require Import RpcWindow.
From S2P Require Import RpcStubs.
From S2P Require Import Connection.
From S2P Require Import ConnHeap.
From S2P Require Import Fifo.
From S2P Require Import RpcServer.
From S2P Require Import RpcClient.
From S2P Require Import RpcEnd.
From S2P Require Import RpcSession.

(** ** The server *)

Definition handle_22 (a b r : cstring) (x : unit) : option (Z * cstring * unit) := Some (0, a ++ b, x).
Definition handle_fast (a r : sint) (x : unit) : option (Z * sint * unit) :=
  r ← chk_int (sint_val a + 1); Some (0, SInt r, x).
(** The sleep is left out. *)
Definition handle_slow (a r : sint) (x : unit) : option (Z * sint * unit) :=
  r ← chk_int (sint_val a + 2); Some (0, SInt r, x).
(** A negative length is converted to a [size_t] no string can have. *)
Definition handle_bigrep (len : sint) (r : cstring) (x : unit) : option (Z * cstring * unit) :=
  if sint_val len <? 0 then None else Some (0, replicate (Z.to_nat (sint_val len)) "x"%char, x).

Definition srv_procs : list (Z * handler unit) :=
  [(22, rpcs_reg2 [] handle_22); (23, rpcs_reg1 (SInt 0) handle_fast); (24, rpcs_reg1 (SInt 0) handle_slow);
   (25, rpcs_reg1 [] handle_bigrep)].
Definition startserver (rnd : Z) : option (rpcs unit) := start_rpcs rnd 0 () srv_procs.

(** ** The tests *)

Definition assert_ (b : bool) : option unit := if b then Some () else None.

Definition testmarshall : option unit :=
  let rh := ReqHeader 1 2 3 4 5 in
  m ← pack_req_header rh new_marshall;
  _ ← assert_ (m_ind m =? RPC_HEADER_SZ);
  let i := 12345 in let l := 1223344455 in let s := $"hallo...." in
  m ← put_int i m; m ← put_ull l m; m ← put_string s m;
  let '((b, sz), _) := m_take_buf m in
  _ ← assert_ (sz =? RPC_HEADER_SZ + 4 + 8 + Z.of_nat (length s) + 4);
  b ← b;
  '(rh1, un) ← unpack_req_header (unmarshall_of_buf b sz);
  _ ← assert_ (bool_decide (req_fields rh1 = req_fields rh));
  '(i1, un) ← get_int un; '(l1, un) ← get_ull un; '(s1, un) ← get_string [] un;
  _ ← assert_ (okdone un);
  assert_ ((i1 =? i) && (l1 =? l) && bool_decide (s1 = s)).

Section tests.
Context (junk : nat → ascii).

Local Notation state := (rpcc * world unit)%type.
Local Notation call1 := (remote1 junk).
Local Notation call2 := (remote2 junk).
Definition size (s : cstring) : Z := Z.of_nat (length s).
Definition filled (n : Z) : cstring := replicate (Z.to_nat n) "x"%char.

(** [cn] is the connection of the client. *)
Definition simple_tests (cn : nat) (s : state) : option state :=
  '(intret, rep, s) ← call2 cn 22 ($"hello") ($" goodbye") ([] : cstring) s;
  _ ← assert_ (intret =? 0);
  _ ← assert_ (bool_decide (rep = $"hello goodbye"));
  '(intret, rep, s) ← call1 cn 25 (SInt 70000) rep s;
  _ ← assert_ (intret =? 0);
  _ ← assert_ (size rep =? 70000);
  '(intret, rep, s) ← call1 cn 22 ($"just one") rep s;
  _ ← assert_ (intret <? 0);
  '(intret, rep, s) ← call2 cn 23 (SInt 1001) (SInt 1002) rep s;
  _ ← assert_ (intret <? 0);
  '(intret, wrongrep, s) ← call2 cn 23 ($"hello") ($" goodbye") (SInt 0) s;
  _ ← assert_ (intret <? 0);
  '(intret, xx, s) ← call1 cn 23 (SInt 77) (SInt 0) s;
  _ ← assert_ ((intret =? 0) && (sint_val xx =? 78));
  '(_, rep1, s) ← call2 cn 22 (filled 1000) ($"x") ([] : cstring) s;
  _ ← assert_ (size rep1 =? 1001);
  '(intret, rep, s) ← call2 cn 22 (filled 1000000) ($"z") rep s;
  _ ← assert_ (size rep =? 1000001);
  Some s.

(** The two loops of a client thread on the numbers [random] returns. *)
Fixpoint client1_sizes (cn : nat) (rnds : list Z) (s : state) : option state :=
  match rnds with
  | [] => Some s
  | r :: rnds =>
      let arg := r mod 2000 in
      '(ret, rep, s) ← call1 cn 25 (SInt arg) ([] : cstring) s;
      _ ← assert_ (ret =? 0);
      _ ← assert_ (size rep =? arg);
      client1_sizes cn rnds s
  end.
Fixpoint client1_order (cn : nat) (rnds : list (Z * Z)) (s : state) : option state :=
  match rnds with
  | [] => Some s
  | (r1, r2) :: rnds =>
      let which := negb (r1 mod 2 =? 0) in
      let arg := r2 mod 1000 in
      '(ret, rep, s) ← call1 cn (if which then 23 else 24) (SInt arg) (SInt 0) s;
      _ ← assert_ (ret =? 0);
      _ ← assert_ (sint_val rep =? (if which then arg + 1 else arg + 2));
      client1_order cn rnds s
  end.
Definition client1 (cn : nat) (rnds1 : list Z) (rnds2 : list (Z * Z)) (s : state) : option state :=
  s ← client1_sizes cn rnds1 s; client1_order cn rnds2 s.

Fixpoint client3 (cn : nat) (n : nat) (i : Z) (s : state) : option state :=
  match n with
  | O => Some s
  | S n =>
      '(ret, rep, s) ← call1 cn 24 (SInt i) (SInt 0) s;
      _ ← assert_ ((ret =? rpc_timeout_failure) || (sint_val rep =? i + 2));
      client3 cn n (i + 1) s
  end.

(** The server is replaced.  [client] was bound to the one before; its channel is now the
    connection [cn], and the new client's is [cn']. *)
Definition restart_test (rnds rndc : Z) (cn cn' : nat) (client : rpcc) : option state :=
  server ← startserver rnds;
  w ← srv_step (LAccept cn) (rpcs_world server);
  '(intret, rep, (_, w)) ← call2 cn 22 ($"hello") ($" goodbye") ([] : cstring) (client, w);
  _ ← assert_ (intret =? rpc_oldsrv_failure);
  w ← srv_step (LAccept cn') w;
  '(ret, s) ← rpcc_bind junk cn' (new_rpcc true rndc, w);
  _ ← assert_ (0 <=? ret);
  '(ret, s) ← rpcc_bind junk cn' s;
  _ ← assert_ (ret <? 0);
  '(intret, rep, s) ← call2 cn' 22 ($"hello") ($" goodbye") rep s;
  _ ← assert_ (intret =? 0);
  _ ← assert_ (bool_decide (rep = $"hello goodbye"));
  client3 cn' 4 0 s.

(** The tests for one client, one after the other. *)
Definition rpctest (rnds rndc rnds' rndc' : Z) (rnds1 : list Z) (rnds2 : list (Z * Z)) : option state :=
  _ ← testmarshall;
  server ← startserver rnds;
  w ← srv_step (LAccept 0) (rpcs_world server);
  '(ret, s) ← rpcc_bind junk 0 (new_rpcc true rndc, w);
  _ ← assert_ (ret =? 0);
  s ← simple_tests 0 s;
  s ← client1 0 rnds1 rnds2 s;
  restart_test rnds' rndc' 0 1 (fst s).
End tests.

Lemma testmarshall_passes : testmarshall = Some ().
Proof. vm_compute. reflexivity. Qed.

(** ** Handlers on well-formed and on wrong arguments *)

Lemma u_rep_okdone u bs : u_rep 0 u bs → okdone u = bool_decide (bs = []).
Proof.
  intros (Hok & pre & post & _ & Hi & Hs & _). unfold okdone. rewrite Hok, Hi, Hs. cbn [andb].
  destruct bs; cbn [length]; case_bool_decide; try done; [apply Z.eqb_eq|apply Z.eqb_neq]; lia.
Qed.

Lemma handles_reg1 `{WireOk A, WireOk R} {S} (r0 : R) (meth : A → R → S → option (Z * R * S)) a x ret r x' :
  w_wf a → meth a r0 x = Some (ret, r, x') → fits r → handles (rpcs_reg1 r0 meth) (w_enc a) x ret (w_enc r) x'.
Proof.
  intros Ha Hm Hr u Hu. apply reg1_handler with a; [done|done|done|apply Hr|by apply fits_content].
Qed.

(** More bytes than the arguments need. *)
Lemma handles_too_many `{WireOk A, Wire R} {S} (r0 : R) (meth : A → R → S → option (Z * R * S)) a bs x :
  w_wf a → bs ≠ [] → handles (rpcs_reg1 r0 meth) (w_enc a ++ bs) x unmarshal_args_failure [] x.
Proof.
  intros Ha Hbs u Hu. exists new_marshall. split; [|exact new_marshall_rep].
  destruct (w_get_ok a Ha 0%nat u bs Hu) as (u' & Hg & Hu' & _). unfold rpcs_reg1. rewrite Hg. cbn [mbind option_bind].
  by rewrite (u_rep_okdone _ _ Hu'), bool_decide_false.
Qed.

(** A missing string. *)
Lemma handles_too_few `{WireOk A, Wire R} {S} (r0 : R) (meth : A → cstring → R → S → option (Z * R * S)) a x :
  w_wf a → handles (rpcs_reg2 r0 meth) (w_enc a) x unmarshal_args_failure [] x.
Proof.
  intros Ha u Hu. exists new_marshall. split; [|exact new_marshall_rep]. rewrite <- (app_nil_r (w_enc a)) in Hu.
  destruct (w_get_ok a Ha 0%nat u [] Hu) as (u' & Hg & (_ & pre & post & _ & Hi & Hs & _) & _).
  unfold rpcs_reg2. rewrite Hg. cbn [mbind option_bind w_get w_def cstring_wire]. unfold get_string.
  destruct (get_uint_failed u') as (u2 & -> & Hf); [rewrite Hi, Hs; cbn; lia|]. cbn [mbind option_bind].
  rewrite Hf. cbn [mbind option_bind]. unfold okdone. by rewrite Hf.
Qed.

Section bytes.
#[local] Transparent enc_string.
Lemma enc_string_eq s : enc_string s = enc_u32 (Z.of_nat (length s)) ++ s.
Proof. reflexivity. Qed.
End bytes.

Lemma size_filled n : 0 <= n → size (filled n) = n.
Proof. unfold size, filled. rewrite length_replicate. lia. Qed.
Lemma size_app a b : size (a ++ b) = size a + size b.
Proof. unfold size. rewrite length_app. lia. Qed.

Lemma handles_22 a b :
  size a + size b <= 10000000 → handles (rpcs_reg2 [] handle_22) (w_enc (a, b)) () 0 (w_enc (a ++ b)) ().
Proof.
  unfold size. intros Hl u Hu. rewrite rpcs_reg2_tuple.
  apply (handles_reg1 [] (λ p, handle_22 (fst p) (snd p)) (a, b)); [|done| |done]; unfold fits; change MAX_PDU with 10485760;
    cbn [w_wf w_enc cstring_wire_ok pair_wire_ok fst snd]; rewrite ?length_app, ?length_enc_string, ?length_app; lia.
Qed.

(** ** Calls of a client that is bound *)

Lemma bind_intro {A B} (m : option A) (f : A → option B) a b : m = Some a → f a = Some b → m ≫= f = Some b.
Proof. by intros ->. Qed.
Lemma assert_true b : b = true → assert_ b = Some ().
Proof. by intros ->. Qed.
(** An assertion that holds. *)
Ltac asserted := eapply bind_intro;
  [apply assert_true; first [reflexivity|by apply bool_decide_eq_true|by apply Z.eqb_eq]|].

Section calls.
Context (junk : nat → ascii) (cn : nat) (nonce : Z).

(** At least [k] more calls of the server with this nonce are possible. *)
Definition testing (k : Z) (s : rpcc * world unit) : Prop :=
  open_session (fst s) (snd s) cn ∧ Forall (λ p, procs_ (w_srv (snd s)) !! fst p = Some (snd p)) srv_procs ∧
  xid_ (fst s) + k < 2 ^ 32 ∧ srv_nonce_ (fst s) = nonce.

Lemma testing_call `{WireOk A, WireOk R} k n f (a : A) ret (r r' : R) s :
  testing (k + 1) s → 0 <= k → (n, f) ∈ srv_procs → fits a →
  handles f (w_enc a) () ret (if ret <? 0 then [] else w_enc r') () → handler_ret ret →
  gets (w_get r) (w_enc r') r' → Z.of_nat (length (w_enc r')) + 24 <= MAX_PDU →
  ∃ s', remote1 junk cn n a r s = Some (ret, if ret <? 0 then r else r', s') ∧ testing k s'.
Proof using Type.
  destruct s as [c w]. intros (O & Hp & Hx & Hn0) Hk Hin Ha Hh Hr Hg Hl. cbn [fst snd] in *.
  assert (procs_ (w_srv w) !! s32 n = Some f ∧ n ≠ bind_proc) as [Hf Hn].
  { apply (proj1 (Forall_forall _ _) Hp) in Hin as Hf. cbn in Hf.
    unfold srv_procs in Hin. rewrite !elem_of_cons, elem_of_nil in Hin.
    destruct Hin as [[= -> _]|[[= -> _]|[[= -> _]|[[= -> _]|[]]]]]; done. }
  destruct (w_put_ok a (proj1 Ha) new_marshall [] new_marshall_rep (fits_content a Ha)) as (m & Hput & Hrep).
  unfold remote1. rewrite Hput. cbn [mbind option_bind]. destruct (service (w_srv w)) eqn:Es.
  destruct (remote_m_ok junk cn f n m (w_enc a) ret r r' c w () O Hn) as (c' & w' & E & O' & _ & Ep & Ex & En);
    [lia|done|done|apply Ha|by rewrite Es|done..|].
  exists (c', w'). split; [exact E|]. split_and!; cbn [fst snd]; [done|by rewrite Ep|lia|by rewrite En].
Qed.

Ltac in_procs := unfold srv_procs; rewrite !elem_of_cons; tauto.
Ltac sizes := unfold fits, size in *; change MAX_PDU with 10485760;
  cbn [w_wf w_enc cstring_wire_ok pair_wire_ok sint_wire_ok sint_val fst snd];
  rewrite ?length_app, ?length_enc_string, ?length_enc_u32, ?length_app, ?length_replicate; unfold is_s32 in *.

Lemma call_22 k (a b rep : cstring) s :
  testing (k + 1) s → 0 <= k → size a + size b <= 10000000 →
  ∃ s', remote2 junk cn 22 a b rep s = Some (0, a ++ b, s') ∧ testing k s'.
Proof using Type.
  intros T Hk Hl. rewrite remote2_tuple. apply (testing_call k 22 (rpcs_reg2 [] handle_22) (a, b) 0 rep (a ++ b)); try done.
  - in_procs. - sizes; lia. - by apply handles_22. - by left.
  - apply get_string_gets. rewrite length_app. unfold size in Hl. lia. - sizes; lia.
Qed.

Lemma call_25 k n (rep : cstring) s :
  testing (k + 1) s → 0 <= k → 0 <= n <= 10000000 →
  ∃ s', remote1 junk cn 25 (SInt n) rep s = Some (0, filled n, s') ∧ testing k s'.
Proof using Type.
  intros T Hk Hl. apply (testing_call k 25 (rpcs_reg1 [] handle_bigrep) (SInt n) 0 rep (filled n)); try done.
  - in_procs. - sizes; lia.
  - apply (handles_reg1 [] handle_bigrep (SInt n)); [sizes; lia| |unfold filled; sizes; lia].
    unfold handle_bigrep. cbn [sint_val]. by rewrite (proj2 (Z.ltb_ge _ _)) by lia.
  - by left. - apply get_string_gets. unfold filled. rewrite length_replicate. lia. - unfold filled. sizes. lia.
Qed.

(** The procedures 23 and 24. *)
Lemma call_add k n d f z (r : sint) s :
  testing (k + 1) s → 0 <= k → (n, rpcs_reg1 (SInt 0) f) ∈ srv_procs →
  f (SInt z) (SInt 0) () = Some (0, SInt (z + d), ()) → is_s32 z → is_s32 (z + d) →
  ∃ s', remote1 junk cn n (SInt z) r s = Some (0, SInt (z + d), s') ∧ testing k s'.
Proof using Type.
  intros T Hk Hin Hf Hz Hd.
  apply (testing_call k n (rpcs_reg1 (SInt 0) f) (SInt z) 0 r (SInt (z + d))); [done|done|done|sizes; lia| |by left| |sizes; lia].
  - apply (handles_reg1 (SInt 0) f (SInt z)); [done|done|sizes; lia].
  - assert (w_wf (SInt (z + d))) as Hw by exact Hd. exact (w_get_ok _ Hw).
Qed.

Lemma call_fast k z (r : sint) s :
  testing (k + 1) s → 0 <= k → is_s32 z → is_s32 (z + 1) →
  ∃ s', remote1 junk cn 23 (SInt z) r s = Some (0, SInt (z + 1), s') ∧ testing k s'.
Proof using Type.
  intros T Hk Hz Hd. apply call_add with handle_fast; try done; [in_procs|]. unfold handle_fast, chk_int. cbn [sint_val].
  unfold INT_MAX. unfold is_s32 in *. by replace (_ && _) with true by lia.
Qed.
Lemma call_slow k z (r : sint) s :
  testing (k + 1) s → 0 <= k → is_s32 z → is_s32 (z + 2) →
  ∃ s', remote1 junk cn 24 (SInt z) r s = Some (0, SInt (z + 2), s') ∧ testing k s'.
Proof using Type.
  intros T Hk Hz Hd. apply call_add with handle_slow; try done; [in_procs|]. unfold handle_slow, chk_int. cbn [sint_val].
  unfold INT_MAX. unfold is_s32 in *. by replace (_ && _) with true by lia.
Qed.

(** Wrong arguments: the failure code, and the result variable keeps its value. *)
Lemma call_refused `{WireOk A, WireOk R} k n f (a : A) (r r' : R) s :
  testing (k + 1) s → 0 <= k → (n, f) ∈ srv_procs → fits a → handles f (w_enc a) () unmarshal_args_failure [] () →
  gets (w_get r) (w_enc r') r' → Z.of_nat (length (w_enc r')) + 24 <= MAX_PDU →
  ∃ s', remote1 junk cn n a r s = Some (unmarshal_args_failure, r, s') ∧ testing k s'.
Proof using Type.
  intros T Hk Hin Ha Hh Hg Hl. apply (testing_call k n f a unmarshal_args_failure r r'); try done. by right.
Qed.

Lemma call_too_few k (a rep : cstring) s :
  testing (k + 1) s → 0 <= k → size a <= 1000 →
  ∃ s', remote1 junk cn 22 a rep s = Some (unmarshal_args_failure, rep, s') ∧ testing k s'.
Proof using Type.
  intros T Hk Hl. apply (call_refused k 22 (rpcs_reg2 [] handle_22) a rep ([] : cstring)); [done|done|in_procs|sizes; lia| | |].
  - apply handles_too_few. unfold size in Hl. cbn. lia.
  - apply get_string_gets. cbn. lia.
  - sizes. cbn. lia.
Qed.

Lemma call_too_many `{WireOk A, WireOk R} k (a : A) z bs (r r' : R) s :
  testing (k + 1) s → 0 <= k → fits a → w_enc a = w_enc (SInt z) ++ bs → is_s32 z → bs ≠ [] →
  gets (w_get r) (w_enc r') r' → Z.of_nat (length (w_enc r')) + 24 <= MAX_PDU →
  ∃ s', remote1 junk cn 23 a r s = Some (unmarshal_args_failure, r, s') ∧ testing k s'.
Proof using Type.
  intros T Hk Ha Ea Hz Hne Hg Hl. apply (call_refused k 23 (rpcs_reg1 (SInt 0) handle_fast) a r r'); try assumption; [in_procs|].
  rewrite Ea. by apply (handles_too_many (SInt 0) handle_fast (SInt z) bs).
Qed.

Lemma simple_tests_pass k s :
  testing (k + 8) s → 0 <= k → ∃ s', simple_tests junk cn s = Some s' ∧ testing k s'.
Proof using Type.
  intros T Hk. unfold simple_tests.
  replace (k + 8) with (k + 7 + 1) in T by lia. destruct (call_22 _ ($"hello") ($" goodbye") [] _ T) as (s1 & E1 & T1); [lia|done|].
  replace (k + 7) with (k + 6 + 1) in T1 by lia.
  destruct (call_25 _ 70000 ($"hello" ++ $" goodbye") _ T1) as (s2 & E2 & T2); [lia|lia|].
  replace (k + 6) with (k + 5 + 1) in T2 by lia.
  destruct (call_too_few _ ($"just one") (filled 70000) _ T2) as (s3 & E3 & T3); [lia|by vm_compute|].
  replace (k + 5) with (k + 4 + 1) in T3 by lia.
  destruct (call_too_many (k + 4) (SInt 1001, SInt 1002) 1001 (w_enc (SInt 1002)) (filled 70000) ([] : cstring) s3 T3)
    as (s4 & E4 & T4); [lia|sizes; lia|reflexivity|sizes; lia| |by apply get_string_gets|sizes; cbn; lia|].
  { intros Hn. apply (f_equal length) in Hn. cbn [w_enc sint_wire_ok] in Hn. by rewrite length_enc_u32 in Hn. }
  replace (k + 4) with (k + 3 + 1) in T4 by lia.
  destruct (call_too_many (k + 3) ($"hello", $" goodbye") 5 ($"hello" ++ w_enc ($" goodbye")) (SInt 0) (SInt 0) s4 T4)
    as (s5 & E5 & T5); [lia|sizes; cbn; lia| |sizes; lia|discriminate| |sizes; lia|].
  { cbn [w_enc pair_wire_ok cstring_wire_ok fst snd]. by rewrite enc_string_eq, <- (assoc_L (++)). }
  { assert (w_wf (SInt 0)) as Hw by (sizes; lia). exact (w_get_ok _ Hw). }
  replace (k + 3) with (k + 2 + 1) in T5 by lia. destruct (call_fast _ 77 (SInt 0) _ T5) as (s6 & E6 & T6); [lia|sizes; lia..|].
  replace (k + 2) with (k + 1 + 1) in T6 by lia.
  destruct (call_22 _ (filled 1000) ($"x") [] _ T6) as (s7 & E7 & T7);
    [lia|by rewrite size_filled|].
  destruct (call_22 _ (filled 1000000) ($"z") (filled 70000) _ T7) as (s8 & E8 & T8);
    [lia|by rewrite size_filled|].
  exists s8. split; [|exact T8].
  assert (size (filled 70000) = 70000) as L1 by (apply size_filled; lia).
  assert (size (filled 1000 ++ $"x") = 1001) as L2 by (rewrite size_app, size_filled by lia; reflexivity).
  assert (size (filled 1000000 ++ $"z") = 1000001) as L3 by (rewrite size_app, size_filled by lia; reflexivity).
  rewrite <- (remote2_tuple junk cn 23 (SInt 1001)) in E4. rewrite <- (remote2_tuple junk cn 23 ($"hello")) in E5.
  generalize dependent (filled 70000). intros f7 E2 E3 E4 E8 L1.
  generalize dependent (filled 1000 ++ $"x"). intros f1 E7 L2. generalize dependent (filled 1000000 ++ $"z"). intros f8 L3 E8.
  eapply bind_intro; [exact E1|]. repeat asserted. eapply bind_intro; [exact E2|]. repeat asserted.
  eapply bind_intro; [exact E3|]. asserted. eapply bind_intro; [exact E4|]. asserted. eapply bind_intro; [exact E5|]. asserted.
  eapply bind_intro; [exact E6|]. asserted. eapply bind_intro; [exact E7|]. asserted. eapply bind_intro; [exact E8|]. asserted.
  reflexivity.
Qed.
Lemma client1_sizes_pass rnds k s :
  testing (k + Z.of_nat (length rnds)) s → 0 <= k → ∃ s', client1_sizes junk cn rnds s = Some s' ∧ testing k s'.
Proof using Type.
  revert s. induction rnds as [|r rnds IH]; intros s T Hk.
  - exists s. split; [done|]. cbn in T. by rewrite Z.add_0_r in T.
  - cbn [length client1_sizes] in *. pose proof (Z.mod_pos_bound r 2000 ltac:(lia)) as Hr.
    replace (k + Z.of_nat (Datatypes.S (length rnds))) with (k + Z.of_nat (length rnds) + 1) in T by lia.
    destruct (call_25 _ (r mod 2000) [] _ T) as (s1 & E1 & T1); [lia|lia|].
    destruct (IH s1 T1 Hk) as (s2 & E2 & T2). exists s2. split; [|done].
    eapply bind_intro; [exact E1|]. asserted.
    eapply bind_intro; [apply assert_true, Z.eqb_eq, size_filled; lia|]. exact E2.
Qed.

Lemma client1_order_pass rnds k s :
  testing (k + Z.of_nat (length rnds)) s → 0 <= k → ∃ s', client1_order junk cn rnds s = Some s' ∧ testing k s'.
Proof using Type.
  revert s. induction rnds as [|[r1 r2] rnds IH]; intros s T Hk.
  - exists s. split; [done|]. cbn in T. by rewrite Z.add_0_r in T.
  - cbn [length client1_order] in *. pose proof (Z.mod_pos_bound r2 1000 ltac:(lia)) as Hr.
    replace (k + Z.of_nat (Datatypes.S (length rnds))) with (k + Z.of_nat (length rnds) + 1) in T by lia.
    assert (∃ s1, remote1 junk cn (if negb (r1 mod 2 =? 0) then 23 else 24) (SInt (r2 mod 1000)) (SInt 0) s =
      Some (0, SInt (if negb (r1 mod 2 =? 0) then r2 mod 1000 + 1 else r2 mod 1000 + 2), s1) ∧
      testing (k + Z.of_nat (length rnds)) s1) as (s1 & E1 & T1).
    { destruct (negb _); [apply call_fast|apply call_slow]; try done; unfold is_s32; lia. }
    destruct (IH s1 T1 Hk) as (s2 & E2 & T2). exists s2. split; [|done].
    eapply bind_intro; [exact E1|]. asserted.
    eapply bind_intro; [apply assert_true, Z.eqb_refl|]. exact E2.
Qed.

Lemma client3_pass n i k s :
  testing (k + Z.of_nat n) s → 0 <= k → 0 <= i → i + Z.of_nat n <= 1000 → ∃ s', client3 junk cn n i s = Some s' ∧ testing k s'.
Proof using Type.
  revert i s. induction n as [|n IH]; intros i s T Hk Hi Hn.
  - exists s. split; [done|]. cbn in T. by rewrite Z.add_0_r in T.
  - replace (k + Z.of_nat (Datatypes.S n)) with (k + Z.of_nat n + 1) in T by lia.
    destruct (call_slow _ i (SInt 0) _ T) as (s1 & E1 & T1); [lia|unfold is_s32; lia..|].
    destruct (IH (i + 1) s1 T1 Hk) as (s2 & E2 & T2); [lia|lia|]. exists s2. split; [|done]. cbn [client3].
    eapply bind_intro; [exact E1|].
    eapply bind_intro; [apply assert_true, orb_true_iff; right; apply Z.eqb_refl|]. exact E2.
Qed.

(** ** The beginning of a test *)

Lemma testing_bind rnd k s w rndc :
  startserver rnd = Some s → procs_ (w_srv w) = procs_ s → nonce_ (w_srv w) = nonce_ s → nonce = u32 rnd →
  open_link (new_rpcc true rndc) w cn → k + 2 < 2 ^ 32 →
  ∃ s', rpcc_bind junk cn (new_rpcc true rndc, w) = Some (0, s') ∧ testing k s' ∧
    rpcc_bind junk cn s' = Some (bind_failure, s').
Proof using Type.
  intros Hs Ep En Ee L Hk. destruct (start_rpcs_spec _ _ _ _ _ Hs) as (E1 & _ & _ & _ & _ & (s0 & Es0 & Eb) & Hl).
  destruct (rpcc_bind_ok junk cn s0 (new_rpcc true rndc) w L) as (c' & w' & B & O & _ & Hp & _ & Ex & _ & Hn);
    [done|done|done|congruence|rewrite En, E1; apply u32_range|by rewrite Ep|].
  exists (c', w'). split_and!; [done| |apply rpcc_bind_twice, O].
  split_and!; cbn [fst snd]; [done|by rewrite Hp, Ep|rewrite Ex; cbn [xid_ new_rpcc]; lia|congruence].
Qed.
End calls.

Lemma startserver_ok rnd : ∃ s, startserver rnd = Some s.
Proof. eexists. reflexivity. Qed.

(** A client that was bound to another server, at a server that was just started. *)
Lemma linked_restarted {S} (c : rpcc) (w0 w : world S) cn0 cn rnds count (x : S) l s :
  open_session c w0 cn0 → start_rpcs rnds count x l = Some s → srv_step (LAccept cn) (rpcs_world s) = Some w →
  linked c w cn.
Proof.
  intros O Hs Ha. destruct (open_link_new _ _ _ _ _ _ _ true 0 Hs Ha) as [[_ _ _ _ L1 L2 _ L3 L4 L5] _ _ _].
  destruct (start_rpcs_spec _ _ _ _ _ Hs) as (_ & E2 & _). apply accept_first in Ha as ->.
  destruct O as [_ [_ _ [? ? ? ? _ _ _ _ _ _]]]. split; try done. intros _. cbn. rewrite E2. by unfold started_at.
Qed.

Lemma restart_test_passes junk rnds rndc cn cn' nonce k c w0 cn0 :
  testing cn0 nonce k (c, w0) → nonce ≠ 0 → nonce ≠ u32 rnds → cn ≠ cn' →
  ∃ s', restart_test junk rnds rndc cn cn' c = Some s'.
Proof.
  intros (O & _ & _ & En) H0 Hne Hcn. cbn [fst snd] in *. destruct (startserver_ok rnds) as [s Hs].
  destruct (srv_step (LAccept cn) (rpcs_world s)) as [w|] eqn:Ha; [|done].
  pose proof (linked_restarted _ _ _ _ _ _ _ _ _ _ O Hs Ha) as L. pose proof (accept_first _ _ _ Ha) as Ew.
  destruct (start_rpcs_spec _ _ _ _ _ Hs) as (E1 & E2 & _ & E4 & _).
  assert (fits ($"hello", $" goodbye")) as Hf.
  { unfold fits. cbn [w_wf w_enc pair_wire_ok cstring_wire_ok fst snd]. rewrite length_app, !length_enc_string. by vm_compute. }
  destruct (w_put_ok _ (proj1 Hf) new_marshall [] new_marshall_rep (fits_content _ Hf)) as (m & Hm & Rm).
  destruct (rpc_once_oldsrv junk cn c w 22 m (w_enc ($"hello", $" goodbye")) L) as (u & c1 & w1 & Eo & Es & _ & _ & I1 & Q1 & M1 & Hp1);
    [apply O|done|congruence|rewrite En, Ew; cbn [w_srv]; congruence|exact Rm|apply Hf|].
  assert (remote2 junk cn 22 ($"hello") ($" goodbye") ([] : cstring) (c, w) = Some (rpc_oldsrv_failure, [], (c1, w1))) as Ec.
  { rewrite remote2_tuple. unfold remote1. rewrite Hm. cbn [mbind option_bind]. unfold remote_m. by rewrite Eo. }
  destruct (srv_step (LAccept cn') w1) as [w2|] eqn:Ha2.
  2:{ cbn in Ha2. rewrite Hp1 in Ha2; [done|]. rewrite Ew. cbn [w_heap]. by rewrite lookup_insert_ne. }
  assert (open_link (new_rpcc true rndc) w2 cn') as L2.
  { eapply (open_link_accept w1); [done|rewrite Es, Ew|rewrite Es, Ew; exact E4|done|rewrite M1, Ew; done| |done].
    - cbn [w_srv]. rewrite E2. apply map_Forall_empty.
    - intros y. rewrite Es, Ew. cbn [w_srv]. rewrite E2. by unfold started_at. }
  assert (w_srv w2 = s) as Ew2 by (cbn in Ha2; destruct (w_heap w1 !! cn'); [done|]; injection Ha2 as <-; cbn; by rewrite Es, Ew).
  destruct (testing_bind junk cn' (u32 rnds) rnds 5 s w2 rndc Hs) as (s2 & B1 & T2 & B2); [by rewrite Ew2..|done|done|done|].
  destruct (call_22 junk cn' (u32 rnds) 4 ($"hello") ($" goodbye") [] s2) as (s3 & E3 & T3); [done|done|done|].
  destruct (client3_pass junk cn' (u32 rnds) 4 0 0 s3) as (s4 & E5 & _); [done|done|done|done|].
  exists s4. unfold restart_test. eapply bind_intro; [exact Hs|]. eapply bind_intro; [exact Ha|].
  eapply bind_intro; [exact Ec|]. asserted. eapply bind_intro; [exact Ha2|]. eapply bind_intro; [exact B1|]. asserted.
  eapply bind_intro; [exact B2|]. asserted. eapply bind_intro; [exact E3|]. asserted. asserted. exact E5.
Qed.


