(* ===== verification/ExtentServer.v ===== *)
(** * The extent server

    extent_server.h and extent_server.cc: files and directories as seven maps
    from extent ids.  Every handler is a function of the state, of the current
    time where it calls [time], and of the random numbers where it reads
    [/dev/urandom].  [None] stands for a call that does not return: an uncaught
    [std::out_of_range] or [std::length_error], [exit], or a random source that
    never yields a number above 1. *)

From S2P Require Import Prelude.
From S2P Require Import Marshall.
From S2P Require Import Protocol.

(** ** [std::string] operations on file contents *)

(** [max_size()] of libstdc++ for a 32-bit [size_t]. *)
Definition string_max_size : Z := 1073741820.

Definition string_resize (n : Z) (s : cstring) : option cstring :=
  if n <=? string_max_size then Some (resize (Z.to_nat n) "000"%char s) else None.

Definition string_substr (pos n : Z) (s : cstring) : option cstring :=
  if pos <=? Z.of_nat (length s) then Some (take (Z.to_nat n) (drop (Z.to_nat pos) s)) else None.

(** [s.replace(pos, n, t, 0, n)] *)
Definition string_replace (pos n : Z) (t s : cstring) : option cstring :=
  if pos <=? Z.of_nat (length s)
  then Some (take (Z.to_nat pos) s ++ take (Z.to_nat n) t ++ drop (Z.to_nat pos + Z.to_nat n) s)
  else None.

Module extent_server.

(** ** State *)

Record t := Mk {
  fileid_open_m : gmap Z Z;
  fileid_content_m : gmap Z cstring;
  fileid_name_m : gmap Z cstring;
  fileid_dir_m : gmap Z Z;
  fileid_attr_m : gmap Z attr;
  dirid_fmap_m : gmap Z (gmap cstring Z);
  fileid_mode_m : gmap Z Z;
}.

Definition OK : Z := 0.
Definition RPCERR : Z := 1.
Definition NOENT : Z := 2.
Definition IOERR : Z := 3.
Definition FBIG : Z := 4.

Definition attr0 : attr := Attr 0 0 0 0.

(** Updates of one member. *)
Definition on_open f s := Mk (f (fileid_open_m s)) (fileid_content_m s) (fileid_name_m s)
  (fileid_dir_m s) (fileid_attr_m s) (dirid_fmap_m s) (fileid_mode_m s).
Definition on_content f s := Mk (fileid_open_m s) (f (fileid_content_m s)) (fileid_name_m s)
  (fileid_dir_m s) (fileid_attr_m s) (dirid_fmap_m s) (fileid_mode_m s).
Definition on_name f s := Mk (fileid_open_m s) (fileid_content_m s) (f (fileid_name_m s))
  (fileid_dir_m s) (fileid_attr_m s) (dirid_fmap_m s) (fileid_mode_m s).
Definition on_dir f s := Mk (fileid_open_m s) (fileid_content_m s) (fileid_name_m s)
  (f (fileid_dir_m s)) (fileid_attr_m s) (dirid_fmap_m s) (fileid_mode_m s).
Definition on_attr f s := Mk (fileid_open_m s) (fileid_content_m s) (fileid_name_m s)
  (fileid_dir_m s) (f (fileid_attr_m s)) (dirid_fmap_m s) (fileid_mode_m s).
Definition on_fmap f s := Mk (fileid_open_m s) (fileid_content_m s) (fileid_name_m s)
  (fileid_dir_m s) (fileid_attr_m s) (f (dirid_fmap_m s)) (fileid_mode_m s).
Definition on_mode f s := Mk (fileid_open_m s) (fileid_content_m s) (fileid_name_m s)
  (fileid_dir_m s) (fileid_attr_m s) (dirid_fmap_m s) (f (fileid_mode_m s)).

Definition set_atime (x : Z) (a : attr) : attr := Attr x (mtime a) (ctime a) (size_ a).
Definition set_mtime (x : Z) (a : attr) : attr := Attr (atime a) x (ctime a) (size_ a).
Definition set_ctime (x : Z) (a : attr) : attr := Attr (atime a) (mtime a) x (size_ a).

(** [fileid_attr_m[id].f = ...] *)
Definition upd_attr (id : Z) (f : attr → attr) (s : t) : t := on_attr (map_update attr0 id f) s.

(** ** Constructor *)

Definition new_extent_server (raw_time : Z) : t :=
  Mk ∅ ∅ {[1 := $"/"]} ∅ {[1 := Attr (u32 raw_time) (u32 raw_time) (u32 raw_time) 0]}
     {[1 := ∅]} ∅.

(** ** Handlers: the status, the output argument, and the new state *)

Definition isfile (id : Z) : bool := negb (Z.land id 2147483648 =? 0).
Definition isdir (id : Z) : bool := negb (isfile id).

Definition put (raw_time id : Z) (buf : cstring) (s : t) : Z * t :=
  let a := Attr (u32 raw_time) (u32 raw_time) (u32 raw_time) (u32 (Z.of_nat (length buf))) in
  (OK, on_attr <[id := a]> (on_content <[id := buf]> s)).

Definition readdir (dirid : Z) (entries : gmap cstring Z) (s : t)
    : Z * gmap cstring Z * t :=
  if map_count dirid (fileid_name_m s) then
    let fmap := map_at ∅ dirid (dirid_fmap_m s) in
    (OK, insert_all (map_entries fmap) entries, on_fmap (map_touch ∅ dirid) s)
  else (NOENT, entries, s).

Definition get (now id off size : Z) (buf : cstring) (s : t) : option (Z * cstring * t) :=
  if map_count id (fileid_content_m s) then
    buf ← string_substr (u32 off) size (map_at [] id (fileid_content_m s));
    Some (OK, buf, upd_attr id (set_atime (u32 now)) s)
  else Some (NOENT, buf, s).

Definition getattr (id : Z) (a : attr) (s : t) : Z * attr * t :=
  if map_count id (fileid_attr_m s) then (OK, map_at attr0 id (fileid_attr_m s), s)
  else (IOERR, a, s).

(** The three assignments of the parent's times call [time] three times. *)
Definition remove (now1 now2 now3 pid : Z) (name : cstring) (s : t) : Z * t :=
  if negb (map_count pid (dirid_fmap_m s)) then (NOENT, s) else
  if negb (map_count name (map_at ∅ pid (dirid_fmap_m s))) then (NOENT, s) else
  let id := map_at 0 name (map_at ∅ pid (dirid_fmap_m s)) in
  let is_dir := isdir id in
  let s := if is_dir then on_fmap (map_touch ∅ id) s else s in
  if is_dir && negb (bool_decide (map_at ∅ id (dirid_fmap_m s) = ∅)) then (IOERR, s) else
  let s := if negb is_dir then on_content (delete id) s else s in
  let s := on_attr (delete id) s in
  let d := map_at 0 id (fileid_dir_m s) in
  let n := map_at [] id (fileid_name_m s) in
  let s := on_name (map_touch [] id) (on_dir (map_touch 0 id) s) in
  let s := on_fmap (map_update ∅ d (delete n)) s in
  let s := on_open (delete id) (on_dir (delete id) (on_name (delete id) s)) in
  let s := if map_count id (fileid_mode_m s) then on_mode (delete id) s else s in
  let s := upd_attr pid (set_ctime (u32 now1)) s in
  let s := upd_attr pid (set_atime (u32 now2)) s in
  let s := upd_attr pid (set_mtime (u32 now3)) s in
  (OK, s).

(** [while (num < 2) read(fd, &num, 8);] over the 64-bit numbers of the source. *)
Fixpoint draw (l : list Z) : option Z :=
  match l with [] => None | num :: l => if num <? 2 then draw l else Some num end.

Definition file_id (num : Z) : Z := Z.lor (Z.land num 4294967295) 2147483648.
Definition dir_id (num : Z) : Z := Z.land num 134217727.

Definition createFile (raw_time : Z) (urandom : list Z) (parent : Z) (name : cstring) (mode _id : Z)
    (s : t) : option (Z * Z * t) :=
  num ← draw urandom;
  let id := file_id num in
  let s := snd (put raw_time id [] s) in
  if negb (map_count parent (fileid_name_m s)) then Some (NOENT, _id, s) else
  let s := on_fmap (map_update ∅ parent <[name := id]>) s in
  let s := on_dir <[id := parent]> s in
  let s := on_name <[id := name]> s in
  let s := on_open <[id := 0]> s in
  let s := on_mode <[id := mode]> s in
  let a := λ s, map_at attr0 id (fileid_attr_m s) in
  let s := upd_attr parent (set_ctime (ctime (a s))) s in
  let s := upd_attr parent (set_atime (atime (a s))) s in
  let s := upd_attr parent (set_mtime (mtime (a s))) s in
  Some (OK, id, s).

Definition open (raw_time id : Z) (s : t) : Z * t :=
  let s := on_open (map_update 0 id (λ n, n + 1)) s in
  (OK, upd_attr id (set_atime (u32 raw_time)) s).

Definition createDir (raw_time : Z) (urandom : list Z) (parent : Z) (name : cstring) (s : t)
    : option (Z * t) :=
  num ← draw urandom;
  let id := dir_id num in
  let a := Attr (u32 raw_time) (u32 raw_time) (u32 raw_time) 0 in
  if negb (map_count parent (dirid_fmap_m s)) then Some (NOENT, s) else
  let s := on_attr <[id := a]> s in
  let s := on_fmap (map_update ∅ parent <[name := id]>) s in
  let s := on_dir <[id := parent]> s in
  Some (OK, on_name <[id := name]> s).

Definition setMode (now id mode : Z) (s : t) : Z * t :=
  (OK, upd_attr id (set_ctime (u32 now)) (on_mode <[id := mode]> s)).

Definition getMode (id mode : Z) (s : t) : Z * Z * t :=
  if map_count id (fileid_mode_m s) then (OK, map_at 0 id (fileid_mode_m s), s)
  else (NOENT, mode, s).

Definition setAttr (raw_time id : Z) (a : attr) (s : t) : option (Z * t) :=
  if negb (map_count id (fileid_attr_m s)) then Some (NOENT, s) else
  let content := map_at [] id (fileid_content_m s) in
  let s := on_content (map_touch [] id) s in
  if negb (Z.of_nat (length content) =? size_ a) then
    content ← string_resize (size_ a) content; Some (OK, snd (put raw_time id content s))
  else
    Some (OK, upd_attr id (λ _a, Attr (atime a) (mtime a) (ctime a) (size_ _a)) s).

Definition write (raw_time id off size : Z) (buf : cstring) (s : t) : option (Z * t) :=
  if negb (map_count id (fileid_content_m s)) then Some (NOENT, s) else
  let content := map_at [] id (fileid_content_m s) in
  content ← (if u64 (off + size) >? Z.of_nat (length content)
             then string_resize (u32 (u64 (off + size))) content else Some content);
  content ← string_replace (u32 off) size buf content;
  Some (OK, snd (put raw_time id content s)).

(** ** File contents, byte by byte *)

(** The content [write] leaves: [buf] at [off], zeros in a gap, the old bytes
    elsewhere. *)
Definition written_byte (c buf : cstring) (off : nat) (i : nat) : option ascii :=
  if decide (off ≤ i ∧ i < off + length buf)%nat then buf !! (i - off)%nat
  else if decide (i < length c)%nat then c !! i
  else if decide (i < off + length buf)%nat then Some "000"%char
  else None.

Lemma resize_lookup (n i : nat) (c : cstring) :
  resize n "000"%char c !! i =
  if decide (i < n)%nat then (if decide (i < length c)%nat then c !! i else Some "000"%char)
  else None.
Proof.
  case_decide; [case_decide|].
  - by rewrite lookup_resize by lia.
  - by rewrite lookup_resize_new by lia.
  - by rewrite lookup_resize_old by lia.
Qed.

Lemma replace_lookup (c buf : cstring) (off i : nat) :
  (off + length buf ≤ length c)%nat →
  (take off c ++ buf ++ drop (off + length buf) c) !! i =
  if decide (off ≤ i ∧ i < off + length buf)%nat then buf !! (i - off)%nat else c !! i.
Proof.
  intros Hle. assert (Ht : length (take off c) = off) by (rewrite length_take; lia).
  rewrite lookup_app. destruct (decide (i < off)%nat) as [Hlt|Hge].
  - rewrite lookup_take_lt by lia. rewrite decide_False by lia.
    destruct (c !! i) eqn:E; [done|].
    apply lookup_ge_None in E. lia.
  - rewrite (lookup_take_ge _ _ i) by lia. rewrite Ht.
    rewrite lookup_app. case_decide as Hd.
    + destruct (buf !! (i - off)%nat) eqn:E; [done|].
      apply lookup_ge_None in E. lia.
    + rewrite (lookup_ge_None_2 buf) by lia. rewrite lookup_drop. f_equal. lia.
Qed.

Lemma written_bytes (c buf : cstring) (off i : nat) :
  let c1 := if decide (length c < off + length buf)%nat
            then resize (off + length buf) "000"%char c else c in
  (take off c1 ++ buf ++ drop (off + length buf) c1) !! i = written_byte c buf off i.
Proof.
  intros c1. assert (off + length buf ≤ length c1)%nat.
  { subst c1. case_decide; [rewrite length_resize|]; lia. }
  rewrite replace_lookup by done. unfold written_byte. case_decide; [done|].
  subst c1. case_decide.
  - rewrite resize_lookup. repeat case_decide; (done || lia).
  - repeat case_decide; [done|lia|]. apply lookup_ge_None. lia.
Qed.

Lemma write_eq now id off size buf c s :
  fileid_content_m s !! id = Some c →
  0 <= off → size = Z.of_nat (length buf) → off + size <= string_max_size →
  ∃ c', write now id off size buf s = Some (OK, snd (put now id c' s)) ∧
        (∀ i, c' !! i = written_byte c buf (Z.to_nat off) i).
Proof.
  intros Hc Hoff -> Hmax. unfold string_max_size in Hmax.
  unfold write. rewrite (proj2 (map_count_true _ _)) by eauto. cbn [negb].
  rewrite (map_at_some _ _ _ _ Hc), (u64_id (off + _)), (u32_id (off + _)), (u32_id off)
    by (unfold_int; lia).
  rewrite Z.gtb_ltb. unfold string_resize.
  set (c1 := if decide (length c < Z.to_nat off + length buf)%nat
             then resize (Z.to_nat off + length buf) "000"%char c else c).
  assert (Hc1 : (if Z.of_nat (length c) <? off + Z.of_nat (length buf)
      then (if off + Z.of_nat (length buf) <=? string_max_size
            then Some (resize (Z.to_nat (off + Z.of_nat (length buf))) "000"%char c) else None)
      else Some c) = Some c1).
  { subst c1. replace (Z.to_nat (off + Z.of_nat (length buf)))
      with (Z.to_nat off + length buf)%nat by lia.
    unfold string_max_size. bool_cases; case_decide; (done || lia). }
  rewrite Hc1. cbn [mbind option_bind]. unfold string_replace.
  assert (Z.to_nat off + length buf ≤ length c1)%nat.
  { subst c1. case_decide; [rewrite length_resize|]; lia. }
  destruct (Z.leb_spec off (Z.of_nat (length c1))); [|lia]. cbn [mbind option_bind].
  rewrite Nat2Z.id, (take_ge buf) by lia.
  eexists; split; [done|]. intros i. apply written_bytes.
Qed.

Lemma written_length c c' buf off :
  (∀ i, c' !! i = written_byte c buf off i) →
  length c' = Nat.max (length c) (off + length buf).
Proof.
  intros Hb. apply Nat.le_antisymm.
  - destruct (decide (length c' ≤ length c `max` (off + length buf))%nat); [done|].
    pose proof (Hb (length c `max` (off + length buf))%nat) as H. unfold written_byte in H.
    rewrite !decide_False in H by lia. apply lookup_ge_None in H. lia.
  - destruct (decide (length c `max` (off + length buf) ≤ length c')%nat) as [|Hn]; [done|].
    pose proof (Hb (length c')) as H. rewrite lookup_ge_None_2 in H by lia.
    symmetry in H. revert H. unfold written_byte. repeat case_decide; intros Hn'; try done.
    + apply lookup_ge_None in Hn'. lia.
    + apply lookup_ge_None in Hn'. lia.
    + lia.
Qed.

Lemma written_slice c c' buf off :
  (∀ i, c' !! i = written_byte c buf off i) → take (length buf) (drop off c') = buf.
Proof.
  intros Hb. apply list_eq. intros i. destruct (decide (i < length buf)%nat).
  - rewrite lookup_take_lt, lookup_drop, Hb by lia. unfold written_byte.
    rewrite decide_True by lia. f_equal. lia.
  - rewrite lookup_take_ge by lia. symmetry. apply lookup_ge_None. lia.
Qed.

(** [write] at [off] stores [buf] there, keeps every other byte of the file,
    fills a gap between the old end and [off] with zeros, sets the size in the
    attributes to the new length, changes no other file and no directory; a
    following [get] of the same range returns [buf]. *)
Theorem write_then_get now now' id off size buf out c s :
  fileid_content_m s !! id = Some c →
  0 <= off → size = Z.of_nat (length buf) → off + size <= string_max_size →
  ∃ c' s' s'',
    write now id off size buf s = Some (OK, s') ∧
    get now' id off size out s' = Some (OK, buf, s'') ∧
    fileid_content_m s' = <[id := c']> (fileid_content_m s) ∧
    (∀ i, c' !! i = written_byte c buf (Z.to_nat off) i) ∧
    (size_ <$> fileid_attr_m s' !! id) = Some (u32 (Z.max (Z.of_nat (length c)) (off + size))) ∧
    (∀ j, j ≠ id → fileid_attr_m s' !! j = fileid_attr_m s !! j) ∧
    dirid_fmap_m s' = dirid_fmap_m s ∧ fileid_content_m s'' = fileid_content_m s'.
Proof.
  intros Hc Hoff Hsz Hmax.
  destruct (write_eq now id off size buf c s Hc Hoff Hsz Hmax) as (c' & Hw & Hb).
  pose proof (written_length _ _ _ _ Hb) as Hl.
  exists c', (snd (put now id c' s)). eexists. split; [done|]. split.
  - unfold get, put. cbn. unfold map_count. rewrite lookup_insert_eq, map_at_insert, decide_True by done.
    unfold string_substr, string_max_size in *. rewrite (u32_id off) by (unfold_int; lia).
    destruct (Z.leb_spec off (Z.of_nat (length c'))); [|lia].
    cbn [mbind option_bind]. do 3 f_equal.
    subst size. rewrite Nat2Z.id. by apply written_slice with c.
  - unfold put. cbn. rewrite lookup_insert_eq. cbn. split_and!; try done.
    + f_equal. f_equal. lia.
    + intros j Hj. by rewrite lookup_insert_ne by congruence.
Qed.

Lemma write_then_get_witness :
  let s := snd (put 0 2147483653 ($"abc") (new_extent_server 0)) in
  ∃ c' s' s'',
    write 7 2147483653 5 2 ($"xy") s = Some (OK, s') ∧
    get 8 2147483653 5 2 [] s' = Some (OK, $"xy", s'') ∧
    fileid_content_m s' = <[2147483653 := c']> (fileid_content_m s) ∧
    (∀ i, c' !! i = written_byte ($"abc") ($"xy") 5 i) ∧
    (size_ <$> fileid_attr_m s' !! 2147483653) = Some (u32 (Z.max 3 (5 + 2))) ∧
    (∀ j, j ≠ 2147483653 → fileid_attr_m s' !! j = fileid_attr_m s !! j) ∧
    dirid_fmap_m s' = dirid_fmap_m s ∧ fileid_content_m s'' = fileid_content_m s'.
Proof.
  apply (write_then_get 7 8 2147483653 5 2 ($"xy") [] ($"abc")
    (snd (put 0 2147483653 ($"abc") (new_extent_server 0))));
    [vm_compute; reflexivity | lia | reflexivity | vm_compute; discriminate].
Defined.

(** ** The directory tree

    An abstract view: the entries of a directory, and the ids reachable from the
    root.  [linked] says that the name and parent maps describe exactly that
    tree; [sized] that the attributes of a file carry its length. *)

Definition dirents (s : t) (d : Z) : gmap cstring Z := map_at ∅ d (dirid_fmap_m s).

Definition entry (s : t) (d : Z) (n : cstring) (id : Z) : Prop := dirents s d !! n = Some id.

Inductive reach (s : t) : Z → Prop :=
  | reach_root : reach s 1
  | reach_child d n id : reach s d → entry s d n id → reach s id.

Record linked (s : t) : Prop := {
  l_entry d n id : entry s d n id →
    fileid_dir_m s !! id = Some d ∧ fileid_name_m s !! id = Some n ∧ isdir d = true;
  l_dir id d : fileid_dir_m s !! id = Some d → ∃ n, entry s d n id;
  l_root : fileid_dir_m s !! 1 = None;
  l_named id : is_Some (fileid_name_m s !! id) ↔ reach s id;
}.

Record sized (s : t) : Prop := {
  z_attr id : is_Some (fileid_name_m s !! id) → is_Some (fileid_attr_m s !! id);
  z_content id : isfile id = true →
    is_Some (fileid_content_m s !! id) → is_Some (fileid_attr_m s !! id);
  z_size id a : isfile id = true → fileid_attr_m s !! id = Some a →
    size_ a = u32 (Z.of_nat (length (map_at [] id (fileid_content_m s))));
}.

Create HintDb tree.

(** What a step may leave unchanged for the tree to stay as it is. *)
Definition same_tree (s s' : t) : Prop :=
  (∀ d, dirents s' d = dirents s d) ∧ fileid_dir_m s' = fileid_dir_m s ∧
  fileid_name_m s' = fileid_name_m s.

#[export] Instance same_tree_preorder : PreOrder same_tree.
Proof.
  split; [by intros ?|]. intros s1 s2 s3 (H1 & H2 & H3) (H4 & H5 & H6).
  split_and!; [intros; by rewrite H4|congruence..].
Qed.

Lemma reach_same s s' id : (∀ d, dirents s' d = dirents s d) → reach s id → reach s' id.
Proof.
  intros Hd. induction 1 as [|d n id _ IH He]; [constructor|].
  apply reach_child with d n; [done|]. unfold entry. by rewrite Hd.
Qed.

#[export] Instance linked_proper : Proper (same_tree ==> impl) linked.
Proof.
  intros s s' (Hd & Hp & Hn) [L1 L2 L3 L4].
  assert (He : ∀ d n id, entry s' d n id ↔ entry s d n id) by (intros; unfold entry; by rewrite Hd).
  split.
  - intros d n id. rewrite He, Hp, Hn. apply L1.
  - intros id d. rewrite Hp. intros [n ?]%L2. exists n. by apply He.
  - by rewrite Hp.
  - intros id. rewrite Hn, L4. split; apply reach_same; congruence.
Qed.

(** *** Adding and removing a leaf *)

Section leaf.
Variables (s s' : t) (d id : Z) (n : cstring).

Definition adds_entry : Prop :=
  (∀ x, dirents s' x = if decide (x = d) then <[n := id]> (dirents s d) else dirents s x) ∧
  fileid_dir_m s' = <[id := d]> (fileid_dir_m s) ∧
  fileid_name_m s' = <[id := n]> (fileid_name_m s).

Definition drops_entry : Prop :=
  (∀ x, dirents s' x = if decide (x = d) then delete n (dirents s d) else dirents s x) ∧
  fileid_dir_m s' = delete id (fileid_dir_m s) ∧
  fileid_name_m s' = delete id (fileid_name_m s).

Lemma linked_add :
  linked s → adds_entry → reach s d → isdir d = true →
  dirents s d !! n = None → fileid_name_m s !! id = None → linked s'.
Proof using Type.
  intros L (Hd & Hp & Hn) Hreach Hisd Hfree Hnew.
  assert (Hid : ¬ reach s id).
  { rewrite <- (l_named s L). rewrite Hnew. intros [? ?]. done. }
  assert (Hne : id ≠ 1) by (intros ->; apply Hid; constructor).
  assert (He : ∀ x m j, entry s' x m j ↔ (x = d ∧ m = n ∧ j = id) ∨ entry s x m j).
  { intros x m j. unfold entry. rewrite Hd. case_decide; [subst x|naive_solver].
    destruct (decide (m = n)) as [->|].
    - rewrite lookup_insert_eq, Hfree. naive_solver.
    - rewrite lookup_insert_ne by congruence. naive_solver. }
  assert (Hrs : ∀ j, reach s j → reach s' j).
  { induction 1 as [|x m j _ IH Hx]; [constructor|].
    apply reach_child with x m; [done|]. apply He. by right. }
  assert (Hrs' : ∀ j, reach s' j → j = id ∨ reach s j).
  { induction 1 as [|x m j _ IH Hx]; [right; constructor|].
    apply He in Hx as [(-> & -> & ->)|Hx]; [by left|right].
    destruct IH as [->|IH]; [|by apply reach_child with x m].
    destruct Hid. apply (l_entry s L) in Hx as Hd'.
    destruct Hd' as (Hj & Hjn & _). assert (Hrj : reach s j) by (apply (l_named s L); eauto).
    inversion Hrj as [He1|y m' j' Hy Hey]; [subst; by rewrite (l_root s L) in Hj|].
    apply (l_entry s L) in Hey as (Hjy & _ & _). congruence. }
  split.
  - intros x m j [(-> & -> & ->)|Hx]%He.
    + rewrite Hp, Hn, !lookup_insert_eq. done.
    + apply (l_entry s L) in Hx as (? & ? & ?).
      assert (j ≠ id) by congruence.
      rewrite Hp, Hn, !lookup_insert_ne by congruence. done.
  - intros j x. rewrite Hp. destruct (decide (j = id)) as [->|].
    + rewrite lookup_insert_eq. intros [= ->]. exists n. apply He. by left.
    + rewrite lookup_insert_ne by congruence. intros [m ?]%(l_dir s L).
      exists m. apply He. by right.
  - rewrite Hp, lookup_insert_ne by congruence. apply (l_root s L).
  - intros j. rewrite Hn. destruct (decide (j = id)) as [->|].
    + rewrite lookup_insert_eq. split; [intros _|by eauto].
      apply reach_child with d n; [by apply Hrs|]. apply He. by left.
    + rewrite lookup_insert_ne, (l_named s L) by congruence. split; [apply Hrs|].
      intros [->|]%Hrs'; done.
Qed.

Lemma linked_drop :
  linked s → drops_entry → entry s d n id → dirents s id = ∅ → linked s'.
Proof using Type.
  intros L (Hd & Hp & Hn) Hent Hempty.
  destruct (l_entry s L _ _ _ Hent) as (Hidd & Hidn & _).
  assert (Hne : id ≠ 1) by (intros ->; by rewrite (l_root s L) in Hidd).
  assert (He : ∀ x m j, entry s' x m j ↔ j ≠ id ∧ entry s x m j).
  { intros x m j. unfold entry. rewrite Hd.
    assert (entry s x m id → x = d ∧ m = n).
    { intros (? & ? & _)%(l_entry s L). by simplify_eq. }
    unfold entry in *. case_decide; [subst x|naive_solver].
    destruct (decide (m = n)) as [->|].
    - rewrite lookup_delete_eq, Hent. naive_solver.
    - rewrite lookup_delete_ne by congruence. naive_solver. }
  assert (Hrs : ∀ j, reach s j → j ≠ id → reach s' j).
  { induction 1 as [|x m j _ IH Hx]; [constructor|]. intros Hj.
    apply reach_child with x m; [|by apply He].
    apply IH. intros ->. unfold entry in Hx. by rewrite Hempty in Hx. }
  assert (Hrs' : ∀ j, reach s' j → j ≠ id ∧ reach s j).
  { induction 1 as [|x m j _ IH Hx]; [split; [done|constructor]|].
    apply He in Hx as [? Hx]. destruct IH. split; [done|]. by apply reach_child with x m. }
  split.
  - intros x m j [Hj Hx]%He. apply (l_entry s L) in Hx as (? & ? & ?).
    rewrite Hp, Hn, !lookup_delete_ne by congruence. done.
  - intros j x. rewrite Hp. intros [Hj [m ?]%(l_dir s L)]%lookup_delete_Some.
    exists m. apply He. by split.
  - rewrite Hp, lookup_delete_ne by congruence. apply (l_root s L).
  - intros j. rewrite Hn. destruct (decide (j = id)) as [->|].
    + rewrite lookup_delete_eq. split; [intros [? ?]; done|]. by intros [? ?]%Hrs'.
    + rewrite lookup_delete_ne, (l_named s L) by congruence. naive_solver.
Qed.
End leaf.

(** *** The member updates *)

Lemma dirents_touch k s d : dirents (on_fmap (map_touch ∅ k) s) d = dirents s d.
Proof. unfold dirents. cbn. by rewrite map_touch_at. Qed.

Lemma dirents_update k f s d :
  dirents (on_fmap (map_update ∅ k f) s) d =
  if decide (d = k) then f (dirents s k) else dirents s d.
Proof.
  unfold dirents, map_update. cbn. rewrite map_at_insert. by repeat case_decide; subst.
Qed.

Lemma same_tree_touch k s : same_tree s (on_fmap (map_touch ∅ k) s).
Proof. split_and!; [apply dirents_touch|done..]. Qed.

Lemma same_tree_upd_attr id f s : same_tree s (upd_attr id f s).
Proof. done. Qed.

Lemma same_tree_put now id buf s : same_tree s (snd (put now id buf s)).
Proof. done. Qed.

Lemma attr_upd id f s j :
  fileid_attr_m (upd_attr id f s) !! j =
  if decide (id = j) then Some (f (map_at attr0 id (fileid_attr_m s))) else fileid_attr_m s !! j.
Proof. unfold upd_attr, on_attr, map_update. cbn. by rewrite lookup_insert. Qed.

Lemma sized_upd_attr id f s :
  (∀ a, size_ (f a) = size_ a) → sized s → sized (upd_attr id f s).
Proof.
  intros Hf [Z1 Z2 Z3]. split.
  - intros j [a Ha]%Z1. rewrite attr_upd. case_decide; eauto.
  - intros j Hj [a Ha]%Z2; [|done]. rewrite attr_upd. case_decide; eauto.
  - intros j a Hj. rewrite attr_upd. case_decide as Hd; [|by apply Z3].
    intros [= <-]. subst j. rewrite Hf. unfold map_at at 1.
    destruct (fileid_attr_m s !! id) as [a|] eqn:Ha; [by apply Z3|].
    unfold map_at. cbn. destruct (fileid_content_m s !! id) eqn:Hc; [|done].
    destruct (Z2 id Hj) as [? ?]; [eauto|congruence].
Qed.

Lemma sized_put now id buf s : sized s → sized (snd (put now id buf s)).
Proof.
  intros [Z1 Z2 Z3]. split; unfold put, on_attr, on_content; cbn; intros j; rewrite lookup_insert.
  - intros Hj. case_decide; [by eauto|by apply Z1].
  - intros Hj. rewrite lookup_insert. case_decide; [by eauto|by apply Z2].
  - intros a Hj. rewrite map_at_insert. case_decide; [by intros [= <-]|by apply Z3].
Qed.

Lemma sized_ext s s' :
  fileid_name_m s' = fileid_name_m s → fileid_attr_m s' = fileid_attr_m s →
  fileid_content_m s' = fileid_content_m s → sized s → sized s'.
Proof. intros H1 H2 H3 [Z1 Z2 Z3]. split; rewrite ?H1, ?H2, ?H3; done. Qed.

Lemma sized_name id n s :
  is_Some (fileid_attr_m s !! id) → sized s → sized (on_name <[id := n]> s).
Proof.
  intros Ha [Z1 Z2 Z3]. split; [|done..]. intros j. cbn. rewrite lookup_insert.
  case_decide; [by subst|apply Z1].
Qed.

Lemma sized_content_touch id s :
  is_Some (fileid_attr_m s !! id) → sized s → sized (on_content (map_touch [] id) s).
Proof.
  intros Ha [Z1 Z2 Z3]. split; [done|..].
  - intros j Hj. cbn. destruct (decide (id = j)) as [->|]; [done|].
    rewrite map_touch_lookup_ne by done. by apply Z2.
  - intros j a Hj. cbn. rewrite map_touch_at. by apply Z3.
Qed.

Lemma same_tree_on_open f s : same_tree s (on_open f s).
Proof. done. Qed.
Lemma same_tree_on_mode f s : same_tree s (on_mode f s).
Proof. done. Qed.
Lemma same_tree_on_content f s : same_tree s (on_content f s).
Proof. done. Qed.

Hint Resolve same_tree_touch same_tree_upd_attr same_tree_put same_tree_on_open
  same_tree_on_mode same_tree_on_content sized_upd_attr sized_put sized_name : tree.

(** *** The handlers *)

Lemma createFile_ok now num l d n mode x s :
  2 <= num → is_Some (fileid_name_m s !! d) →
  ∃ s', createFile now (num :: l) d n mode x s = Some (OK, file_id num, s') ∧
    adds_entry s s' d (file_id num) n ∧
    fileid_content_m s' = <[file_id num := []]> (fileid_content_m s) ∧
    fileid_mode_m s' = <[file_id num := mode]> (fileid_mode_m s) ∧ (sized s → sized s').
Proof.
  intros Hnum Hd. unfold createFile. cbn [draw].
  destruct (Z.ltb_spec num 2); [lia|]. cbn [mbind option_bind].
  rewrite (proj2 (map_count_true d _)) by (cbn; done). cbn [negb].
  eexists. split; [done|]. split; [|split; [done|split; [done|]]].
  - split_and!; [|done|done]. intros y. etrans; [|apply dirents_update]. done.
  - intros Z. repeat (apply sized_upd_attr; [done|]).
    eapply (sized_ext (on_name <[file_id num := n]> (snd (put now (file_id num) [] s))));
      [done..|].
    apply sized_name; [|by apply sized_put]. cbn. rewrite lookup_insert_eq. eauto.
Qed.

Lemma createFile_noent now num l d n mode x s :
  2 <= num → fileid_name_m s !! d = None →
  createFile now (num :: l) d n mode x s =
    Some (NOENT, x, snd (put now (file_id num) [] s)).
Proof.
  intros Hnum Hd. unfold createFile. cbn [draw].
  destruct (Z.ltb_spec num 2); [lia|]. cbn [mbind option_bind].
  rewrite (proj2 (map_count_false d _)) by (cbn; done). done.
Qed.

Lemma createDir_ok now num l d n s :
  2 <= num → is_Some (dirid_fmap_m s !! d) →
  ∃ s', createDir now (num :: l) d n s = Some (OK, s') ∧
    adds_entry s s' d (dir_id num) n ∧
    fileid_content_m s' = fileid_content_m s ∧
    (isfile (dir_id num) = false → sized s → sized s').
Proof.
  intros Hnum Hd. unfold createDir. cbn [draw].
  destruct (Z.ltb_spec num 2); [lia|]. cbn [mbind option_bind].
  rewrite (proj2 (map_count_true d _)) by done. cbn [negb].
  eexists. split; [done|]. split; [|split; [done|]].
  - split_and!; [|done|done]. intros y. etrans; [|apply dirents_update]. done.
  - intros Hf [Z1 Z2 Z3]. split; cbn.
    + intros j. rewrite !lookup_insert. case_decide; [by eauto|apply Z1].
    + intros j Hj. rewrite lookup_insert_ne by congruence. by apply Z2.
    + intros j a Hj. rewrite lookup_insert_ne by congruence. by apply Z3.
Qed.

Lemma dirents_some s d n id : entry s d n id → is_Some (dirid_fmap_m s !! d).
Proof. unfold entry, dirents, map_at. destruct (dirid_fmap_m s !! d); [eauto|done]. Qed.

Lemma remove_ok t1 t2 t3 pid n id s :
  linked s → entry s pid n id → dirents s id = ∅ →
  ∃ s', remove t1 t2 t3 pid n s = (OK, s') ∧ drops_entry s s' pid id n ∧
    (∀ j, fileid_content_m s' !! j =
       if decide (j = id ∧ isfile id = true) then None else fileid_content_m s !! j) ∧
    fileid_attr_m s' !! id = None ∧ fileid_mode_m s' !! id = None ∧ (sized s → sized s').
Proof.
  intros L He Hempty. destruct (l_entry s L _ _ _ He) as (Hidd & Hidn & Hpdir).
  assert (Hne : id ≠ pid).
  { intros ->. unfold entry in He. by rewrite Hempty in He. }
  unfold remove. rewrite (proj2 (map_count_true pid _)) by (by eapply dirents_some).
  fold (dirents s pid). rewrite (proj2 (map_count_true n _)) by (by eexists). cbn [negb].
  rewrite (map_at_some 0 n _ id) by done.
  set (s1 := if isdir id then on_fmap (map_touch ∅ id) s else s).
  assert (T1 : same_tree s s1) by (unfold s1; destruct (isdir id); [apply same_tree_touch|reflexivity]).
  destruct T1 as (D1 & P1 & N1). fold (dirents s1 id).
  rewrite D1, Hempty, bool_decide_eq_true_2 by done. rewrite andb_false_r.
  set (s2 := on_attr (delete id) _).
  assert (T2 : same_tree s1 s2) by (unfold s2; destruct (isdir id); done).
  destruct T2 as (D2 & P2 & N2).
  rewrite (map_at_some 0 id (fileid_dir_m s2) pid), (map_at_some [] id (fileid_name_m s2) n)
    by congruence.
  set (s3 := on_open _ _).
  set (s4 := if map_count id (fileid_mode_m s3) then on_mode (delete id) s3 else s3).
  assert (T4 : same_tree s3 s4) by (unfold s4; destruct (map_count _ _); done).
  assert (A4 : fileid_attr_m s4 = delete id (fileid_attr_m s)).
  { unfold s4, s3, s2, s1. destruct (map_count _ _), (isdir id); done. }
  assert (C4 : fileid_content_m s4 =
    if isfile id then delete id (fileid_content_m s) else fileid_content_m s).
  { unfold s4, s3, s2, s1, isdir. destruct (map_count _ _), (isfile id); done. }
  clearbody s2.
  assert (N4 : fileid_name_m s4 = delete id (fileid_name_m s)).
  { etrans; [apply T4|]. cbn. unfold map_touch. rewrite N2, N1, Hidn. done. }
  eexists. split; [done|]. split; [|split; [|split; [|split]]].
  - split_and!; [| |done].
    + intros x. etrans; [apply T4|]. etrans; [apply (dirents_update pid)|].
      case_decide; [f_equal|]; (etrans; [apply D2|apply D1]).
    + etrans; [apply T4|]. cbn. unfold map_touch. rewrite P2, P1, Hidd. done.
  - intros j. cbn. rewrite C4. destruct (isfile id) eqn:Ef.
    + rewrite lookup_delete. repeat case_decide; naive_solver.
    + rewrite decide_False by naive_solver. done.
  - rewrite !attr_upd, !decide_False by congruence. rewrite A4. apply lookup_delete_eq.
  - cbn. unfold s4. destruct (map_count id (fileid_mode_m s3)) eqn:Em.
    + cbn. apply lookup_delete_eq.
    + by apply map_count_false.
  - intros [Z1 Z2 Z3]. repeat (apply sized_upd_attr; [done|]).
    split; intros j; rewrite ?N4, ?A4, ?C4.
    + rewrite !lookup_delete. case_decide; [intros [? ?]; done|apply Z1].
    + intros Hj. rewrite lookup_delete. destruct (isfile id) eqn:Ef.
      * rewrite lookup_delete. case_decide; [intros [? ?]; done|by apply Z2].
      * rewrite decide_False by congruence. by apply Z2.
    + intros a Hj [Hi Ha]%lookup_delete_Some. rewrite (Z3 j a Hj Ha).
      destruct (isfile id); [|done]. unfold map_at. by rewrite lookup_delete_ne.
Qed.

Lemma remove_nonempty t1 t2 t3 pid n id s :
  entry s pid n id → isdir id = true → dirents s id ≠ ∅ →
  remove t1 t2 t3 pid n s = (IOERR, s).
Proof.
  intros He Hdir Hne. unfold remove.
  rewrite (proj2 (map_count_true pid _)) by (by eapply dirents_some).
  fold (dirents s pid). rewrite (proj2 (map_count_true n _)) by (by eexists). cbn [negb].
  rewrite (map_at_some 0 n _ id) by done. rewrite Hdir.
  assert (Ht : on_fmap (map_touch ∅ id) s = s).
  { destruct s. unfold dirents, map_at in Hne. unfold on_fmap, map_touch. cbn in *.
    destruct (dirid_fmap_m0 !! id); [done|]. by cbn in Hne. }
  rewrite Ht. fold (dirents s id). rewrite bool_decide_eq_false_2 by done. done.
Qed.

(** The size recorded for the parent stays. *)
Lemma remove_parent_size t1 t2 t3 pid n s :
  dirents s pid !! n ≠ Some pid →
  size_ (map_at attr0 pid (fileid_attr_m (snd (remove t1 t2 t3 pid n s)))) = size_ (map_at attr0 pid (fileid_attr_m s)).
Proof.
  intros Hne. unfold remove. destruct (map_count pid (dirid_fmap_m s)); [cbn [negb]|done]. fold (dirents s pid).
  destruct (map_count n (dirents s pid)) eqn:En; [cbn [negb]|done]. apply map_count_true in En as [id Hid].
  rewrite (map_at_some 0 n _ id) by done. set (s1 := if isdir id then _ else _).
  assert (fileid_attr_m s1 = fileid_attr_m s) as E1 by (unfold s1; by destruct (isdir id)).
  destruct (_ && _); [cbn [snd]; by rewrite E1|].
  set (s2 := if negb (isdir id) then _ else s1).
  assert (fileid_attr_m s2 = fileid_attr_m s) as E2 by (unfold s2; by destruct (isdir id)).
  set (s3 := if map_count id _ then _ else _).
  assert (fileid_attr_m s3 = delete id (fileid_attr_m s)) as E3
    by (unfold s3; destruct (map_count id _); cbn; by rewrite E2).
  cbn [snd]. unfold upd_attr, map_update. cbn. rewrite E3, !map_at_insert, !decide_True by done. cbn.
  unfold map_at. by rewrite lookup_delete_ne by congruence.
Qed.

Lemma remove_noent t1 t2 t3 pid n s :
  dirents s pid !! n = None → remove t1 t2 t3 pid n s = (NOENT, s).
Proof.
  intros He. unfold remove. destruct (map_count pid (dirid_fmap_m s)); [|done]. cbn [negb].
  fold (dirents s pid). by rewrite (proj2 (map_count_false n _)) by done.
Qed.

(** *** Runs of the server

    Calls of the handlers in any order.  The creating calls carry what the code
    leaves to its callers: the parent is an existing directory, the name is new
    there and the drawn id is not in use. *)

Inductive step (s : t) : t → Prop :=
  | step_put now id buf : step s (snd (put now id buf s))
  | step_readdir d es : step s (snd (readdir d es s))
  | step_get now id off size buf r b s' :
      get now id off size buf s = Some (r, b, s') → step s s'
  | step_getattr id a : step s (snd (getattr id a s))
  | step_remove t1 t2 t3 pid n : step s (snd (remove t1 t2 t3 pid n s))
  | step_createFile now num l d n mode x r y s' :
      2 <= num → isdir d = true → dirents s d !! n = None →
      fileid_name_m s !! file_id num = None →
      createFile now (num :: l) d n mode x s = Some (r, y, s') → step s s'
  | step_createDir now num l d n r s' :
      2 <= num → isdir d = true → is_Some (fileid_name_m s !! d) → dirents s d !! n = None →
      fileid_name_m s !! dir_id num = None →
      createDir now (num :: l) d n s = Some (r, s') → step s s'
  | step_open now id : step s (snd (open now id s))
  | step_setMode now id mode : step s (snd (setMode now id mode s))
  | step_getMode id mode : step s (snd (getMode id mode s))
  | step_setAttr now id a r s' : setAttr now id a s = Some (r, s') → step s s'
  | step_write now id off size buf r s' :
      write now id off size buf s = Some (r, s') → step s s'.

Lemma isfile_file_id num : isfile (file_id num) = true.
Proof.
  unfold isfile, file_id. destruct (Z.eqb_spec (Z.land (Z.lor (Z.land num 4294967295) 2147483648) 2147483648) 0) as [H|]; [|done].
  assert (Ht : Z.testbit (Z.land (Z.lor (Z.land num 4294967295) 2147483648) 2147483648) 31 = false)
    by (rewrite H; apply Z.bits_0).
  rewrite Z.land_spec, Z.lor_spec in Ht.
  replace (Z.testbit 2147483648 31) with true in Ht by reflexivity.
  by rewrite orb_true_r in Ht.
Qed.

Lemma isdir_dir_id num : isdir (dir_id num) = true.
Proof.
  unfold isdir, isfile, dir_id. rewrite <- Z.land_assoc.
  replace (Z.land 134217727 2147483648) with 0 by reflexivity.
  by rewrite Z.land_0_r.
Qed.

Lemma linked_file_leaf s id : linked s → isfile id = true → dirents s id = ∅.
Proof.
  intros L Hf. apply map_eq. intros n. rewrite lookup_empty.
  destruct (dirents s id !! n) eqn:E; [|done].
  apply (l_entry s L) in E as (_ & _ & Hd). unfold isdir in Hd. by rewrite Hf in Hd.
Qed.

Definition inv (s : t) : Prop := linked s ∧ sized s.

Lemma inv_same_tree s s' : inv s → same_tree s s' → sized s' → inv s'.
Proof. intros [L _] Hs Hz. split; [by rewrite <- Hs|done]. Qed.

Lemma inv_remove t1 t2 t3 pid n s : inv s → inv (snd (remove t1 t2 t3 pid n s)).
Proof.
  intros [L Z]. destruct (dirents s pid !! n) as [id|] eqn:E; [|by rewrite remove_noent].
  destruct (decide (dirents s id = ∅)) as [He|He].
  - destruct (remove_ok t1 t2 t3 pid n id s L E He) as (s' & -> & Hd & _ & _ & _ & Hz).
    split; [by eapply linked_drop|by apply Hz].
  - assert (isdir id = true).
    { destruct (isdir id) eqn:Ed; [done|]. destruct He. apply linked_file_leaf; [done|].
      unfold isdir in Ed. by apply negb_false_iff in Ed. }
    by rewrite (remove_nonempty t1 t2 t3 pid n id).
Qed.

Lemma inv_new now : inv (new_extent_server now).
Proof.
  split; split.
  - intros d n id. unfold entry, dirents, map_at. cbn. rewrite lookup_singleton.
    case_decide; done.
  - done.
  - done.
  - intros id. cbn. rewrite lookup_singleton. split.
    + case_decide; [subst; constructor|intros [? ?]; done].
    + induction 1 as [|d n id _ _ He]; [rewrite decide_True by done; eauto|].
      exfalso. revert He. unfold entry, dirents, map_at. cbn. rewrite lookup_singleton.
      case_decide; done.
  - intros id. cbn. rewrite !lookup_singleton. case_decide; [eauto|done].
  - intros id _. cbn. intros [? ?]. done.
  - intros id a Hf. cbn. rewrite lookup_singleton. case_decide; [|done]. subst id. done.
Qed.

Lemma inv_step s s' : inv s → step s s' → inv s'.
Proof.
  intros I. pose proof I as [L Z].
  destruct 1 as [now id buf|d es|now id off size buf r b s' H|id a|t1 t2 t3 pid n
    |now num l d n mode x r y s' Hnum Hdir Hfree Hnew H
    |now num l d n r s' Hnum Hdir Hd Hfree Hnew H|now id|now id mode|id mode
    |now id a r s' H|now id off size buf r s' H].
  - apply (inv_same_tree s); auto with tree.
  - unfold readdir. destruct (map_count _ _); cbn [snd]; [|done].
    apply (inv_same_tree s); [done|apply same_tree_touch|]. by apply (sized_ext s).
  - unfold get in H. destruct (map_count _ _); [|by simplify_eq].
    apply bind_Some in H as (buf' & _ & H). simplify_eq.
    apply (inv_same_tree s); auto with tree.
  - unfold getattr. by destruct (map_count _ _).
  - by apply inv_remove.
  - destruct (fileid_name_m s !! d) eqn:Ed.
    + destruct (createFile_ok now num l d n mode x s Hnum) as (s1 & Hc & Ha & _ & _ & Hz); [eauto|].
      rewrite Hc in H. simplify_eq. split; [|by apply Hz].
      eapply linked_add; eauto. apply (l_named s L). eauto.
    + rewrite createFile_noent in H by done. simplify_eq.
      apply (inv_same_tree s); auto with tree.
  - destruct (dirid_fmap_m s !! d) eqn:Ed.
    + destruct (createDir_ok now num l d n s Hnum) as (s1 & Hc & Ha & _ & Hz); [eauto|].
      rewrite Hc in H. simplify_eq. pose proof (isdir_dir_id num) as Hi.
      unfold isdir in Hi. apply negb_true_iff in Hi.
      split; [|by apply Hz]. eapply linked_add; eauto. by apply (l_named s L).
    + unfold createDir in H. cbn [draw] in H. destruct (Z.ltb_spec num 2); [lia|].
      cbn [mbind option_bind] in H.
      rewrite (proj2 (map_count_false d _)) in H by done. cbn [negb] in H. by simplify_eq.
  - apply (inv_same_tree s); [done..|]. apply sized_upd_attr; [done|]. by apply (sized_ext s).
  - apply (inv_same_tree s); [done..|]. apply sized_upd_attr; [done|]. by apply (sized_ext s).
  - unfold getMode. by destruct (map_count _ _).
  - unfold setAttr in H. destruct (map_count id (fileid_attr_m s)) eqn:Ea; cbn [negb] in H; [|by simplify_eq].
    apply map_count_true in Ea.
    assert (sized (on_content (map_touch [] id) s)) by (by apply sized_content_touch).
    destruct (negb _).
    + apply bind_Some in H as (c & _ & H). simplify_eq.
      apply (inv_same_tree s); [done..|]. by apply sized_put.
    + simplify_eq. apply (inv_same_tree s); [done..|]. by apply sized_upd_attr.
  - unfold write in H. destruct (map_count id (fileid_content_m s)); cbn [negb] in H; [|by simplify_eq].
    apply bind_Some in H as (c & _ & H). apply bind_Some in H as (c' & _ & H).
    simplify_eq. apply (inv_same_tree s); auto with tree.
Qed.

Lemma inv_run now s : rtc step (new_extent_server now) s → inv s.
Proof.
  intros H. pose proof (inv_new now) as I. revert I.
  induction H as [|s1 s2 s3 H12 _ IH]; [done|]. intros I. apply IH. by eapply inv_step.
Qed.


(** Files [a] and [b], the directory [d] with a file, then [a] removed. *)
Definition demo : t :=
  let s0 := new_extent_server 100 in
  let s1 := default s0 (snd <$> createFile 101 [1; 5] 1 ($"a") 420 0 s0) in
  let s2 := default s0 (snd <$> createDir 102 [7] 1 ($"d") s1) in
  let s3 := default s0 (snd <$> createFile 103 [9] 7 ($"b") 420 0 s2) in
  snd (remove 104 104 104 1 ($"a") s3).

Lemma demo_run : rtc step (new_extent_server 100) demo.
Proof.
  eapply rtc_l; [eapply (step_createFile _ 101 5 [] 1 ($"a") 420 0); vm_compute; done|].
  eapply rtc_l; [eapply (step_createDir _ 102 7 [] 1 ($"d")); try (vm_compute; done); vm_compute; by eexists|].
  eapply rtc_l; [eapply (step_createFile _ 103 9 [] 7 ($"b") 420 0); vm_compute; done|].
  eapply rtc_l; [eapply (step_remove _ 104 104 104 1 ($"a"))|].
  vm_compute. apply rtc_refl.
Qed.

Lemma demo_linked : linked demo.
Proof. apply (inv_run 100). apply demo_run. Qed.


(** What [remove] does in a well-formed tree.  A missing name gives [NOENT]
    and a non-empty directory [IOERR], with the state unchanged.  Otherwise the
    call succeeds and deletes exactly that entry: the listing of the parent loses
    the name, every other listing stays, and the id has no attributes, no listing
    and, for a file, no content any more. *)
Theorem remove_spec t1 t2 t3 pid n s :
  linked s →
  match dirents s pid !! n with
  | None => remove t1 t2 t3 pid n s = (NOENT, s)
  | Some id =>
      if decide (dirents s id = ∅) then
        ∃ s', remove t1 t2 t3 pid n s = (OK, s') ∧
          (∀ d, dirents s' d = if decide (d = pid) then delete n (dirents s pid) else dirents s d) ∧
          (∀ a, getattr id a s' = (IOERR, a, s')) ∧
          (∀ es, readdir id es s' = (NOENT, es, s')) ∧
          (isfile id = true →
             ∀ now off size b, get now id off size b s' = Some (NOENT, b, s')) ∧
          (∀ j, j ≠ id → fileid_content_m s' !! j = fileid_content_m s !! j)
      else remove t1 t2 t3 pid n s = (IOERR, s)
  end.
Proof.
  intros L. destruct (dirents s pid !! n) as [id|] eqn:E; [|by apply remove_noent].
  case_decide as He.
  - destruct (remove_ok t1 t2 t3 pid n id s L E He) as (s' & Hr & (Hd & Hp & Hn) & Hc & Ha & _).
    exists s'. split; [done|]. split; [done|]. split_and!.
    + intros a. unfold getattr. by rewrite (proj2 (map_count_false id _)).
    + intros es. unfold readdir. rewrite (proj2 (map_count_false id _)); [done|].
      rewrite Hn. apply lookup_delete_eq.
    + intros Hf now off size b. unfold get. rewrite (proj2 (map_count_false id _)); [done|].
      rewrite Hc. by rewrite decide_True.
    + intros j Hj. rewrite Hc. rewrite decide_False by naive_solver. done.
  - apply (remove_nonempty t1 t2 t3 pid n id); [done| |done].
    destruct (isdir id) eqn:Ed; [done|]. destruct He. apply linked_file_leaf; [done|].
    unfold isdir in Ed. by apply negb_false_iff in Ed.
Qed.

Lemma remove_spec_witness :
  linked demo ∧ dirents demo 7 !! ($"b") = Some 2147483657 ∧
  fst (remove 105 105 105 1 ($"d") demo) = IOERR ∧
  ∃ s', remove 105 105 105 7 ($"b") demo = (OK, s') ∧
    (∀ d, dirents s' d = if decide (d = 7) then delete ($"b") (dirents demo 7) else dirents demo d).
Proof.
  assert (L : linked demo) by apply demo_linked.
  split; [exact L|]. split; [vm_compute; reflexivity|]. split; [vm_compute; reflexivity|].
  pose proof (remove_spec 105 105 105 7 ($"b") demo L) as H.
  replace (dirents demo 7 !! ($"b")) with (Some 2147483657) in H by (vm_compute; reflexivity).
  rewrite decide_True in H by (vm_compute; reflexivity).
  destruct H as (s' & H1 & H2 & _). exists s'. split; [exact H1|exact H2].
Defined.

(** A file created in an existing directory under a new name and with an
    unused id appears in the listing of that directory under that name, next to
    the old entries, is readable as empty, has the given mode, and removing it
    restores every listing. *)
Theorem create_remove_roundtrip now num l d n mode x t1 t2 t3 s :
  linked s → 2 <= num → is_Some (fileid_name_m s !! d) → isdir d = true →
  dirents s d !! n = None → fileid_name_m s !! file_id num = None →
  ∃ s1 s2,
    createFile now (num :: l) d n mode x s = Some (OK, file_id num, s1) ∧
    fst (readdir d ∅ s1) = (OK, <[n := file_id num]> (dirents s d)) ∧
    (∀ m, fst (getMode (file_id num) m s1) = (OK, mode)) ∧
    (∀ now' size b, 0 <= size → fst <$> get now' (file_id num) 0 size b s1 = Some (OK, [])) ∧
    remove t1 t2 t3 d n s1 = (OK, s2) ∧
    (∀ e, dirents s2 e = dirents s e).
Proof.
  intros L Hnum Hd Hdir Hfree Hnew.
  destruct (createFile_ok now num l d n mode x s Hnum Hd) as (s1 & Hc & Ha & Hco & Hm & _).
  assert (L1 : linked s1) by (eapply linked_add; eauto; by apply (l_named s L)).
  pose proof Ha as (Hd1 & Hp1 & Hn1).
  assert (E1 : entry s1 d n (file_id num)).
  { unfold entry. rewrite Hd1, decide_True by done. apply lookup_insert_eq. }
  destruct (remove_ok t1 t2 t3 d n (file_id num) s1 L1 E1) as (s2 & Hr & (Hd2 & _ & _) & _).
  { apply linked_file_leaf; [done|apply isfile_file_id]. }
  exists s1, s2. split; [done|]. split; [|split; [|split; [|split; [done|]]]].
  - unfold readdir. rewrite (proj2 (map_count_true d _)).
    + cbn [fst]. rewrite insert_all_entries, (right_id_L ∅ (∪)). fold (dirents s1 d).
      by rewrite Hd1, decide_True.
    + rewrite Hn1. rewrite lookup_insert. case_decide; eauto.
  - intros m. unfold getMode. rewrite Hm, map_at_insert, decide_True by done.
    rewrite (proj2 (map_count_true _ _)); [done|]. rewrite lookup_insert_eq. eauto.
  - intros now' size b Hs. unfold get. rewrite Hco, map_at_insert, decide_True by done.
    rewrite (proj2 (map_count_true _ _)) by (rewrite lookup_insert_eq; eauto).
    unfold string_substr. cbn. by destruct (Z.to_nat size).
  - intros e. rewrite Hd2. case_decide; subst; rewrite Hd1.
    + rewrite decide_True, delete_insert_id by done. done.
    + by rewrite decide_False.
Qed.

Lemma create_remove_roundtrip_witness :
  ∃ s1 s2,
    createFile 105 [8] 7 ($"c") 420 0 demo = Some (OK, file_id 8, s1) ∧
    fst (readdir 7 ∅ s1) = (OK, <[$"c" := file_id 8]> (dirents demo 7)) ∧
    (∀ m, fst (getMode (file_id 8) m s1) = (OK, 420)) ∧
    (∀ now' size b, 0 <= size → fst <$> get now' (file_id 8) 0 size b s1 = Some (OK, [])) ∧
    remove 106 106 106 7 ($"c") s1 = (OK, s2) ∧
    (∀ e, dirents s2 e = dirents demo e).
Proof.
  apply (create_remove_roundtrip 105 8 [] 7 ($"c") 420 0 106 106 106 demo);
    [apply demo_linked|lia|by eexists|vm_compute; reflexivity..].
Defined.

(** [setAttr] truncates or zero-extends the content to the requested size;
    the size in the attributes follows.  Times are taken from the argument only
    when the size does not change; otherwise they become the current time. *)
Theorem setAttr_spec now id a a0 s :
  fileid_attr_m s !! id = Some a0 → 0 <= size_ a <= string_max_size →
  (Z.of_nat (length (map_at [] id (fileid_content_m s))) = size_ a → size_ a0 = size_ a) →
  ∃ s', setAttr now id a s = Some (OK, s') ∧
    (∀ i, map_at [] id (fileid_content_m s') !! i =
       if decide (i < Z.to_nat (size_ a))%nat
       then Some (default "000"%char (map_at [] id (fileid_content_m s) !! i)) else None) ∧
    (∃ a', fileid_attr_m s' !! id = Some a' ∧ size_ a' = size_ a ∧
       (Z.of_nat (length (map_at [] id (fileid_content_m s))) = size_ a →
          atime a' = atime a ∧ mtime a' = mtime a ∧ ctime a' = ctime a)) ∧
    (∀ j, j ≠ id → fileid_content_m s' !! j = fileid_content_m s !! j ∧
                   fileid_attr_m s' !! j = fileid_attr_m s !! j).
Proof.
  intros Ha [Hs Hmax] Hsz. unfold setAttr, string_max_size in *.
  rewrite (proj2 (map_count_true id _)) by eauto. cbn [negb].
  set (c := map_at [] id (fileid_content_m s)) in *.
  destruct (Z.eqb_spec (Z.of_nat (length c)) (size_ a)) as [E|E]; cbn [negb].
  - eexists. split; [done|]. split; [|split].
    + intros i. cbn. rewrite map_touch_at. fold c. rewrite <- E, Nat2Z.id. case_decide.
      * destruct (lookup_lt_is_Some_2 c i) as [x ->]; done.
      * apply lookup_ge_None. lia.
    + rewrite attr_upd, decide_True by done. eexists. split; [done|].
      cbn [fileid_attr_m on_content]. rewrite (map_at_some _ _ _ _ Ha). cbn. auto.
    + intros j Hj. rewrite attr_upd, decide_False by congruence. cbn.
      by rewrite map_touch_lookup_ne by congruence.
  - unfold string_resize. destruct (Z.leb_spec (size_ a) string_max_size); [|unfold string_max_size in *; lia].
    cbn [mbind option_bind]. eexists. split; [done|]. unfold put. cbn. split; [|split].
    + intros i. rewrite map_at_insert, decide_True by done. rewrite resize_lookup.
      repeat case_decide; try done.
      * destruct (lookup_lt_is_Some_2 c i) as [x ->]; done.
      * by rewrite lookup_ge_None_2 by lia.
    + rewrite lookup_insert_eq. eexists. split; [done|]. cbn. rewrite length_resize.
      split; [rewrite u32_id; unfold_int; lia|]. intros; lia.
    + intros j Hj. rewrite !lookup_insert_ne by congruence.
      by rewrite map_touch_lookup_ne by congruence.
Qed.

Lemma setAttr_spec_witness :
  let s := snd (put 5 2147483653 ($"abc") (new_extent_server 0)) in
  ∃ s', setAttr 9 2147483653 (Attr 1 2 3 2) s = Some (OK, s') ∧
    map_at [] 2147483653 (fileid_content_m s') !! 1%nat = Some "b"%char ∧
    map_at [] 2147483653 (fileid_content_m s') !! 2%nat = None.
Proof.
  destruct (setAttr_spec 9 2147483653 (Attr 1 2 3 2) (Attr 5 5 5 3)
    (snd (put 5 2147483653 ($"abc") (new_extent_server 0)))) as (s' & H1 & H2 & _);
    [vm_compute; reflexivity|vm_compute; split; discriminate|vm_compute; discriminate|].
  exists s'. split; [exact H1|]. split; rewrite H2; reflexivity.
Defined.

(** A read that starts beyond the end of the file does not answer: [substr]
    throws [std::out_of_range]. *)
Lemma get_past_end now id off size buf c s :
  fileid_content_m s !! id = Some c → is_u32 off → Z.of_nat (length c) < off →
  get now id off size buf s = None.
Proof.
  intros Hc Hu Hoff. unfold get. rewrite (proj2 (map_count_true id _)) by eauto.
  rewrite (map_at_some _ _ _ _ Hc). unfold string_substr. rewrite (u32_id off) by done.
  destruct (Z.leb_spec off (Z.of_nat (length c))); [lia|done].
Qed.

(** The id of a removed directory still accepts [createDir]: the call succeeds
    and leaves an entry that no path from the root reaches. *)
Example createDir_in_removed_dir :
  let s0 := new_extent_server 100 in
  let s1 := default s0 (snd <$> createDir 101 [7] 1 ($"d") s0) in
  let s2 := snd (remove 102 102 102 1 ($"d") s1) in
  fst (readdir 7 ∅ s2) = (NOENT, ∅) ∧
  fst <$> createDir 103 [8] 7 ($"e") s2 = Some OK.
Proof. vm_compute. split; reflexivity. Qed.

(** The new id of [createDir] can be the root's: the draw is above 1, its low 27
    bits are not. *)
Example createDir_takes_root_id :
  let s := default (new_extent_server 100)
             (snd <$> createDir 101 [134217729] 1 ($"d") (new_extent_server 100)) in
  dirents s 1 !! ($"d") = Some 1 ∧ fileid_name_m s !! 1 = Some ($"d").
Proof. vm_compute. split; reflexivity. Qed.

(** A directory made by [createDir] refuses a nested [createDir] until its
    listing was read once. *)
Example nested_createDir :
  let s0 := new_extent_server 100 in
  let s1 := default s0 (snd <$> createDir 101 [7] 1 ($"d") s0) in
  fst <$> createDir 102 [8] 7 ($"e") s1 = Some NOENT ∧
  fst <$> createDir 102 [8] 7 ($"e") (snd (readdir 7 ∅ s1)) = Some OK.
Proof. vm_compute. split; reflexivity. Qed.

End extent_server.
