(* ===== verification/ExtentClient.v ===== *)
(** * The extent client

    extent_client.h and extent_client.cc: the client side of the extent server, a cache of
    files that is written back when the lock of the file is given up ([flush]).  The remote
    calls go through an interface, [ExtentService]; the extent server of ExtentServer.v is
    an instance of it, the composition of RpcEnd.v justifying that a remote call is a call of the
    handler.  [None] is a failed assertion or an uncaught exception. *)

From S2P Require Import Prelude.
From S2P Require Import Marshall.
From S2P Require Import Protocol.
From S2P Require Import ExtentServer.

(** ** The interface of the server: status, result and new state *)

Class ExtentService (Σ : Type) := {
  es_get : Z → Z → Z → Z → Σ → option (Z * cstring * Σ);
  es_getattr : Z → Σ → option (Z * attr * Σ);
  es_remove : Z → Z → cstring → Σ → option (Z * Σ);
  es_readdir : Z → Σ → option (Z * gmap cstring Z * Σ);
  es_createFile : Z → list Z → Z → cstring → Z → Σ → option (Z * Z * Σ);
  es_open : Z → Z → Σ → option (Z * Σ);
  es_createDir : Z → list Z → Z → cstring → Σ → option (Z * Σ);
  es_setMode : Z → Z → Z → Σ → option (Z * Σ);
  es_getMode : Z → Σ → option (Z * Z * Σ);
  es_setAttr : Z → Z → attr → Σ → option (Z * Σ);
  es_write : Z → Z → Z → Z → cstring → Σ → option (Z * Σ);
}.

(** The handlers of the server; results are new objects, so a failed call gives their
    initial value. *)
#[export] Instance extent_server_service : ExtentService extent_server.t := {
  es_get now id off size s := extent_server.get now id off size [] s;
  es_getattr id s := Some (extent_server.getattr id extent_server.attr0 s);
  es_remove now pid name s := Some (extent_server.remove now now now pid name s);
  es_readdir di s := Some (extent_server.readdir di ∅ s);
  es_createFile now rnd parent name mode s := extent_server.createFile now rnd parent name mode 0 s;
  es_open now id s := Some (extent_server.open now id s);
  es_createDir now rnd parent name s := extent_server.createDir now rnd parent name s;
  es_setMode now id mode s := Some (extent_server.setMode now id mode s);
  es_getMode id s := Some (extent_server.getMode id 0 s);
  es_setAttr now id a s := extent_server.setAttr now id a s;
  es_write now id off size buf s := extent_server.write now id off size buf s;
}.

(** ** State *)

Inductive c_status := CACHED | MODIFIED | REMOVED.

#[export] Instance c_status_eq_dec : EqDecision c_status.
Proof. solve_decision. Defined.

Module extent_client.

Record t := Mk {
  cache_content : gmap Z cstring;
  cache_attr : gmap Z attr;
  cache_mode : gmap Z Z;
  cache_status : gmap Z c_status;
}.

Definition new_extent_client : t := Mk ∅ ∅ ∅ ∅.

Definition on_content f c := Mk (f (cache_content c)) (cache_attr c) (cache_mode c) (cache_status c).
Definition on_attr f c := Mk (cache_content c) (f (cache_attr c)) (cache_mode c) (cache_status c).
Definition on_mode f c := Mk (cache_content c) (cache_attr c) (f (cache_mode c)) (cache_status c).
Definition on_status f c := Mk (cache_content c) (cache_attr c) (cache_mode c) (f (cache_status c)).

Definition OK : Z := 0.
Definition NOENT : Z := 2.

Definition cached (id : Z) (c : t) : bool := map_count id (cache_status c).
Definition status_is (id : Z) (x : c_status) (c : t) : bool := bool_decide (map_at CACHED id (cache_status c) = x).

(** All four entries of a file. *)
Definition enter (id : Z) (content : cstring) (a : attr) (mode : Z) (x : c_status) (c : t) : t :=
  on_status <[id := x]> (on_mode <[id := mode]> (on_attr <[id := a]> (on_content <[id := content]> c))).

Definition assert (b : bool) : option unit := if b then Some tt else None.

Section client.
Context {Σ : Type} `{ExtentService Σ}.

(** ** Operations.  [now] is the time; client and server state are passed along. *)

Definition getAttr (id : Z) (c : t) (s : Σ) : option (Z * attr * t * Σ) :=
  if negb (cached id c) then '(ret, a, s) ← es_getattr id s; Some (ret, a, c, s)
  else Some (OK, map_at extent_server.attr0 id (cache_attr c), on_attr (map_touch extent_server.attr0 id) c, s).

(** With a cached file the assignment goes the wrong way: [mode], the value of the
    caller's variable, is stored and not returned. *)
Definition getMode (id mode : Z) (c : t) (s : Σ) : option (Z * Z * t * Σ) :=
  if negb (cached id c) then '(ret, mode, s) ← es_getMode id s; Some (ret, mode, c, s)
  else Some (OK, mode, on_mode <[id := mode]> c, s).

(** [junk]: the uninitialised variable [mode]. *)
Definition read (now id off size junk : Z) (buf : cstring) (c : t) (s : Σ) : option (Z * cstring * t * Σ) :=
  if negb (cached id c) then
    '(ret, a, c, s) ← getAttr id c s; _ ← assert (ret =? OK);
    '(ret, file_buf, s) ← es_get now id 0 (size_ a) s; _ ← assert (ret =? OK);
    '(ret, a, c, s) ← getAttr id c s; _ ← assert (ret =? OK);
    '(ret, mode, c, s) ← getMode id junk c s; _ ← assert (ret =? OK);
    let c := enter id file_buf a mode CACHED c in
    buf ← string_substr (u32 off) size file_buf; Some (OK, buf, c, s)
  else if status_is id REMOVED c then Some (NOENT, buf, c, s) else
    let c := on_attr (map_update extent_server.attr0 id (extent_server.set_atime (u32 now))) c in
    buf ← string_substr (u32 off) size (map_at [] id (cache_content c));
    Some (OK, buf, on_content (map_touch [] id) c, s).

Definition remove (now id : Z) (name : cstring) (c : t) (s : Σ) : option (Z * t * Σ) :=
  let c := if cached id c then on_status <[id := REMOVED]> c else c in
  '(ret, s) ← es_remove now id name s; Some (ret, c, s).

Definition readdir (di : Z) (c : t) (s : Σ) : option (Z * gmap cstring Z * t * Σ) :=
  '(ret, entries, s) ← es_readdir di s; Some (ret, entries, c, s).

Definition createFile (now : Z) (rnd : list Z) (parent : Z) (name : cstring) (mode : Z) (c : t) (s : Σ)
    : option (Z * t * Σ) :=
  '(ret, id, s) ← es_createFile now rnd parent name mode s; _ ← assert (ret =? OK);
  '(ret, a, c, s) ← getAttr id c s; _ ← assert (ret =? OK);
  Some (ret, enter id [] a mode CACHED c, s).

Definition open (now id : Z) (c : t) (s : Σ) : option (Z * t * Σ) :=
  '(ret, s) ← es_open now id s; Some (ret, c, s).

Definition createDir (now : Z) (rnd : list Z) (parent : Z) (name : cstring) (c : t) (s : Σ)
    : option (Z * t * Σ) :=
  '(ret, s) ← es_createDir now rnd parent name s; Some (ret, c, s).

Definition setMode (now id mode : Z) (c : t) (s : Σ) : option (Z * t * Σ) :=
  if negb (cached id c) then '(ret, s) ← es_setMode now id mode s; Some (ret, c, s)
  else
    let c := on_mode <[id := mode]> c in
    let c := on_attr (map_update extent_server.attr0 id (extent_server.set_ctime (u32 now))) c in
    Some (OK, on_status <[id := MODIFIED]> c, s).

Definition setAttr (now id : Z) (a : attr) (c : t) (s : Σ) : option (Z * t * Σ) :=
  if negb (cached id c) then '(ret, s) ← es_setAttr now id a s; Some (ret, c, s)
  else Some (OK, on_status <[id := MODIFIED]> (on_attr <[id := a]> c), s).

(** The file goes back to the server and leaves the cache. *)
Definition evict (id : Z) (c : t) : t :=
  on_status (delete id) (on_mode (delete id) (on_attr (delete id) (on_content (delete id) c))).

Definition flush (now id : Z) (c : t) (s : Σ) : option (t * Σ) :=
  if negb (cached id c) then Some (c, s) else
  s ← (if status_is id MODIFIED c then
         let a := map_at extent_server.attr0 id (cache_attr c) in
         '(ret, s) ← es_write now id 0 (size_ a) (map_at [] id (cache_content c)) s; _ ← assert (ret =? OK);
         '(ret, s) ← es_setAttr now id a s; _ ← assert (ret =? OK);
         '(ret, s) ← es_setMode now id (map_at 0 id (cache_mode c)) s; _ ← assert (ret =? OK);
         Some s
       else Some s);
  Some (evict id c, s).

(** [off_t] has 64 bits, [size_t] 32. *)
Definition write (now id off size : Z) (buf : cstring) (c : t) (s : Σ) : option (Z * t * Σ) :=
  let str_buf := take (Z.to_nat size) buf in
  if negb (cached id c) then
    '(ret, s) ← es_write now id (u64 off) (u32 size) str_buf s; Some (ret, c, s)
  else if status_is id REMOVED c then Some (NOENT, c, s) else
    let content := map_at [] id (cache_content c) in
    content ← (if off + size >? Z.of_nat (length content) then string_resize (u32 (off + size)) content
               else Some content);
    content ← string_replace (u32 off) size str_buf content;
    let a := Attr (u32 now) (u32 now) (u32 now) (u32 (Z.of_nat (length content))) in
    let c := on_attr <[id := a]> (on_content <[id := content]> c) in
    Some (OK, on_status <[id := MODIFIED]> c, s).
End client.
End extent_client.

(** ** Cache and server as one store of files *)

Module file_cache.
Import extent_client.

Definition size_ok (x : cstring) : Prop := Z.of_nat (length x) <= string_max_size.
Definition sized_as (a : attr) (x : cstring) : Prop := size_ a = Z.of_nat (length x).

(** A file the server has is known with its attributes and its mode. *)
Definition at_server (s : extent_server.t) (id : Z) (v : option cstring) : Prop :=
  extent_server.fileid_content_m s !! id = v ∧
  (∀ x, v = Some x → size_ok x ∧ (∃ a, extent_server.fileid_attr_m s !! id = Some a ∧ sized_as a x) ∧
                     is_Some (extent_server.fileid_mode_m s !! id)).

(** What the holder of the lock of file [id] sees: the cached file, else the one at the
    server.  A file that is only cached is the one at the server; a modified one is at
    least as long, so that writing it back replaces the whole content. *)
Definition holds (c : t) (s : extent_server.t) (id : Z) (v : option cstring) : Prop :=
  match cache_status c !! id with
  | None => at_server s id v
  | Some x =>
      ∃ data a y, v = Some data ∧ cache_content c !! id = Some data ∧ size_ok data ∧
        cache_attr c !! id = Some a ∧ sized_as a data ∧ is_Some (cache_mode c !! id) ∧
        at_server s id (Some y) ∧
        match x with CACHED => y = data | MODIFIED => (length y <= length data)%nat | REMOVED => False end
  end.

(** Cache and server together represent the files [m]. *)
Definition represents (c : t) (s : extent_server.t) (m : gmap Z cstring) : Prop := ∀ id, holds c s id (m !! id).

(** The abstract store. *)
Definition write_at (off : nat) (buf c : cstring) : cstring :=
  let c1 := if decide (length c < off + length buf)%nat then resize (off + length buf) "000"%char c else c in
  take off c1 ++ buf ++ drop (off + length buf) c1.

Inductive fop :=
  | FRead (id off size : Z) | FWrite (id off : Z) (buf : cstring) | FFlush (id : Z)
  | FSize (id : Z) | FChmod (id mode : Z) | FUtimes (id : Z) (a : attr).

Inductive fres := Data (x : cstring) | Size (n : Z) | Done.

Definition spec_op (o : fop) (m : gmap Z cstring) : fres * gmap Z cstring :=
  match o with
  | FRead id off size => (Data (take (Z.to_nat size) (drop (Z.to_nat off) (map_at [] id m))), m)
  | FWrite id off buf => (Done, map_update [] id (write_at (Z.to_nat off) buf) m)
  | FSize id => (Size (Z.of_nat (length (map_at [] id m))), m)
  | FFlush _ | FChmod _ _ | FUtimes _ _ => (Done, m)
  end.

Definition fop_ok (o : fop) (m : gmap Z cstring) : Prop :=
  match o with
  | FRead id off size => is_Some (m !! id) ∧ 0 <= off <= Z.of_nat (length (map_at [] id m)) ∧ 0 <= size
  | FWrite id off buf => is_Some (m !! id) ∧ 0 <= off ∧ off + Z.of_nat (length buf) <= string_max_size
  | FFlush _ => True
  | FSize id | FChmod id _ => is_Some (m !! id)
  | FUtimes id a => ∃ x, m !! id = Some x ∧ sized_as a x
  end.

(** The client's operations; the status must be [OK]. *)
Definition do_op (now junk : Z) (o : fop) (c : t) (s : extent_server.t)
    : option (fres * t * extent_server.t) :=
  match o with
  | FRead id off size =>
      '(ret, buf, c, s) ← read now id off size junk [] c s; _ ← assert (ret =? OK); Some (Data buf, c, s)
  | FWrite id off buf =>
      '(ret, c, s) ← write now id off (Z.of_nat (length buf)) buf c s; _ ← assert (ret =? OK); Some (Done, c, s)
  | FFlush id => '(c, s) ← flush now id c s; Some (Done, c, s)
  | FSize id => '(ret, a, c, s) ← getAttr id c s; _ ← assert (ret =? OK); Some (Size (size_ a), c, s)
  | FChmod id mode => '(ret, c, s) ← setMode now id mode c s; _ ← assert (ret =? OK); Some (Done, c, s)
  | FUtimes id a => '(ret, c, s) ← setAttr now id a c s; _ ← assert (ret =? OK); Some (Done, c, s)
  end.

(** *** The content written *)

Lemma write_at_bytes off buf c i :
  write_at off buf c !! i = extent_server.written_byte c buf off i.
Proof. apply extent_server.written_bytes. Qed.

Lemma length_write_at off buf c : length (write_at off buf c) = Nat.max (length c) (off + length buf).
Proof. apply extent_server.written_length. intros i. apply write_at_bytes. Qed.

Lemma write_at_all x y : (length y <= length x)%nat → write_at 0 x y = x.
Proof.
  intros Hl. apply list_eq. intros i. rewrite write_at_bytes. unfold extent_server.written_byte.
  destruct (decide (i < length x)%nat).
  - rewrite decide_True by lia. f_equal. lia.
  - rewrite !decide_False by lia. symmetry. apply lookup_ge_None. lia.
Qed.

Lemma size_write_at off buf c :
  size_ok c → 0 <= off → off + Z.of_nat (length buf) <= string_max_size → size_ok (write_at (Z.to_nat off) buf c).
Proof. unfold size_ok. rewrite length_write_at. lia. Qed.

Lemma size_u32 x : size_ok x → u32 (Z.of_nat (length x)) = Z.of_nat (length x).
Proof. unfold size_ok, string_max_size. intros. apply u32_id. unfold_int. lia. Qed.

(** [write] of the server in terms of [write_at]. *)
Lemma server_write now id off buf y s :
  extent_server.fileid_content_m s !! id = Some y → 0 <= off →
  off + Z.of_nat (length buf) <= string_max_size →
  extent_server.write now id off (Z.of_nat (length buf)) buf s
  = Some (0, snd (extent_server.put now id (write_at (Z.to_nat off) buf y) s)).
Proof.
  intros Hy Hoff Hmax.
  destruct (extent_server.write_eq now id off _ buf y s Hy Hoff eq_refl Hmax) as (c' & -> & Hb).
  replace c' with (write_at (Z.to_nat off) buf y); [done|]. apply list_eq. intros i. by rewrite write_at_bytes, Hb.
Qed.

(** The cached content after [write], by the same computation. *)
Lemma cached_write off buf x :
  0 <= off → off + Z.of_nat (length buf) <= string_max_size →
  (content ← (if off + Z.of_nat (length buf) >? Z.of_nat (length x)
              then string_resize (u32 (off + Z.of_nat (length buf))) x else Some x);
   string_replace (u32 off) (Z.of_nat (length buf)) (take (Z.to_nat (Z.of_nat (length buf))) buf) content)
  = Some (write_at (Z.to_nat off) buf x).
Proof.
  intros Hoff Hmax. unfold string_max_size in *. rewrite !u32_id by (unfold_int; lia).
  rewrite Nat2Z.id, take_ge by lia. unfold write_at.
  set (c1 := if decide (length x < Z.to_nat off + length buf)%nat
             then resize (Z.to_nat off + length buf) "000"%char x else x).
  assert (Hr : (if off + Z.of_nat (length buf) >? Z.of_nat (length x)
                then string_resize (off + Z.of_nat (length buf)) x else Some x) = Some c1).
  { subst c1. rewrite Z.gtb_ltb. unfold string_resize, string_max_size.
    replace (Z.to_nat (off + Z.of_nat (length buf))) with (Z.to_nat off + length buf)%nat by lia.
    bool_cases; case_decide; (done || lia). }
  assert (Z.to_nat off + length buf ≤ length c1)%nat by (subst c1; case_decide; [rewrite length_resize|]; lia).
  rewrite Hr. cbn [mbind option_bind]. unfold string_replace.
  destruct (Z.leb_spec off (Z.of_nat (length c1))); [|lia]. by rewrite Nat2Z.id, (take_ge buf) by lia.
Qed.

(** *** Frames *)

(** Nothing changed but the entries of [id]. *)
Definition only (id : Z) (c c' : t) (s s' : extent_server.t) : Prop :=
  ∀ j, j ≠ id →
    (cache_status c' !! j = cache_status c !! j ∧ cache_content c' !! j = cache_content c !! j ∧
     cache_attr c' !! j = cache_attr c !! j ∧ cache_mode c' !! j = cache_mode c !! j) ∧
    (extent_server.fileid_content_m s' !! j = extent_server.fileid_content_m s !! j ∧
     extent_server.fileid_attr_m s' !! j = extent_server.fileid_attr_m s !! j ∧
     extent_server.fileid_mode_m s' !! j = extent_server.fileid_mode_m s !! j).

Lemma holds_only id c c' s s' j v : only id c c' s s' → j ≠ id → holds c s j v → holds c' s' j v.
Proof.
  intros Ho Hj. destruct (Ho j Hj) as ((E1 & E2 & E3 & E4) & E5 & E6 & E7). unfold holds, at_server.
  by rewrite E1, E2, E3, E4, E5, E6, E7.
Qed.

Lemma represents_same id c c' s s' m :
  represents c s m → only id c c' s s' → holds c' s' id (m !! id) → represents c' s' m.
Proof.
  intros Hr Ho Hv j. destruct (decide (j = id)) as [->|Hj]; [done|]. eapply holds_only; eauto.
Qed.

Lemma represents_insert id x c c' s s' m :
  represents c s m → only id c c' s s' → holds c' s' id (Some x) → represents c' s' (<[id := x]> m).
Proof.
  intros Hr Ho Hv j. destruct (decide (j = id)) as [->|Hj]; [by rewrite lookup_insert_eq|].
  rewrite lookup_insert_ne by done. eapply holds_only; eauto.
Qed.

Ltac only_tac :=
  intros ? ?; unfold extent_server.upd_attr, extent_server.put, map_update; cbn;
  rewrite ?lookup_insert_ne, ?lookup_delete_ne, ?map_touch_lookup_ne by done; done.

(** *** The server's files *)

Lemma at_server_put now id x s :
  size_ok x → is_Some (extent_server.fileid_mode_m s !! id) →
  at_server (snd (extent_server.put now id x s)) id (Some x).
Proof.
  intros Hx Hm. unfold at_server, extent_server.put. cbn. rewrite !lookup_insert_eq. split; [done|].
  intros ? [= <-]. split_and!; [done| |done]. eexists. split; [done|]. by apply size_u32.
Qed.

Lemma at_server_upd_attr id f x s :
  (∀ a, size_ (f a) = size_ a) → at_server s id (Some x) → at_server (extent_server.upd_attr id f s) id (Some x).
Proof.
  intros Hf (Hc & H). destruct (H x eq_refl) as (Hx & (a & Ha & Hs) & Hm).
  split; [done|]. intros ? [= <-]. split_and!; [done| |done].
  exists (f a). unfold extent_server.upd_attr, map_update. cbn. rewrite lookup_insert_eq.
  rewrite (map_at_some _ _ _ _ Ha). split; [done|]. unfold sized_as. by rewrite Hf.
Qed.

Lemma at_server_mode id mode x s :
  at_server s id (Some x) → at_server (extent_server.on_mode <[id := mode]> s) id (Some x).
Proof.
  intros (Hc & H). destruct (H x eq_refl) as (Hx & Ha & Hm). split; [done|]. intros ? [= <-].
  split_and!; [done|done|]. cbn. rewrite lookup_insert_eq. eauto.
Qed.

Lemma at_server_getattr id x s :
  at_server s id (Some x) →
  ∃ a, extent_server.getattr id extent_server.attr0 s = (OK, a, s) ∧ sized_as a x.
Proof.
  intros (_ & H). destruct (H x eq_refl) as (Hx & (a & Ha & Hs) & Hm). exists a. split; [|done].
  unfold extent_server.getattr. rewrite (proj2 (map_count_true _ _)) by eauto.
  by rewrite (map_at_some _ _ _ _ Ha).
Qed.

Lemma at_server_getMode id x s :
  at_server s id (Some x) → ∃ m, extent_server.getMode id 0 s = (OK, m, s).
Proof.
  intros (_ & H). destruct (H x eq_refl) as (Hx & _ & [m Hm]). exists m. unfold extent_server.getMode.
  rewrite (proj2 (map_count_true _ _)) by eauto. by rewrite (map_at_some _ _ _ _ Hm).
Qed.

Lemma at_server_get now id off size x s :
  at_server s id (Some x) → 0 <= off <= Z.of_nat (length x) →
  extent_server.get now id off size [] s
  = Some (OK, take (Z.to_nat size) (drop (Z.to_nat off) x), extent_server.upd_attr id (extent_server.set_atime (u32 now)) s).
Proof.
  intros (Hc & H) Ho. destruct (H x eq_refl) as (Hx & _). unfold size_ok, string_max_size in Hx.
  unfold extent_server.get. rewrite (proj2 (map_count_true _ _)) by eauto.
  rewrite (map_at_some _ _ _ _ Hc), (u32_id off) by (unfold_int; lia). unfold string_substr.
  destruct (Z.leb_spec off (Z.of_nat (length x))); [done|lia].
Qed.

(** [setAttr] with the size the file has only sets the times. *)
Lemma at_server_setAttr now id a x s :
  at_server s id (Some x) → sized_as a x →
  ∃ s', extent_server.setAttr now id a s = Some (OK, s') ∧ at_server s' id (Some x) ∧ ∀ c, only id c c s s'.
Proof.
  intros Hs Ha. pose proof Hs as (Hc & H). destruct (H x eq_refl) as (Hx & (a0 & Ha0 & _) & Hm).
  unfold extent_server.setAttr. rewrite (proj2 (map_count_true _ _)) by eauto. cbn [negb].
  rewrite (map_at_some _ _ _ _ Hc), <- Ha, Z.eqb_refl. cbn [negb].
  assert (Ht : extent_server.on_content (map_touch [] id) s = s).
  { unfold extent_server.on_content, map_touch. rewrite Hc. by destruct s. }
  rewrite Ht. eexists. split; [done|]. split; [by apply at_server_upd_attr|]. intros c. only_tac.
Qed.

(** *** Operations *)

(** An operation on [id]: it succeeds with result [r], touches only [id], and leaves [x']
    there. *)
Definition effect (now junk : Z) (o : fop) (c : t) (s : extent_server.t) (id : Z) (r : fres) (x' : cstring) : Prop :=
  ∃ c' s', do_op now junk o c s = Some (r, c', s') ∧ only id c c' s s' ∧ holds c' s' id (Some x').

Lemma uncached id c : cache_status c !! id = None → cached id c = false.
Proof. apply map_count_false. Qed.

Lemma is_cached id c st : cache_status c !! id = Some st → cached id c = true.
Proof. intros. apply map_count_true. eauto. Qed.

Lemma status_is_eq id c st x : cache_status c !! id = Some st → status_is id x c = bool_decide (st = x).
Proof. intros E. unfold status_is. by rewrite (map_at_some _ _ _ _ E). Qed.

Lemma touch_same {V} (d : V) id v (m : gmap Z V) : m !! id = Some v → map_touch d id m = m.
Proof. intros E. unfold map_touch. by rewrite E. Qed.

(** The cache entry of a file, at hand. *)
Ltac cached_file H :=
  let st := fresh "st" in
  destruct H as (?data & ?a & ?y & [= <-] & ?Hcon & ?Hsz & ?Ha & ?Has & ?Hmd & ?Hsrv & ?Hst).

Lemma size_effect now junk id x c s :
  holds c s id (Some x) → effect now junk (FSize id) c s id (Size (Z.of_nat (length x))) x.
Proof.
  intros Hh. pose proof Hh as Hh0. unfold holds in Hh. unfold effect, do_op, getAttr.
  destruct (cache_status c !! id) as [st|] eqn:E.
  - cached_file Hh. rewrite (is_cached _ _ _ E). cbn [negb mbind option_bind].
    rewrite (map_at_some _ _ _ _ Ha), Has. eexists _, _. split; [done|]. 
    assert (on_attr (map_touch extent_server.attr0 id) c = c) as ->
      by (unfold on_attr; rewrite (touch_same _ _ _ _ Ha); by destruct c).
    split; [only_tac|done].
  - rewrite (uncached _ _ E). cbn. destruct (at_server_getattr _ _ _ Hh) as (a & -> & Hsa).
    cbn. rewrite Hsa. eexists _, _. split; [done|]. split; [only_tac|done].
Qed.

Lemma chmod_effect now junk id mode x c s :
  holds c s id (Some x) → effect now junk (FChmod id mode) c s id Done x.
Proof.
  intros Hh. unfold holds in Hh. unfold effect, do_op, setMode.
  destruct (cache_status c !! id) as [st|] eqn:E.
  - cached_file Hh. rewrite (is_cached _ _ _ E). cbn [negb mbind option_bind].
    eexists _, _. split; [done|]. split; [only_tac|]. unfold holds, map_update. cbn.
    rewrite !lookup_insert_eq, (map_at_some _ _ _ _ Ha). eexists x, _, y. split_and!; eauto.
    destruct st; subst; done.
  - rewrite (uncached _ _ E). cbn. eexists _, _. split; [done|]. split; [only_tac|].
    unfold holds. rewrite E. apply at_server_upd_attr; [done|]. by apply at_server_mode.
Qed.

Lemma utimes_effect now junk id a0 x c s :
  holds c s id (Some x) → sized_as a0 x → effect now junk (FUtimes id a0) c s id Done x.
Proof.
  intros Hh Hs. unfold holds in Hh. unfold effect, do_op, setAttr.
  destruct (cache_status c !! id) as [st|] eqn:E.
  - cached_file Hh. rewrite (is_cached _ _ _ E). cbn [negb mbind option_bind].
    eexists _, _. split; [done|]. split; [only_tac|]. unfold holds. cbn.
    rewrite !lookup_insert_eq. eexists x, _, y. split_and!; eauto. destruct st; subst; done.
  - rewrite (uncached _ _ E). cbn. destruct (at_server_setAttr now _ _ _ _ Hh Hs) as (s' & -> & H' & Ho).
    cbn. eexists _, _. split; [done|]. split; [done|]. unfold holds. by rewrite E.
Qed.

Lemma write_effect now junk id off buf x c s :
  holds c s id (Some x) → 0 <= off → off + Z.of_nat (length buf) <= string_max_size →
  effect now junk (FWrite id off buf) c s id Done (write_at (Z.to_nat off) buf x).
Proof.
  intros Hh Hoff Hmax. unfold holds in Hh. unfold effect, do_op, write.
  destruct (cache_status c !! id) as [st|] eqn:E.
  - cached_file Hh. rewrite (is_cached _ _ _ E). cbn [negb]. rewrite (status_is_eq _ _ _ _ E).
    rewrite bool_decide_false by (intros ->; done). rewrite (map_at_some _ _ _ _ Hcon).
    pose proof (cached_write off buf x Hoff Hmax) as Hw. apply bind_Some in Hw as (c1 & -> & Hw).
    cbn [mbind option_bind]. rewrite Hw. cbn.
    eexists _, _. split; [done|]. split; [only_tac|]. unfold holds. cbn. rewrite !lookup_insert_eq.
    pose proof (size_write_at off buf x Hsz Hoff Hmax). eexists _, _, y.
    split_and!; [done|done|done|done|by apply size_u32|done|done|].
    rewrite length_write_at. destruct st; subst; lia.
  - rewrite (uncached _ _ E). cbn [negb]. rewrite Nat2Z.id, take_ge by lia.
    unfold string_max_size in Hmax. rewrite u32_id, u64_id by (unfold_int; lia).
    cbn [es_write extent_server_service]. destruct Hh as (Hc & H). destruct (H x eq_refl) as (Hx & _ & Hm).
    rewrite (server_write _ _ _ _ x) by (unfold string_max_size; done || lia). cbn.
    eexists _, _. split; [done|]. split; [only_tac|]. unfold holds. rewrite E.
    apply at_server_put; [by apply size_write_at|done].
Qed.
(** A read of a file not in the cache fetches and enters it. *)
Lemma read_fetches now junk id off size x c s :
  cache_status c !! id = None → at_server s id (Some x) → 0 <= off <= Z.of_nat (length x) →
  ∃ a mode, sized_as a x ∧
    read now id off size junk [] c s
    = Some (OK, take (Z.to_nat size) (drop (Z.to_nat off) x), enter id x a mode CACHED c,
            extent_server.upd_attr id (extent_server.set_atime (u32 now)) s).
Proof.
  intros E Hs Ho. set (s1 := extent_server.upd_attr id (extent_server.set_atime (u32 now)) s).
  assert (Hs1 : at_server s1 id (Some x)) by (by apply at_server_upd_attr).
  destruct (at_server_getattr _ _ _ Hs) as (a & Ha & Has).
  destruct (at_server_getattr _ _ _ Hs1) as (a1 & Ha1 & Has1).
  destruct (at_server_getMode _ _ _ Hs1) as (mode & Hm).
  exists a1, mode. split; [done|].
  assert (Hattr : ∀ s a, extent_server.getattr id extent_server.attr0 s = (OK, a, s) →
    getAttr id c s = Some (OK, a, c, s)).
  { intros ? ? Hg. unfold getAttr. rewrite (uncached _ _ E). cbn. by rewrite Hg. }
  assert (Hmode : getMode id junk c s1 = Some (OK, mode, c, s1)).
  { unfold getMode. rewrite (uncached _ _ E). cbn. by rewrite Hm. }
  unfold read. rewrite (uncached _ _ E), (Hattr _ _ Ha). cbn [negb mbind option_bind es_get extent_server_service].
  rewrite Has, (at_server_get now id 0 _ x) by (done || lia). rewrite drop_0, take_ge by lia. fold s1.
  cbn [assert Z.eqb OK extent_server.OK mbind option_bind].
  rewrite (Hattr _ _ Ha1). cbn [mbind option_bind]. rewrite Hmode. cbn [assert Z.eqb OK mbind option_bind].
  destruct Hs as (_ & H). destruct (H x eq_refl) as (Hx & _). unfold size_ok, string_max_size in Hx.
  rewrite u32_id by (unfold_int; lia). unfold string_substr.
  destruct (Z.leb_spec off (Z.of_nat (length x))); [done|lia].
Qed.

Lemma read_effect now junk id off size x c s :
  holds c s id (Some x) → 0 <= off <= Z.of_nat (length x) →
  effect now junk (FRead id off size) c s id (Data (take (Z.to_nat size) (drop (Z.to_nat off) x))) x.
Proof.
  intros Hh Ho. unfold holds in Hh. unfold effect, do_op.
  destruct (cache_status c !! id) as [st|] eqn:E.
  - cached_file Hh. unfold read. rewrite (is_cached _ _ _ E). cbn [negb]. rewrite (status_is_eq _ _ _ _ E).
    rewrite bool_decide_false by (intros ->; done). cbn [on_attr cache_content]. rewrite (map_at_some _ _ _ _ Hcon).
    unfold size_ok, string_max_size in Hsz. rewrite (u32_id off) by (unfold_int; lia). unfold string_substr.
    destruct (Z.leb_spec off (Z.of_nat (length x))); [|lia]. cbn.
    eexists _, _. split; [done|]. split; [only_tac|]. unfold holds, map_update. cbn.
    rewrite E, lookup_insert_eq, (map_at_some _ _ _ _ Ha), (touch_same _ _ _ _ Hcon).
    eexists x, _, y. split_and!; eauto.
  - destruct (read_fetches now junk id off size x c s E Hh Ho) as (a & mode & Ha & ->). cbn.
    eexists _, _. split; [done|]. split; [only_tac|]. unfold holds, enter. cbn. rewrite !lookup_insert_eq.
    destruct Hh as (Hc & H). destruct (H x eq_refl) as (Hx & _).
    eexists x, a, x. split_and!; eauto. by apply at_server_upd_attr.
Qed.

Lemma evicted id c : cache_status (evict id c) !! id = None.
Proof. cbn. apply lookup_delete_eq. Qed.

(** Writing back: whole content, then times, then mode. *)
Lemma write_back now id x a y mode s :
  at_server s id (Some y) → (length y <= length x)%nat → size_ok x → sized_as a x →
  ∃ s1 s2, extent_server.write now id 0 (size_ a) x s = Some (OK, s1) ∧
    extent_server.setAttr now id a s1 = Some (OK, s2) ∧
    at_server (snd (extent_server.setMode now id mode s2)) id (Some x) ∧
    ∀ c, only id c c s (snd (extent_server.setMode now id mode s2)).
Proof.
  intros (Hc & H) Hl Hx Ha. destruct (H y eq_refl) as (Hy & _ & Hm).
  pose proof Hx as Hx0. unfold size_ok in Hx0. set (s1 := snd (extent_server.put now id x s)).
  destruct (at_server_setAttr now id a x s1) as (s2 & E2 & Hs2 & Ho2); [by apply at_server_put|done|].
  exists s1, s2. split_and!; [|done| |].
  - rewrite Ha, (server_write _ _ _ _ y) by (done || lia). by rewrite write_at_all.
  - apply at_server_upd_attr; [done|]. by apply at_server_mode.
  - intros c j Hj. destruct (Ho2 c j Hj) as (_ & E5 & E6 & E7). split; [done|].
    cbn. unfold map_update. rewrite !lookup_insert_ne by done.
    rewrite E5, E6, E7. subst s1. cbn. by rewrite !lookup_insert_ne by done.
Qed.

Lemma only_evict id c s s' : only id c c s s' → only id c (evict id c) s s'.
Proof.
  intros Ho j Hj. destruct (Ho j Hj) as (_ & Hs). split; [|done]. cbn. by rewrite !lookup_delete_ne by done.
Qed.

Lemma flush_effect now junk id x c s :
  holds c s id (Some x) → effect now junk (FFlush id) c s id Done x.
Proof.
  intros Hh. pose proof Hh as Hh0. unfold holds in Hh. unfold effect, do_op, flush.
  destruct (cache_status c !! id) as [st|] eqn:E.
  - cached_file Hh. rewrite (is_cached _ _ _ E). cbn [negb]. rewrite (status_is_eq _ _ _ _ E).
    assert (Hdone : ∀ s', at_server s' id (Some x) → (∀ c, only id c c s s') →
      only id c (evict id c) s s' ∧ holds (evict id c) s' id (Some x)).
    { intros s' Hs' Ho. split; [by apply only_evict|]. unfold holds. by rewrite evicted. }
    destruct st; [| |done].
    + subst y. rewrite bool_decide_false by done. cbn. eexists _, _. split; [done|]. apply Hdone; [done|].
      intros ?; only_tac.
    + rewrite bool_decide_true by done. rewrite (map_at_some _ _ _ _ Ha), (map_at_some _ _ _ _ Hcon).
      destruct Hmd as [mode Hmd]. rewrite (map_at_some _ _ _ _ Hmd).
      destruct (write_back now id x a y mode s) as (s1 & s2 & E1 & E2 & E3 & E4); [done..|].
      cbn [es_write es_setAttr extent_server_service]. rewrite E1. cbn [mbind option_bind].
      rewrite E2. cbn. eexists _, _. split; [done|]. by apply Hdone.
  - rewrite (uncached _ _ E). cbn. eexists _, _. split; [done|]. split; [only_tac|done].
Qed.

(** *** The refinement *)

Lemma flush_absent now id c s : cache_status c !! id = None → flush now id c s = Some (c, s).
Proof. intros E. unfold flush. by rewrite (uncached _ _ E). Qed.

Definition fop_id (o : fop) : Z :=
  match o with
  | FRead id _ _ | FWrite id _ _ | FFlush id | FSize id | FChmod id _ | FUtimes id _ => id
  end.

(** An operation only needs the file it is about. *)
Lemma op_effect now junk o c s m :
  holds c s (fop_id o) (m !! fop_id o) → fop_ok o m → (∀ id, o = FFlush id → is_Some (m !! id)) →
  ∃ x', effect now junk o c s (fop_id o) (fst (spec_op o m)) x' ∧ snd (spec_op o m) = <[fop_id o := x']> m.
Proof.
  intros Hh Hok Hfl.
  destruct o as [id off size|id off buf|id|id|id mode|id a]; cbn [fop_id fst snd spec_op fop_ok] in *.
  - destruct Hok as ([x Hx] & Ho & _). rewrite Hx in Hh. rewrite (map_at_some _ _ _ _ Hx) in *.
    exists x. split; [by apply read_effect|by rewrite insert_id].
  - destruct Hok as ([x Hx] & Ho & Hl). rewrite Hx in Hh. unfold map_update. rewrite (map_at_some _ _ _ _ Hx).
    eexists. split; [by apply write_effect|done].
  - destruct (Hfl id eq_refl) as [x Hx]. rewrite Hx in Hh. exists x. split; [by apply flush_effect|by rewrite insert_id].
  - destruct Hok as [x Hx]. rewrite Hx in Hh. rewrite (map_at_some _ _ _ _ Hx).
    exists x. split; [by apply size_effect|by rewrite insert_id].
  - destruct Hok as [x Hx]. rewrite Hx in Hh. exists x. split; [by apply chmod_effect|by rewrite insert_id].
  - destruct Hok as (x & Hx & Ha). rewrite Hx in Hh. exists x. split; [by apply utimes_effect|by rewrite insert_id].
Qed.

(** A file that does not exist is not cached. *)
Lemma absent_uncached c s id : holds c s id None → cache_status c !! id = None.
Proof. unfold holds. destruct (cache_status c !! id); [|done]. by intros (? & ? & ? & ? & _). Qed.

Lemma op_refines now junk o c s m :
  represents c s m → fop_ok o m →
  ∃ c' s', do_op now junk o c s = Some (fst (spec_op o m), c', s') ∧ represents c' s' (snd (spec_op o m)).
Proof.
  intros Hr Hok.
  assert ((∃ id, o = FFlush id ∧ m !! id = None) ∨ ∀ id, o = FFlush id → is_Some (m !! id)) as [(id & -> & Hx)|Hfl].
  { destruct o as [| |id| | |]; try (right; by intros). destruct (m !! id) eqn:E; [|by left; eauto].
    right. intros ? [= <-]. eauto. }
  - exists c, s. cbn. rewrite flush_absent; [done|]. eapply absent_uncached. rewrite <- Hx. apply Hr.
  - destruct (op_effect now junk o c s m (Hr _) Hok Hfl) as (x' & (c' & s' & E & Ho & Hh) & Hm).
    exists c', s'. split; [done|]. rewrite Hm. by eapply represents_insert.
Qed.

(** Sequences of operations, each at its time. *)
Fixpoint do_ops (l : list (Z * Z * fop)) (c : t) (s : extent_server.t)
    : option (list fres * t * extent_server.t) :=
  match l with
  | [] => Some ([], c, s)
  | (now, junk, o) :: l =>
      '(r, c, s) ← do_op now junk o c s; '(rs, c, s) ← do_ops l c s; Some (r :: rs, c, s)
  end.

Fixpoint spec_ops (l : list fop) (m : gmap Z cstring) : list fres * gmap Z cstring :=
  match l with
  | [] => ([], m)
  | o :: l => let '(r, m) := spec_op o m in let '(rs, m) := spec_ops l m in (r :: rs, m)
  end.

Fixpoint ops_ok (l : list fop) (m : gmap Z cstring) : Prop :=
  match l with [] => True | o :: l => fop_ok o m ∧ ops_ok l (snd (spec_op o m)) end.

(** C15. The cache is transparent.  Whatever is cached and modified, every sequence of reads,
    writes, size queries, mode and time changes and write-backs of existing files, the offsets
    within the limits, runs without a failed assertion or an exception, returns what a single
    store of files returns, and cache and server together again represent that store's
    files: a write is seen by the reads that follow it, before and after the file is flushed,
    and a flush of one file changes no other. *)
Theorem cache_refines l c s m :
  represents c s m → ops_ok (map snd l) m →
  ∃ c' s', do_ops l c s = Some (fst (spec_ops (map snd l) m), c', s') ∧
           represents c' s' (snd (spec_ops (map snd l) m)).
Proof.
  revert c s m. induction l as [|[[now junk] o] l IH]; intros c s m Hr Hok; [by exists c, s|].
  destruct Hok as [Ho Hok]. destruct (op_refines now junk o c s m Hr Ho) as (c1 & s1 & E1 & Hr1).
  cbn [do_ops map snd spec_ops] in *. destruct (spec_op o m) as [r m1].
  cbn [fst snd] in *. destruct (IH c1 s1 m1 Hr1 Hok) as (c2 & s2 & E2 & Hr2).
  exists c2, s2. rewrite E1. cbn [mbind option_bind]. rewrite E2. cbn [mbind option_bind].
  destruct (spec_ops (map snd l) m1) as [rs m2]. done.
Qed.

(** A client that has just been started, at a server whose files are known. *)
Lemma represents_start s :
  (∀ id x, extent_server.fileid_content_m s !! id = Some x → at_server s id (Some x)) →
  represents new_extent_client s (extent_server.fileid_content_m s).
Proof.
  intros Hs id. unfold holds. cbn. rewrite lookup_empty.
  destruct (extent_server.fileid_content_m s !! id) eqn:E; [by apply Hs|]. by split.
Qed.

(** A server with one file, and a client that has it in its cache. *)
Definition one_file (id : Z) (x : cstring) : extent_server.t :=
  snd (extent_server.put 5 id x (extent_server.on_mode <[id := 420]> (extent_server.new_extent_server 0))).

Definition one_cached (id : Z) (x : cstring) (st : c_status) : t :=
  enter id x (Attr 5 5 5 (Z.of_nat (length x))) 420 st new_extent_client.

Lemma at_one_file id x : size_ok x → at_server (one_file id x) id (Some x).
Proof. intros Hx. apply at_server_put; [done|]. cbn. rewrite lookup_insert_eq. eauto. Qed.

Lemma one_file_represents id x : size_ok x → represents new_extent_client (one_file id x) {[id := x]}.
Proof.
  intros Hx. apply (represents_start (one_file id x)). intros j y Hy.
  apply (lookup_singleton_Some (M := gmap Z) id j x y) in Hy as [<- <-]. by apply at_one_file.
Qed.

Lemma holds_one id x : size_ok x → holds (one_cached id x CACHED) (one_file id x) id (Some x).
Proof.
  intros Hx. unfold holds. cbn. rewrite !lookup_insert_eq. eexists x, _, x.
  split_and!; eauto; [done|by apply at_one_file].
Qed.

(** Read three bytes, write behind the end, flush, read all. *)
Lemma cache_refines_witness :
  let ops := [(10, 0, FRead 7 0 3); (11, 0, FWrite 7 4 ($"xy")); (12, 0, FSize 7);
              (13, 0, FFlush 7); (14, 0, FChmod 7 511); (15, 0, FRead 7 0 100)] in
  fst (spec_ops (map snd ops) {[7 := $"abc"]})
    = [Data ($"abc"); Done; Size 6; Done; Done; Data ($"abc" ++ ["000"%char] ++ $"xy")] ∧
  ∃ c' s', do_ops ops new_extent_client (one_file 7 ($"abc"))
    = Some (fst (spec_ops (map snd ops) {[7 := $"abc"]}), c', s').
Proof.
  intros ops. split; [vm_compute; reflexivity|].
  destruct (cache_refines ops new_extent_client (one_file 7 ($"abc")) {[7 := $"abc"]}) as (c' & s' & E & _).
  - apply one_file_represents. vm_compute. discriminate.
  - cbn. split_and!; try (vm_compute; (discriminate || (eexists; reflexivity))); exact I.
  - exists c', s'. exact E.
Defined.

(** Setting the attributes of a cached file, which is how a file is truncated or
    extended, changes the attributes only: the call returns [OK] and [getAttr] reports the new
    size, but a read still returns the whole old content, until the file is flushed. *)
Theorem truncate_invisible now now' junk id a x st c s :
  cache_status c !! id = Some st → holds c s id (Some x) →
  ∃ c', setAttr now id a c s = Some (OK, c', s) ∧
    getAttr id c' s = Some (OK, a, on_attr (map_touch extent_server.attr0 id) c', s) ∧
    ∃ c'', read now' id 0 (Z.of_nat (length x)) junk [] c' s = Some (OK, x, c'', s).
Proof.
  intros E Hh. unfold holds in Hh. rewrite E in Hh. cached_file Hh.
  unfold setAttr. rewrite (is_cached _ _ _ E). cbn [negb]. eexists. split; [done|].
  set (c' := on_status _ _).
  assert (E' : cache_status c' !! id = Some MODIFIED) by (cbn; apply lookup_insert_eq).
  unfold getAttr, read. rewrite (is_cached _ _ _ E'). cbn [negb]. rewrite (status_is_eq _ _ _ _ E').
  rewrite bool_decide_false by done. split.
  - rewrite (map_at_some _ _ _ a); [done|]. cbn. apply lookup_insert_eq.
  - rewrite (map_at_some _ _ _ x) by done. eexists. unfold string_substr.
    rewrite (u32_id 0) by done. destruct (Z.leb_spec 0 (Z.of_nat (length x))); [|lia].
    cbn [mbind option_bind]. by rewrite drop_0, Nat2Z.id, take_ge by lia.
Qed.

Lemma truncate_invisible_witness :
  ∃ c', setAttr 9 7 (Attr 1 1 1 0) (one_cached 7 ($"abc") CACHED) (one_file 7 ($"abc")) = Some (OK, c', one_file 7 ($"abc")) ∧
    ∃ c'', read 10 7 0 3 0 [] c' (one_file 7 ($"abc")) = Some (OK, $"abc", c'', one_file 7 ($"abc")).
Proof.
  destruct (truncate_invisible 9 10 0 7 (Attr 1 1 1 0) ($"abc") CACHED (one_cached 7 ($"abc") CACHED) (one_file 7 ($"abc")))
    as (c' & H1 & _ & H3); [apply lookup_insert_eq|apply holds_one; vm_compute; discriminate|].
  exists c'. split; [exact H1|exact H3].
Defined.

(** Removing a file through its directory leaves the file's own cache entry as it is
    (the entry that is marked is the one of the directory).  If the file has been modified, the
    flush that follows fails its assertion, because the server does not know the file. *)
Theorem removed_flush_aborts now now' pid name id c s :
  extent_server.linked s → extent_server.entry s pid name id → extent_server.isfile id = true →
  cache_status c !! id = Some MODIFIED → id ≠ pid →
  ∃ c' s', remove now pid name c s = Some (OK, c', s') ∧ cache_content c' = cache_content c ∧
    extent_server.fileid_content_m s' !! id = None ∧ flush now' id c' s' = None.
Proof.
  intros L He Hf E Hne.
  destruct (extent_server.remove_ok now now now pid name id s L He) as (s' & Hrm & _ & Hc & _).
  { by apply extent_server.linked_file_leaf. }
  set (c' := if cached pid c then on_status <[pid := REMOVED]> c else c).
  exists c', s'. unfold remove. cbn [es_remove extent_server_service]. rewrite Hrm. cbn [mbind option_bind].
  split; [done|]. split; [by unfold c'; destruct (cached pid c)|].
  assert (Hs' : extent_server.fileid_content_m s' !! id = None) by (rewrite Hc; by rewrite decide_True).
  split; [done|].
  assert (E' : cache_status c' !! id = Some MODIFIED).
  { unfold c'. destruct (cached pid c); [|done]. cbn. by rewrite lookup_insert_ne. }
  unfold flush. rewrite (is_cached _ _ _ E'), (status_is_eq _ _ _ _ E'). cbn [negb].
  rewrite bool_decide_true by done. cbn [es_write extent_server_service].
  unfold extent_server.write. by rewrite (proj2 (map_count_false _ _) Hs').
Qed.

Lemma removed_flush_aborts_witness :
  ∃ c' s', remove 9 7 ($"b") (one_cached 2147483657 ($"new") MODIFIED) extent_server.demo = Some (OK, c', s') ∧
    flush 10 2147483657 c' s' = None.
Proof.
  destruct (removed_flush_aborts 9 10 7 ($"b") 2147483657 (one_cached 2147483657 ($"new") MODIFIED) extent_server.demo)
    as (c' & s' & H1 & _ & _ & H2);
    [apply extent_server.demo_linked|vm_compute; reflexivity|vm_compute; reflexivity|apply lookup_insert_eq|discriminate|].
  exists c', s'. split; [exact H1|exact H2].
Defined.
End file_cache.
