(* ===== verification/Streams.v ===== *)
(** * Text streams

    What the log, the configuration and the lock server use of [<iostream>] and
    [<sstream>]: decimal output of [unsigned], and the input operations
    [>> std::string], [>> unsigned], [get] and [getline] with the stream's
    [eofbit] and [failbit]. *)

From S2P Require Import Prelude.

(** ** Decimal output: [f << n] *)

Definition digit_char (d : Z) : ascii := char_of (48 + d).
Definition digit_val (c : ascii) : Z := byte_of c - 48.
Definition isdigit (c : ascii) : bool := (48 <=? byte_of c) && (byte_of c <=? 57).

(** [std::isspace] in the "C" locale. *)
Definition isspace (c : ascii) : bool :=
  (byte_of c =? 32) || ((9 <=? byte_of c) && (byte_of c <=? 13)).

Definition newline : ascii := "010"%char.

Fixpoint dec_aux (k : nat) (n : Z) (acc : cstring) : cstring :=
  match k with
  | O => acc
  | S k => let acc := digit_char (n mod 10) :: acc in
           if n / 10 =? 0 then acc else dec_aux k (n / 10) acc
  end.

(** Ten digits are enough for a 32-bit number. *)
Definition dec (n : Z) : cstring := dec_aux 10 n [].
Arguments dec : simpl never.

Definition dec_value (v : Z) (l : cstring) : Z := foldl (λ v c, v * 10 + digit_val c) v l.

(** ** Input streams *)

Record istream := Is { is_rest : cstring; is_eof : bool; is_fail : bool }.

Definition is_good (s : istream) : bool := negb (is_eof s) && negb (is_fail s).
Definition is_setfail (s : istream) : istream := Is (is_rest s) (is_eof s) true.
Definition is_open (s : cstring) : istream := Is s false false.

Fixpoint skip_ws (l : cstring) : cstring :=
  match l with c :: l' => if isspace c then skip_ws l' else l | [] => [] end.

Fixpoint span (p : ascii → bool) (l : cstring) : cstring * cstring :=
  match l with
  | c :: l' => if p c then let '(a, b) := span p l' in (c :: a, b) else ([], l)
  | [] => ([], [])
  end.

Definition at_end (l : cstring) : bool := match l with [] => true | _ => false end.

(** The sentry of a formatted input operation: leading blanks are skipped; on a
    stream that is not good, or at its end, the operation fails. *)
Definition is_sentry (s : istream) : option cstring * istream :=
  if is_good s then
    match skip_ws (is_rest s) with
    | [] => (None, Is [] true true)
    | l => (Some l, s)
    end
  else (None, is_setfail s).

(** [s >> w] for a string: the variable keeps its value when the sentry fails. *)
Definition read_word (w : cstring) (s : istream) : cstring * istream :=
  match is_sentry s with
  | (Some l, _) => let '(w, r) := span (negb ∘ isspace) l in (w, Is r (at_end r) false)
  | (None, s) => (w, s)
  end.

(** [s >> n] for an unsigned type of [w] bits: an optional sign and decimal digits. *)
Definition read_uint (w n : Z) (s : istream) : Z * istream :=
  match is_sentry s with
  | (Some l, _) =>
      let '(neg, l) := match l with
                       | c :: l' => if byte_of c =? 45 then (true, l')
                                    else if byte_of c =? 43 then (false, l') else (false, l)
                       | [] => (false, l)
                       end in
      let '(ds, r) := span isdigit l in
      match ds with
      | [] => (0, Is r (at_end r) true)
      | _ => let v := dec_value 0 ds in
             if v >? 2 ^ w - 1 then (2 ^ w - 1, Is r (at_end r) true)
             else ((if neg then (- v) mod 2 ^ w else v), Is r (at_end r) false)
      end
  | (None, s) => (n, s)
  end.
Definition read_unsigned (n : Z) (s : istream) : Z * istream := read_uint 32 n s.

(** [s.get()], the character unused. *)
Definition read_char (s : istream) : istream :=
  if is_good s then
    match is_rest s with
    | [] => Is [] true true
    | _ :: r => Is r false false
    end
  else is_setfail s.

(** [getline(s, v)] *)
Definition read_line (v : cstring) (s : istream) : cstring * istream :=
  if is_good s then
    match is_rest s with
    | [] => ([], Is [] true true)
    | _ => let '(l, r) := span (λ c, negb (bool_decide (c = newline))) (is_rest s) in
           match r with
           | _ :: r => (l, Is r false false)
           | [] => (l, Is [] true false)
           end
    end
  else (v, is_setfail s).

(** ** Facts about the operations *)

Lemma span_app p l c r :
  Forall (λ x, p x = true) l → p c = false → span p (l ++ c :: r) = (l, c :: r).
Proof.
  intros Hl Hc. induction Hl as [|x l Hx _ IH]; simpl; [by rewrite Hc|].
  by rewrite Hx, IH.
Qed.

Lemma span_all p l : Forall (λ x, p x = true) l → span p l = (l, []).
Proof. induction 1 as [|x l Hx _ IH]; simpl; [done|]. by rewrite Hx, IH. Qed.

Lemma span_length p l : (length (span p l).2 ≤ length l)%nat.
Proof.
  induction l as [|c l IH]; simpl; [lia|]. destruct (p c); [|simpl; lia].
  destruct (span p l); simpl in *; lia.
Qed.

Lemma skip_ws_length l : (length (skip_ws l) ≤ length l)%nat.
Proof. induction l as [|c l IH]; simpl; [lia|]. destruct (isspace c); simpl; lia. Qed.

Lemma skip_ws_head l c r : skip_ws l = c :: r → isspace c = false.
Proof.
  induction l as [|x l IH]; simpl; [done|]. destruct (isspace x) eqn:E; [done|].
  by intros [= <- _].
Qed.

Lemma skip_ws_id c r : isspace c = false → skip_ws (c :: r) = c :: r.
Proof. simpl. by intros ->. Qed.

Definition no_space (l : cstring) : Prop := Forall (λ c, isspace c = false) l.
Definition no_newline (l : cstring) : Prop := Forall (λ c, c ≠ newline) l.

#[export] Instance no_space_dec l : Decision (no_space l).
Proof. unfold no_space. apply _. Defined.
#[export] Instance no_newline_dec l : Decision (no_newline l).
Proof. unfold no_newline. apply _. Defined.

(** A word, then a blank. *)
Lemma read_word_eq w0 w c r :
  w ≠ [] → no_space w → isspace c = true →
  read_word w0 (is_open (w ++ c :: r)) = (w, is_open (c :: r)).
Proof.
  intros Hne Hw Hc. unfold read_word, is_sentry, is_open. cbn.
  destruct w as [|x w]; [done|]. apply Forall_cons in Hw as [Hx Hw].
  cbn [app]. rewrite skip_ws_id by done.
  change (x :: w ++ c :: r) with ((x :: w) ++ c :: r).
  rewrite span_app; [done| |unfold compose; cbn; by rewrite Hc].
  constructor; [unfold compose; cbn; by rewrite Hx|].
  eapply Forall_impl; [exact Hw|]. intros y Hy. unfold compose. cbn. by rewrite Hy.
Qed.

Lemma read_word_ws w0 w b c r :
  isspace b = true → w ≠ [] → no_space w → isspace c = true →
  read_word w0 (is_open (b :: w ++ c :: r)) = (w, is_open (c :: r)).
Proof.
  intros Hb Hne Hw Hc. rewrite <- (read_word_eq w0 w c r Hne Hw Hc).
  unfold read_word, is_sentry, is_open. cbn. rewrite Hb. by destruct (skip_ws _).
Qed.

Lemma read_word_end w0 : read_word w0 (is_open []) = (w0, Is [] true true).
Proof. done. Qed.

Lemma read_char_eq c r : read_char (is_open (c :: r)) = is_open r.
Proof. done. Qed.

Lemma read_line_eq v0 v r :
  no_newline v → read_line v0 (is_open (v ++ newline :: r)) = (v, is_open r).
Proof.
  intros Hv. unfold read_line, is_open. cbn.
  destruct (v ++ newline :: r) eqn:E; [by destruct v|]. rewrite <- E.
  rewrite span_app; [done| |by rewrite bool_decide_eq_true_2].
  eapply Forall_impl; [exact Hv|]. intros y Hy. by rewrite bool_decide_eq_false_2.
Qed.

(** *** Decimal numbers *)

Lemma digit_val_char d : 0 <= d < 10 → digit_val (digit_char d) = d.
Proof.
  intros Hd. unfold digit_val, digit_char. rewrite byte_of_char_of. unfold u8.
  rewrite Z.mod_small; lia.
Qed.

Lemma isdigit_digit_char d : 0 <= d < 10 → isdigit (digit_char d) = true.
Proof.
  intros Hd. pose proof (digit_val_char d Hd) as H. unfold digit_val in H. unfold isdigit. lia.
Qed.

Lemma dec_aux_value k n acc v :
  0 <= n < 10 ^ Z.of_nat k → (0 < k)%nat → v = 0 →
  dec_value v (dec_aux k n acc) = dec_value n acc.
Proof.
  intros Hn Hk ->. revert n acc Hn. induction k as [|k IH]; intros n acc Hn; [lia|].
  cbn [dec_aux]. pose proof (Z.mod_pos_bound n 10). pose proof (Z.div_mod n 10).
  pose proof (Z.div_pos n 10).
  assert (Hv : ∀ q, dec_value q (digit_char (n mod 10) :: acc) = dec_value (q * 10 + n mod 10) acc).
  { intros q. unfold dec_value. cbn. by rewrite digit_val_char by lia. }
  destruct (Z.eqb_spec (n / 10) 0) as [E|E].
  - rewrite Hv. f_equal. lia.
  - destruct k as [|k].
    + cbn in Hn. rewrite Z.div_small in E by lia. done.
    + rewrite IH; [|lia|].
      * rewrite Hv. f_equal. lia.
      * split; [lia|]. apply Z.div_lt_upper_bound; [lia|].
        replace (Z.of_nat (S (S k))) with (Z.succ (Z.of_nat (S k))) in Hn by lia.
        rewrite Z.pow_succ_r in Hn; lia.
Qed.

Lemma dec_aux_digits k n acc :
  Forall (λ c, isdigit c = true) acc → Forall (λ c, isdigit c = true) (dec_aux k n acc).
Proof.
  revert n acc. induction k as [|k IH]; intros n acc Ha; cbn; [done|].
  assert (Forall (λ c, isdigit c = true) (digit_char (n mod 10) :: acc)).
  { constructor; [|done]. apply isdigit_digit_char, Z.mod_pos_bound. lia. }
  destruct (n / 10 =? 0); auto.
Qed.

Lemma dec_aux_nonempty k n acc : (0 < k)%nat ∨ acc ≠ [] → dec_aux k n acc ≠ [].
Proof.
  revert n acc. induction k as [|k IH]; intros n acc Ha; cbn; [destruct Ha; [lia|done]|].
  destruct (n / 10 =? 0); [done|]. apply IH. by right.
Qed.

Lemma dec_digits n : Forall (λ c, isdigit c = true) (dec n).
Proof. apply dec_aux_digits. constructor. Qed.

Lemma dec_nonempty n : dec n ≠ [].
Proof. apply dec_aux_nonempty. left. lia. Qed.

Lemma dec_value_dec n : is_u32 n → dec_value 0 (dec n) = n.
Proof.
  intros Hn. unfold dec. rewrite dec_aux_value; [done| |lia|done].
  unfold_int. change (Z.of_nat 10) with 10. lia.
Qed.

Lemma length_dec_aux k n acc : (length (dec_aux k n acc) <= k + length acc)%nat.
Proof.
  revert n acc. induction k as [|k IH]; intros n acc; cbn [dec_aux]; [lia|].
  destruct (_ =? 0); [cbn; lia|]. specialize (IH (n / 10) (digit_char (n mod 10) :: acc)). cbn in IH. lia.
Qed.

Lemma length_dec n : (length (dec n) <= 10)%nat.
Proof. unfold dec. pose proof (length_dec_aux 10 n []) as H. cbn in H |- *. lia. Qed.

Lemma isdigit_not_space c : isdigit c = true → isspace c = false.
Proof. unfold isdigit, isspace. lia. Qed.

Lemma dec_no_space n : no_space (dec n).
Proof.
  eapply Forall_impl; [apply dec_digits|]. intros c. apply isdigit_not_space.
Qed.

(** [f << n], then [f >> n]. *)
Lemma read_unsigned_eq n0 n b c r :
  isspace b = true → isdigit c = false → is_u32 n →
  read_unsigned n0 (is_open (b :: dec n ++ c :: r)) = (n, is_open (c :: r)).
Proof.
  intros Hb Hc Hn. unfold read_unsigned, read_uint, is_sentry, is_open. cbn. rewrite Hb.
  pose proof (dec_digits n) as Hd. pose proof (dec_nonempty n) as Hne.
  pose proof (dec_value_dec n Hn) as Hv.
  destruct (dec n) as [|x l] eqn:E; [done|].
  apply Forall_cons in Hd as [Hx Hl]. cbn [app].
  rewrite skip_ws_id by (by apply isdigit_not_space).
  destruct (Z.eqb_spec (byte_of x) 45); [unfold isdigit in Hx; lia|].
  destruct (Z.eqb_spec (byte_of x) 43); [unfold isdigit in Hx; lia|].
  change (x :: l ++ c :: r) with ((x :: l) ++ c :: r).
  rewrite span_app by (auto; constructor; done). rewrite Hv.
  rewrite Z.gtb_ltb. destruct (Z.ltb_spec (2 ^ 32 - 1) n); [unfold_int; lia|done].
Qed.

(** A number of 64 bits and nothing else, written and read. *)
Definition dec64 (n : Z) : cstring := dec_aux 20 n [].
Arguments dec64 : simpl never.

Lemma read_uint64_dec n0 n : is_u64 n → read_uint 64 n0 (is_open (dec64 n)) = (n, Is [] true false).
Proof.
  intros Hn. assert (dec_value 0 (dec64 n) = n) as Hv.
  { unfold dec64. rewrite dec_aux_value; [done| |lia|done]. unfold_int. change (Z.of_nat 20) with 20. lia. }
  assert (Forall (λ c, isdigit c = true) (dec64 n)) as Hd by (apply dec_aux_digits; constructor).
  assert (dec64 n ≠ []) as Hne by (apply dec_aux_nonempty; left; lia).
  unfold read_uint, is_sentry, is_open. cbn [is_good is_eof is_fail is_rest negb andb].
  destruct (dec64 n) as [|x l] eqn:E; [done|]. pose proof Hd as [Hx Hl]%Forall_cons.
  rewrite skip_ws_id by (by apply isdigit_not_space).
  destruct (Z.eqb_spec (byte_of x) 45); [unfold isdigit in Hx; lia|].
  destruct (Z.eqb_spec (byte_of x) 43); [unfold isdigit in Hx; lia|].
  rewrite span_all by done. rewrite Hv. rewrite Z.gtb_ltb.
  destruct (Z.ltb_spec (2 ^ 64 - 1) n); [unfold_int; lia|done].
Qed.

(** *** No operation lengthens the stream; a word shortens it *)

Lemma is_sentry_length s l s' : is_sentry s = (Some l, s') → (length l ≤ length (is_rest s))%nat ∧ s' = s.
Proof.
  unfold is_sentry. destruct (is_good s); [|done]. pose proof (skip_ws_length (is_rest s)).
  destruct (skip_ws (is_rest s)) eqn:E; [done|]. intros [= <- <-]. done.
Qed.

Lemma is_sentry_none s s' : is_sentry s = (None, s') → (length (is_rest s') ≤ length (is_rest s))%nat.
Proof.
  unfold is_sentry. destruct (is_good s); [|by intros [= <-]].
  destruct (skip_ws (is_rest s)); [|done]. intros [= <-]. cbn. lia.
Qed.

Lemma read_word_shorter w0 s w s' :
  read_word w0 s = (w, s') → is_fail s' = false → (length (is_rest s') < length (is_rest s))%nat.
Proof.
  unfold read_word, is_sentry. destruct (is_good s); [|by intros [= _ <-]].
  pose proof (skip_ws_length (is_rest s)) as Hl.
  destruct (skip_ws (is_rest s)) as [|c l] eqn:E; [by intros [= _ <-]|].
  apply skip_ws_head in E. cbn [span]. unfold compose at 1. rewrite E. cbn [negb].
  pose proof (span_length (negb ∘ isspace) l). destruct (span _ l) as [a b].
  intros [= _ <-] _. cbn in *. lia.
Qed.

Lemma read_word_length w0 s : (length (is_rest (read_word w0 s).2) ≤ length (is_rest s))%nat.
Proof.
  unfold read_word. destruct (is_sentry s) as [[l|] s'] eqn:E; [|by apply is_sentry_none].
  apply is_sentry_length in E as [? _]. pose proof (span_length (negb ∘ isspace) l).
  destruct (span _ l). cbn in *. lia.
Qed.

Lemma read_unsigned_length n s : (length (is_rest (read_unsigned n s).2) ≤ length (is_rest s))%nat.
Proof.
  unfold read_unsigned, read_uint. destruct (is_sentry s) as [[l|] s'] eqn:E; [|by apply is_sentry_none].
  apply is_sentry_length in E as [? _].
  set (p := match l with [] => _ | _ => _ end).
  assert (Hp : (length p.2 ≤ length l)%nat).
  { subst p. destruct l as [|c l]; cbn; [lia|].
    destruct (byte_of c =? 45), (byte_of c =? 43); cbn; lia. }
  clearbody p. destruct p as [neg l']. pose proof (span_length isdigit l') as Hs. cbn in Hp.
  destruct (span isdigit l') as [[|d ds] r]; cbn in *; [lia|].
  destruct (_ >? _); cbn; lia.
Qed.

Lemma read_char_length s : (length (is_rest (read_char s)) ≤ length (is_rest s))%nat.
Proof. unfold read_char. destruct (is_good s), (is_rest s) eqn:E; cbn; rewrite ?E; cbn; lia. Qed.

Lemma read_line_length v s : (length (is_rest (read_line v s).2) ≤ length (is_rest s))%nat.
Proof.
  unfold read_line. destruct (is_good s); [|done]. destruct (is_rest s) as [|c l]; [done|].
  pose proof (span_length (λ c, negb (bool_decide (c = newline))) (c :: l)) as H.
  destruct (span _ (c :: l)) as [a [|d r]]; cbn in *; lia.
Qed.
