(* ===== verification/Address.v ===== *)
(** * Addresses

    The strings that name the nodes: [make_sockaddr] and the order of socket addresses of
    rpc/rpc.cc, [atoi] as the processes use it for their ports, and the address a caching
    lock client makes up for itself (lock_client_cache.cc).  [inet_addr] and
    [gethostbyname] are parameters.  [None] is [exit(1)], an access outside an array, or the
    overflow of [atoi]. *)

From S2P Require Import Prelude.
From S2P Require Import Marshall.
From S2P Require Import Streams.

(** ** Numbers *)

(** What a C string shows of a [std::string]. *)
Definition c_str (s : cstring) : cstring := fst (span (λ c, negb (byte_of c =? 0)) s).

Definition atoi_digits (s : cstring) : Z := dec_value 0 (fst (span isdigit s)).
Definition atoi (s : cstring) : option Z :=
  match skip_ws (c_str s) with
  | c :: r => if byte_of c =? 45 then chk_int (- atoi_digits r)
              else if byte_of c =? 43 then chk_int (atoi_digits r)
              else chk_int (atoi_digits (c :: r))
  | [] => Some 0
  end.

(** The bytes of a port in the order of the network, on a little-endian machine. *)
Definition htons (x : Z) : Z := (u16 x) mod 256 * 256 + u16 x / 256.
Definition ntohs (x : Z) : Z := htons x.

(** ** Socket addresses *)

Record sockaddr := Sockaddr { s_addr : Z; sin_port : Z }.

Definition sockaddr_lt (a b : sockaddr) : bool :=
  (s_addr a <? s_addr b) || ((s_addr a =? s_addr b) && (sin_port a <? sin_port b)).

Definition INADDR_NONE : Z := 2 ^ 32 - 1.
Definition colon : ascii := ":"%char.
Definition localhost : cstring := $"127.0.0.1".

(** [index(s, ':')]: the characters before the first colon and those after it. *)
Fixpoint split_colon (s : cstring) : option (cstring * cstring) :=
  match s with
  | [] => None
  | c :: s => if bool_decide (c = colon) then Some ([], s)
              else '(a, b) ← split_colon s; Some (c :: a, b)
  end.

Section make.
(** [gethostbyname] gives the length of the address and the address. *)
Context (inet_addr : cstring → Z) (gethostbyname : cstring → option (Z * Z)).

Definition make_sockaddr2 (host port : cstring) : option sockaddr :=
  let a := inet_addr host in
  addr ← (if negb (a =? INADDR_NONE) then Some a else
          '(len, a) ← gethostbyname host; if negb (len =? 4) then None else Some a);
  p ← atoi port; Some (Sockaddr addr (htons p)).

(** [host] has 200 characters, the terminating zero included. *)
Definition make_sockaddr (hostandport : cstring) : option sockaddr :=
  match split_colon (c_str hostandport) with
  | None => make_sockaddr2 localhost (c_str hostandport)
  | Some (host, port) => if (200 <=? length host)%nat then None else make_sockaddr2 host port
  end.
End make.

(** ** The processes *)

(** The port at which the acceptor of the node with this address listens, and the one of
    its test server. *)
Definition acceptor_port (me : cstring) : option Z := atoi me.
Definition testsvr_port (me : cstring) : option Z := p ← atoi me; chk_int (p + 1).

(** [rnd] is the value of [rand()]. *)
Definition rlock_port (rnd : Z) : Z := Z.lor (Z.rem rnd 32000) 1024.
Definition client_address (rnd : Z) : cstring := localhost ++ $":" ++ dec (rlock_port rnd).

(** ** What they mean *)

Lemma c_str_id s : Forall (λ c, byte_of c ≠ 0) s → c_str s = s.
Proof.
  intros H. unfold c_str. rewrite span_all; [done|]. eapply Forall_impl; [exact H|]. cbn. intros c Hc. lia.
Qed.

Lemma digits_plain s : Forall (λ c, isdigit c = true) s → Forall (λ c, byte_of c ≠ 0) s.
Proof. intros H. eapply Forall_impl; [exact H|]. unfold isdigit. intros c Hc. cbn. lia. Qed.

Lemma atoi_dec p : 0 <= p < 2 ^ 31 → atoi (dec p) = Some p.
Proof.
  intros Hp. unfold atoi. rewrite c_str_id by apply digits_plain, dec_digits.
  pose proof (dec_digits p) as Hd. destruct (dec p) as [|c r] eqn:E; [by destruct (dec_nonempty p)|].
  apply Forall_cons in Hd as [Hc Hr]. rewrite skip_ws_id by by apply isdigit_not_space.
  assert ((byte_of c =? 45) = false ∧ (byte_of c =? 43) = false) as [-> ->] by (unfold isdigit in Hc; lia).
  unfold atoi_digits. rewrite span_all by (by constructor). cbn [fst]. rewrite <- E, dec_value_dec by (unfold is_u32; lia).
  unfold chk_int, INT_MAX. by replace (_ && _) with true by lia.
Qed.

Lemma split_colon_none s : colon ∉ s → split_colon s = None.
Proof.
  induction s as [|c s IH]; [done|]. intros Hn. cbn. rewrite bool_decide_false by set_solver. rewrite IH by set_solver. done.
Qed.

Lemma split_colon_app host s : colon ∉ host → split_colon (host ++ colon :: s) = Some (host, s).
Proof.
  induction host as [|c host IH]; cbn; intros Hn; [by rewrite bool_decide_true|].
  rewrite bool_decide_false by set_solver. by rewrite IH by set_solver.
Qed.

Lemma colon_not_digit s : Forall (λ c, isdigit c = true) s → colon ∉ s.
Proof. intros H Hin. apply (proj1 (Forall_forall _ _) H) in Hin. discriminate Hin. Qed.

Lemma htons_ntohs p : 0 <= p < 2 ^ 16 → ntohs (htons p) = p.
Proof.
  intros Hp. unfold ntohs, htons, u16. change (2 ^ 16) with 65536 in *. Z.to_euclidean_division_equations. lia.
Qed.

Lemma rlock_port_range rnd : 0 <= rnd → 1024 <= rlock_port rnd < 2 ^ 15.
Proof.
  intros Hr. unfold rlock_port. pose proof (Z.rem_bound_pos rnd 32000 Hr ltac:(lia)) as Hb.
  set (x := Z.rem rnd 32000) in *.
  assert (Hl : Z.log2 (Z.lor x 1024) = Z.max (Z.log2 x) 10) by (by apply Z.log2_lor; lia).
  assert (Hp : 0 < Z.lor x 1024).
  { destruct (decide (Z.lor x 1024 = 0)) as [E|E]; [by apply Z.lor_eq_0_iff in E as [_ E]|].
    pose proof (proj2 (Z.lor_nonneg x 1024) ltac:(lia)). lia. }
  pose proof (Z.log2_le_mono x 31999 ltac:(lia)) as Hx. change (Z.log2 31999) with 14 in Hx.
  split; [apply (Z.log2_le_pow2 _ 10 Hp); lia | apply (Z.log2_lt_pow2 _ 15 Hp); lia].
Qed.

(** The order of addresses is the strict total order of pairs, so a map over them finds
    what was put into it. *)
Lemma sockaddr_lt_trans a b c : sockaddr_lt a b = true → sockaddr_lt b c = true → sockaddr_lt a c = true.
Proof. unfold sockaddr_lt. lia. Qed.

Lemma sockaddr_lt_total a b : sockaddr_lt a b = false → sockaddr_lt b a = false → a = b.
Proof. destruct a as [a p], b as [b q]. unfold sockaddr_lt. cbn. intros H1 H2. f_equal; lia. Qed.

Lemma sockaddr_lt_asym a b : sockaddr_lt a b = true → sockaddr_lt b a = false.
Proof. unfold sockaddr_lt. lia. Qed.

(** A name of a host as the command line has it: no colon, no zero, at most 199
    characters. *)
Definition host_ok (h : cstring) : Prop :=
  colon ∉ h ∧ Forall (λ c, byte_of c ≠ 0) h ∧ (length h < 200)%nat.
#[global] Instance host_ok_dec h : Decision (host_ok h) := _.

Section laws.
Context (inet_addr : cstring → Z) (gethostbyname : cstring → option (Z * Z)).
Notation mk := (make_sockaddr inet_addr gethostbyname).

Lemma make_sockaddr_host h p :
  host_ok h → inet_addr h ≠ INADDR_NONE → 0 <= p < 2 ^ 31 →
  mk (h ++ colon :: dec p) = Some (Sockaddr (inet_addr h) (htons p)).
Proof using Type.
  intros (Hc & Hz & Hl) Hi Hp. unfold make_sockaddr. rewrite c_str_id, split_colon_app by
    (first [done | apply Forall_app; split; [done | constructor; [done | apply digits_plain, dec_digits]]]).
  replace (200 <=? length h)%nat with false by (symmetry; apply Nat.leb_gt; lia). unfold make_sockaddr2.
  replace (inet_addr h =? INADDR_NONE) with false by lia. cbn -[atoi]. by rewrite atoi_dec.
Qed.

Lemma make_sockaddr_port p :
  inet_addr localhost ≠ INADDR_NONE → 0 <= p < 2 ^ 31 →
  mk (dec p) = Some (Sockaddr (inet_addr localhost) (htons p)).
Proof using Type.
  intros Hi Hp. unfold make_sockaddr. rewrite c_str_id, split_colon_none by
    (first [apply digits_plain, dec_digits | apply colon_not_digit, dec_digits]).
  unfold make_sockaddr2. replace (inet_addr localhost =? INADDR_NONE) with false by lia.
  cbn -[atoi]. by rewrite atoi_dec.
Qed.

(** The address a caching lock client makes up names, for the server that calls it back,
    the local host and the port the client listens at; that port is not a privileged one.  A
    node that is given as a bare port number is reached by the others at the port at which
    its acceptor listens. *)
Theorem addresses_agree rnd p :
  inet_addr localhost ≠ INADDR_NONE → 0 <= rnd → 0 <= p < 2 ^ 16 →
  let port := rlock_port rnd in
  1024 <= port < 2 ^ 15 ∧
  (sin_port <$> mk (client_address rnd)) = Some (htons port) ∧ ntohs (htons port) = port ∧
  acceptor_port (dec p) = Some p ∧
  mk (dec p) = Some (Sockaddr (inet_addr localhost) (htons p)) ∧ ntohs (htons p) = p.
Proof using Type.
  intros Hi Hr Hp port. pose proof (rlock_port_range rnd Hr) as Hb. fold port in Hb.
  split_and!; [lia|lia| |apply htons_ntohs; lia|unfold acceptor_port; apply atoi_dec; lia| |by apply htons_ntohs].
  - unfold client_address. fold port. change (localhost ++ $":" ++ dec port) with (localhost ++ colon :: dec port).
    rewrite make_sockaddr_host; [done|by apply (bool_decide_unpack (host_ok localhost)); vm_compute|done|lia].
  - apply make_sockaddr_port; [done|lia].
Qed.
End laws.

Definition inet_addr_ex (h : cstring) : Z := if bool_decide (h = localhost) then 16777343 else INADDR_NONE.

Lemma addresses_agree_witness :
  (sin_port <$> make_sockaddr inet_addr_ex (λ _, None) (client_address 1804289383)) = Some (htons (rlock_port 1804289383)).
Proof.
  refine (proj1 (proj2 (addresses_agree inet_addr_ex (λ _, None) 1804289383 5000 _ _ _)));
    [vm_compute; discriminate | lia | lia].
Defined.

(** A node given as host and port, which the usage message allows, listens at another port
    than the one at which the others look for it. *)
Example host_and_port :
  acceptor_port $"127.0.0.1:5000" = Some 127 ∧
  make_sockaddr inet_addr_ex (λ _, None) $"127.0.0.1:5000" = Some (Sockaddr 16777343 (htons 5000)).
Proof. by vm_compute. Qed.

(** The array [host] is too small for a host name of 200 characters, whatever the resolver
    says. *)
Example host_name_overflows ia gh :
  make_sockaddr ia gh (replicate 200 "a"%char ++ colon :: dec 5000) = None.
Proof. by vm_compute. Qed.
