(* ===== verification/Posix.v ===== *)
(** * Programs over a file system

    What the file system tests (test-lab-4-b.c, test-lab-4-c.c) use of the operating system.
    A test process is a tree of system calls; a test is a list of phases, some of which
    fork a child that runs in parallel with its parent.  The file system below the calls
    is a parameter: a relation [sys] of any kind of state that implements the relation
    [posix], which says what POSIX documents of these calls for directories that contain
    files and are reached through one or several mount points.

    The second half is a logic for such programs: weakest preconditions with a relation for
    what the other process may do, and the rules from which it follows that a test passes,
    that is, that it ends, whatever the interleaving and whatever the file system
    chooses, and never calls [exit(1)]. *)

From S2P Require Import Prelude.
From S2P Require Import Marshall.

(** ** Calls *)

Inductive call :=
  | CMkdir (p : cstring) | CAccess (p : cstring) | CCreat (p : cstring) | COpen (p : cstring) (append : bool)
  | CRead (fd : Z) (n : nat) | CWrite (fd : Z) (bs : cstring) | CClose (fd : Z) | CUnlink (p : cstring)
  | COpendir (p : cstring) | CReaddir (dp : Z) | CClosedir (dp : Z) | CFork.

(** The value, the bytes of [read] and the name of [readdir]. *)
Record ret := Ret { rv : Z; rb : cstring; rn : option cstring }.
Definition rint (z : Z) : ret := Ret z [] None.

(** [Die] is [exit(1)]; [Crash] is undefined behaviour. *)
Inductive prog (A : Type) : Type :=
  | Done (a : A) | Die | Crash | Sys (c : call) (k : ret → prog A).
Arguments Done {A} _.
Arguments Die {A}.
Arguments Crash {A}.
Arguments Sys {A} _ _.

#[export] Instance prog_bind : MBind prog := λ A B f,
  fix bind p := match p with Done a => f a | Die => Die | Crash => Crash | Sys c k => Sys c (λ r, bind (k r)) end.
#[export] Instance prog_ret : MRet prog := λ A a, Done a.

Definition do_call (c : call) : prog ret := Sys c Done.

(** ** Tests *)

(** [Par child parent]: [fork], the child that ends with [exit(0)], the parent up to
    [reap]. *)
Inductive phase := Seq (p : prog unit) | Par (child parent : prog unit).

Inductive conf :=
  | Main (p : prog unit) (rest : list phase)
  | Forked (child parent : prog unit) (rest : list phase)
  | Passed | Failed.

Definition bad {A} (p : prog A) : Prop := match p with Die | Crash => True | _ => False end.

Section runs.
Context {Σ : Type} (sys : bool → call → Σ → ret → Σ → Prop).

(** The first argument of [sys] is true for the parent. *)
Inductive tstep : conf * Σ → conf * Σ → Prop :=
  | t_call c k rest s r s' : sys true c s r s' → tstep (Main (Sys c k) rest, s) (Main (k r) rest, s')
  | t_bad p rest s : bad p → tstep (Main p rest, s) (Failed, s)
  | t_seq p rest s : tstep (Main (Done tt) (Seq p :: rest), s) (Main p rest, s)
  | t_fork child parent rest s r s' :
      sys true CFork s r s' → 0 <= rv r → tstep (Main (Done tt) (Par child parent :: rest), s) (Forked child parent rest, s')
  | t_no_fork child parent rest s r s' :
      sys true CFork s r s' → rv r < 0 → tstep (Main (Done tt) (Par child parent :: rest), s) (Failed, s')
  | t_end s : tstep (Main (Done tt) [], s) (Passed, s)
  | t_child c k parent rest s r s' :
      sys false c s r s' → tstep (Forked (Sys c k) parent rest, s) (Forked (k r) parent rest, s')
  | t_parent child c k rest s r s' :
      sys true c s r s' → tstep (Forked child (Sys c k) rest, s) (Forked child (k r) rest, s')
  | t_parent_bad child p rest s : bad p → tstep (Forked child p rest, s) (Failed, s)
  | t_reap rest s : tstep (Forked (Done tt) (Done tt) rest, s) (Main (Done tt) rest, s)
  | t_reap_bad child rest s : bad child → tstep (Forked child (Done tt) rest, s) (Failed, s).

(** The next call of a process returns. *)
Definition returns (w : bool) (p : prog unit) (s : Σ) : Prop :=
  match p with Sys c _ => ∃ r s', sys w c s r s' | _ => True end.
Definition ready (x : conf) (s : Σ) : Prop :=
  match x with
  | Main p _ => returns true p s
  | Forked child parent _ => returns false child s ∧ returns true parent s
  | _ => True
  end.

(** Every run from here ends, and in [Passed]; on the way every call returns. *)
Inductive passes : conf * Σ → Prop :=
  | passed s : passes (Passed, s)
  | goes_on x s : ready x s → (∃ y, tstep (x, s) y) → (∀ y, tstep (x, s) y → passes y) → passes (x, s).
End runs.

(** ** What POSIX says *)

Record ofile := OFile { o_ino : nat; o_pos : nat; o_append : bool }.
(** A directory stream: [must] are the names that were there at [opendir] and were neither
    returned nor changed since, [may] those that were added or removed. *)
Record dstream := DStream { ds_dir : cstring; must : gset cstring; may : gset cstring }.

(** A file is named by its directory and its name there.  The descriptors are those of the
    parent (true) and of the child (false). *)
Abbreviation name := (cstring * cstring)%type.
Record pfs := Pfs {
  dirs : gset cstring; names : gmap name nat; ino : gmap nat cstring;
  fds : gmap (bool * Z) ofile; streams : gmap (bool * Z) dstream;
}.

Definition set_fds x s := Pfs (dirs s) (names s) (ino s) x (streams s).
Definition set_streams x s := Pfs (dirs s) (names s) (ino s) (fds s) x.
Definition set_ino i c s := Pfs (dirs s) (names s) (<[i := c]> (ino s)) (fds s) (streams s).

(** The entry [x] was added or removed: open streams may or may not show it. *)
Definition touch (x : name) (d : dstream) : dstream :=
  if bool_decide (ds_dir d = fst x) then DStream (ds_dir d) (must d ∖ {[snd x]}) ({[snd x]} ∪ may d) else d.
Definition add_name x i s := Pfs (dirs s) (<[x := i]> (names s)) (<[i := []]> (ino s)) (fds s) (touch x <$> streams s).
Definition del_name x s := Pfs (dirs s) (delete x (names s)) (ino s) (fds s) (touch x <$> streams s).

Definition entries (d : cstring) (s : pfs) : gset cstring :=
  set_map snd (filter (λ x : name, fst x = d) (dom (names s))).

(** Bytes written at a position, with zeros where the file is shorter. *)
Definition overwrite (pos : nat) (bs c : cstring) : cstring :=
  take pos (c ++ replicate (pos - length c) zero) ++ bs ++ drop (pos + length bs) c.

Definition dots : gset cstring := {[ $"."; $".." ]}.

Section posix.
(** Path resolution: a directory, or a file in a directory. *)
Context (place : cstring → option (cstring * option cstring)).

Inductive posix (w : bool) : call → pfs → ret → pfs → Prop :=
  | px_mkdir p d s : place p = Some (d, None) → d ∉ dirs s →
      posix w (CMkdir p) s (rint 0) (Pfs ({[d]} ∪ dirs s) (names s) (ino s) (fds s) (streams s))
  | px_mkdir_fails p d s : place p = Some (d, None) → d ∈ dirs s → posix w (CMkdir p) s (rint (-1)) s
  | px_access p d s : place p = Some (d, None) → d ∈ dirs s → posix w (CAccess p) s (rint 0) s
  | px_access_fails p d s : place p = Some (d, None) → d ∉ dirs s → posix w (CAccess p) s (rint (-1)) s
  | px_creat_new p d f fd i s : place p = Some (d, Some f) → d ∈ dirs s → names s !! (d, f) = None →
      0 <= fd → fds s !! (w, fd) = None → ino s !! i = None →
      posix w (CCreat p) s (rint fd) (set_fds (<[(w, fd) := OFile i 0 false]> (fds s)) (add_name (d, f) i s))
  | px_creat_old p d f fd i s : place p = Some (d, Some f) → names s !! (d, f) = Some i →
      0 <= fd → fds s !! (w, fd) = None →
      posix w (CCreat p) s (rint fd) (set_fds (<[(w, fd) := OFile i 0 false]> (fds s)) (set_ino i [] s))
  | px_creat_fails p d f s : place p = Some (d, Some f) → d ∉ dirs s → posix w (CCreat p) s (rint (-1)) s
  | px_open p ap d f fd i s : place p = Some (d, Some f) → names s !! (d, f) = Some i → 0 <= fd →
      fds s !! (w, fd) = None → posix w (COpen p ap) s (rint fd) (set_fds (<[(w, fd) := OFile i 0 ap]> (fds s)) s)
  | px_open_fails p ap d f s : place p = Some (d, Some f) → names s !! (d, f) = None →
      posix w (COpen p ap) s (rint (-1)) s
  | px_read fd n o c s : fds s !! (w, fd) = Some o → ino s !! o_ino o = Some c →
      let bs := take n (drop (o_pos o) c) in
      posix w (CRead fd n) s (Ret (Z.of_nat (length bs)) bs None)
        (set_fds (<[(w, fd) := OFile (o_ino o) (o_pos o + length bs) (o_append o)]> (fds s)) s)
  | px_write fd bs o c s : fds s !! (w, fd) = Some o → ino s !! o_ino o = Some c →
      let pos := if o_append o then length c else o_pos o in
      posix w (CWrite fd bs) s (rint (Z.of_nat (length bs)))
        (set_fds (<[(w, fd) := OFile (o_ino o) (pos + length bs) (o_append o)]> (fds s)) (set_ino (o_ino o) (overwrite pos bs c) s))
  | px_close fd o s : fds s !! (w, fd) = Some o → posix w (CClose fd) s (rint 0) (set_fds (delete (w, fd) (fds s)) s)
  | px_unlink p d f i s : place p = Some (d, Some f) → names s !! (d, f) = Some i →
      posix w (CUnlink p) s (rint 0) (del_name (d, f) s)
  | px_unlink_fails p d f s : place p = Some (d, Some f) → names s !! (d, f) = None → posix w (CUnlink p) s (rint (-1)) s
  | px_opendir p d dp s : place p = Some (d, None) → d ∈ dirs s → dp ≠ 0 → streams s !! (w, dp) = None →
      posix w (COpendir p) s (rint dp) (set_streams (<[(w, dp) := DStream d (entries d s ∪ dots) ∅]> (streams s)) s)
  | px_opendir_fails p d s : place p = Some (d, None) → d ∉ dirs s → posix w (COpendir p) s (rint 0) s
  | px_readdir dp d n s : streams s !! (w, dp) = Some d → n ∈ must d ∪ may d →
      posix w (CReaddir dp) s (Ret 0 [] (Some n))
        (set_streams (<[(w, dp) := DStream (ds_dir d) (must d ∖ {[n]}) (may d ∖ {[n]})]> (streams s)) s)
  | px_readdir_end dp d s : streams s !! (w, dp) = Some d → must d = ∅ → posix w (CReaddir dp) s (rint 0) s
  | px_closedir dp d s : streams s !! (w, dp) = Some d →
      posix w (CClosedir dp) s (rint 0) (set_streams (delete (w, dp) (streams s)) s)
  | px_fork pid s : 0 < pid → fds s = ∅ → streams s = ∅ → posix w CFork s (rint pid) s.

(** An implementation: wherever the documentation says what a call may do, it does one of
    these things. *)
Class PosixLike {Σ} (sys : bool → call → Σ → ret → Σ → Prop) (rel : Σ → pfs → Prop) : Prop := {
  posix_returns w c σ s r s' : rel σ s → posix w c s r s' → ∃ r σ', sys w c σ r σ';
  posix_allowed w c σ s r0 s0 r σ' : rel σ s → posix w c s r0 s0 → sys w c σ r σ' → ∃ s', posix w c s r s' ∧ rel σ' s';
}.
End posix.

(** ** A logic *)

Section logic.
Context (place : cstring → option (cstring * option cstring)).
Notation posix := (posix place).

(** [R]: what the other process may do between two calls; [G]: what the calls of this one
    may do. *)
Fixpoint wp {A} (w : bool) (R G : relation pfs) (p : prog A) (Q : A → pfs → Prop) (s : pfs) : Prop :=
  match p with
  | Done a => Q a s
  | Die | Crash => False
  | Sys c k => (∃ r s', posix w c s r s') ∧
      ∀ r s', posix w c s r s' → G s s' ∧ ∀ s'', rtc R s' s'' → wp w R G (k r) Q s''
  end.

Lemma wp_bind {A B} w R G (p : prog A) (f : A → prog B) Q s :
  wp w R G p (λ a s', wp w R G (f a) Q s') s → wp w R G (p ≫= f) Q s.
Proof using Type.
  revert s. induction p as [a| | |c k IH]; intros s; [done|done|done|]. intros [He Hk]. split; [done|].
  intros r s' Hp. destruct (Hk r s' Hp) as [Hg Hw]. split; [done|]. intros s'' Hr. by apply IH, Hw.
Qed.

Lemma wp_mono {A} w (R R' G G' : relation pfs) (p : prog A) (Q Q' : A → pfs → Prop) s :
  (∀ a b, R' a b → R a b) → (∀ a b, G a b → G' a b) → (∀ a b, Q a b → Q' a b) →
  wp w R G p Q s → wp w R' G' p Q' s.
Proof using Type.
  intros HR HG HQ. revert s. induction p as [a| | |c k IH]; intros s; [apply HQ|done|done|]. intros [He Hk]. split; [done|].
  intros r s' Hp. destruct (Hk r s' Hp) as [Hg Hw]. split; [by apply HG|]. intros s'' Hr. apply IH, Hw.
  clear -HR Hr. induction Hr; [done|]. eapply rtc_l; [by apply HR|done].
Qed.

(** The process alone. *)
Definition idle : relation pfs := λ _ _, False.
Definition any : relation pfs := λ _ _, True.
Definition swp {A} (p : prog A) (Q : A → pfs → Prop) (s : pfs) : Prop := wp true idle any p Q s.

Lemma rtc_idle s s' : rtc idle s s' → s' = s.
Proof using Type. by intros [|? ? ? []]. Qed.

Lemma swp_of_wp {A} R G (p : prog A) Q s : wp true R G p Q s → swp p Q s.
Proof using Type. apply wp_mono; done. Qed.

Lemma swp_call {A} c (k : ret → prog A) Q s :
  (∃ r s', posix true c s r s') → (∀ r s', posix true c s r s' → swp (k r) Q s') → swp (Sys c k) Q s.
Proof using Type. intros He Hk. split; [done|]. intros r s' Hp. split; [done|]. intros s'' ->%rtc_idle. by apply Hk. Qed.

(** ** From the logic to runs *)

Notation passes := (passes posix).

Ltac took Hy := inversion Hy; subst; try done;
  try match goal with H : Posix.posix _ _ _ _ _ _ |- _ => rename H into Hcall end.

Lemma wp_ready w R G p (Q : unit → pfs → Prop) s : wp w R G p Q s → returns posix w p s.
Proof using Type. destruct p; [done..|]. by intros [He _]. Qed.

Lemma passes_wp p rest s : swp p (λ _ s', passes (Main (Done tt) rest, s')) s → passes (Main p rest, s).
Proof using Type.
  revert s. induction p as [[]| | |c k IH]; intros s; [done|done|done|]. intros [(r & s' & He) Hk].
  apply goes_on; [cbn; eauto|eexists; by eapply t_call|]. intros y Hy. took Hy.
  apply IH. destruct (Hk _ _ Hcall) as [_ Hw]. by apply Hw.
Qed.

Lemma passes_seq p rest s :
  swp p (λ _ s', passes (Main (Done tt) rest, s')) s → passes (Main (Done tt) (Seq p :: rest), s).
Proof using Type.
  intros Hp. apply goes_on; [done|eexists; apply t_seq|]. intros y Hy. took Hy. by apply passes_wp.
Qed.

Lemma passes_end s : passes (Main (Done tt) [], s).
Proof using Type. apply goes_on; [done|eexists; apply t_end|]. intros y Hy. took Hy. apply passed. Qed.

(** Two processes that respect each other. *)
Section forked.
Context (R1 R2 : relation pfs) (Q1 Q2 : pfs → Prop) (rest : list phase).
Context (HQ : ∀ s, Q1 s → Q2 s → passes (Main (Done tt) rest, s)).

Definition child_ok (child : prog unit) s : Prop := ∀ s', rtc R1 s s' → wp false R1 R2 child (λ _, Q1) s'.
Definition parent_ok (parent : prog unit) s : Prop := ∀ s', rtc R2 s s' → wp true R2 R1 parent (λ _, Q2) s'.

Lemma child_steps c k parent s r s' :
  child_ok (Sys c k) s → parent_ok parent s → posix false c s r s' → child_ok (k r) s' ∧ parent_ok parent s'.
Proof using Type.
  intros H1 H2 Hc. destruct (H1 s) as [_ Hk]; [done|]. destruct (Hk r s' Hc) as [Hg Hw]. split; [exact Hw|].
  intros s'' Hr. apply H2. eapply rtc_l; [exact Hg|done].
Qed.

Lemma parent_steps child c k s r s' :
  child_ok child s → parent_ok (Sys c k) s → posix true c s r s' → child_ok child s' ∧ parent_ok (k r) s'.
Proof using Type.
  intros H1 H2 Hc. destruct (H2 s) as [_ Hk]; [done|]. destruct (Hk r s' Hc) as [Hg Hw]. split; [|exact Hw].
  intros s'' Hr. apply H1. eapply rtc_l; [exact Hg|done].
Qed.

Lemma passes_forked child parent s : child_ok child s → parent_ok parent s → passes (Forked child parent rest, s).
Proof using HQ.
  revert parent s. induction child as [[]| | |c1 k1 IH1]; intros parent.
  2,3: intros s H1 _; destruct (H1 s); done.
  all: induction parent as [[]| | |c2 k2 IH2]; intros s H1 H2; [|destruct (H2 s); done..|];
    (apply goes_on; [split; [eapply wp_ready, (H1 s); done|eapply wp_ready, (H2 s); done]| |intros y Hy; took Hy]).
  - eexists; apply t_reap.
  - apply HQ; [by apply (H1 s)|by apply (H2 s)].
  - destruct (H2 s) as [(r & s' & He) _]; [done|]. eexists. by eapply t_parent.
  - destruct (parent_steps _ _ _ _ _ _ H1 H2 Hcall). by apply IH2.
  - destruct (H1 s) as [(r & s' & He) _]; [done|]. eexists. by eapply t_child.
  - destruct (child_steps _ _ _ _ _ _ H1 H2 Hcall). by apply IH1.
  - destruct (H1 s) as [(r & s' & He) _]; [done|]. eexists. by eapply t_child.
  - destruct (child_steps _ _ _ _ _ _ H1 H2 Hcall). by apply IH1.
  - destruct (parent_steps _ _ _ _ _ _ H1 H2 Hcall). by apply IH2.
Qed.

Lemma passes_par child parent s :
  fds s = ∅ → streams s = ∅ → child_ok child s → parent_ok parent s →
  passes (Main (Done tt) (Par child parent :: rest), s).
Proof using HQ.
  intros Hf Hd H1 H2. apply goes_on; [done| |].
  - eexists. eapply t_fork; [by apply (px_fork _ _ 1)|done].
  - intros y Hy. took Hy; inversion Hcall; subst; [by eapply passes_forked|]. cbn in *. lia.
Qed.
End forked.

(** The tests pass on every implementation if they pass on [posix]. *)
Section like.
Context {Σ} (sys : bool → call → Σ → ret → Σ → Prop) (rel : Σ → pfs → Prop) `{!PosixLike place sys rel}.

Lemma like_returns w p σ s : rel σ s → returns posix w p s → returns sys w p σ.
Proof using All. intros Hr. destruct p; [done..|]. intros (r & s' & H). by eapply (posix_returns place). Qed.

Lemma like_progress x s y σ : rel σ s → tstep posix (x, s) y → ∃ y', tstep sys (x, σ) y'.
Proof using All.
  intros Hr Hs. inversion Hs; subst; try (by eexists; econstructor).
  all: match goal with H : Posix.posix _ _ _ _ _ _ |- _ =>
    destruct (posix_returns place _ _ _ _ _ _ Hr H) as (r' & σ' & Hy) end.
  all: try (by eexists; econstructor).
  all: destruct (Z.le_gt_cases 0 (rv r')); eexists; [by eapply t_fork|by eapply t_no_fork].
Qed.

(** A call of the implementation is one that the documentation allows. *)
Lemma like_call w c σ s r σ' : sys w c σ r σ' → rel σ s → (∃ r s', posix w c s r s') → ∃ s', posix w c s r s' ∧ rel σ' s'.
Proof using All. intros H Hr (r0 & s0 & H0). by eapply (posix_allowed place). Qed.

Lemma like_step x s σ x' σ' y0 :
  rel σ s → ready posix x s → tstep posix (x, s) y0 → tstep sys (x, σ) (x', σ') →
  ∃ s', tstep posix (x, s) (x', s') ∧ rel σ' s'.
Proof using All.
  intros Hr Hrd H0 Hs. inversion Hs as [? ? ? ? ? ? H|?|?|? ? ? ? ? ? H|? ? ? ? ? ? H|?|? ? ? ? ? ? ? H|? ? ? ? ? ? ? H|?|?|?];
    subst; cbn in Hrd; try (by eexists; split; [by econstructor|]).
  1,4,5: destruct (like_call _ _ _ _ _ _ H Hr ltac:(tauto)) as (s' & Hp & Hr'); eexists; (split; [|exact Hr']); by econstructor.
  all: assert (∃ r s', posix true CFork s r s') as He by (inversion H0; subst; first [by eauto|done]).
  all: destruct (like_call _ _ _ _ _ _ H Hr He) as (s' & Hp & Hr'); eexists; (split; [|exact Hr']).
  - by eapply t_fork.
  - by eapply t_no_fork.
Qed.

Lemma passes_like x s σ : passes (x, s) → rel σ s → Posix.passes sys (x, σ).
Proof using All.
  intros Hp. remember (x, s) as xs eqn:E. revert x s σ E. induction Hp as [s0|y s0 Hrd [z Hz] _ IH]; intros x s σ E Hr; simplify_eq.
  { apply passed. }
  apply goes_on; [|by eapply like_progress|].
  - destruct x; cbn in *; [by eapply like_returns|destruct Hrd; split; by eapply like_returns|done|done].
  - intros [x' σ'] Hy. destruct (like_step _ _ _ _ _ _ Hr Hrd Hz Hy) as (s' & Hs & Hr'). by eapply IH.
Qed.
End like.
End logic.
