(* ===== verification/FsTest.v ===== *)
(** * The tests of the file system

    test-lab-4-b.c and test-lab-4-c.c, two programs that create, read, append to, list and
    remove files through two mount points of one file system, partly in two processes.  The
    tests are programs over the interface of Posix.v; messages, [sleep] and the value
    of [errno] are left out.  It is proved that a file system that does what POSIX documents
    passes them, in every interleaving of the processes. *)

From S2P Require Import Prelude.
From S2P Require Import Marshall.
From S2P Require Import Streams.
From S2P Require Import Address.
From S2P Require Import Posix.

(** ** The functions of both programs *)

(** A failed check ends the process. *)
Definition check (b : bool) : prog unit := if b then Done tt else Die.

(** [sprintf] into an array of 512 characters. *)
Definition sprintf (s : cstring) : prog cstring := if (512 <=? length s)%nat then Crash else Done s.
Definition slash : ascii := "/"%char.
Definition path (d f : cstring) : cstring := d ++ slash :: f.
Definition numbered (prefix : cstring) (i : Z) : cstring := prefix ++ $"-" ++ dec i.

(** An [int] in memory, on a little-endian machine. *)
Definition int_bytes (i : Z) : cstring := rev (enc_u32 i).
Definition bytes_int (bs : cstring) : Z := s32 (foldr (λ c z, byte_of c + 256 * z) 0 bs).

Definition create_file (n bs : cstring) : prog unit :=
  fd ← do_call (CCreat n); _ ← check (0 <=? rv fd);
  r ← do_call (CWrite (rv fd) bs); _ ← check (rv r =? Z.of_nat (length bs));
  r ← do_call (CClose (rv fd)); check (rv r =? 0).

Definition create1 (d f inp : cstring) : prog unit := n ← sprintf (path d f); create_file n inp.

(** [strncmp(a, b, n) == 0] *)
Definition strncmp_eq (a b : cstring) (n : nat) : bool := bool_decide (take n (c_str a) = take n (c_str b)).

(** [bufsz] is the size of the array [buf].  The contents are compared up to the length of
    the path. *)
Definition check1 (bufsz : nat) (d f inp : cstring) : prog unit :=
  n ← sprintf (path d f);
  fd ← do_call (COpen n false); _ ← check (0 <=? rv fd);
  r ← do_call (CRead (rv fd) (bufsz - 1)); _ ← check (rv r =? Z.of_nat (length inp));
  _ ← do_call (CClose (rv fd));
  check (strncmp_eq (rb r) inp (length n)).

Definition unlink_file (n : cstring) : prog unit := r ← do_call (CUnlink n); check (rv r =? 0).
Definition unlink1 (d f : cstring) : prog unit := n ← sprintf (path d f); unlink_file n.

Definition checknot (d f : cstring) : prog unit :=
  n ← sprintf (path d f); fd ← do_call (COpen n false); check (rv fd <? 0).

Definition append1 (d f inp : cstring) : prog unit :=
  n ← sprintf (path d f);
  fd ← do_call (COpen n true); _ ← check (0 <=? rv fd);
  r ← do_call (CWrite (rv fd) inp); _ ← check (rv r =? Z.of_nat (length inp));
  r ← do_call (CClose (rv fd)); check (rv r =? 0).

(** [for(i = 0; i < nf; i++)], from [i] for [k] rounds. *)
Fixpoint for_files (body : Z → prog unit) (k : nat) (i : Z) : prog unit :=
  match k with O => Done tt | S k => _ ← body i; for_files body k (i + 1) end.

Definition createn (d prefix : cstring) (nf : nat) : prog unit :=
  for_files (λ i, n ← sprintf (path d (numbered prefix i)); create_file n (int_bytes i)) nf 0.

Definition checkn (d prefix : cstring) (nf : nat) : prog unit :=
  for_files (λ i,
    n ← sprintf (path d (numbered prefix i));
    fd ← do_call (COpen n false); _ ← check (0 <=? rv fd);
    cc ← do_call (CRead (rv fd) 4); _ ← check (rv cc =? 4);
    _ ← check (bytes_int (rb cc) =? i);
    _ ← do_call (CClose (rv fd)); Done tt) nf 0.

Definition unlinkn (d prefix : cstring) (nf : nat) : prog unit :=
  for_files (λ i, n ← sprintf (path d (numbered prefix i)); unlink_file n) nf 0.

(** [compar], as the order for sorting. *)
Definition compar_le (a b : cstring) : Prop := str_ltb b a = false.
#[export] Instance compar_le_dec : RelDecision compar_le := λ a b, bool_eq_dec _ _.

Definition dotted (n : cstring) : bool := match n with c :: _ => bool_decide (c = "."%char) | [] => false end.

(** The loop over the directory; [names] has 1000 elements, and the message about more
    does not prevent the store.  [fuel] bounds the number of entries read. *)
Fixpoint read_names (fuel : nat) (dp : Z) (names : list cstring) : prog (list cstring) :=
  match fuel with
  | O => Crash
  | S fuel =>
      r ← do_call (CReaddir dp);
      match rn r with
      | None => Done names
      | Some n => if dotted n then read_names fuel dp names
                  else if (1000 <=? length names)%nat then Crash else read_names fuel dp (names ++ [n])
      end
  end.

Fixpoint adjacent (l : list cstring) : bool :=
  match l with a :: (b :: _) as r => bool_decide (a = b) || adjacent r | _ => false end.

Definition dircheck_within (fuel : nat) (d : cstring) (nf : nat) : prog unit :=
  dp ← do_call (COpendir d); _ ← check (negb (rv dp =? 0));
  names ← read_names fuel (rv dp) [];
  _ ← do_call (CClosedir (rv dp));
  _ ← check (nf =? length names)%nat;
  check (negb (adjacent (merge_sort compar_le names))).

(** Enough for as many names as the array holds. *)
Definition dir_fuel : nat := Z.to_nat 1003.
Definition dircheck : cstring → nat → prog unit := dircheck_within dir_fuel.

(** Statements one after the other. *)
Definition seqs (l : list (prog unit)) : prog unit := foldr (λ p q, _ ← p; q) (Done tt) l.

(** ** test-lab-4-b *)

Module lab4b.
Definition check1 := check1 (Z.to_nat 21000).

Section main.
Context (argv1 argv2 : cstring) (pid : Z).
Definition d1 : cstring := argv1 ++ $"/d" ++ dec pid.
Definition d2 : cstring := argv2 ++ $"/d" ++ dec pid.

Definition start : prog unit :=
  d1 ← sprintf d1; r ← do_call (CMkdir d1); _ ← check (rv r =? 0);
  d2 ← sprintf d2; r ← do_call (CAccess d2); check (rv r =? 0).

(** [sizeof(big) - 1] characters. *)
Definition big : cstring := replicate (Z.to_nat 20000) "x"%char.

Definition create_read : list (prog unit) :=
  [create1 d1 ($"f1") ($"aaa"); check1 d2 ($"f1") ($"aaa"); check1 d1 ($"f1") ($"aaa")].

Definition unlink_ : list (prog unit) :=
  [unlink1 d2 ($"f1"); create1 d1 ($"fx1") ($"fxx"); unlink1 d1 ($"fx1"); checknot d1 ($"f1"); checknot d2 ($"f1");
   create1 d1 ($"f2") ($"222"); unlink1 d2 ($"f2"); checknot d1 ($"f2"); checknot d2 ($"f2");
   create1 d1 ($"f3") ($"333"); check1 d2 ($"f3") ($"333"); check1 d1 ($"f3") ($"333"); unlink1 d1 ($"f3");
   create1 d2 ($"fx2") ($"22"); unlink1 d2 ($"fx2"); checknot d2 ($"f3"); checknot d1 ($"f3")].

Definition append_ : list (prog unit) :=
  [create1 d2 ($"f1") ($"aaa"); append1 d1 ($"f1") ($"bbb"); append1 d2 ($"f1") ($"ccc");
   check1 d1 ($"f1") ($"aaabbbccc"); check1 d2 ($"f1") ($"aaabbbccc")].

Definition readdir_ : list (prog unit) :=
  [dircheck d1 1; dircheck d2 1; unlink1 d1 ($"f1"); dircheck d1 0; dircheck d2 0;
   create1 d2 ($"f2") ($"aaa"); create1 d1 ($"f3") ($"aaa"); dircheck d1 2; dircheck d2 2;
   unlink1 d2 ($"f2"); dircheck d2 1; dircheck d1 1; unlink1 d2 ($"f3"); dircheck d1 0; dircheck d2 0].

Definition many : list (prog unit) :=
  [createn d1 ($"aa") 10; createn d2 ($"bb") 10; dircheck d2 20; checkn d2 ($"bb") 10; checkn d2 ($"aa") 10;
   checkn d1 ($"aa") 10; checkn d1 ($"bb") 10; unlinkn d1 ($"aa") 10; unlinkn d2 ($"bb") 10].

Definition write_big : list (prog unit) :=
  [create1 d1 ($"bf") big; check1 d1 ($"bf") big; check1 d2 ($"bf") big; unlink1 d1 ($"bf")].

(** Creates in two processes, of different files and of the same. *)
Definition creates_child : prog unit := createn d2 ($"xx") 20.
Definition creates_parent : prog unit := createn d1 ($"yy") 20.
Definition creates_after : list (prog unit) :=
  [dircheck d1 40; checkn d1 ($"xx") 20; checkn d2 ($"yy") 20; unlinkn d1 ($"xx") 20; unlinkn d1 ($"yy") 20].

Definition same_child : prog unit := createn d2 ($"zz") 20.
Definition same_parent : prog unit := seqs [createn d1 ($"zz") 20; dircheck d1 20].
Definition same_after : list (prog unit) := [checkn d1 ($"zz") 20; checkn d2 ($"zz") 20; unlinkn d1 ($"zz") 20].

Definition delete_before : list (prog unit) := [createn d1 ($"x1") 20; createn d2 ($"x2") 20].
Definition delete_child : prog unit := seqs [unlinkn d2 ($"x1") 20; createn d1 ($"x3") 20].
Definition delete_parent : prog unit := createn d1 ($"x4") 20.
Definition delete_after : list (prog unit) :=
  [unlinkn d2 ($"x2") 20; unlinkn d2 ($"x4") 20; unlinkn d2 ($"x3") 20; dircheck d1 0].

Definition server_child : prog unit := createn d1 ($"zz") 20.
Definition server_parent : prog unit := seqs [createn d1 ($"zz") 20; dircheck d1 20].
Definition server_after : list (prog unit) := [checkn d1 ($"zz") 20; unlinkn d1 ($"zz") 20].

Definition phases : list phase :=
  [Seq start; Seq (seqs create_read); Seq (seqs unlink_); Seq (seqs append_); Seq (seqs readdir_); Seq (seqs many);
   Seq (seqs write_big);
   Par creates_child creates_parent; Seq (seqs creates_after);
   Par same_child same_parent; Seq (seqs same_after);
   Seq (seqs delete_before); Par delete_child delete_parent; Seq (seqs delete_after);
   Par server_child server_parent; Seq (seqs server_after)].
End main.

Definition main (argv : list cstring) (pid : Z) : list phase :=
  match argv with [_; argv1; argv2] => phases argv1 argv2 pid | _ => [Seq Die] end.
End lab4b.

(** ** test-lab-4-c *)

(** The functions are copies of those above; only the array of [check1] is smaller. *)
Module lab4c.
Definition create1 := create1.
Definition check1 := check1 512.
Definition unlink1 := unlink1.
Definition checknot := checknot.
Definition append1 := append1.
Definition createn := createn.
Definition checkn := checkn.
Definition unlinkn := unlinkn.
Definition compar_le := compar_le.
Definition dircheck := dircheck.

Section main.
Context (argv1 argv2 : cstring) (pid : Z).
Definition d1 : cstring := argv1 ++ $"/da" ++ dec pid.
Definition d2 : cstring := argv2 ++ $"/db" ++ dec pid.
Definition dd : cstring := argv2 ++ $"/da" ++ dec pid.

Definition start : prog unit :=
  d1 ← sprintf d1; r ← do_call (CMkdir d1); _ ← check (rv r =? 0);
  d2 ← sprintf d2; r ← do_call (CMkdir d2); _ ← check (rv r =? 0);
  dd ← sprintf dd; r ← do_call (CAccess dd); check (rv r =? 0).

Definition child : prog unit := seqs [createn d2 ($"xx") 100; unlinkn d2 ($"xx") 99].
Definition parent : prog unit := seqs [createn d1 ($"yy") 100; unlinkn d1 ($"yy") 99].

Definition after : list (prog unit) := [dircheck d1 1; dircheck d2 1].

Definition phases : list phase := [Seq start; Par child parent; Seq (seqs after)].
End main.

Definition main (argv : list cstring) (pid : Z) : list phase :=
  match argv with [_; argv1; argv2] => phases argv1 argv2 pid | _ => [Seq Die] end.
End lab4c.
