(* ===== verification/FsProtocol.v ===== *)
(** * How the functions of the file system tests behave

    First a protocol for two processes that create and remove files side by side: which
    process may remove which name, and what a file contains when no process has it open.
    The functions of FsTest.v keep to it.  Then what they do to a directory when one process
    runs alone, and rules for the phases of a test. *)

From S2P Require Import Prelude.
From S2P Require Import Marshall.
From S2P Require Import Streams.
From S2P Require Import Address.
From S2P Require Import Posix.
From S2P Require Import FsTest.

(** ** States *)

Definition content (s : pfs) (x : name) : option cstring := i ← names s !! x; ino s !! i.

Record fs_wf (s : pfs) : Prop := FsWf {
  wf_dir x i : names s !! x = Some i → fst x ∈ dirs s;
  wf_ino x i : names s !! x = Some i → is_Some (ino s !! i);
  wf_inj x y i : names s !! x = Some i → names s !! y = Some i → x = y;
}.

Lemma content_none s x : fs_wf s → content s x = None → names s !! x = None.
Proof.
  intros W. unfold content. destruct (names s !! x) as [i|] eqn:E; [|done]. cbn. destruct (wf_ino _ W x i E) as [? ->]. done.
Qed.

Lemma content_some s x i c : names s !! x = Some i → ino s !! i = Some c → content s x = Some c.
Proof. intros H1 H2. unfold content. by rewrite H1. Qed.

Lemma elem_of_entries d f s : f ∈ entries d s ↔ is_Some (names s !! (d, f)).
Proof.
  unfold entries. rewrite elem_of_map. split.
  - intros ([d' f'] & -> & [H1 H2]%elem_of_filter). cbn in *. subst. by apply elem_of_dom.
  - intros H. exists (d, f). split; [done|]. apply elem_of_filter. split; [done|]. by apply elem_of_dom.
Qed.

(** A new name, and a name removed. *)
Lemma add_name_wf x i s : fs_wf s → ino s !! i = None → names s !! x = None → fst x ∈ dirs s → fs_wf (add_name x i s).
Proof.
  intros W Hi Hx Hd. assert (∀ y j, names s !! y = Some j → j ≠ i) as Hne.
  { intros y j Hy ->. destruct (wf_ino _ W y i Hy) as [? ?]. congruence. }
  split; cbn.
  - intros y j. rewrite lookup_insert. case_decide; [intros _; by subst|]. apply (wf_dir _ W).
  - intros y j. rewrite !lookup_insert. case_decide; [intros [= <-]; by rewrite decide_True|]. intros Hy.
    rewrite decide_False by by apply not_eq_sym, (Hne y). by eapply wf_ino.
  - intros y z j. rewrite !lookup_insert. repeat case_decide; intros; simplify_eq; try done; [by destruct (Hne z j)|by destruct (Hne y j)|].
    by eapply wf_inj.
Qed.

Lemma del_name_wf x s : fs_wf s → fs_wf (del_name x s).
Proof.
  intros W. split; cbn.
  - intros y j [_ Hy]%lookup_delete_Some. by eapply wf_dir.
  - intros y j [_ Hy]%lookup_delete_Some. by eapply wf_ino.
  - intros y z j [_ Hy]%lookup_delete_Some [_ Hz]%lookup_delete_Some. by eapply wf_inj.
Qed.

Lemma set_ino_wf i c s : fs_wf s → fs_wf (set_ino i c s).
Proof.
  intros W. split; cbn; [apply W| |apply W]. intros x j Hx. rewrite lookup_insert. case_decide; [eauto|]. by eapply wf_ino.
Qed.

Lemma same_wf s s' : dirs s' = dirs s → names s' = names s → ino s' = ino s → fs_wf s → fs_wf s'.
Proof. intros E1 E2 E3 [W1 W2 W3]. split; rewrite ?E1, ?E2, ?E3; done. Qed.

Lemma content_same s s' : names s' = names s → ino s' = ino s → ∀ x, content s' x = content s x.
Proof. intros E1 E2 x. unfold content. by rewrite E1, E2. Qed.

(** Writing to the file [x] changes no other file. *)
Lemma content_set_ino s x y i c :
  fs_wf s → names s !! x = Some i → y ≠ x → content (set_ino i c s) y = content s y.
Proof.
  intros W Hx Hne. unfold content. cbn. destruct (names s !! y) as [j|] eqn:Hy; [|done]. cbn. rewrite lookup_insert_ne; [done|].
  intros <-. apply Hne. by eapply wf_inj.
Qed.

Lemma content_add s x y i : fs_wf s → ino s !! i = None → y ≠ x → content (add_name x i s) y = content s y.
Proof.
  intros W Hi Hne. unfold content. cbn. rewrite lookup_insert_ne by done. destruct (names s !! y) as [j|] eqn:Hy; [|done]. cbn.
  rewrite lookup_insert_ne; [done|]. intros <-. destruct (wf_ino _ W y i Hy) as [? ?]. congruence.
Qed.

Lemma content_del s x y : y ≠ x → content (del_name x s) y = content s y.
Proof. intros Hne. unfold content. cbn. by rewrite lookup_delete_ne. Qed.

(** ** Names of files *)

Definition ok_name (f : cstring) : Prop := slash ∉ f ∧ f ≠ [] ∧ (length f <= 20)%nat.
#[export] Instance ok_name_dec f : Decision (ok_name f) := _.

(** [dp] is a path of the directory [d], short enough for the arrays of the programs. *)
Definition dir_path (place : cstring → option (cstring * option cstring)) (dp d : cstring) : Prop :=
  place dp = Some (d, None) ∧ (∀ f, ok_name f → place (path dp f) = Some (d, Some f)) ∧ (length dp <= 480)%nat.

Lemma sprintf_path place dp d f : dir_path place dp d → ok_name f → sprintf (path dp f) = Done (path dp f).
Proof.
  intros (_ & _ & Hl) (_ & _ & Hf). unfold sprintf, path. rewrite length_app. cbn [length].
  by rewrite (proj2 (Nat.leb_gt 512 _)) by lia.
Qed.

Definition batch (pre : cstring) (n : nat) : list cstring := numbered pre <$> seqZ 0 (Z.of_nat n).
Definition set_of (d : cstring) (l : list cstring) : gset name := list_to_set (pair d <$> l).

Lemma length_batch pre n : length (batch pre n) = n.
Proof. unfold batch. rewrite length_fmap, length_seqZ. lia. Qed.

Lemma batch_lookup pre n m f : batch pre n !! m = Some f ↔ f = numbered pre (Z.of_nat m) ∧ (m < n)%nat.
Proof.
  unfold batch. rewrite list_lookup_fmap, fmap_Some. split.
  - intros (z & Hz & ->). apply lookup_seqZ in Hz as [-> Hm]. split; [f_equal; lia|lia].
  - intros [-> Hm]. exists (Z.of_nat m). split; [|done]. apply lookup_seqZ. lia.
Qed.

Lemma elem_of_set_of d l x : x ∈ set_of d l ↔ ∃ f, x = (d, f) ∧ f ∈ l.
Proof. unfold set_of. rewrite elem_of_list_to_set, list_elem_of_fmap. naive_solver. Qed.

Lemma set_of_snoc d l f : set_of d (l ++ [f]) = {[(d, f)]} ∪ set_of d l.
Proof. apply set_eq. intros x. rewrite elem_of_union, elem_of_singleton, !elem_of_set_of. set_solver. Qed.

(** ** The protocol *)

Section protocol.
Context (place : cstring → option (cstring * option cstring)).
(** What the files of the phase contain in the end; who may remove them ([None]: nobody, and both
    may create them); the directories and the other files. *)
Context (val : name → option cstring) (own : name → option bool).
Context (dirs0 : gset cstring) (content0 : name → option cstring).

Notation opened i := (OFile i 0 false).

(** A file of the phase has its contents, or is empty and a process that opened it has not
    written yet. *)
Record J (s : pfs) : Prop := MkJ {
  j_wf : fs_wf s;
  j_dirs : dirs s = dirs0;
  j_other x : val x = None → content s x = content0 x;
  j_val x v i : val x = Some v → names s !! x = Some i →
    ino s !! i = Some v ∨ (ino s !! i = Some [] ∧ ∃ k, fds s !! k = Some (opened i));
  j_fd w fd o : fds s !! (w, fd) = Some o →
    ∃ x v, val x = Some v ∧ own x ≠ Some (negb w) ∧ names s !! x = Some (o_ino o) ∧ o_append o = false;
}.

(** What process [w] can count on while the other one runs. *)
Record kept (w : bool) (s s' : pfs) : Prop := Kept {
  k_fds fd : fds s' !! (w, fd) = fds s !! (w, fd);
  k_stay x i : own x ≠ Some (negb w) → names s !! x = Some i → names s' !! x = Some i;
  k_gone x : own x = Some w → names s !! x = None → names s' !! x = None;
  k_streams k : names s' = names s → streams s' !! (w, k) = streams s !! (w, k);
  k_none k : streams s !! (w, k) = None → streams s' !! (w, k) = None;
}.

Definition rely (w : bool) : relation pfs := λ s s', J s → J s' ∧ kept w s s'.

(** *** The calls keep to it *)

Section calls.
Context (w : bool) (s : pfs) (Hj : J s) (x : name) (v : cstring).
Context (Hv : val x = Some v) (Ho : own x ≠ Some (negb w)).

Lemma val_ne y : val y = None → y ≠ x.
Proof using Hv. congruence. Qed.

(** Names do not change: the streams do not change either. *)
Lemma kept_same s' :
  names s' = names s → streams s' = streams s → (∀ fd, fds s' !! (negb w, fd) = fds s !! (negb w, fd)) → kept (negb w) s s'.
Proof using Type. intros E1 E2 E3. split; [done|by rewrite E1|by rewrite E1|by rewrite E2|by rewrite E2]. Qed.

Lemma creat_new_ok fd i :
  fst x ∈ dirs s → names s !! x = None → fds s !! (w, fd) = None → ino s !! i = None →
  let s' := set_fds (<[(w, fd) := opened i]> (fds s)) (add_name x i s) in J s' ∧ kept (negb w) s s'.
Proof using Hj Hv Ho.
  intros Hd Hx Hfd Hi s'. pose proof (j_wf _ Hj) as W.
  assert (∀ y j, names s !! y = Some j → j ≠ i) as Hne.
  { intros y j Hy ->. destruct (wf_ino _ W y i Hy) as [? ?]. congruence. }
  split; [split|split].
  - apply (same_wf (add_name x i s)); [done..|]. by apply add_name_wf.
  - apply Hj.
  - intros y Hy. rewrite <- (j_other _ Hj y Hy). erewrite content_same; [|done|done]. apply content_add; [done|done|by apply val_ne].
  - intros y u j Hu. cbn. rewrite lookup_insert. case_decide as E.
    + intros [= <-]. rewrite lookup_insert_eq. right. split; [done|]. exists (w, fd). apply lookup_insert_eq.
    + intros Hy. rewrite lookup_insert_ne by by apply not_eq_sym, (Hne y).
      destruct (j_val _ Hj y u j Hu Hy) as [?|[? [k Hk]]]; [by left|]. right. split; [done|]. exists k.
      rewrite lookup_insert_ne; [done|]. intros <-. congruence.
  - intros w' fd' o. cbn. rewrite lookup_insert. case_decide as E.
    + intros [= <-]. injection E as <- <-. exists x, v. split_and!; [done|done|by rewrite lookup_insert_eq|done].
    + intros Hk. destruct (j_fd _ Hj w' fd' o Hk) as (y & u & H1 & H2 & H3 & H4). exists y, u. split_and!; [done|done| |done].
      rewrite lookup_insert_ne; [done|]. congruence.
  - intros fd'. cbn. rewrite lookup_insert_ne; [done|]. intros [= E]. by destruct w.
  - intros y j _ Hy. cbn. rewrite lookup_insert_ne; [done|]. congruence.
  - intros y Hy Hn. cbn. rewrite lookup_insert_ne; [done|]. congruence.
  - intros k E. exfalso. cbn in E. apply (f_equal (.!! x)) in E. rewrite lookup_insert_eq in E. congruence.
  - intros k Hk. cbn. by rewrite lookup_fmap, Hk.
Qed.

Lemma creat_old_ok fd i :
  names s !! x = Some i → fds s !! (w, fd) = None →
  let s' := set_fds (<[(w, fd) := opened i]> (fds s)) (set_ino i [] s) in J s' ∧ kept (negb w) s s'.
Proof using Hj Hv Ho.
  intros Hx Hfd s'. pose proof (j_wf _ Hj) as W. split; [split|].
  - apply (same_wf (set_ino i [] s)); [done..|]. by apply set_ino_wf.
  - apply Hj.
  - intros y Hy. rewrite <- (j_other _ Hj y Hy). erewrite content_same; [|done|done]. by eapply content_set_ino; [| |apply val_ne].
  - intros y u j Hu. cbn. intros Hy. rewrite (lookup_insert (ino s)). case_decide as E.
    + subst j. right. split; [done|]. exists (w, fd). apply lookup_insert_eq.
    + destruct (j_val _ Hj y u j Hu Hy) as [?|[? [k Hk]]]; [by left|]. right. split; [done|]. exists k.
      rewrite lookup_insert_ne; [done|]. intros <-. congruence.
  - intros w' fd' o. cbn. rewrite lookup_insert. case_decide as E.
    + intros [= <-]. injection E as <- <-. by exists x, v.
    + intros Hk. by apply (j_fd _ Hj w' fd' o).
  - apply kept_same; [done|done|]. intros fd'. cbn. rewrite lookup_insert_ne; [done|]. intros [= E]. by destruct w.
Qed.

Lemma write_ok fd i c :
  names s !! x = Some i → fds s !! (w, fd) = Some (opened i) → ino s !! i = Some c →
  let s' := set_fds (<[(w, fd) := OFile i (0 + length v) false]> (fds s)) (set_ino i (overwrite 0 v c) s) in
  J s' ∧ kept (negb w) s s'.
Proof using Hj Hv Ho.
  intros Hx Hfd Hc s'. pose proof (j_wf _ Hj) as W.
  assert (overwrite 0 v c = v) as Eo.
  { unfold overwrite. cbn. destruct (j_val _ Hj x v i Hv Hx) as [E|[E _]]; rewrite Hc in E; injection E as ->.
    - rewrite drop_all. apply app_nil_r. - rewrite drop_nil. apply app_nil_r. }
  subst s'. rewrite Eo. split; [split|].
  - apply (same_wf (set_ino i v s)); [done..|]. by apply set_ino_wf.
  - apply Hj.
  - intros y Hy. rewrite <- (j_other _ Hj y Hy). erewrite content_same; [|done|done]. by eapply content_set_ino; [| |apply val_ne].
  - intros y u j Hu. cbn. intros Hy. rewrite (lookup_insert (ino s)). case_decide as E.
    + subst j. left. assert (y = x) as -> by by eapply wf_inj. congruence.
    + destruct (j_val _ Hj y u j Hu Hy) as [?|[? [k Hk]]]; [by left|]. right. split; [done|]. exists k.
      rewrite lookup_insert_ne; [done|]. intros <-. congruence.
  - intros w' fd' o. cbn. rewrite lookup_insert. case_decide as E.
    + intros [= <-]. injection E as <- <-. by exists x, v.
    + intros Hk. by apply (j_fd _ Hj w' fd' o).
  - apply kept_same; [done|done|]. intros fd'. cbn. rewrite lookup_insert_ne; [done|]. intros [= E]. by destruct w.
Qed.

Lemma close_ok fd i :
  names s !! x = Some i → fds s !! (w, fd) = Some (OFile i (length v) false) →
  let s' := set_fds (delete (w, fd) (fds s)) s in J s' ∧ kept (negb w) s s'.
Proof using Hj Hv Ho.
  intros Hx Hfd s'. pose proof (j_wf _ Hj) as W. split; [split|].
  - by apply (same_wf s).
  - apply Hj.
  - intros y Hy. rewrite <- (j_other _ Hj y Hy). by apply content_same.
  - intros y u j Hu Hy. cbn in Hy |- *. destruct (j_val _ Hj y u j Hu Hy) as [?|[Hi [k Hk]]]; [by left|].
    destruct (decide (k = (w, fd))) as [->|]; [|right; split; [done|]; exists k; by rewrite lookup_delete_ne].
    left. rewrite Hfd in Hk. injection Hk as -> Hl. assert (y = x) as -> by by eapply wf_inj.
    rewrite Hv in Hu. injection Hu as <-. apply nil_length_inv in Hl as ->. done.
  - intros w' fd' o. cbn. intros [_ Hk]%lookup_delete_Some. by apply (j_fd _ Hj w' fd' o).
  - apply kept_same; [done|done|]. intros fd'. cbn. rewrite lookup_delete_ne; [done|]. intros [= E]. by destruct w.
Qed.

Lemma unlink_ok i :
  names s !! x = Some i → own x = Some w → (∀ fd, fds s !! (w, fd) = None) → let s' := del_name x s in J s' ∧ kept (negb w) s s'.
Proof using Hj Hv Ho.
  intros Hx Hw Hno s'. pose proof (j_wf _ Hj) as W. split; [split|split].
  - by apply del_name_wf.
  - apply Hj.
  - intros y Hy. rewrite <- (j_other _ Hj y Hy). by apply content_del, val_ne.
  - intros y u j Hu Hy. cbn in Hy |- *. apply lookup_delete_Some in Hy as [_ Hy]. by apply (j_val _ Hj y u j).
  - intros w' fd o Hk. destruct (j_fd _ Hj w' fd o Hk) as (y & u & H1 & H2 & H3 & H4). exists y, u. split_and!; [done|done| |done].
    cbn. rewrite lookup_delete_ne; [done|]. intros <-. assert (w' = w) as ->.
    { destruct w', w; try done; by destruct H2. } cbn in Hk. by rewrite Hno in Hk.
  - done.
  - intros y j Hy Hn. cbn. rewrite lookup_delete_ne; [done|]. intros <-. rewrite negb_involutive in Hy. congruence.
  - intros y _ Hn. cbn. rewrite lookup_delete. by case_decide.
  - intros k E. exfalso. cbn in E. apply (f_equal (.!! x)) in E. rewrite lookup_delete_eq in E. congruence.
  - intros k Hk. cbn. by rewrite lookup_fmap, Hk.
Qed.
End calls.

(** *** What a process knows *)

(** The names in [P] exist, those in [A] do not; [F] are the open files of [w], which has no
    open directory. *)
Record K (w : bool) (F : Z → option ofile) (P A : gset name) (s : pfs) : Prop := MkK {
  K_j : J s;
  K_fds fd : fds s !! (w, fd) = F fd;
  K_P x : x ∈ P → is_Some (names s !! x);
  K_A x : x ∈ A → names s !! x = None;
  K_str k : streams s !! (w, k) = None;
}.

Lemma K_equiv w F P P' A A' s : P' ≡ P → A' ≡ A → K w F P A s → K w F P' A' s.
Proof using Type. intros E1 E2 [H1 H2 H3 H4 H5]. split; [done|done| | |done]; intros x Hx; [apply H3; set_solver|apply H4; set_solver]. Qed.

Definition no_fd : Z → option ofile := λ _, None.
Definition one_fd (fd : Z) (o : ofile) : Z → option ofile := λ z, if decide (z = fd) then Some o else None.

(** [P] and [A] are names that the other process leaves as they are. *)
Definition knowable (w : bool) (P A : gset name) : Prop :=
  (∀ x, x ∈ P → own x ≠ Some (negb w)) ∧ (∀ x, x ∈ A → own x = Some w).

Lemma rely_rtc w s s' :
  J s → rtc (rely w) s s' →
  J s' ∧ (∀ fd, fds s' !! (w, fd) = fds s !! (w, fd)) ∧
  (∀ x i, own x ≠ Some (negb w) → names s !! x = Some i → names s' !! x = Some i) ∧
  (∀ x, own x = Some w → names s !! x = None → names s' !! x = None) ∧
  ∀ k, streams s !! (w, k) = None → streams s' !! (w, k) = None.
Proof using Type.
  intros Hj Hr. revert Hj. induction Hr as [s|s s1 s' H1 _ IH]; intros Hj; [done|].
  destruct (H1 Hj) as [Hj1 [K1 K2 K3 _ K5]]. destruct (IH Hj1) as (J2 & I1 & I2 & I3 & I4).
  split_and!; [done|intros fd; by rewrite I1, K1|eauto|eauto|eauto].
Qed.

Lemma K_rely w F P A s s' : knowable w P A → K w F P A s → rtc (rely w) s s' → K w F P A s'.
Proof using Type.
  intros [KP KA] [Hj Hf HP HA Hs] Hr. destruct (rely_rtc w s s' Hj Hr) as (J2 & I1 & I2 & I3 & I4). split; [done| | | |eauto].
  - intros fd. by rewrite I1.
  - intros x Hx. destruct (HP x Hx) as [i Hi]. exists i. apply I2; [by apply KP|done].
  - intros x Hx. apply I3; [by apply KA|by apply HA].
Qed.

(** A call of [w] that keeps to the protocol. *)
Lemma wp_ok {A} w c (k : ret → prog A) Q s :
  (∃ r s', posix place w c s r s') →
  (∀ r s', posix place w c s r s' → (J s' ∧ kept (negb w) s s') ∧
     ∀ s'', rtc (rely w) s' s'' → wp place w (rely w) (rely (negb w)) (k r) Q s'') →
  wp place w (rely w) (rely (negb w)) (Sys c k) Q s.
Proof using Type. intros He Hk. split; [done|]. intros r s' Hp. destruct (Hk r s' Hp) as [H1 H2]. split; [by intros _|done]. Qed.

Section file.
Context (w : bool) (P A : gset name) (x : name) (v n : cstring).
Context (Hn : place n = Some (fst x, Some (snd x))) (Hv : val x = Some v).
Context (Hd : fst x ∈ dirs0) (HK : knowable w P A).

(** Between the calls: the file exists and is open. *)
Definition has_open (fd : Z) (i pos : nat) (s : pfs) : Prop :=
  K w (one_fd fd (OFile i pos false)) ({[x]} ∪ P) (A ∖ {[x]}) s ∧ names s !! x = Some i.

Context (Ho : own x ≠ Some (negb w)).

Lemma knowable_x : knowable w ({[x]} ∪ P) (A ∖ {[x]}).
Proof using All.
  destruct HK as [KP KA]. split; intros y Hy.
  - apply elem_of_union in Hy as [->%elem_of_singleton|Hy]; [done|by apply KP].
  - apply KA. set_solver.
Qed.

Lemma has_open_rely fd i pos s s' : has_open fd i pos s → rtc (rely w) s s' → has_open fd i pos s'.
Proof using All.
  intros [Hk Hx] Hr. split; [eapply K_rely; [apply knowable_x|done|done]|].
  destruct (rely_rtc w s s' (K_j _ _ _ _ _ Hk) Hr) as (_ & _ & H & _). by apply H.
Qed.

Lemma creat_step r s s' :
  K w no_fd P A s → posix place w (CCreat n) s r s' →
  (J s' ∧ kept (negb w) s s') ∧ 0 <= rv r ∧ ∃ i, has_open (rv r) i 0 s'.
Proof using All.
  intros Hk Hp. pose proof Hk as [Hj Hf HP HA Hs].
  inversion Hp as [| | | |p d f fd i s0 E Hin Hnone Hfd Hnf Hi|p d f fd i s0 E Hsome Hfd Hnf|p d f s0 E Hnin| | | | | | | | | | | | |]; subst;
    rewrite Hn in E; injection E as <- <-; rewrite <- ?surjective_pairing in *.
  - destruct (creat_new_ok w s Hj x v Hv Ho fd i Hin Hnone Hnf Hi) as [J1 K1]. split; [done|]. split; [done|]. exists i.
    split; [split|]; cbn; [done| | | |intros k; by rewrite lookup_fmap, Hs|by rewrite lookup_insert_eq].
    + intros fd'. unfold one_fd. rewrite lookup_insert. repeat case_decide; simplify_eq; try done; apply Hf.
    + intros y Hy. rewrite lookup_insert. case_decide; [eauto|]. apply HP. set_solver.
    + intros y Hy. rewrite lookup_insert_ne by set_solver. apply HA. set_solver.
  - destruct (creat_old_ok w s Hj x v Hv Ho fd i Hsome Hnf) as [J1 K1]. split; [done|]. split; [done|]. exists i.
    split; [split|]; cbn; [done| | | |exact Hs|done].
    + intros fd'. unfold one_fd. rewrite lookup_insert. repeat case_decide; simplify_eq; try done; apply Hf.
    + intros y Hy. apply elem_of_union in Hy as [->%elem_of_singleton|Hy]; [eauto|by apply HP].
    + intros y Hy. apply HA. set_solver.
  - exfalso. rewrite (j_dirs _ Hj) in Hnin. done.
Qed.

Lemma creat_returns s : K w no_fd P A s → ∃ r s', posix place w (CCreat n) s r s'.
Proof using All.
  intros Hk. pose proof Hk as [Hj Hf _ _ _]. destruct (names s !! x) as [i|] eqn:Ex.
  - eexists _, _. eapply (px_creat_old _ _ _ (fst x) (snd x) 0 i); [done| |done|apply Hf]. by rewrite <- surjective_pairing.
  - eexists _, _. eapply (px_creat_new _ _ _ (fst x) (snd x) 0 (fresh (dom (ino s)))); [done| | |done|apply Hf|].
    + by rewrite (j_dirs _ Hj). + by rewrite <- surjective_pairing. + apply not_elem_of_dom, is_fresh.
Qed.

(** The three calls, and what is left. *)
Lemma create_file_wp s :
  K w no_fd P A s →
  wp place w (rely w) (rely (negb w)) (create_file n v) (λ _, K w no_fd ({[x]} ∪ P) (A ∖ {[x]})) s.
Proof using All.
  intros Hk. unfold create_file. cbn -[wp]. apply wp_ok; [by apply creat_returns|]. intros r s1 Hp.
  destruct (creat_step r s s1 Hk Hp) as (H1 & Hfd & i & O1). split; [done|]. intros s2 Hr2.
  pose proof (has_open_rely _ _ _ _ _ O1 Hr2) as [K2 X2]. rewrite (proj2 (Z.leb_le _ _) Hfd). cbn -[wp].
  pose proof K2 as [J2 F2 P2 A2 S2]. pose proof (F2 (rv r)) as E2. unfold one_fd in E2. rewrite decide_True in E2 by done.
  destruct (wf_ino _ (j_wf _ J2) x i X2) as [c Hc].
  apply wp_ok; [eexists _, _; by eapply px_write|]. intros r2 s3 Hp2.
  inversion Hp2 as [| | | | | | | | | |fd bs o c' s0 Eo Ec pos| | | | | | | | |]; subst. rewrite E2 in Eo. injection Eo as <-.
  cbn [o_ino o_pos o_append] in *. rewrite Hc in Ec. injection Ec as <-. subst pos.
  destruct (write_ok w s2 J2 x v Hv Ho (rv r) i c X2 E2 Hc) as [J3 K3]. split; [done|]. intros s4 Hr4.
  rewrite Z.eqb_refl. cbn -[wp].
  assert (has_open (rv r) i (length v) s4) as [K4 X4].
  { eapply has_open_rely; [|exact Hr4]. split; [|done]. split; [done| |done|done|exact S2]. intros fd'. cbn. unfold one_fd.
    rewrite lookup_insert. repeat case_decide; simplify_eq; try done. rewrite F2. unfold one_fd. by rewrite decide_False by congruence. }
  pose proof K4 as [J4 F4 P4 A4 S4]. pose proof (F4 (rv r)) as E4. unfold one_fd in E4. rewrite decide_True in E4 by done.
  apply wp_ok; [eexists _, _; by eapply px_close|]. intros r3 s5 Hp3.
  inversion Hp3 as [| | | | | | | | | | |fd o s0 Eo| | | | | | | |]; subst.
  destruct (close_ok w s4 J4 x v Hv Ho (rv r) i X4 E4) as [J5 K5]. split; [done|]. intros s6 Hr6. cbn.
  eapply K_rely; [apply knowable_x| |exact Hr6]. split; [done| |exact P4|exact A4|exact S4]. intros fd'. cbn. unfold no_fd.
  rewrite lookup_delete. case_decide as E; [done|]. rewrite F4. unfold one_fd. rewrite decide_False; [done|]. congruence.
Qed.

(** Removing an own file. *)
Lemma unlink_file_wp s :
  own x = Some w → x ∈ P → K w no_fd P A s →
  wp place w (rely w) (rely (negb w)) (unlink_file n) (λ _, K w no_fd (P ∖ {[x]}) ({[x]} ∪ A)) s.
Proof using All.
  intros Hw Hin Hk. pose proof Hk as [Hj Hf HP HA Hs0]. destruct (HP x Hin) as [i Hi]. unfold unlink_file. cbn -[wp].
  assert (names s !! (fst x, snd x) = Some i) as Hi' by by rewrite <- surjective_pairing.
  apply wp_ok; [eexists _, _; by eapply px_unlink|]. intros r s1 Hp.
  inversion Hp as [| | | | | | | | | | | |p d f j s0 E Hs|p d f s0 E Hs| | | | | |]; subst;
    rewrite Hn in E; injection E as <- <-; [|congruence]. rewrite <- surjective_pairing in *.
  destruct (unlink_ok w s Hj x v Hv Ho i Hi Hw Hf) as [J1 K1]. split; [done|]. intros s2 Hr2. cbn.
  eapply K_rely; [| |exact Hr2].
  - destruct HK as [KP KA]. split; intros y Hy; [apply KP; set_solver|]. apply elem_of_union in Hy as [->%elem_of_singleton|Hy]; auto.
  - split; [done|exact Hf| | |intros k; cbn; by rewrite lookup_fmap, Hs0]; intros y Hy; cbn.
    + rewrite lookup_delete_ne by set_solver. apply HP. set_solver.
    + rewrite lookup_delete. case_decide; [done|]. apply HA. set_solver.
Qed.
End file.

(** *** Loops over numbered files *)

Lemma for_files_wp w R G body (I : nat → pfs → Prop) k j s :
  (∀ m s, (j <= m < j + k)%nat → I m s → wp place w R G (body (Z.of_nat m)) (λ _, I (S m)) s) →
  I j s → wp place w R G (for_files body k (Z.of_nat j)) (λ _, I (j + k)%nat) s.
Proof using Type.
  revert j s. induction k as [|k IH]; intros j s Hb Hi; cbn [for_files]; [by rewrite Nat.add_0_r|].
  apply wp_bind. eapply wp_mono; [done|done| |apply Hb; [lia|done]]. cbn. intros _ s' Hi'.
  rewrite <- Nat.add_succ_comm. replace (Z.of_nat j + 1) with (Z.of_nat (S j)) by lia. apply IH; [|done].
  intros m s2 Hm. apply Hb. lia.
Qed.

Section batches.
Context (w : bool) (dp d pre : cstring) (n : nat) (P A : gset name).
Context (Hdp : dir_path place dp d) (Hd : d ∈ dirs0) (HK : knowable w P A).
Context (Hnames : Forall ok_name (batch pre n)).
Context (Hval : ∀ i, 0 <= i < Z.of_nat n → val (d, numbered pre i) = Some (int_bytes i)).
Context (Hown : ∀ i, 0 <= i < Z.of_nat n → own (d, numbered pre i) ≠ Some (negb w)).

Lemma knowable_batch m : (m <= n)%nat → knowable w (set_of d (take m (batch pre n)) ∪ P) (A ∖ set_of d (take m (batch pre n))).
Proof using All.
  destruct HK as [KP KA]. intros Hm. split; intros x Hx.
  - apply elem_of_union in Hx as [Hx|Hx]; [|by apply KP]. apply elem_of_set_of in Hx as (f & -> & Hf).
    apply elem_of_take in Hf as (j & Hj & Hlt). apply batch_lookup in Hj as [-> Hj]. apply Hown. lia.
  - apply KA. by apply elem_of_difference in Hx as [Hx _].
Qed.

Lemma createn_wp s :
  K w no_fd P A s →
  wp place w (rely w) (rely (negb w)) (createn dp pre n)
    (λ _, K w no_fd (set_of d (batch pre n) ∪ P) (A ∖ set_of d (batch pre n))) s.
Proof using All.
  intros Hk. unfold createn.
  set (I := λ m : nat, K w no_fd (set_of d (take m (batch pre n)) ∪ P) (A ∖ set_of d (take m (batch pre n)))).
  eapply (wp_mono _ _ _ (rely w) _ (rely (negb w)) _ (λ _ s', I (0 + n)%nat s')); [done|done| |apply (for_files_wp w _ _ _ I n 0%nat)].
  { intros _ s'. unfold I. by rewrite take_ge by (rewrite length_batch; lia). }
  2:{ eapply K_equiv; [| |exact Hk]; unfold set_of; cbn; set_solver. }
  intros m s1 Hm Hi. assert (batch pre n !! m = Some (numbered pre (Z.of_nat m))) as Hl by (apply batch_lookup; split; [done|lia]).
  rewrite (sprintf_path place dp d) by (done || by eapply Forall_lookup_1). cbn -[wp].
  eapply wp_mono; [done|done| |apply (create_file_wp w (set_of d (take m (batch pre n)) ∪ P) (A ∖ set_of d (take m (batch pre n)))
    (d, numbered pre (Z.of_nat m)) (int_bytes (Z.of_nat m)) (path dp (numbered pre (Z.of_nat m))));
    [|by apply Hval; lia|done|apply knowable_batch; lia|apply Hown; lia|exact Hi]].
  - intros ? s2. unfold I. rewrite (take_S_r _ _ _ Hl), set_of_snoc. apply K_equiv; set_solver.
  - apply Hdp. by eapply Forall_lookup_1.
Qed.

Lemma unlinkn_wp s :
  (∀ i, 0 <= i < Z.of_nat n → own (d, numbered pre i) = Some w) → NoDup (batch pre n) → set_of d (batch pre n) ⊆ P →
  K w no_fd P A s →
  wp place w (rely w) (rely (negb w)) (unlinkn dp pre n)
    (λ _, K w no_fd (P ∖ set_of d (batch pre n)) (set_of d (batch pre n) ∪ A)) s.
Proof using All.
  intros Hw Hnd Hsub Hk. unfold unlinkn.
  set (I := λ m : nat, K w no_fd (P ∖ set_of d (take m (batch pre n))) (set_of d (take m (batch pre n)) ∪ A)).
  eapply (wp_mono _ _ _ (rely w) _ (rely (negb w)) _ (λ _ s', I (0 + n)%nat s')); [done|done| |apply (for_files_wp w _ _ _ I n 0%nat)].
  { intros _ s'. unfold I. by rewrite take_ge by (rewrite length_batch; lia). }
  2:{ eapply K_equiv; [| |exact Hk]; unfold set_of; cbn; set_solver. }
  intros m s1 Hm Hi. assert (batch pre n !! m = Some (numbered pre (Z.of_nat m))) as Hl by (apply batch_lookup; split; [done|lia]).
  rewrite (sprintf_path place dp d) by (done || by eapply Forall_lookup_1). cbn -[wp].
  eapply wp_mono; [done|done| |apply (unlink_file_wp w (P ∖ set_of d (take m (batch pre n))) (set_of d (take m (batch pre n)) ∪ A)
    (d, numbered pre (Z.of_nat m)) (int_bytes (Z.of_nat m)) (path dp (numbered pre (Z.of_nat m))));
    [|by apply Hval; lia|done| |apply Hown; lia|apply Hw; lia| |exact Hi]].
  - intros ? s2. unfold I. rewrite (take_S_r _ _ _ Hl), set_of_snoc. apply K_equiv; set_solver.
  - apply Hdp. by eapply Forall_lookup_1.
  - destruct HK as [KP KA]. split; intros x Hx; [apply KP; by apply elem_of_difference in Hx as [Hx _]|].
    apply elem_of_union in Hx as [Hx|Hx]; [|by apply KA]. apply elem_of_set_of in Hx as (f & -> & Hf).
    apply elem_of_take in Hf as (j & Hj & Hlt). apply batch_lookup in Hj as [-> Hj]. apply Hw. lia.
  - apply elem_of_difference. split; [apply Hsub, elem_of_set_of; eexists; split; [done|by eapply list_elem_of_lookup_2]|].
    intros (f & [= <-] & Hf)%elem_of_set_of. apply elem_of_take in Hf as (j & Hj & Hlt).
    assert (j = m) by by eapply NoDup_lookup. lia.
Qed.
End batches.
End protocol.

(** ** Listing a directory *)

Lemma adjacent_nodup l : NoDup l → adjacent l = false.
Proof.
  induction l as [|a [|b l] IH]; intros H; [done|done|]. apply NoDup_cons in H as [Hn H].
  change (adjacent (a :: b :: l)) with (bool_decide (a = b) || adjacent (b :: l)). rewrite IH by done.
  rewrite bool_decide_false; [done|]. set_solver.
Qed.

Lemma sorted_distinct l : NoDup l → adjacent (merge_sort compar_le l) = false.
Proof. intros H. apply adjacent_nodup. by rewrite merge_sort_Permutation. Qed.

Definition visible (M : gset cstring) : gset cstring := filter (λ n, dotted n = false) M.

Lemma visible_remove n M : n ∈ M → dotted n = false → size (visible M) = S (size (visible (M ∖ {[n]}))).
Proof.
  intros Hn Hd. assert (visible M = {[n]} ∪ visible (M ∖ {[n]})) as ->.
  { apply set_eq. intros x. unfold visible. rewrite elem_of_union, elem_of_singleton, !elem_of_filter, elem_of_difference, elem_of_singleton.
    destruct (decide (x = n)) as [->|]; naive_solver. }
  rewrite size_union, size_singleton; [done|]. unfold visible. set_solver.
Qed.

Section listing.
Context (place : cstring → option (cstring * option cstring)) (w : bool) (R G : relation pfs).
(** [I] holds as long as the directory does not change. *)
Context (I : pfs → Prop) (d : cstring) (E : gset cstring).
Context (HR : ∀ s s', I s → R s s' → I s' ∧ ∀ k, streams s' !! (w, k) = streams s !! (w, k)).
Context (HG : ∀ s D, I s → (∀ k, D !! (negb w, k) = streams s !! (negb w, k)) → I (set_streams D s) ∧ G s (set_streams D s)).
Context (HE : ∀ s, I s → d ∈ dirs s ∧ entries d s = E).

Lemma calm_rtc s s' : I s → rtc R s s' → I s' ∧ ∀ k, streams s' !! (w, k) = streams s !! (w, k).
Proof using HR.
  intros Hi Hr. revert Hi. induction Hr as [s|s s1 s' H1 _ IH]; intros Hi; [done|]. destruct (HR _ _ Hi H1) as [Hi1 E1].
  destruct (IH Hi1) as [Hi2 E2]. split; [done|]. intros k. by rewrite E2, E1.
Qed.

(** A call on a stream. *)
Lemma stream_call {A} c (k : ret → prog A) Q s :
  I s → (∃ r s', posix place w c s r s') →
  (∀ r s', posix place w c s r s' → ∃ D, s' = set_streams D s ∧ (∀ k, D !! (negb w, k) = streams s !! (negb w, k)) ∧
     ∀ s'', I s'' → (∀ k, streams s'' !! (w, k) = D !! (w, k)) → wp place w R G (k r) Q s'') →
  wp place w R G (Sys c k) Q s.
Proof using HR HG.
  intros Hi He Hk. split; [done|]. intros r s' Hp. destruct (Hk r s' Hp) as (D & -> & Hd & Hw).
  destruct (HG s D Hi Hd) as [Hi' Hg]. split; [done|]. intros s'' Hr. destruct (calm_rtc _ _ Hi' Hr) as [Hi2 E2].
  by apply Hw.
Qed.

Lemma other_insert (dp : Z) (ds : dstream) (D : gmap (bool * Z) dstream) k : <[(w, dp) := ds]> D !! (negb w, k) = D !! (negb w, k).
Proof using Type. rewrite lookup_insert_ne; [done|]. intros [= H]. by apply (Bool.no_fixpoint_negb w). Qed.

Lemma read_names_wp fuel dp l M s :
  I s → streams s !! (w, dp) = Some (DStream d M ∅) → (size M < fuel)%nat → NoDup l → (∀ n, n ∈ l → n ∉ visible M) →
  (length l + size (visible M) <= 1000)%nat →
  wp place w R G (read_names fuel dp l) (λ l' s', I s' ∧ is_Some (streams s' !! (w, dp)) ∧
    (∀ k, k ≠ dp → streams s' !! (w, k) = streams s !! (w, k)) ∧ NoDup l' ∧
    length l' = (length l + size (visible M))%nat) s.
Proof using HR HG.
  clear HE. revert l M s. induction fuel as [|fuel IH]; intros l M s Hi Hs Hf Hnd Hv Hl; [lia|]. cbn [read_names]. cbn -[wp Nat.leb].
  apply stream_call; [done| |].
  { destruct (set_choose_or_empty M) as [[n Hn]|He].
    - eexists _, _. eapply (px_readdir _ _ _ _ n); [done|]. cbn. set_solver.
    - eexists _, _. eapply px_readdir_end; [done|]. cbn. by apply leibniz_equiv. }
  intros r s' Hp. inversion Hp as [| | | | | | | | | | | | | | | |dp' ds n s0 Es Hn|dp' ds s0 Es Hm| |]; subst;
    rewrite Hs in Es; injection Es as <-; cbn [must may ds_dir] in *.
  - assert (n ∈ M) as HnM by set_solver. eexists. split; [done|]. split; [intros k; apply other_insert|]. intros s2 Hi2 E2. cbn [rn].
    assert (streams s2 !! (w, dp) = Some (DStream d (M ∖ {[n]}) ∅)) as Hs2.
    { rewrite E2, lookup_insert_eq. by rewrite (difference_empty_L ∅) || (do 2 f_equal; set_solver). }
    assert (size M = S (size (M ∖ {[n]}))) as Hsz.
    { rewrite size_difference by set_solver. rewrite size_singleton.
      assert (size ({[n]} : gset cstring) <= size M)%nat as H1 by (apply subseteq_size; set_solver). rewrite size_singleton in H1. lia. }
    assert (∀ k, k ≠ dp → streams s2 !! (w, k) = streams s !! (w, k)) as Ho.
    { intros k Hk. rewrite E2, lookup_insert_ne; [done|]. congruence. }
    destruct (dotted n) eqn:Ed.
    + assert (visible (M ∖ {[n]}) = visible M) as Ev.
      { apply set_eq. intros x. unfold visible. rewrite !elem_of_filter, elem_of_difference, elem_of_singleton. naive_solver congruence. }
      eapply wp_mono; [done|done| |apply (IH l (M ∖ {[n]}) s2); rewrite ?Ev; [done|done|lia|done|done|done]].
      cbn. intros l' s3 (H1 & H2 & H3 & H4 & H5). rewrite Ev in H5. split_and!; [done|done| |done|done]. intros k Hk. by rewrite H3, Ho.
    + pose proof (visible_remove n M HnM Ed) as Ev. rewrite (proj2 (Nat.leb_gt 1000 _)) by lia.
      eapply wp_mono; [done|done| |apply (IH (l ++ [n]) (M ∖ {[n]}) s2); [done|done|lia| | |rewrite length_app; cbn; lia]].
      * cbn. intros l' s3 (H1 & H2 & H3 & H4 & H5). rewrite length_app in H5. cbn in H5.
        split_and!; [done|done| |done|lia]. intros k Hk. by rewrite H3, Ho.
      * apply NoDup_app. split_and!; [done| |apply NoDup_singleton]. intros x Hx ->%list_elem_of_singleton.
        apply (Hv n Hx). unfold visible. by apply elem_of_filter.
      * intros x [Hx| ->%list_elem_of_singleton]%elem_of_app; [specialize (Hv x Hx)|]; unfold visible in *; set_solver.
  - subst M. exists (streams s'). split; [by destruct s'|]. split; [done|]. intros s2 Hi2 E2. cbn.
    assert (size (visible ∅) = 0%nat) as -> by (vm_compute; done).
    split_and!; [done|by rewrite E2, Hs|by intros; rewrite E2|done|lia].
Qed.

Lemma dircheck_within_wp fuel dp nf s :
  (nf + 2 < fuel)%nat → place dp = Some (d, None) → Forall (λ n, dotted n = false) (elements E) → size E = nf → (nf <= 1000)%nat →
  I s → (∀ k, streams s !! (w, k) = None) →
  wp place w R G (dircheck_within fuel dp nf) (λ _ s', I s' ∧ ∀ k, streams s' !! (w, k) = None) s.
Proof using All.
  intros Hfuel Hp Hdot Hsz Hnf Hi Hs. unfold dircheck_within. cbn -[wp read_names]. destruct (HE s Hi) as [Hd Hen].
  apply stream_call; [done|eexists _, _; by apply (px_opendir _ _ _ d 1)|]. intros r s1 Hc.
  inversion Hc as [| | | | | | | | | | | | | |p d' z s0 Hp' Hd' Hz Hno|p d' s0 Hp' Hd'| | | |]; subst; [|congruence].
  rewrite Hp in Hp'. injection Hp' as <-. eexists. split; [done|]. split; [intros k; apply other_insert|]. intros s2 Hi2 E2. cbn [rv rint].
  rewrite (proj2 (Z.eqb_neq _ _) Hz). cbn -[wp read_names].
  assert (visible (entries d s ∪ dots) = entries d s) as Ev.
  { apply set_eq. intros x. unfold visible. rewrite elem_of_filter, elem_of_union. rewrite Forall_forall in Hdot. split.
    - intros [Hx [?|Hx']]; [done|]. unfold dots in Hx'. set_unfold in Hx'. destruct Hx' as [-> | ->]; discriminate Hx.
    - intros Hx. split; [|by left]. apply Hdot. by apply elem_of_elements. }
  assert (size (entries d s ∪ dots) <= size (entries d s) + 2)%nat as Hle.
  { rewrite size_union_alt. pose proof (subseteq_size (dots ∖ entries d s) dots ltac:(set_solver)) as Hl.
    change (size dots) with 2%nat in Hl. lia. }
  apply wp_bind. eapply wp_mono; [done|done| |apply (read_names_wp fuel z [] (entries d s ∪ dots) s2)].
  2: done. 2: by rewrite E2, lookup_insert_eq. 2: lia. 2: apply NoDup_nil_2. 2: set_solver. 2: rewrite Ev; cbn; lia.
  cbn -[wp]. intros l s3 (H1 & [ds H2] & H3 & H4 & H5).
  apply stream_call; [done|eexists _, _; by eapply px_closedir|]. intros r s4 Hc4.
  inversion Hc4; subst. eexists. split; [done|]. split.
  { intros k. rewrite lookup_delete_ne; [done|]. intros [= H]. by apply (Bool.no_fixpoint_negb w). }
  intros s5 Hi5 E5. cbn -[wp]. rewrite H5, Ev, Nat.eqb_refl. cbn. rewrite sorted_distinct by done. cbn. split; [done|].
  intros k. rewrite E5, lookup_delete. case_decide as Ek; [done|]. rewrite H3 by congruence. rewrite E2, lookup_insert_ne by done. apply Hs.
Qed.

Lemma dircheck_wp dp nf s :
  place dp = Some (d, None) → Forall (λ n, dotted n = false) (elements E) → size E = nf → (nf <= 1000)%nat →
  I s → (∀ k, streams s !! (w, k) = None) →
  wp place w R G (dircheck dp nf) (λ _ s', I s' ∧ ∀ k, streams s' !! (w, k) = None) s.
Proof using All. intros. apply dircheck_within_wp; [unfold dir_fuel; lia|done..]. Qed.
End listing.

(** ** One process alone *)

(** Nothing is open, the directories are [D] and the files are [C]. *)
Record holds (D : gset cstring) (C : name → option cstring) (s : pfs) : Prop := Holds {
  h_wf : fs_wf s;
  h_fds : fds s = ∅;
  h_streams : streams s = ∅;
  h_dirs : dirs s = D;
  h_files x : content s x = C x;
}.

Lemma holds_ext D C C' s : (∀ x, C x = C' x) → holds D C s → holds D C' s.
Proof. intros E [H1 H2 H3 H4 H5]. split; [done..|]. intros x. by rewrite H5. Qed.

Section phases.
Context (place : cstring → option (cstring * option cstring)).
Context (D : gset cstring) (C C' : name → option cstring).
Context (val : name → option cstring) (own : name → option bool).
Context (Hbefore : ∀ x v, val x = Some v → C x = None ∨ C x = Some v).

Notation J := (J val own D C).
Notation rely := (rely val own D C).
Notation K := (K val own D C).

Lemma J_start s : holds D C s → J s.
Proof using Hbefore.
  intros [W Hf Hs Hd Hc]. split; [done|done|done| |].
  - intros x v i Hv Hx. left. specialize (Hc x). unfold content in Hc. rewrite Hx in Hc. cbn in Hc. rewrite Hc.
    destruct (wf_ino _ W x i Hx) as [c Ei]. destruct (Hbefore x v Hv) as [E|E]; [congruence|done].
  - intros w fd o Ho. by rewrite Hf, lookup_empty in Ho.
Qed.

(** What the process knows at the start. *)
Lemma K_start w P A s :
  holds D C s → (∀ x, x ∈ P → is_Some (C x)) → (∀ x, x ∈ A → C x = None) → K w no_fd P A s.
Proof using Hbefore.
  intros H HP HA. pose proof H as [W Hf Hs Hd Hc]. split; [by apply J_start| | | |].
  - intros fd. by rewrite Hf, lookup_empty.
  - intros x Hx. destruct (HP x Hx) as [c E]. rewrite <- Hc in E. unfold content in E. apply bind_Some in E as (i & ? & _). eauto.
  - intros x Hx. apply content_none; [done|]. rewrite Hc. by apply HA.
  - intros k. by rewrite Hs, lookup_empty.
Qed.

(** No process has anything open: every file of the phase that exists is complete. *)
Lemma J_final s :
  J s → (∀ w fd, fds s !! (w, fd) = None) → (∀ w k, streams s !! (w, k) = None) →
  (∀ x v, val x = Some v → (is_Some (names s !! x) ∧ C' x = Some v) ∨ (names s !! x = None ∧ C' x = None)) →
  (∀ x, val x = None → C' x = C x) → holds D C' s.
Proof using Type.
  intros Hj Hf Hs HV HN. pose proof (j_wf _ _ _ _ _ Hj) as W. split; [done| | |apply Hj|].
  - apply map_empty. intros [w fd]. apply Hf.
  - apply map_empty. intros [w k]. apply Hs.
  - intros x. destruct (val x) as [v|] eqn:Ev; [|by rewrite HN, (j_other _ _ _ _ _ Hj)].
    destruct (HV x v Ev) as [[[i Hi] ->]|[Hi ->]]; [|unfold content; by rewrite Hi].
    destruct (j_val _ _ _ _ _ Hj x v i Ev Hi) as [E|[_ [[w fd] Hk]]]; [by apply (content_some _ _ i)|]. by rewrite Hf in Hk.
Qed.

(** What is known in the end about each file. *)
Definition settled (P A : gset name) : Prop :=
  (∀ x v, val x = Some v → (x ∈ P ∧ C' x = Some v) ∨ (x ∈ A ∧ C' x = None)) ∧ ∀ x, val x = None → C' x = C x.

Lemma wp_track {B} w R G (p : prog B) Q s0 s :
  (∀ a b, R a b → False) → rtc G s0 s → wp place w R G p Q s → wp place w R G p (λ a s', Q a s' ∧ rtc G s0 s') s.
Proof using Type.
  intros HR. revert s. induction p as [a| | |c k IH]; intros s Hs; [done|done|done|]. intros [He Hk]. split; [done|].
  intros r s' Hp. destruct (Hk r s' Hp) as [Hg Hw]. split; [done|]. intros s'' Hr.
  assert (s'' = s') as -> by (destruct Hr as [|? ? ? Hr]; [done|by apply HR in Hr]).
  apply IH; [|by apply Hw]. eapply rtc_r; [exact Hs|exact Hg].
Qed.

Lemma alone p P A s :
  holds D C s → settled P A → wp place true (rely true) (rely false) p (λ _ : unit, K true no_fd P A) s →
  swp place p (λ _, holds D C') s.
Proof using Hbefore.
  intros H [HV HN] Hw. eapply (wp_mono _ true idle _ (rely false)); [done|done| |eapply (wp_track true idle (rely false) p
    (λ _, K true no_fd P A) s s); [done|done|eapply wp_mono; [| | |exact Hw]; done]].
  cbn. intros _ s' [[Hj Hf HP HA Hs] Hr]. destruct (rely_rtc val own D C false s s') as (_ & R1 & _ & _ & R4); [by apply J_start|done|].
  destruct H as [_ F0 S0 _ _]. apply J_final; [done| | | |done].
  - intros [] fd; [apply Hf|]. by rewrite R1, F0, lookup_empty.
  - intros [] k; [apply Hs|]. apply R4. by rewrite S0, lookup_empty.
  - intros x v Ev. destruct (HV x v Ev) as [[Hx E]|[Hx E]]; [left|right]; auto.
Qed.

(** Two processes: together they know about each file. *)
Lemma together P1 A1 P2 A2 rest child parent s :
  holds D C s → settled (P1 ∪ P2) (A1 ∪ A2) →
  (∀ s', rtc (rely false) s s' → wp place false (rely false) (rely true) child (λ _, K false no_fd P1 A1) s') →
  (∀ s', rtc (rely true) s s' → wp place true (rely true) (rely false) parent (λ _, K true no_fd P2 A2) s') →
  (∀ s', holds D C' s' → passes (posix place) (Main (Done tt) rest, s')) →
  passes (posix place) (Main (Done tt) (Par child parent :: rest), s).
Proof using Hbefore.
  intros H [HV HN] Hc Hp Hrest. pose proof H as [_ F0 S0 _ _].
  eapply (passes_par place (rely false) (rely true) (K false no_fd P1 A1) (K true no_fd P2 A2)); [|done|done|exact Hc|exact Hp].
  intros s' [Hj Hf1 HP1 HA1 Hs1] [_ Hf2 HP2 HA2 Hs2]. apply Hrest, J_final; [done| | | |done].
  - intros [] fd; [apply Hf2|apply Hf1].
  - intros [] k; [apply Hs2|apply Hs1].
  - intros x v Ev. destruct (HV x v Ev) as [[Hx E]|[Hx E]]; [left|right]; (split; [|done]); set_solver.
Qed.
End phases.

(** *** Calls of one process *)

Section single.
Context (place : cstring → option (cstring * option cstring)).
Notation swp := (swp place).

Lemma swp_det {A} c (k : ret → prog A) Q s r s' :
  posix place true c s r s' → (∀ r1 s1, posix place true c s r1 s1 → r1 = r ∧ s1 = s') → swp (k r) Q s' → swp (Sys c k) Q s.
Proof using Type. intros Hp Hd Hk. apply swp_call; [eauto|]. intros r1 s1 H1. by destruct (Hd r1 s1 H1) as [-> ->]. Qed.

Lemma swp_read {A} fd n o c (k : ret → prog A) Q s :
  fds s !! (true, fd) = Some o → ino s !! o_ino o = Some c → let bs := take n (drop (o_pos o) c) in
  swp (k (Ret (Z.of_nat (length bs)) bs None)) Q
    (set_fds (<[(true, fd) := OFile (o_ino o) (o_pos o + length bs) (o_append o)]> (fds s)) s) →
  swp (Sys (CRead fd n) k) Q s.
Proof using Type.
  intros Ho Hc bs Hk. eapply swp_det; [by eapply px_read| |exact Hk]. intros r1 s1 H1. inversion H1; subst. by simplify_eq.
Qed.

Lemma swp_write {A} fd bs o c (k : ret → prog A) Q s :
  fds s !! (true, fd) = Some o → ino s !! o_ino o = Some c → let pos := if o_append o then length c else o_pos o in
  swp (k (rint (Z.of_nat (length bs)))) Q
    (set_fds (<[(true, fd) := OFile (o_ino o) (pos + length bs) (o_append o)]> (fds s)) (set_ino (o_ino o) (overwrite pos bs c) s)) →
  swp (Sys (CWrite fd bs) k) Q s.
Proof using Type.
  intros Ho Hc bs' Hk. eapply swp_det; [by eapply px_write| |exact Hk]. intros r1 s1 H1. inversion H1; subst. by simplify_eq.
Qed.

Lemma swp_close {A} fd o (k : ret → prog A) Q s :
  fds s !! (true, fd) = Some o → swp (k (rint 0)) Q (set_fds (delete (true, fd) (fds s)) s) → swp (Sys (CClose fd) k) Q s.
Proof using Type. intros Ho Hk. eapply swp_det; [by eapply px_close| |exact Hk]. intros r1 s1 H1. by inversion H1; subst. Qed.

Context (D : gset cstring) (C : name → option cstring).

Lemma swp_open {A} n d f ap c (k : ret → prog A) Q s :
  holds D C s → place n = Some (d, Some f) → C (d, f) = Some c →
  (∀ fd i, 0 <= fd → names s !! (d, f) = Some i → ino s !! i = Some c →
     swp (k (rint fd)) Q (set_fds {[(true, fd) := OFile i 0 ap]} s)) →
  swp (Sys (COpen n ap) k) Q s.
Proof using Type.
  intros [W Hf Hs Hd Hc] Hn Hx Hk. rewrite <- Hc in Hx. apply bind_Some in Hx as (i & Hi & Hc').
  apply swp_call.
  - eexists _, _. eapply (px_open _ _ _ _ _ _ 0 i); [done|done|done|by rewrite Hf].
  - intros r s' Hp. inversion Hp as [| | | | | | |p ap' d' f' fd j s0 E Hj Hfd Hno|p ap' d' f' s0 E Hj| | | | | | | | | | |]; subst;
      rewrite Hn in E; injection E as <- <-; [|congruence]. rewrite Hi in Hj. injection Hj as <-. rewrite Hf. by apply Hk.
Qed.

Lemma swp_open_none {A} n d f ap (k : ret → prog A) Q s :
  holds D C s → place n = Some (d, Some f) → C (d, f) = None → swp (k (rint (-1))) Q s → swp (Sys (COpen n ap) k) Q s.
Proof using Type.
  intros [W Hf Hs Hd Hc] Hn Hx Hk. rewrite <- Hc in Hx. apply content_none in Hx; [|done].
  eapply swp_det; [by eapply px_open_fails| |exact Hk]. intros r1 s1 H1.
  inversion H1 as [| | | | | | |p ap' d' f' fd j s0 E Hj Hfd Hno|p ap' d' f' s0 E Hj| | | | | | | | | | |]; subst;
    rewrite Hn in E; injection E as <- <-; [congruence|done].
Qed.

(** Opening and closing leaves everything as it was. *)
Lemma holds_closed s : holds D C s → holds D C (set_fds ∅ s).
Proof using Type. intros [W Hf Hs Hd Hc]. by split; [apply (same_wf s)|..]. Qed.
End single.

(** *** The functions of the tests *)

Definition view (d : cstring) (m : gmap cstring cstring) (C : name → option cstring) : name → option cstring := λ x,
  if decide (fst x = d) then m !! snd x else C x.

Lemma view_at d m C f : view d m C (d, f) = m !! f.
Proof. unfold view. by rewrite decide_True. Qed.

Definition plain (v : cstring) : Prop := Forall (λ c, byte_of c ≠ 0) v.

Lemma byte_at_div x k : 0 <= k → byte_at x k = x / 2 ^ k mod 256.
Proof. intros Hk. unfold byte_at. change 255 with (Z.ones 8). by rewrite Z.land_ones, Z.shiftr_div_pow2 by lia. Qed.

Lemma int_bytes_value i : is_s32 i → bytes_int (int_bytes i) = i.
Proof.
  intros Hi. unfold bytes_int, int_bytes. rewrite enc_u32_byte_at. cbn [rev app foldr]. rewrite !byte_of_byte_at, !byte_at_div by lia.
  rewrite <- (s32_of_u32 i Hi) at 5. f_equal. unfold u32. change (2 ^ 32) with (256 * (256 * (256 * 256))).
  rewrite !Z.rem_mul_r by lia. rewrite !Z.div_div by lia.
  change (2 ^ 0) with 1. rewrite Z.div_1_r. change (2 ^ 8) with 256. change (2 ^ 16) with (256 * 256). change (2 ^ 24) with (256 * 256 * 256). lia.
Qed.

Lemma length_int_bytes i : length (int_bytes i) = 4%nat.
Proof. unfold int_bytes. by rewrite length_rev, length_enc_u32. Qed.

(** Files with the numbers they contain. *)
Definition batch_map (pre : cstring) (n : nat) : gmap cstring cstring :=
  list_to_map ((λ i, (numbered pre i, int_bytes i)) <$> seqZ 0 (Z.of_nat n)).

Definition batch_ok (pre : cstring) (n : nat) : Prop := Forall ok_name (batch pre n) ∧ NoDup (batch pre n) ∧ Z.of_nat n < 2 ^ 31.
#[export] Instance batch_ok_dec pre n : Decision (batch_ok pre n) := _.

Lemma batch_map_fst pre n : ((λ i, (numbered pre i, int_bytes i)) <$> seqZ 0 (Z.of_nat n)).*1 = batch pre n.
Proof. unfold batch. rewrite <- list_fmap_compose. by apply list_fmap_ext. Qed.

Lemma batch_map_at pre n i : batch_ok pre n → 0 <= i < Z.of_nat n → batch_map pre n !! numbered pre i = Some (int_bytes i).
Proof.
  intros (_ & Hnd & _) Hi. apply elem_of_list_to_map_1; [by rewrite batch_map_fst|].
  apply list_elem_of_fmap. exists i. split; [done|]. apply elem_of_seqZ. lia.
Qed.

Lemma batch_map_some pre n f v :
  batch_map pre n !! f = Some v → ∃ i, 0 <= i < Z.of_nat n ∧ f = numbered pre i ∧ v = int_bytes i.
Proof.
  intros H. apply elem_of_list_to_map_2, list_elem_of_fmap in H as (i & [= -> ->] & Hi). apply elem_of_seqZ in Hi. exists i. split; [lia|done].
Qed.

Lemma batch_map_in d pre n f : (d, f) ∈ set_of d (batch pre n) ↔ is_Some (batch_map pre n !! f).
Proof.
  rewrite elem_of_set_of. split.
  - intros (f' & [= <-] & Hf). apply not_eq_None_Some. intros Hn. apply not_elem_of_list_to_map_2 in Hn.
    rewrite batch_map_fst in Hn. done.
  - intros [v (i & Hi & -> & ->)%batch_map_some]. exists (numbered pre i). split; [done|]. unfold batch. apply list_elem_of_fmap.
    exists i. split; [done|]. apply elem_of_seqZ. lia.
Qed.

(** The protocol of a phase that concerns the files of one directory. *)
Definition val_of (d : cstring) (V : gmap cstring cstring) : name → option cstring := view d V (λ _, None).

Section functions.
Context (place : cstring → option (cstring * option cstring)).
Context (D : gset cstring) (d : cstring) (C0 : name → option cstring) (Hd : d ∈ D).

(** The program [p] takes the directory from [m] to [m']. *)
Definition takes (p : prog unit) (m m' : gmap cstring cstring) : Prop :=
  ∀ s, holds D (view d m C0) s → swp place p (λ _, holds D (view d m' C0)) s.

Lemma takes_nil m : takes (seqs []) m m.
Proof using Type. intros s H. exact H. Qed.

Lemma takes_cons p l m m1 m' : takes p m m1 → takes (seqs l) m1 m' → takes (seqs (p :: l)) m m'.
Proof using Type.
  intros H1 H2 s Hs. cbn [seqs foldr]. apply wp_bind. eapply wp_mono; [done|done| |by apply H1]. intros ? s' Hs'. by apply H2.
Qed.

Lemma takes_eq p m m1 m' : takes p m m1 → m1 = m' → takes p m m'.
Proof using Type. by intros H <-. Qed.

(** From the protocol. *)
Lemma takes_alone p m m' V P A P0 :
  (∀ f v, V !! f = Some v → m !! f = None ∨ m !! f = Some v) →
  (∀ x, x ∈ P0 → ∃ f, x = (d, f) ∧ is_Some (m !! f)) →
  (∀ f v, V !! f = Some v → ((d, f) ∈ P ∧ m' !! f = Some v) ∨ ((d, f) ∈ A ∧ m' !! f = None)) →
  (∀ f, V !! f = None → m' !! f = m !! f) →
  (let J := K (val_of d V) (λ _, Some true) D (view d m C0) in
   ∀ s, J true no_fd P0 ∅ s → wp place true (rely (val_of d V) (λ _, Some true) D (view d m C0) true)
     (rely (val_of d V) (λ _, Some true) D (view d m C0) false) p (λ _, J true no_fd P A) s) →
  takes p m m'.
Proof using Hd.
  intros HV HP0 Hs1 Hs2 Hp s H.
  assert (∀ x v, val_of d V x = Some v → view d m C0 x = None ∨ view d m C0 x = Some v) as Hb.
  { intros [d' f] v. unfold val_of, view. cbn. case_decide; [apply HV|done]. }
  apply (alone place D (view d m C0) _ (val_of d V) (λ _, Some true) Hb p P A s H).
  - split; intros [d' f]; unfold val_of, view; cbn; case_decide; subst; [apply Hs1|done|apply Hs2|done].
  - apply Hp. apply K_start; [done|done| |set_solver].
    intros x Hx. destruct (HP0 x Hx) as (f & -> & Hf). by rewrite view_at.
Qed.

Lemma create1_takes dp f v m :
  dir_path place dp d → ok_name f → m !! f = None → takes (create1 dp f v) m (<[f := v]> m).
Proof using Hd.
  intros Hdp Hf Hm. apply (takes_alone _ _ _ {[f := v]} {[(d, f)]} ∅ ∅).
  - intros f' v' [-> ->]%lookup_singleton_Some. by left.
  - set_solver.
  - intros f' v' [<- <-]%lookup_singleton_Some. left. split; [set_solver|apply lookup_insert_eq].
  - intros f' Hn%lookup_singleton_None. by rewrite lookup_insert_ne.
  - intros J s Hk. unfold create1. rewrite (sprintf_path place dp d) by done. cbn -[wp].
    eapply wp_mono; [done|done| |apply (create_file_wp place _ _ _ _ true ∅ ∅ (d, f) v (path dp f)); [by apply Hdp| |done|split; set_solver|done|exact Hk]].
    + intros ? s'. apply K_equiv; set_solver.
    + unfold val_of. by rewrite view_at, lookup_singleton_eq.
Qed.

Lemma unlink1_takes dp f m :
  dir_path place dp d → ok_name f → is_Some (m !! f) → takes (unlink1 dp f) m (delete f m).
Proof using Hd.
  intros Hdp Hf [v Hm]. apply (takes_alone _ _ _ {[f := v]} ∅ {[(d, f)]} {[(d, f)]}).
  - intros f' v' [<- <-]%lookup_singleton_Some. by right.
  - intros x ->%elem_of_singleton. eauto.
  - intros f' v' [<- <-]%lookup_singleton_Some. right. split; [set_solver|apply lookup_delete_eq].
  - intros f' Hn%lookup_singleton_None. by rewrite lookup_delete_ne.
  - intros J s Hk. unfold unlink1. rewrite (sprintf_path place dp d) by done. cbn -[wp].
    eapply wp_mono; [done|done| |apply (unlink_file_wp place _ _ _ _ true {[(d, f)]} ∅ (d, f) v (path dp f));
      [by apply Hdp| |done|split; set_solver|done|done|set_solver|exact Hk]].
    + intros ? s'. apply K_equiv; set_solver.
    + unfold val_of. by rewrite view_at, lookup_singleton_eq.
Qed.

Lemma createn_takes dp pre n m :
  dir_path place dp d → batch_ok pre n → batch_map pre n ##ₘ m → takes (createn dp pre n) m (batch_map pre n ∪ m).
Proof using Hd.
  intros Hdp Hb Hm. rewrite map_disjoint_spec in Hm.
  apply (takes_alone _ _ _ (batch_map pre n) (set_of d (batch pre n)) ∅ ∅).
  - intros f v Hf. left. destruct (m !! f) as [c|] eqn:E; [|done]. by destruct (Hm f v c).
  - set_solver.
  - intros f v Hf. left. split; [by apply batch_map_in|]. by apply lookup_union_Some_l.
  - intros f Hf. by apply lookup_union_r.
  - intros J s Hk. eapply wp_mono; [done|done| |apply (createn_wp place _ _ _ _ true dp d pre n ∅ ∅ Hdp Hd);
      [split; set_solver|apply Hb| |done|exact Hk]].
    + intros ? s'. apply K_equiv; set_solver.
    + intros i Hi. unfold val_of. rewrite view_at. by apply batch_map_at.
Qed.

Lemma unlinkn_takes dp pre n m :
  dir_path place dp d → batch_ok pre n → batch_map pre n ⊆ m → takes (unlinkn dp pre n) m (m ∖ batch_map pre n).
Proof using Hd.
  intros Hdp Hb Hm. rewrite map_subseteq_spec in Hm.
  apply (takes_alone _ _ _ (batch_map pre n) ∅ (set_of d (batch pre n)) (set_of d (batch pre n))).
  - intros f v Hf. right. by apply Hm.
  - intros x Hx. pose proof Hx as (f & -> & _)%elem_of_set_of. apply batch_map_in in Hx as [v Hv]. exists f. eauto.
  - intros f v Hf. right. split; [by apply batch_map_in|]. apply lookup_difference_None. right. eauto.
  - intros f Hf. rewrite lookup_difference. by rewrite Hf.
  - intros J s Hk. eapply wp_mono; [done|done| |apply (unlinkn_wp place _ _ _ _ true dp d pre n (set_of d (batch pre n)) ∅ Hdp Hd);
      [split; set_solver|apply Hb| |done|done|apply Hb|done|exact Hk]].
    + intros ? s'. apply K_equiv; set_solver.
    + intros i Hi. unfold val_of. rewrite view_at. by apply batch_map_at.
Qed.

Lemma strncmp_refl a n : strncmp_eq a a n = true.
Proof using Type. unfold strncmp_eq. by apply bool_decide_true. Qed.

Lemma check1_takes bufsz dp f v m :
  dir_path place dp d → ok_name f → m !! f = Some v → (length v < bufsz)%nat → takes (check1 bufsz dp f v) m m.
Proof using Type.
  intros Hdp Hf Hm Hl s H. unfold check1. rewrite (sprintf_path place dp d) by done. cbn -[wp Nat.sub].
  eapply swp_open; [exact H|by apply Hdp|by rewrite view_at|]. intros fd i Hfd Hi Hc. cbn [rv rint].
  rewrite (proj2 (Z.leb_le _ _) Hfd). cbn -[wp Nat.sub]. eapply swp_read; [apply lookup_singleton_eq|exact Hc|]. cbn [o_pos rv rb]. rewrite drop_0.
  rewrite take_ge by lia. rewrite Z.eqb_refl. cbn -[wp Nat.sub]. eapply swp_close; [apply lookup_insert_eq|]. cbn -[wp Nat.sub].
  rewrite strncmp_refl. cbn. rewrite insert_singleton_eq, delete_singleton_eq. exact (holds_closed _ _ _ H).
Qed.

Lemma checknot_takes dp f m : dir_path place dp d → ok_name f → m !! f = None → takes (checknot dp f) m m.
Proof using Type.
  intros Hdp Hf Hm s H. unfold checknot. rewrite (sprintf_path place dp d) by done. cbn -[wp].
  eapply swp_open_none; [exact H|by apply Hdp|by rewrite view_at|]. exact H.
Qed.

Lemma append1_takes dp f v c m :
  dir_path place dp d → ok_name f → m !! f = Some c → takes (append1 dp f v) m (<[f := c ++ v]> m).
Proof using Type.
  intros Hdp Hf Hm s H. unfold append1. rewrite (sprintf_path place dp d) by done. cbn -[wp].
  eapply swp_open; [exact H|by apply Hdp|by rewrite view_at|]. intros fd i Hfd Hi Hc. cbn [rv rint].
  rewrite (proj2 (Z.leb_le _ _) Hfd). cbn -[wp]. eapply swp_write; [apply lookup_singleton_eq|exact Hc|]. cbn [rv rint o_append o_ino].
  rewrite Z.eqb_refl. cbn -[wp overwrite]. eapply swp_close; [apply lookup_insert_eq|]. cbn -[overwrite].
  rewrite insert_singleton_eq, delete_singleton_eq. destruct H as [W Hf0 Hs0 Hd0 Hc0]. split; [|done|done|done|].
  - apply (same_wf (set_ino i (overwrite (length c) v c) s)); [done..|]. by apply set_ino_wf.
  - intros [d' f']. transitivity (content (set_ino i (overwrite (length c) v c) s) (d', f')); [by apply content_same|]. destruct (decide ((d', f') = (d, f))) as [[= -> ->]|Hne].
    + rewrite view_at, lookup_insert_eq. erewrite content_some; [|exact Hi|apply lookup_insert_eq]. unfold overwrite.
      rewrite Nat.sub_diag. cbn [replicate]. rewrite app_nil_r, take_ge by done. rewrite drop_ge by lia. by rewrite app_nil_r.
    + erewrite content_set_ino; [|done|exact Hi|done]. rewrite Hc0. unfold view. cbn. case_decide; [|done].
      rewrite lookup_insert_ne; [done|]. congruence.
Qed.

Lemma checkn_takes dp pre n m :
  dir_path place dp d → batch_ok pre n → batch_map pre n ⊆ m → takes (checkn dp pre n) m m.
Proof using Type.
  intros Hdp Hb Hm s H. unfold checkn. rewrite map_subseteq_spec in Hm.
  eapply (wp_mono _ _ idle _ any _ _ (λ _ s', holds D (view d m C0) s')); [done|done|done|].
  apply (for_files_wp place true idle any _ (λ _, holds D (view d m C0)) n 0%nat); [|done]. clear s H. intros j s Hj H.
  assert (batch pre n !! j = Some (numbered pre (Z.of_nat j))) as Hl by (apply batch_lookup; split; [done|lia]).
  assert (ok_name (numbered pre (Z.of_nat j))) as Hok by (eapply Forall_lookup_1; [apply Hb|exact Hl]).
  rewrite (sprintf_path place dp d) by done. cbn -[wp].
  eapply swp_open; [exact H|by apply Hdp|rewrite view_at; apply Hm, batch_map_at; [done|lia]|]. intros fd i Hfd Hi Hc. cbn [rv rint].
  rewrite (proj2 (Z.leb_le _ _) Hfd). cbn -[wp]. eapply swp_read; [apply lookup_singleton_eq|exact Hc|]. cbn [o_pos rv rb]. rewrite drop_0.
  rewrite take_ge by (rewrite length_int_bytes; lia). rewrite length_int_bytes. cbn -[wp bytes_int].
  rewrite int_bytes_value by (destruct Hb as (_ & _ & ?); unfold is_s32; lia). rewrite Z.eqb_refl. cbn -[wp].
  eapply swp_close; [apply lookup_insert_eq|]. cbn. rewrite insert_singleton_eq, delete_singleton_eq. exact (holds_closed _ _ _ H).
Qed.

Lemma dircheck_takes dp nf m :
  dir_path place dp d → size m = nf → (nf <= 1000)%nat → Forall (λ n, dotted n = false) (elements (dom m)) → takes (dircheck dp nf) m m.
Proof using Hd.
  intros Hdp Hsz Hnf Hdot s H.
  set (I := λ s', fs_wf s' ∧ fds s' = ∅ ∧ dirs s' = D ∧ (∀ k, streams s' !! (false, k) = None) ∧ ∀ x, content s' x = view d m C0 x).
  eapply wp_mono; [done|done| |apply (dircheck_wp place true idle any I d (dom m)); [| | | |exact Hdot|by rewrite size_dom|exact Hnf| |]].
  - cbn. intros _ s' ((W & Hf & Hd' & Hs & Hc) & Hs'). split; [done|done| |done|exact Hc]. apply map_empty. intros [[] k]; done.
  - done.
  - intros s1 D1 (W & Hf & Hd' & Hs & Hc) HD. split; [|done]. split_and!; [by apply (same_wf s1)|done|done| |done].
    intros k. cbn. by rewrite HD.
  - intros s1 (W & Hf & Hd' & Hs & Hc). split; [by rewrite Hd'|]. apply set_eq. intros f. rewrite elem_of_entries, elem_of_dom.
    specialize (Hc (d, f)). rewrite view_at in Hc. rewrite <- Hc. unfold content. split.
    + intros [i Hi]. rewrite Hi. cbn. by eapply wf_ino.
    + intros [c (i & Hi & _)%bind_Some]. eauto.
  - apply Hdp.
  - destruct H as [W Hf Hs Hd' Hc]. split_and!; [done|done|done| |done]. intros k. by rewrite Hs, lookup_empty.
  - intros k. by rewrite (h_streams _ _ _ H), lookup_empty.
Qed.
End functions.

(** ** Two processes in one directory *)

Section pair.
Context (place : cstring → option (cstring * option cstring)).
Context (D : gset cstring) (d : cstring) (C0 : name → option cstring) (Hd : d ∈ D).

(** The rest of the test passes from the directory [m]. *)
Definition passes_from (rest : list phase) (m : gmap cstring cstring) : Prop :=
  ∀ s, holds D (view d m C0) s → passes (posix place) (Main (Done tt) rest, s).

Lemma from_seq p rest m m' : takes place D d C0 p m m' → passes_from rest m' → passes_from (Seq p :: rest) m.
Proof using Type.
  intros Ht Hr s H. apply passes_seq. eapply wp_mono; [done|done| |by apply Ht]. intros ? s' H'. by apply Hr.
Qed.

Context (V : gmap cstring cstring) (own : name → option bool) (m m' : gmap cstring cstring).
Context (HV : ∀ f v, V !! f = Some v → m !! f = None ∨ m !! f = Some v).
Notation K := (K (val_of d V) own D (view d m C0)).
Notation rely := (rely (val_of d V) own D (view d m C0)).

Lemma from_par child parent rest P1 A1 P2 A2 P :
  (∀ x, x ∈ P → (∃ f, x = (d, f) ∧ is_Some (m !! f)) ∧ own x = Some false) →
  (∀ f v, V !! f = Some v → ((d, f) ∈ P1 ∪ P2 ∧ m' !! f = Some v) ∨ ((d, f) ∈ A1 ∪ A2 ∧ m' !! f = None)) →
  (∀ f, V !! f = None → m' !! f = m !! f) →
  (∀ s, K false no_fd P ∅ s → wp place false (rely false) (rely true) child (λ _, K false no_fd P1 A1) s) →
  (∀ s, K true no_fd ∅ ∅ s → wp place true (rely true) (rely false) parent (λ _, K true no_fd P2 A2) s) →
  passes_from rest m' → passes_from (Par child parent :: rest) m.
Proof using Hd HV.
  intros HP Hs1 Hs2 Hc Hp Hr s H.
  assert (∀ x v, val_of d V x = Some v → view d m C0 x = None ∨ view d m C0 x = Some v) as Hb.
  { intros [d' f] v. unfold val_of, view. cbn. case_decide; [apply HV|done]. }
  apply (together place D (view d m C0) (view d m' C0) (val_of d V) own Hb P1 A1 P2 A2); [done| | | |done].
  - split; intros [d' f]; unfold val_of, view; cbn; case_decide; subst; [apply Hs1|done|apply Hs2|done].
  - intros s' Hr'. apply Hc. eapply K_rely; [|apply (K_start _ _ _ _ Hb); [exact H| |]|exact Hr'].
    + split; intros x Hx; [rewrite (proj2 (HP x Hx))|]; set_solver.
    + intros x Hx. destruct (HP x Hx) as [(f & -> & Hf) _]. by rewrite view_at.
    + set_solver.
  - intros s' Hr'. apply Hp. eapply K_rely; [|apply (K_start _ _ _ _ Hb); [exact H| |]|exact Hr']; [split| |]; set_solver.
Qed.

(** A listing while the other process may only create files that exist already. *)
Lemma dircheck_frozen dp nf P s :
  (∀ x, own x = None) → (∀ f v, V !! f = Some v → (d, f) ∈ P) → dir_path place dp d →
  size (V ∪ m) = nf → (nf <= 1000)%nat → Forall (λ n, dotted n = false) (elements (dom (V ∪ m))) →
  K true no_fd P ∅ s →
  wp place true (rely true) (rely false) (dircheck dp nf) (λ _, K true no_fd P ∅) s.
Proof using All.
  intros Ho HP Hdp Hsz Hnf Hdot Hk.
  set (I := λ s', J (val_of d V) own D (view d m C0) s' ∧ (∀ fd, fds s' !! (true, fd) = None) ∧ ∀ x, x ∈ P → is_Some (names s' !! x)).
  assert (∀ s s', I s → J (val_of d V) own D (view d m C0) s' → kept own true s s' → names s' = names s) as Hfix.
  { intros s1 s2 (J1 & _ & P1) J2 [_ Hst _ _ _]. apply map_eq. intros x. destruct (names s1 !! x) as [i|] eqn:Ex.
    - apply Hst; [by rewrite Ho|done].
    - apply content_none; [apply J2|]. destruct (val_of d V x) as [v|] eqn:Ev.
      + exfalso. destruct x as [d' f]. unfold val_of, view in Ev. cbn in Ev. case_decide; [|done]. subst.
        destruct (P1 (d, f) (HP _ _ Ev)). congruence.
      + rewrite (j_other _ _ _ _ _ J2 x Ev), <- (j_other _ _ _ _ _ J1 x Ev). unfold content. by rewrite Ex. }
  eapply wp_mono; [done|done| |apply (dircheck_wp place true (rely true) (rely false) I d (dom (V ∪ m)));
    [| | |apply Hdp|exact Hdot|by rewrite size_dom|exact Hnf| |]].
  - cbn. intros _ s' ((J1 & F1 & P1) & S1). split; [done|exact F1|exact P1|set_solver|exact S1].
  - intros s1 s2 Hi Hrel. destruct (Hrel (proj1 Hi)) as [J2 K2]. pose proof (Hfix s1 s2 Hi J2 K2) as En. destruct K2 as [F2 _ _ S2 _].
    split; [|intros k; by apply S2]. destruct Hi as (_ & F1 & P1). split_and!; [done|intros fd; by rewrite F2|by rewrite En].
  - intros s1 D1 (J1 & F1 & P1) HD.
    assert (J (val_of d V) own D (view d m C0) (set_streams D1 s1)) as J2.
    { destruct J1 as [W J1 J2 J3 J4]. split; [by apply (same_wf s1)|done|done|done|done]. }
    split; [by split_and!|]. intros _. split; [done|]. split; [done|done|done|done|]. intros k Hk'. cbn. by rewrite HD.
  - intros s1 (J1 & F1 & P1). split; [by rewrite (j_dirs _ _ _ _ _ J1)|]. apply set_eq. intros f. rewrite elem_of_entries, elem_of_dom.
    destruct (V !! f) as [v|] eqn:Ev.
    + rewrite (lookup_union_Some_l V m f v Ev). split; [eauto|]. intros _. by apply P1, (HP f v).
    + rewrite lookup_union_r by done. assert (val_of d V (d, f) = None) as Hv by (unfold val_of; by rewrite view_at).
      pose proof (j_other _ _ _ _ _ J1 _ Hv) as Hc. rewrite view_at in Hc. rewrite <- Hc. unfold content. split.
      * intros [i Hi]. rewrite Hi. cbn. eapply wf_ino; [apply J1|exact Hi].
      * intros [c (i & Hi & _)%bind_Some]. eauto.
  - destruct Hk as [J1 F1 P1 _ _]. by split_and!.
  - apply Hk.
Qed.
End pair.
