(* ===== verification/FsTestOk.v ===== *)
(** * The file system tests pass

    The phases of test-lab-4-b.c and test-lab-4-c.c, on every file system that does what
    POSIX documents, in every interleaving of the two processes. *)

From S2P Require Import Prelude.
From S2P Require Import Marshall.
From S2P Require Import Streams.
From S2P Require Import Address.
From S2P Require Import Posix.
From S2P Require Import FsTest.
From S2P Require Import FsProtocol.

(** [argv] is a mount point: its entries are the directories, whose entries are the files. *)
Definition mounted (place : cstring → option (cstring * option cstring)) (argv : cstring) : Prop :=
  (length argv <= 460)%nat ∧
  ∀ d, slash ∉ d → d ≠ [] → place (path argv d) = Some (d, None) ∧
    ∀ f, ok_name f → place (path (path argv d) f) = Some (d, Some f).

Lemma dec_no_slash n : slash ∉ dec n.
Proof. intros H. pose proof (proj1 (Forall_forall _ _) (dec_digits n) _ H) as Hd. discriminate Hd. Qed.

(** A directory with a short prefix and the process number. *)
Lemma numbered_dir place argv pre n :
  mounted place argv → slash ∉ pre → pre ≠ [] → (length pre <= 2)%nat →
  dir_path place (path argv (pre ++ dec n)) (pre ++ dec n).
Proof.
  intros [Hl Hm] Hs Hne Hp. destruct (Hm (pre ++ dec n)) as [H1 H2].
  { rewrite elem_of_app. intros [?|?]; [done|]. by eapply dec_no_slash. }
  { by destruct pre. }
  split_and!; [done|done|]. unfold path. rewrite length_app. cbn [length]. rewrite length_app. pose proof (length_dec n). lia.
Qed.

Lemma sprintf_short s : (length s <= 511)%nat → sprintf s = Done s.
Proof. intros H. unfold sprintf. by rewrite (proj2 (Nat.leb_gt 512 _)) by lia. Qed.

(** The checks on names, contents and sizes are computations. *)
Ltac compute_ok := match goal with |- ?P => apply (bool_decide_unpack P); vm_compute; exact I end.

(** When nobody removes files, both processes may create any. *)
Definition shared : name → option bool := λ _, None.

Lemma knowable_shared w P : knowable shared w P ∅.
Proof. split; [done|set_solver]. Qed.

Section lab4b.
Context (place : cstring → option (cstring * option cstring)) (argv1 argv2 : cstring) (pid : Z).
Context (H1 : mounted place argv1) (H2 : mounted place argv2).
Context (D : gset cstring) (C0 : name → option cstring).

Definition dname : cstring := $"d" ++ dec pid.
Context (HD : dname ∈ D).

Notation d1 := (lab4b.d1 argv1 pid).
Notation d2 := (lab4b.d2 argv2 pid).
Notation takes := (takes place D dname C0).
Notation passes_from := (passes_from place D dname C0).

Lemma d1_path : dir_path place d1 dname.
Proof using All. apply (numbered_dir place argv1 ($"d") pid H1); [set_solver|done|cbn; lia]. Qed.
Lemma d2_path : dir_path place d2 dname.
Proof using All. apply (numbered_dir place argv2 ($"d") pid H2); [set_solver|done|cbn; lia]. Qed.

#[local] Hint Resolve d1_path d2_path : core.

(** A statement of a phase. *)
Ltac function :=
  lazymatch goal with
  | |- FsProtocol.takes _ _ _ _ (create1 _ _ _) _ _ => apply create1_takes; [exact HD|auto|compute_ok|vm_compute; reflexivity]
  | |- FsProtocol.takes _ _ _ _ (unlink1 _ _) _ _ => apply unlink1_takes; [exact HD|auto|compute_ok|vm_compute; eexists; reflexivity]
  | |- FsProtocol.takes _ _ _ _ (lab4b.check1 _ _ _) _ _ => apply check1_takes; [auto|compute_ok|vm_compute; reflexivity|compute_ok]
  | |- FsProtocol.takes _ _ _ _ (checknot _ _) _ _ => apply checknot_takes; [auto|compute_ok|vm_compute; reflexivity]
  | |- FsProtocol.takes _ _ _ _ (append1 _ _ _) _ _ => eapply append1_takes; [auto|compute_ok|vm_compute; reflexivity]
  | |- FsProtocol.takes _ _ _ _ (dircheck _ _) _ _ =>
      apply dircheck_takes; [exact HD|auto|vm_compute; reflexivity|compute_ok|compute_ok]
  | |- FsProtocol.takes _ _ _ _ (createn _ _ _) _ _ => apply createn_takes; [exact HD|auto|compute_ok|compute_ok]
  | |- FsProtocol.takes _ _ _ _ (unlinkn _ _ _) _ _ => apply unlinkn_takes; [exact HD|auto|compute_ok|compute_ok]
  | |- FsProtocol.takes _ _ _ _ (checkn _ _ _) _ _ => apply checkn_takes; [auto|compute_ok|compute_ok]
  end.
Ltac statement := eapply takes_cons; [function|].
Ltac statements := repeat statement; apply takes_nil.

Ltac phase_ok l := eapply takes_eq; [unfold l; statements|vm_compute; reflexivity].

Definition f1_aaa : gmap cstring cstring := {[ $"f1" := $"aaa" ]}.
Definition f1_abc : gmap cstring cstring := {[ $"f1" := $"aaabbbccc" ]}.

Lemma create_read_takes : takes (seqs (lab4b.create_read argv1 argv2 pid)) ∅ f1_aaa.
Proof using All. phase_ok lab4b.create_read. Qed.
Lemma unlink_takes : takes (seqs (lab4b.unlink_ argv1 argv2 pid)) f1_aaa ∅.
Proof using All. phase_ok lab4b.unlink_. Qed.
Lemma append_takes : takes (seqs (lab4b.append_ argv1 argv2 pid)) ∅ f1_abc.
Proof using All. phase_ok lab4b.append_. Qed.
Lemma readdir_takes : takes (seqs (lab4b.readdir_ argv1 argv2 pid)) f1_abc ∅.
Proof using All. phase_ok lab4b.readdir_. Qed.
Lemma many_takes : takes (seqs (lab4b.many argv1 argv2 pid)) ∅ ∅.
Proof using All. phase_ok lab4b.many. Qed.

Lemma write_read f b :
  ok_name f → (length b < Z.to_nat 21000)%nat →
  takes (seqs [create1 d1 f b; lab4b.check1 d1 f b; lab4b.check1 d2 f b; unlink1 d1 f]) ∅ ∅.
Proof using All.
  intros Hf Hb. eapply takes_cons; [apply create1_takes; [exact HD|auto|done|apply lookup_empty]|].
  do 2 (eapply takes_cons; [apply check1_takes; [auto|done|apply lookup_insert_eq|done]|]).
  eapply takes_cons; [apply unlink1_takes; [exact HD|auto|done|rewrite lookup_insert_eq; eauto]|].
  eapply takes_eq; [apply takes_nil|]. rewrite delete_insert_eq, delete_id; [done|apply lookup_empty].
Qed.
Lemma write_big_takes : takes (seqs (lab4b.write_big argv1 argv2 pid)) ∅ ∅.
Proof using All. apply write_read; [compute_ok|]. unfold lab4b.big. rewrite length_replicate. lia. Qed.

(** The files that a phase leaves to the next one. *)
Definition two (p q : cstring) : gmap cstring cstring := batch_map p 20 ∪ batch_map q 20.
Definition after_delete : gmap cstring cstring := batch_map ($"x3") 20 ∪ batch_map ($"x4") 20 ∪ batch_map ($"x2") 20.

Lemma creates_after_takes : takes (seqs (lab4b.creates_after argv1 argv2 pid)) (two ($"xx") ($"yy")) ∅.
Proof using All. phase_ok lab4b.creates_after. Qed.
Lemma same_after_takes : takes (seqs (lab4b.same_after argv1 argv2 pid)) (batch_map ($"zz") 20) ∅.
Proof using All. phase_ok lab4b.same_after. Qed.
Lemma delete_before_takes : takes (seqs (lab4b.delete_before argv1 argv2 pid)) ∅ (two ($"x2") ($"x1")).
Proof using All. eapply takes_eq; [unfold lab4b.delete_before; statements|]. unfold two. by rewrite (right_id_L ∅ (∪)). Qed.
Lemma delete_after_takes : takes (seqs (lab4b.delete_after argv1 argv2 pid)) after_delete ∅.
Proof using All. phase_ok lab4b.delete_after. Qed.
Lemma server_after_takes : takes (seqs (lab4b.server_after argv1 pid)) (batch_map ($"zz") 20) ∅.
Proof using All. phase_ok lab4b.server_after. Qed.

(** The phases with two processes. *)
Lemma createn_shared w dp pre n V m P s :
  dir_path place dp dname → batch_ok pre n → batch_map pre n ⊆ V →
  let J := K (val_of dname V) shared D (view dname m C0) in
  let R := rely (val_of dname V) shared D (view dname m C0) in
  J w no_fd P ∅ s → wp place w (R w) (R (negb w)) (createn dp pre n) (λ _, J w no_fd (set_of dname (batch pre n) ∪ P) ∅) s.
Proof using All.
  intros Hdp Hb Hsub J R Hk. rewrite map_subseteq_spec in Hsub.
  eapply wp_mono; [done|done| |apply (createn_wp place _ _ _ _ w dp dname pre n P ∅ Hdp HD);
    [apply knowable_shared|apply Hb| |done|exact Hk]].
  - intros ? s'. apply K_equiv; [done|set_solver].
  - intros i Hi. unfold val_of. rewrite view_at. by apply Hsub, batch_map_at.
Qed.

(** Each process creates its own files. *)
Lemma creates_from dpc dpp p q n rest :
  dir_path place dpc dname → dir_path place dpp dname → batch_ok p n → batch_ok q n → batch_map p n ##ₘ batch_map q n →
  passes_from rest (batch_map p n ∪ batch_map q n) → passes_from (Par (createn dpc p n) (createn dpp q n) :: rest) ∅.
Proof using All.
  intros Hc Hp Hbp Hbq Hdis Hr. set (V := batch_map p n ∪ batch_map q n) in *.
  apply (from_par place D dname C0 HD V shared ∅ V) with
    (P := ∅) (P1 := set_of dname (batch p n)) (P2 := set_of dname (batch q n)) (A1 := ∅) (A2 := ∅); [| | | | | |exact Hr].
  - intros f v _. left. apply lookup_empty.
  - intros x Hx. by apply elem_of_empty in Hx.
  - intros f v Hf. left. split; [|done]. apply elem_of_union. apply lookup_union_Some in Hf as [Hf|Hf]; [left|right|done];
      apply batch_map_in; eauto.
  - intros f Hf. by rewrite Hf, lookup_empty.
  - intros s Hk. eapply wp_mono; [done|done| |apply (createn_shared false dpc p n V ∅ ∅ s Hc Hbp); [|exact Hk]].
    + intros ? s'. apply K_equiv; set_solver.
    + by apply map_union_subseteq_l.
  - intros s Hk. eapply wp_mono; [done|done| |apply (createn_shared true dpp q n V ∅ ∅ s Hp Hbq); [|exact Hk]].
    + intros ? s'. apply K_equiv; set_solver.
    + by apply map_union_subseteq_r.
Qed.

(** Both create the same files, and the parent lists the directory while the child may
    still be creating. *)
Lemma same_from dpc dpp p n rest :
  dir_path place dpc dname → dir_path place dpp dname → batch_ok p n → size (batch_map p n) = n → (n <= 1000)%nat →
  Forall (λ n, dotted n = false) (elements (dom (batch_map p n))) →
  passes_from rest (batch_map p n) →
  passes_from (Par (createn dpc p n) (seqs [createn dpp p n; dircheck dpp n]) :: rest) ∅.
Proof using All.
  intros Hc Hp Hb Hsz Hn Hdot Hr. set (V := batch_map p n) in *. set (Z := set_of dname (batch p n)).
  assert (∀ f v, V !! f = Some v → (dname, f) ∈ Z) as HZ by (intros f v Hf; apply batch_map_in; eauto).
  assert (V ∪ ∅ = V) as EV by apply (right_id_L ∅ (∪)).
  apply (from_par place D dname C0 HD V shared ∅ V) with (P := ∅) (P1 := Z) (P2 := Z) (A1 := ∅) (A2 := ∅); [| | | | | |exact Hr].
  - intros f v _. left. apply lookup_empty.
  - intros x Hx. by apply elem_of_empty in Hx.
  - intros f v Hf. left. split; [|done]. apply elem_of_union_l. by eapply HZ.
  - intros f Hf. by rewrite Hf, lookup_empty.
  - intros s Hk. eapply wp_mono; [done|done| |apply (createn_shared false dpc p n V ∅ ∅ s Hc Hb); [done|exact Hk]].
    intros ? s'. apply K_equiv; set_solver.
  - intros s Hk. cbn [seqs foldr]. apply wp_bind.
    eapply wp_mono; [done|done| |apply (createn_shared true dpp p n V ∅ ∅ s Hp Hb); [done|exact Hk]].
    intros ? s1 Hk1. apply wp_bind. eapply wp_mono; [done|done| |].
    2: apply (dircheck_frozen place D dname C0 HD V shared ∅ ∅) with (P := Z); [intros f v _; left; apply lookup_empty|done|exact HZ|exact Hp|by rewrite EV|done|by rewrite EV|].
    2: eapply K_equiv; [| |exact Hk1]; set_solver.
    by intros ? s2.
Qed.

(** The child removes the files [p] and then creates [q], the parent creates [r]. *)
Definition removes (p : cstring) (n : nat) : name → option bool := λ x,
  if decide (fst x = dname ∧ is_Some (batch_map p n !! snd x)) then Some false else None.

Lemma removes_p p n i : batch_ok p n → 0 <= i < Z.of_nat n → removes p n (dname, numbered p i) = Some false.
Proof using Type. intros Hb Hi. unfold removes. rewrite decide_True; [done|]. split; [done|]. cbn. rewrite batch_map_at by done. eauto. Qed.

Lemma removes_other p q n i :
  batch_ok q n → batch_map p n ##ₘ batch_map q n → 0 <= i < Z.of_nat n → removes p n (dname, numbered q i) = None.
Proof using Type.
  intros Hb Hd Hi. unfold removes. rewrite decide_False; [done|]. intros [_ [v Hv]]. cbn in Hv.
  rewrite map_disjoint_spec in Hd. eapply Hd; [exact Hv|by apply batch_map_at].
Qed.

Lemma delete_from dpc dpc' dpp p q r o n rest :
  dir_path place dpc dname → dir_path place dpc' dname → dir_path place dpp dname → batch_ok p n → batch_ok q n → batch_ok r n →
  batch_map p n ##ₘ batch_map q n → batch_map p n ##ₘ batch_map r n → batch_map q n ##ₘ batch_map r n →
  o ##ₘ batch_map p n → o ##ₘ batch_map q n → o ##ₘ batch_map r n →
  passes_from rest (batch_map q n ∪ batch_map r n ∪ o) →
  passes_from (Par (seqs [unlinkn dpc p n; createn dpc' q n]) (createn dpp r n) :: rest) (o ∪ batch_map p n).
Proof using All.
  intros Hc Hc' Hp Bp Bq Br Dpq Dpr Dqr Dop Doq Dor Hr.
  set (V := batch_map p n ∪ (batch_map q n ∪ batch_map r n)).
  assert (batch_map p n ##ₘ batch_map q n ∪ batch_map r n) as Dp by (by apply map_disjoint_union_r_2).
  assert (∀ f v, V !! f = Some v ↔ batch_map p n !! f = Some v ∨ batch_map q n !! f = Some v ∨ batch_map r n !! f = Some v) as EV.
  { intros f v. unfold V. by rewrite !lookup_union_Some. }
  assert (∀ s i, 0 <= i < Z.of_nat n → batch_ok s n → batch_map s n ⊆ V → val_of dname V (dname, numbered s i) = Some (int_bytes i)) as HV.
  { intros s i Hi Bs Hs. unfold val_of. rewrite view_at. eapply lookup_weaken; [by apply batch_map_at|done]. }
  assert (batch_map p n ⊆ V ∧ batch_map q n ⊆ V ∧ batch_map r n ⊆ V) as (Sp & Sq & Sr).
  { split_and!; apply map_subseteq_spec; intros f v Hf; apply EV; tauto. }
  set (Zp := set_of dname (batch p n)). set (Zq := set_of dname (batch q n)). set (Zr := set_of dname (batch r n)).
  assert (∀ x, x ∈ Zp → x ∉ Zq) as Dz.
  { intros x Hx Hq. pose proof Hx as (f & -> & _)%elem_of_set_of. apply batch_map_in in Hx as [v Hv], Hq as [v' Hv'].
    rewrite map_disjoint_spec in Dpq. by eapply Dpq. }
  assert (∀ x, x ∈ Zp → removes p n x = Some false) as Oz.
  { intros x Hx. pose proof Hx as (f & -> & _)%elem_of_set_of. apply batch_map_in in Hx as [v (i & Hi & -> & _)%batch_map_some].
    by apply removes_p. }
  apply (from_par place D dname C0 HD V (removes p n) (o ∪ batch_map p n) (batch_map q n ∪ batch_map r n ∪ o)) with
    (P := Zp) (P1 := Zq) (A1 := Zp) (P2 := Zr) (A2 := ∅); [| | | | | |exact Hr].
  - intros f v Hf. apply EV in Hf as [Hf|Hf]; [right; by apply lookup_union_Some_r|left].
    apply lookup_union_None. destruct Hf; split; eauto using map_disjoint_Some_r.
  - intros x Hx. split; [|by apply Oz]. pose proof Hx as (f & -> & _)%elem_of_set_of. apply batch_map_in in Hx as [v Hv].
    exists f. split; [done|]. exists v. by apply lookup_union_Some_r.
  - intros f v Hf. apply EV in Hf as [Hf|[Hf|Hf]].
    + right. split; [apply elem_of_union_l, batch_map_in; eauto|]. rewrite !lookup_union_None. split_and!; eauto using map_disjoint_Some_l, map_disjoint_Some_r.
    + left. split; [apply elem_of_union_l, batch_map_in; eauto|]. by apply lookup_union_Some_l, lookup_union_Some_l.
    + left. split; [apply elem_of_union_r, batch_map_in; eauto|]. apply lookup_union_Some_l. by apply lookup_union_Some_r.
  - intros f Hf. unfold V in Hf. rewrite !lookup_union_None in Hf. destruct Hf as (Ep & Eq & Er).
    rewrite (lookup_union_l o) by done. apply lookup_union_r. by rewrite lookup_union_None.
  - intros s Hk. cbn [seqs foldr]. apply wp_bind.
    eapply wp_mono; [done|done| |apply (unlinkn_wp place _ (removes p n) _ _ false dpc dname p n Zp ∅ Hc HD);
      [|apply Bp|by intros; apply HV| | |apply Bp|done|exact Hk]].
    + intros ? s1 Hk1. apply wp_bind. eapply wp_mono; [done|done| |apply (createn_wp place _ (removes p n) _ _ false dpc' dname q n ∅ Zp Hc' HD);
        [|apply Bq|by intros; apply HV| |eapply K_equiv; [| |exact Hk1]; clear; set_solver]].
      * intros ? s2. apply K_equiv; [clear; set_solver|]. intros x. rewrite elem_of_difference. split; [|tauto]. intros Hx. split; [done|by apply Dz].
      * split; [clear; set_solver|]. exact Oz.
      * intros i Hi. by rewrite (removes_other p q).
    + split; [|clear; set_solver]. intros x Hx. by rewrite Oz.
    + intros i Hi. by rewrite removes_p.
    + intros i Hi. by apply removes_p.
  - intros s Hk. eapply wp_mono; [done|done| |apply (createn_wp place _ (removes p n) _ _ true dpp dname r n ∅ ∅ Hp HD);
        [split; clear; set_solver|apply Br|by intros; apply HV| |exact Hk]].
    + intros ? s2. apply K_equiv; [by rewrite (right_id ∅ (∪))|]. intros x. rewrite elem_of_difference, !elem_of_empty. tauto.
    + intros i Hi. by rewrite (removes_other p r).
Qed.
End lab4b.

(** ** The beginning *)

Section begin.
Context (place : cstring → option (cstring * option cstring)).

Lemma swp_mkdir {A} p d D C (k : ret → prog A) Q s :
  holds D C s → place p = Some (d, None) → d ∉ D →
  (∀ s', holds ({[d]} ∪ D) (view d ∅ C) s' → swp place (k (rint 0)) Q s') → swp place (Sys (CMkdir p) k) Q s.
Proof using Type.
  intros [W Hf Hs Hd Hc] Hp Hn Hk. subst D. eapply swp_det; [by eapply px_mkdir| |apply Hk].
  - intros r1 s1 H1. inversion H1; subst; simplify_eq; done.
  - split; [|done|done|done|].
    + destruct W as [W1 W2 W3]. split; [|done|done]. intros x i Hx. cbn. apply elem_of_union_r. by eapply W1.
    + intros [d' f]. unfold view. cbn. case_decide; [|apply (Hc (d', f))]. subst. rewrite lookup_empty. unfold content. cbn.
      destruct (names s !! (d, f)) as [i|] eqn:E; [|done]. by destruct Hn; apply (wf_dir _ W (d, f) i).
Qed.

Lemma swp_access {A} p d D C (k : ret → prog A) Q s :
  holds D C s → place p = Some (d, None) → d ∈ D → swp place (k (rint 0)) Q s → swp place (Sys (CAccess p) k) Q s.
Proof using Type.
  intros [W Hf Hs Hd Hc] Hp Hn Hk. subst D. eapply swp_det; [by eapply px_access| |exact Hk].
  intros r1 s1 H1. inversion H1; subst; simplify_eq; done.
Qed.
End begin.

Lemma sprintf_dir place dp d : dir_path place dp d → sprintf dp = Done dp.
Proof. intros (_ & _ & Hl). apply sprintf_short. lia. Qed.

Section lab4b_runs.
Context (place : cstring → option (cstring * option cstring)) (argv1 argv2 : cstring) (pid : Z).
Context (H1 : mounted place argv1) (H2 : mounted place argv2) (D0 : gset cstring) (C0 : name → option cstring).
Context (Hnew : dname pid ∉ D0).

Lemma lab4b_start rest s :
  holds D0 C0 s → passes_from place ({[dname pid]} ∪ D0) (dname pid) C0 rest ∅ →
  passes (posix place) (Main (Done tt) (Seq (lab4b.start argv1 argv2 pid) :: rest), s).
Proof using All.
  assert (dir_path place (lab4b.d1 argv1 pid) (dname pid)) as P1 by (apply (numbered_dir place argv1 ($"d") pid H1); [set_solver|done|cbn; lia]).
  assert (dir_path place (lab4b.d2 argv2 pid) (dname pid)) as P2 by (apply (numbered_dir place argv2 ($"d") pid H2); [set_solver|done|cbn; lia]).
  intros Hs Hr. apply passes_seq. unfold lab4b.start. rewrite (sprintf_dir _ _ _ P1), (sprintf_dir _ _ _ P2).
  cbn -[wp lab4b.d1 lab4b.d2].
  eapply swp_mkdir; [exact Hs|apply P1|done|]. intros s1 Hs1. cbn -[wp lab4b.d1 lab4b.d2].
  eapply swp_access; [exact Hs1|apply P2|set_solver|]. cbn. by apply Hr.
Qed.

Lemma lab4b_phases s :
  holds D0 C0 s → passes (posix place) (Main (Done tt) (lab4b.phases argv1 argv2 pid), s).
Proof using All.
  intros Hs. unfold lab4b.phases. apply lab4b_start; [done|]. clear s Hs.
  assert (dname pid ∈ {[dname pid]} ∪ D0) as HD by set_solver. set (D := {[dname pid]} ∪ D0) in *.
  pose proof (d1_path place argv1 argv2 pid H1 H2 D C0 HD) as P1. pose proof (d2_path place argv1 argv2 pid H1 H2 D C0 HD) as P2.
  eapply from_seq; [by apply create_read_takes|]. eapply from_seq; [by apply unlink_takes|].
  eapply from_seq; [by apply append_takes|]. eapply from_seq; [by apply readdir_takes|].
  eapply from_seq; [by apply many_takes|]. eapply from_seq; [by apply write_big_takes|].
  apply (creates_from place argv1 argv2 pid H1 H2 D C0 HD _ _ ($"xx") ($"yy")); [exact P2|exact P1|compute_ok|compute_ok|compute_ok|].
  eapply from_seq; [by apply creates_after_takes|].
  apply (same_from place argv1 argv2 pid H1 H2 D C0 HD _ _ ($"zz")); [exact P2|exact P1|compute_ok|vm_compute; reflexivity|lia|compute_ok|].
  eapply from_seq; [by apply same_after_takes|]. eapply from_seq; [by apply delete_before_takes|].
  apply (delete_from place argv1 argv2 pid H1 H2 D C0 HD _ _ _ ($"x1") ($"x3") ($"x4") (batch_map ($"x2") 20));
    [exact P2|exact P1|exact P1|compute_ok..|].
  eapply from_seq; [by apply delete_after_takes|].
  apply (same_from place argv1 argv2 pid H1 H2 D C0 HD _ _ ($"zz")); [exact P1|exact P1|compute_ok|vm_compute; reflexivity|lia|compute_ok|].
  eapply from_seq; [exact (server_after_takes place argv1 argv2 pid H1 H2 D C0 HD)|]. intros s _. apply passes_end.
Qed.
End lab4b_runs.

(** ** test-lab-4-c *)

Lemma view_swap d d' m m' C x : d ≠ d' → view d m (view d' m' C) x = view d' m' (view d m C) x.
Proof. intros Hne. unfold view. repeat case_decide; congruence. Qed.

Section lab4c_runs.
Context (place : cstring → option (cstring * option cstring)) (argv1 argv2 : cstring) (pid : Z).
Context (H1 : mounted place argv1) (H2 : mounted place argv2) (D0 : gset cstring) (C0 : name → option cstring).

Definition da : cstring := $"da" ++ dec pid.
Definition db : cstring := $"db" ++ dec pid.
Context (Ha : da ∉ D0) (Hb : db ∉ D0).

Lemma da_db : da ≠ db.
Proof using Type. intros E. injection E as E. discriminate. Qed.

(** Every process works in a directory of its own. *)
Definition by_dir : name → option bool := λ x, if decide (fst x = db) then Some false else Some true.

(** A process creates files in its directory and removes some of them. *)
Lemma churn_wp w D C val dp d pre n m s :
  dir_path place dp d → d ∈ D → (∀ f, by_dir (d, f) = Some w) → batch_ok pre n → batch_ok pre m → (m <= n)%nat →
  (∀ i, 0 <= i < Z.of_nat n → val (d, numbered pre i) = Some (int_bytes i)) →
  let J := K val by_dir D C in let R := rely val by_dir D C in
  J w no_fd ∅ ∅ s →
  wp place w (R w) (R (negb w)) (seqs [createn dp pre n; unlinkn dp pre m])
    (λ _, J w no_fd (set_of d (batch pre n) ∖ set_of d (batch pre m)) (set_of d (batch pre m))) s.
Proof using Type.
  intros Hdp Hd Hw Bn Bm Hle Hv J R Hk. cbn [seqs foldr]. apply wp_bind.
  assert (∀ f, by_dir (d, f) ≠ Some (negb w)) as Hw' by (intros f; rewrite Hw; by destruct w).
  eapply wp_mono; [done|done| |apply (createn_wp place val by_dir D C w dp d pre n ∅ ∅ Hdp Hd); [split; clear; set_solver|apply Bn|done|done|exact Hk]].
  intros ? s1 Hk1. apply wp_bind.
  eapply wp_mono; [done|done| |apply (unlinkn_wp place val by_dir D C w dp d pre m (set_of d (batch pre n)) ∅ Hdp Hd);
    [|apply Bm|intros i Hi; apply Hv; lia|done|done|apply Bm| |eapply K_equiv; [| |exact Hk1]; clear; set_solver]].
  - intros ? s2. apply K_equiv; clear; set_solver.
  - split; [|clear; set_solver]. intros x (f & -> & _)%elem_of_set_of. apply Hw'.
  - intros x (f & -> & Hf)%elem_of_set_of. apply elem_of_set_of. exists f. split; [done|].
    apply list_elem_of_lookup in Hf as [j Hj]. apply batch_lookup in Hj as [-> Hj].
    eapply list_elem_of_lookup_2, batch_lookup. split; [done|lia].
Qed.

Definition left_ (pre : cstring) : gmap cstring cstring := batch_map pre 100 ∖ batch_map pre 99.

Lemma left_settled d pre f v :
  batch_map pre 100 !! f = Some v →
  ((d, f) ∈ set_of d (batch pre 100) ∖ set_of d (batch pre 99) ∧ left_ pre !! f = Some v) ∨
  ((d, f) ∈ set_of d (batch pre 99) ∧ left_ pre !! f = None).
Proof using Type.
  intros Hf. unfold left_. rewrite lookup_difference, elem_of_difference, !batch_map_in. destruct (batch_map pre 99 !! f) eqn:E.
  - right. split; [eauto|done].
  - left. split; [|done]. split; [eauto|]. by intros [? ?].
Qed.

Lemma lab4c_paths :
  dir_path place (lab4c.d1 argv1 pid) da ∧ dir_path place (lab4c.d2 argv2 pid) db ∧ dir_path place (lab4c.dd argv2 pid) da.
Proof using H1 H2.
  split_and!; [apply (numbered_dir place argv1 ($"da") pid H1)|apply (numbered_dir place argv2 ($"db") pid H2)
    |apply (numbered_dir place argv2 ($"da") pid H2)]; first [done|cbn; lia|clear; set_solver].
Qed.

(** The two processes. *)
Lemma lab4c_par D rest s :
  da ∈ D → db ∈ D → holds D (view da ∅ (view db ∅ C0)) s →
  (∀ s', holds D (view da (left_ ($"yy")) (view db (left_ ($"xx")) C0)) s' → passes (posix place) (Main (Done tt) rest, s')) →
  passes (posix place) (Main (Done tt) (Par (lab4c.child argv2 pid) (lab4c.parent argv1 pid) :: rest), s).
Proof using H1 H2.
  intros Hda Hdb Hs Hr. destruct lab4c_paths as (P1 & P2 & _). pose proof da_db as Hne.
  set (val := view da (batch_map ($"yy") 100) (view db (batch_map ($"xx") 100) (λ _, None))).
  assert (∀ x v, val x = Some v → view da ∅ (view db ∅ C0) x = None ∨ view da ∅ (view db ∅ C0) x = Some v) as Hbefore.
  { intros x v. unfold val, view. rewrite !lookup_empty. repeat case_decide; [by left|by left|done]. }
  assert (∀ f, by_dir (da, f) = Some true) as Oa by (intros f; unfold by_dir; cbn [fst]; by rewrite decide_False).
  assert (∀ f, by_dir (db, f) = Some false) as Ob by (intros f; unfold by_dir; cbn [fst]; by rewrite decide_True).
  eapply (together place D _ _ val by_dir Hbefore) with
    (P1 := set_of db (batch ($"xx") 100) ∖ set_of db (batch ($"xx") 99)) (A1 := set_of db (batch ($"xx") 99))
    (P2 := set_of da (batch ($"yy") 100) ∖ set_of da (batch ($"yy") 99)) (A2 := set_of da (batch ($"yy") 99)); [exact Hs| | | |exact Hr].
  - split; intros [d f]; unfold val, view; cbn [fst snd].
    + intros v. case_decide as E; [subst d|case_decide as E'; [subst d|done]]; intros Hf;
        [destruct (left_settled da ($"yy") f v Hf) as [[? ?]|[? ?]]|destruct (left_settled db ($"xx") f v Hf) as [[? ?]|[? ?]]];
        [left|right|left|right]; (split; [|done]); apply elem_of_union; tauto.
    + rewrite !lookup_empty. case_decide; [|case_decide; [|done]]; intros Hf; unfold left_; rewrite lookup_difference;
        (destruct (batch_map _ 99 !! f); [done|exact Hf]).
  - intros s' Hr'. apply (churn_wp false); [exact P2|exact Hdb|exact Ob|compute_ok|compute_ok|lia| |].
    + intros i Hi. unfold val. unfold view at 1. cbn [fst snd]. rewrite decide_False by done. rewrite view_at. apply batch_map_at; [compute_ok|done].
    + eapply K_rely; [|apply (K_start _ _ _ _ Hbefore); [exact Hs| |]|exact Hr']; [split| |]; clear; set_solver.
  - intros s' Hr'. apply (churn_wp true); [exact P1|exact Hda|exact Oa|compute_ok|compute_ok|lia| |].
    + intros i Hi. unfold val. rewrite view_at. apply batch_map_at; [compute_ok|done].
    + eapply K_rely; [|apply (K_start _ _ _ _ Hbefore); [exact Hs| |]|exact Hr']; [split| |]; clear; set_solver.
Qed.

Lemma lab4c_phases s :
  holds D0 C0 s → passes (posix place) (Main (Done tt) (lab4c.phases argv1 argv2 pid), s).
Proof using All.
  intros Hs. destruct lab4c_paths as (P1 & P2 & P3). pose proof da_db as Hne. unfold lab4c.phases. apply passes_seq. unfold lab4c.start.
  rewrite (sprintf_dir _ _ _ P1), (sprintf_dir _ _ _ P2), (sprintf_dir _ _ _ P3). cbn -[wp seqs lab4c.after lab4c.child lab4c.parent lab4c.d1 lab4c.d2 lab4c.dd].
  eapply swp_mkdir; [exact Hs|apply P1|done|]. intros s1 Hs1. cbn -[wp seqs lab4c.after lab4c.child lab4c.parent lab4c.d1 lab4c.d2 lab4c.dd].
  eapply swp_mkdir; [exact Hs1|apply P2|set_solver|]. intros s2 Hs2. cbn -[wp seqs lab4c.after lab4c.child lab4c.parent lab4c.d1 lab4c.d2 lab4c.dd].
  eapply swp_access; [exact Hs2|apply P3|set_solver|]. cbn -[seqs lab4c.after lab4c.child lab4c.parent]. set (D := {[db]} ∪ ({[da]} ∪ D0)) in *.
  assert (da ∈ D ∧ db ∈ D) as [Da Db] by (unfold D; clear; set_solver).
  apply (lab4c_par D); [done|done|eapply holds_ext; [|exact Hs2]; intros x; by apply view_swap|]. clear s s1 s2 Hs Hs1 Hs2. intros s Hs.
  apply (from_seq place D da (view db (left_ ($"xx")) C0)) with (m := left_ ($"yy")) (m' := left_ ($"yy")); [|intros s' _; apply passes_end|exact Hs].
  clear s Hs. eapply takes_cons; [apply dircheck_takes; [exact Da|exact P1|vm_compute; reflexivity|lia|compute_ok]|].
  intros s Hs. cbn [seqs foldr]. apply wp_bind. eapply wp_mono; [done|done| |].
  2: apply (dircheck_takes place D db (view da (left_ ($"yy")) C0) Db _ _ (left_ ($"xx")) P2); [vm_compute; reflexivity|lia|compute_ok|].
  2: eapply holds_ext; [|exact Hs]; intros x; by apply view_swap.
  intros ? s' Hs'. eapply holds_ext; [|exact Hs']. intros x. by apply view_swap.
Qed.
End lab4c_runs.

(** ** The theorems *)


(** test-lab-4-c passes on the same conditions; its processes work in two directories. *)
Theorem lab4c_passes {Σ} (sys : bool → call → Σ → ret → Σ → Prop) rel place argv0 argv1 argv2 pid D C s σ :
  PosixLike place sys rel → mounted place argv1 → mounted place argv2 → da pid ∉ D → db pid ∉ D → holds D C s → rel σ s →
  passes sys (Main (Done tt) (lab4c.main [argv0; argv1; argv2] pid), σ).
Proof.
  intros HP H1 H2 Hna Hnb Hs Hr. apply (passes_like place sys rel _ s); [|done].
  by apply (lab4c_phases place argv1 argv2 pid H1 H2 D C Hna Hnb).
Qed.

(** *** An example *)

#[export] Instance posix_like_posix place : PosixLike place (posix place) eq.
Proof. split; [intros w c σ s r s' ->; eauto|]. intros w c σ s r0 s0 r σ' -> _ H. eauto. Qed.

Definition no_slash (c : ascii) : bool := negb (bool_decide (c = slash)).
(** The mount points /y1 and /y2. *)
Definition place_ex (p : cstring) : option (cstring * option cstring) :=
  if bool_decide (take 4 p = $"/y1/" ∨ take 4 p = $"/y2/") then
    match span no_slash (drop 4 p) with
    | ([], _) => None
    | (d, []) => Some (d, None)
    | (d, _ :: f) => if bool_decide (slash ∈ f ∨ f = []) then None else Some (d, Some f)
    end
  else None.

Lemma no_slash_all d : slash ∉ d → Forall (λ c, no_slash c = true) d.
Proof.
  intros H. apply Forall_forall. intros c Hc. unfold no_slash. rewrite bool_decide_false; [done|]. by intros ->.
Qed.

Lemma mounted_ex i : i = "1"%char ∨ i = "2"%char → mounted place_ex ["/"%char; "y"%char; i].
Proof.
  intros Hi. split; [cbn; lia|]. intros d Hd Hne.
  assert (∀ p, place_ex (path ["/"%char; "y"%char; i] p) = match span no_slash p with
    | ([], _) => None | (d, []) => Some (d, None)
    | (d, _ :: f) => if bool_decide (slash ∈ f ∨ f = []) then None else Some (d, Some f) end) as E.
  { intros p. unfold place_ex, path. rewrite bool_decide_true; [done|]. destruct Hi as [-> | ->]; [by left|by right]. }
  split; [rewrite E, span_all by (by apply no_slash_all); by destruct d|]. intros f (Hf & Hfe & _).
  change (path (path ["/"%char; "y"%char; i] d) f) with (path ["/"%char; "y"%char; i] (d ++ slash :: f)). rewrite E.
  rewrite span_app; [|by apply no_slash_all|done]. destruct d; [done|]. rewrite bool_decide_false; [done|]. by intros [?|?].
Qed.

Definition empty_fs : pfs := Pfs ∅ ∅ ∅ ∅ ∅.
Lemma holds_empty : holds ∅ (λ _, None) empty_fs.
Proof. by repeat split. Qed.


Lemma lab4c_passes_witness :
  passes (posix place_ex) (Main (Done tt) (lab4c.main [$"test-lab-4-c"; $"/y1"; $"/y2"] 4711), empty_fs).
Proof.
  refine (lab4c_passes (posix place_ex) eq place_ex ($"test-lab-4-c") ($"/y1") ($"/y2") 4711 ∅ (λ _, None) empty_fs empty_fs
    (posix_like_posix place_ex) (mounted_ex _ (or_introl eq_refl)) (mounted_ex _ (or_intror eq_refl)) _ _ holds_empty eq_refl);
    apply not_elem_of_empty.
Defined.

(** [check1] compares as many characters as the path has: a file with other contents after
    that passes. *)
Example check1_is_weak :
  let inp := replicate 20 "x"%char in let got := replicate 19 "x"%char ++ ["y"%char] in
  strncmp_eq got inp (length (path ($"/y1/d1") ($"bf"))) = true ∧ got ≠ inp.
Proof. split; [by vm_compute|discriminate]. Qed.
