(* ===== verification/Log.v ===== *)
(** * The durable log of the acceptor

    log.h and log.cc: the text file in which an acceptor records its promises,
    accepted proposals and decided instances, and [logread], which replays it
    after a restart.  The acceptor's members (paxos.h) are declared here because
    class [log] is their friend and writes them. *)

From S2P Require Import Prelude.
From S2P Require Import Marshall.
From S2P Require Import Protocol.
From S2P Require Import Streams.

(** ** The acceptor's state, with the content of its log file *)

Record acceptor := Acceptor {
  acc_me : cstring;
  n_h : prop_t;                 (* highest proposal seen in a prepare *)
  n_a : prop_t;                 (* highest proposal accepted *)
  v_a : cstring;                (* its value *)
  instance_h : Z;               (* highest decided instance *)
  values : gmap Z cstring;      (* value of each decided instance *)
  logf : cstring;               (* the file paxos-<me>.log *)
}.

Definition set_n_h x a := Acceptor (acc_me a) x (n_a a) (v_a a) (instance_h a) (values a) (logf a).
Definition set_n_a x a := Acceptor (acc_me a) (n_h a) x (v_a a) (instance_h a) (values a) (logf a).
Definition set_v_a x a := Acceptor (acc_me a) (n_h a) (n_a a) x (instance_h a) (values a) (logf a).
Definition set_instance_h x a := Acceptor (acc_me a) (n_h a) (n_a a) (v_a a) x (values a) (logf a).
Definition set_values x a := Acceptor (acc_me a) (n_h a) (n_a a) (v_a a) (instance_h a) x (logf a).
Definition set_logf x a := Acceptor (acc_me a) (n_h a) (n_a a) (v_a a) (instance_h a) (values a) x.

Definition log_name (me : cstring) : cstring := $"paxos-" ++ me ++ $".log".

(** ** Writing *)

Definition loginstance (instance : Z) (v : cstring) (a : acceptor) : acceptor :=
  set_logf (logf a ++ $"done" ++ $" " ++ dec instance ++ $" " ++ v ++ [newline]) a.

Definition loghigh (n : prop_t) (a : acceptor) : acceptor :=
  set_logf (logf a ++ $"high" ++ $" " ++ dec (p_n n) ++ $" " ++ p_m n ++ [newline]) a.

Definition logprop (n : prop_t) (v : cstring) (a : acceptor) : acceptor :=
  set_logf (logf a ++ $"prop" ++ $" " ++ dec (p_n n) ++ $" " ++ p_m n ++ $" " ++ v ++ [newline]) a.

(** ** Reading *)

Inductive log_result :=
  | LogOk (a : acceptor)
  | LogUnknown        (* assert(0) on an unknown record *)
  | LogOutOfFuel.

(** One iteration of [while (from >> type)] per unit of fuel; [instance] is the
    local variable of the loop. *)
Fixpoint logread_loop (fuel : nat) (from : istream) (type : cstring) (instance : Z)
    (a : acceptor) : log_result :=
  match fuel with
  | O => LogOutOfFuel
  | S fuel =>
      let '(type, from) := read_word type from in
      if is_fail from then LogOk a else
      if decide (type = $"done") then
        let '(instance, from) := read_unsigned instance from in
        let from := read_char from in
        let '(v, from) := read_line [] from in
        let a := set_values (<[instance := v]> (values a)) a in
        let a := set_instance_h instance a in
        let a := set_v_a [] a in
        let a := set_n_h (Prop_t 0 (p_m (n_h a))) a in
        let a := set_n_a (Prop_t 0 (p_m (n_a a))) a in
        logread_loop fuel from type instance a
      else if decide (type = $"high") then
        let '(n, from) := read_unsigned (p_n (n_h a)) from in
        let '(m, from) := read_word (p_m (n_h a)) from in
        logread_loop fuel from type instance (set_n_h (Prop_t n m) a)
      else if decide (type = $"prop") then
        let '(n, from) := read_unsigned (p_n (n_a a)) from in
        let '(m, from) := read_word (p_m (n_a a)) from in
        let from := read_char from in
        let '(v, from) := read_line [] from in
        logread_loop fuel from type instance (set_v_a v (set_n_a (Prop_t n m) a))
      else LogUnknown
  end.

(** [uninit] is the value of the uninitialised local [instance]. *)
Definition logread (uninit : Z) (a : acceptor) : log_result :=
  logread_loop (S (length (logf a))) (is_open (logf a)) [] uninit a.

(** [while (getline(from, v)) res = res + v + "\n";] *)
Fixpoint dump_loop (fuel : nat) (from : istream) (v res : cstring) : cstring :=
  match fuel with
  | O => res
  | S fuel =>
      let '(v, from) := read_line v from in
      if is_fail from then res else dump_loop fuel from v (res ++ v ++ [newline])
  end.

Definition log_dump (a : acceptor) : cstring :=
  dump_loop (S (length (logf a))) (is_open (logf a)) [] [].

Definition log_restore (s : cstring) (a : acceptor) : acceptor := set_logf s a.

(** ** Termination *)

(** Split the pair a reading operation returns, keeping its length bound. *)
Ltac bounded_read :=
  match goal with
  | |- context [read_unsigned ?n ?f] =>
      let K := fresh "K" in pose proof (read_unsigned_length n f) as K;
      destruct (read_unsigned n f); cbn [snd] in K
  | |- context [read_word ?w ?f] =>
      let K := fresh "K" in pose proof (read_word_length w f) as K;
      destruct (read_word w f); cbn [snd] in K
  | |- context [read_line ?v (read_char ?f)] =>
      let K := fresh "K" in pose proof (read_line_length v (read_char f)) as K;
      let K' := fresh "K" in pose proof (read_char_length f) as K';
      destruct (read_line v (read_char f)); cbn [snd] in K
  end.

Lemma logread_loop_fuel fuel from type instance a :
  (length (is_rest from) < fuel)%nat → logread_loop fuel from type instance a ≠ LogOutOfFuel.
Proof.
  revert from type instance a. induction fuel as [|fuel IH]; intros from type instance a Hf; [lia|].
  cbn [logread_loop]. destruct (read_word type from) as [t from1] eqn:E1.
  destruct (is_fail from1) eqn:Ef; [done|].
  apply read_word_shorter in E1; [|done].
  repeat case_decide; [..|done]; repeat bounded_read; apply IH; lia.
Qed.

(** ** Records *)

Inductive log_record :=
  | RDone (instance : Z) (v : cstring)
  | RHigh (n : prop_t)
  | RProp (n : prop_t) (v : cstring).

Definition render (r : log_record) : cstring :=
  match r with
  | RDone i v => $"done" ++ $" " ++ dec i ++ $" " ++ v ++ [newline]
  | RHigh n => $"high" ++ $" " ++ dec (p_n n) ++ $" " ++ p_m n ++ [newline]
  | RProp n v => $"prop" ++ $" " ++ dec (p_n n) ++ $" " ++ p_m n ++ $" " ++ v ++ [newline]
  end.

Definition apply_record (a : acceptor) (r : log_record) : acceptor :=
  match r with
  | RDone i v => Acceptor (acc_me a) (Prop_t 0 (p_m (n_h a))) (Prop_t 0 (p_m (n_a a))) [] i
                   (<[i := v]> (values a)) (logf a)
  | RHigh n => set_n_h n a
  | RProp n v => set_v_a v (set_n_a n a)
  end.

(** What a record needs to be read back: numbers of 32 bits, a node name that is
    one word, a value on one line. *)
Definition name_ok (m : cstring) : Prop := m ≠ [] ∧ no_space m.
Definition prop_ok (n : prop_t) : Prop := is_u32 (p_n n) ∧ name_ok (p_m n).
Definition record_ok (r : log_record) : Prop :=
  match r with
  | RDone i v => is_u32 i ∧ no_newline v
  | RHigh n => prop_ok n
  | RProp n v => prop_ok n ∧ no_newline v
  end.

Lemma newline_space : isspace newline = true.
Proof. done. Qed.
Lemma blank_space : isspace " "%char = true.
Proof. done. Qed.

#[local] Hint Resolve newline_space blank_space : wire.

Definition blanks (ws : cstring) : Prop := Forall (λ c, isspace c = true) ws.

(** The word that starts a record, after the blanks the last record left. *)
Lemma read_type w0 ws w l :
  blanks ws → w = $"done" ∨ w = $"high" ∨ w = $"prop" →
  read_word w0 (is_open (ws ++ w ++ " "%char :: l)) = (w, is_open (" "%char :: l)).
Proof.
  intros Hws Hw. assert (w ≠ [] ∧ no_space w) as [? ?].
  { destruct Hw as [->|[->| ->]];
      (split; [done|apply (bool_decide_unpack _); vm_compute; exact I]). }
  rewrite <- (read_word_eq w0 w " "%char l) by done.
  unfold read_word, is_sentry, is_open. cbn.
  assert (Hs : skip_ws (ws ++ w ++ " "%char :: l) = skip_ws (w ++ " "%char :: l)).
  { induction Hws as [|c ws Hc _ IH]; cbn; [done|]. by rewrite Hc. }
  rewrite Hs. clear Hs. by destruct (skip_ws _).
Qed.

(** One iteration of the loop reads one record. *)
Lemma logread_one fuel r ws rest type instance a :
  blanks ws → record_ok r →
  ∃ type' instance' ws', blanks ws' ∧
    logread_loop (S fuel) (is_open (ws ++ render r ++ rest)) type instance a =
    logread_loop fuel (is_open (ws' ++ rest)) type' instance' (apply_record a r).
Proof.
  intros Hws Hr. assert (Hb : ∀ l, $" " ++ l = " "%char :: l) by done.
  destruct r as [i v|[n m]|[n m] v]; unfold render;
    rewrite <- !(assoc_L (++)), !Hb; cbn [logread_loop p_n p_m].
  - destruct Hr as [Hi Hv]. rewrite read_type by auto.
    cbn [is_fail is_open]. rewrite decide_True by done.
    rewrite read_unsigned_eq by done. rewrite read_char_eq. cbn [app].
    rewrite read_line_eq by done. eexists _, _, []. split; [by constructor|reflexivity].
  - destruct Hr as (Hn & Hm & Hs). cbn [p_n p_m] in *. rewrite read_type by auto.
    cbn [is_fail is_open]. rewrite decide_False, decide_True by done.
    rewrite read_unsigned_eq by done. cbn [app].
    rewrite read_word_ws by done. eexists _, _, [newline]. split; [by repeat constructor|done].
  - destruct Hr as ((Hn & Hm & Hs) & Hv). cbn [p_n p_m] in *. rewrite read_type by auto.
    cbn [is_fail is_open]. rewrite !decide_False, decide_True by done.
    rewrite read_unsigned_eq by done.
    rewrite read_word_ws by done. rewrite read_char_eq. cbn [app]. rewrite read_line_eq by done.
    eexists _, _, []. split; [by constructor|reflexivity].
Qed.

Definition render_all (rs : list log_record) : cstring := concat (render <$> rs).

Lemma skip_blanks ws : blanks ws → skip_ws ws = [].
Proof. induction 1 as [|c ws Hc _ IH]; cbn; [done|]. by rewrite Hc. Qed.

Lemma logread_all fuel rs ws type instance a :
  blanks ws → Forall record_ok rs → (length rs < fuel)%nat →
  logread_loop fuel (is_open (ws ++ render_all rs)) type instance a =
    LogOk (foldl apply_record a rs).
Proof.
  intros Hws Hrs. revert fuel ws type instance a Hws.
  induction Hrs as [|r rs Hr _ IH]; intros [|fuel] ws type instance a Hws Hf; cbn in Hf; try lia.
  - cbn [render_all]. unfold render_all. cbn [fmap list_fmap concat]. rewrite app_nil_r.
    cbn [logread_loop]. unfold read_word, is_sentry, is_open. cbn.
    rewrite skip_blanks by done. done.
  - unfold render_all. rewrite fmap_cons. cbn [concat]. fold (render_all rs).
    destruct (logread_one fuel r ws (render_all rs) type instance a Hws Hr)
      as (t' & i' & ws' & Hws' & ->).
    rewrite IH by (done || lia). done.
Qed.

Lemma render_length r : (1 ≤ length (render r))%nat.
Proof. destruct r; cbn; lia. Qed.

Lemma render_all_length rs : (length rs ≤ length (render_all rs))%nat.
Proof.
  unfold render_all. induction rs as [|r rs IH]; [done|]. rewrite fmap_cons. cbn [concat length].
  rewrite length_app. pose proof (render_length r). lia.
Qed.

(** Replaying a log written by the logging operations. *)
Lemma logread_render uninit a rs :
  logf a = render_all rs → Forall record_ok rs →
  logread uninit a = LogOk (foldl apply_record a rs).
Proof.
  intros Hl Hrs. unfold logread. rewrite Hl.
  apply (logread_all _ rs [] [] uninit a); [by constructor|done|].
  pose proof (render_all_length rs). lia.
Qed.

(** ** [dump] of a file of complete lines *)

Inductive lines_of : cstring → Prop :=
  | lines_nil : lines_of []
  | lines_cons v r : no_newline v → lines_of r → lines_of (v ++ newline :: r).

Lemma dump_loop_lines fuel l v res :
  lines_of l → (length l < fuel)%nat → dump_loop fuel (is_open l) v res = res ++ l.
Proof.
  intros Hl. revert fuel v res. induction Hl as [|w r Hw _ IH]; intros [|fuel] v res Hf; try lia.
  - cbn. by rewrite app_nil_r.
  - cbn [dump_loop]. rewrite read_line_eq by done. cbn [is_fail is_open].
    rewrite length_app in Hf. cbn in Hf. rewrite IH by lia.
    by rewrite <- !(assoc_L (++)).
Qed.

Lemma lines_app l1 l2 : lines_of l1 → lines_of l2 → lines_of (l1 ++ l2).
Proof.
  induction 1 as [|v r Hv _ IH]; intros H2; [done|].
  rewrite <- (assoc_L (++)). cbn [app]. constructor; auto.
Qed.

Lemma no_space_no_newline m : no_space m → no_newline m.
Proof. intros H. eapply Forall_impl; [exact H|]. by intros c Hc ->. Qed.

Lemma no_newline_app a b : no_newline a → no_newline b → no_newline (a ++ b).
Proof. intros. by apply Forall_app. Qed.

Lemma render_line r : record_ok r → lines_of (render r).
Proof.
  assert (Hl : ∀ v, no_newline v → lines_of (v ++ [newline])) by (intros; by repeat constructor).
  assert (Hd : ∀ n, no_newline (dec n)) by (intros; apply no_space_no_newline, dec_no_space).
  assert (Hb : ∀ l, no_newline l → no_newline ($" " ++ l)) by (intros; by constructor).
  assert (no_newline ($"done") ∧ no_newline ($"high") ∧ no_newline ($"prop")) as (? & ? & ?)
    by (split_and!; apply (bool_decide_unpack _); vm_compute; exact I).
  destruct r as [i v|[n m]|[n m] v]; cbn [record_ok render p_n p_m]; unfold prop_ok, name_ok;
    cbn [p_n p_m]; intros; destruct_and?;
    rewrite !(assoc_L (++)); apply Hl; rewrite <- !(assoc_L (++));
    repeat first [apply Hb|apply no_newline_app]; auto using no_space_no_newline.
Qed.

Lemma render_all_lines rs : Forall record_ok rs → lines_of (render_all rs).
Proof.
  induction 1 as [|r rs Hr _ IH]; [constructor|].
  unfold render_all. rewrite fmap_cons. cbn [concat]. by apply lines_app; [apply render_line|].
Qed.

Lemma log_dump_render a rs :
  logf a = render_all rs → Forall record_ok rs → log_dump a = logf a.
Proof.
  intros Hl Hrs. unfold log_dump. rewrite dump_loop_lines; [done| |lia].
  rewrite Hl. by apply render_all_lines.
Qed.

Lemma render_all_snoc rs r : render_all (rs ++ [r]) = render_all rs ++ render r.
Proof. unfold render_all. rewrite fmap_app, concat_app. cbn. by rewrite app_nil_r. Qed.

(** [logread] on any file content terminates: it returns or stops at the
    assertion on an unknown record. *)
Theorem logread_terminates uninit a : logread uninit a ≠ LogOutOfFuel.
Proof. apply logread_loop_fuel. cbn. lia. Qed.
