(* ===== verification/Paxos.v ===== *)
(** * The Paxos acceptor and proposer

    paxos.h and paxos.cc.  The acceptor's handlers are functions of its state.
    The proposer gives up its mutex during every remote call, so [proposer::run]
    is translated to a resumption: an [act] is a call with the code that runs
    after it, and that code starts from whatever state the proposer then has. *)

From S2P Require Import Prelude.
From S2P Require Import Marshall.
From S2P Require Import Protocol.
From S2P Require Import Streams.
From S2P Require Import Log.

(** ** Proposal numbers *)

Definition prop_gt (a b : prop_t) : bool :=
  (p_n a >? p_n b) || ((p_n a =? p_n b) && str_ltb (p_m b) (p_m a)).
Definition prop_ge (a b : prop_t) : bool :=
  (p_n a >? p_n b) || ((p_n a =? p_n b) && negb (str_ltb (p_m a) (p_m b))).

Lemma prop_ge_gt a b : prop_ge a b = negb (prop_gt b a).
Proof.
  unfold prop_ge, prop_gt. rewrite !Z.gtb_ltb, (Z.eqb_sym (p_n b)).
  destruct (Z.ltb_spec (p_n b) (p_n a)), (Z.ltb_spec (p_n a) (p_n b)), (Z.eqb_spec (p_n a) (p_n b)),
    (str_ltb (p_m a) (p_m b)); cbn; (done || lia).
Qed.

Lemma prop_gt_irrefl a : prop_gt a a = false.
Proof. unfold prop_gt. rewrite str_ltb_irrefl, Z.gtb_ltb, Z.ltb_irrefl. by rewrite andb_false_r. Qed.

Lemma prop_gt_trans a b c : prop_gt a b = true → prop_gt b c = true → prop_gt a c = true.
Proof.
  unfold prop_gt. rewrite !orb_true_iff, !andb_true_iff, !Z.gtb_lt, !Z.eqb_eq.
  intros [?|[? Hab]] [?|[? Hbc]]; [left; lia..|right]. split; [lia|].
  by apply (str_ltb_trans _ (p_m b)).
Qed.

Lemma prop_gt_total a b : a = b ∨ prop_gt a b = true ∨ prop_gt b a = true.
Proof.
  destruct a as [n m], b as [n' m']. unfold prop_gt. cbn.
  destruct (Z.lt_trichotomy n n') as [?|[->|?]]; [right; right; lia| |right; left; lia].
  rewrite Z.eqb_refl. destruct (str_ltb_total m m') as [->|[->| ->]]; [by left|..];
    cbn; rewrite !orb_true_r; auto.
Qed.

(** ** Membership and majorities *)

Definition isamember (m : cstring) (nodes : list cstring) : bool :=
  existsb (λ x, bool_decide (x = m)) nodes.

Lemma isamember_elem m l : isamember m l = true ↔ m ∈ l.
Proof.
  unfold isamember. rewrite existsb_exists. split.
  - intros (x & Hx & He). apply bool_decide_eq_true in He as ->. by apply list_elem_of_In.
  - intros H. exists m. split; [by apply list_elem_of_In|by apply bool_decide_eq_true].
Qed.

Lemma isamember_spec m l : isamember m l = bool_decide (m ∈ l).
Proof.
  case_bool_decide as H; [by apply isamember_elem|].
  apply not_true_is_false. by rewrite isamember_elem.
Qed.

Fixpoint print_members (nodes : list cstring) : cstring :=
  match nodes with
  | [] => []
  | [n] => n
  | n :: ns => n ++ $"," ++ print_members ns
  end.

Definition majority (l1 l2 : list cstring) : bool :=
  let n := length (filter (λ x, isamember x l2 = true) l1) in
  Z.of_nat n >=? Z.shiftr (Z.of_nat (length l1)) 1 + 1.

(** ** The acceptor *)

(** Calls of [cfg->paxos_commit]. *)
Abbreviation upcalls := (list (Z * cstring)).

Definition acceptor0 (me file : cstring) : acceptor :=
  Acceptor me (Prop_t 0 me) (Prop_t 0 me) [] 0 ∅ file.

(** The constructor: the log is replayed; the first node decides instance 1. *)
Definition new_acceptor (uninit : Z) (first : bool) (me value file : cstring) : log_result :=
  match logread uninit (acceptor0 me file) with
  | LogOk a =>
      if (instance_h a =? 0) && first then
        let a := set_values (<[1 := value]> (values a)) a in
        let a := loginstance 1 value a in
        LogOk (set_instance_h 1 a)
      else LogOk a
  | r => r
  end.

Definition value (instance : Z) (a : acceptor) : cstring * acceptor :=
  (map_at [] instance (values a), set_values (map_touch [] instance (values a)) a).

(** [r] holds the uninitialised reply the RPC layer passes in. *)
Definition preparereq (arg : preparearg) (r : prepareres) (a : acceptor) : prepareres * acceptor :=
  let r := Prepareres 0 (pr_accept r) (pr_n_a r) (pr_v_a r) in
  if pa_instance arg <=? instance_h a then
    let '(v, a) := value (pa_instance arg) a in
    (Prepareres 1 (pr_accept r) (pr_n_a r) v, a)
  else if prop_gt (pa_n arg) (n_h a) then
    let a := set_n_h (pa_n arg) a in
    let r := if p_n (n_a a) =? 0
             then Prepareres (pr_oldinstance r) 1 (pr_n_a r) []
             else Prepareres (pr_oldinstance r) 1 (n_a a) (v_a a) in
    (r, loghigh (n_h a) a)
  else (Prepareres (pr_oldinstance r) 0 (pr_n_a r) (pr_v_a r), a).

Definition paxos_OK : Z := 0.
Definition paxos_ERR : Z := 1.

Definition acceptreq (arg : acceptarg) (a : acceptor) : Z * acceptor :=
  if prop_ge (aa_n arg) (n_h a) then
    let a := set_n_a (aa_n arg) a in
    let a := set_v_a (aa_v arg) a in
    (paxos_OK, logprop (n_a a) (v_a a) a)
  else (paxos_ERR, a).

Definition commit_wo (instance : Z) (v : cstring) (a : acceptor) : upcalls * acceptor :=
  if instance >? instance_h a then
    let a := set_values (<[instance := v]> (values a)) a in
    let a := loginstance instance v a in
    let a := set_instance_h instance a in
    let a := set_n_h (Prop_t 0 (acc_me a)) a in
    let a := set_n_a (Prop_t 0 (acc_me a)) a in
    let a := set_v_a [] a in
    ([(instance, v)], a)
  else ([], a).

Definition decidereq (arg : decidearg) (a : acceptor) : Z * upcalls * acceptor :=
  if negb (da_instance arg <=? instance_h a) then
    let '(u, a) := commit_wo (da_instance arg) (da_v arg) a in (paxos_OK, u, a)
  else (paxos_OK, [], a).

Definition commit (instance : Z) (v : cstring) (a : acceptor) : upcalls * acceptor :=
  commit_wo instance v a.

Definition restore (uninit : Z) (s : cstring) (a : acceptor) : log_result :=
  logread uninit (log_restore s a).

(** ** The proposer *)

Record proposer := Proposer {
  pro_me : cstring; break1 : bool; break2 : bool; stable : bool;
  c_nodes : list cstring; c_v : cstring; my_n : prop_t;
}.

Definition set_stable x p :=
  Proposer (pro_me p) (break1 p) (break2 p) x (c_nodes p) (c_v p) (my_n p).
Definition set_c_nodes x p :=
  Proposer (pro_me p) (break1 p) (break2 p) (stable p) x (c_v p) (my_n p).
Definition set_c_v x p :=
  Proposer (pro_me p) (break1 p) (break2 p) (stable p) (c_nodes p) x (my_n p).
Definition set_my_n x p :=
  Proposer (pro_me p) (break1 p) (break2 p) (stable p) (c_nodes p) (c_v p) x.
Definition set_break1 x p :=
  Proposer (pro_me p) x (break2 p) (stable p) (c_nodes p) (c_v p) (my_n p).
Definition set_break2 x p :=
  Proposer (pro_me p) (break1 p) x (stable p) (c_nodes p) (c_v p) (my_n p).

(** [my_n.n] is not initialised by the constructor. *)
Definition new_proposer (uninit : Z) (me : cstring) : proposer :=
  Proposer me false false true [] [] (Prop_t uninit me).

Definition breakpoint (b : Z) (p : proposer) : proposer :=
  if b =? 3 then set_break1 true p else if b =? 4 then set_break2 true p else p.

Definition isrunning (p : proposer) : bool := negb (stable p).

(** [n_h] is the number the node's own acceptor holds. *)
Definition setn (n_h : prop_t) (p : proposer) : proposer :=
  let x := u32 (p_n n_h + 1) in
  let y := u32 (p_n (my_n p) + 1) in
  set_my_n (Prop_t (if x >? y then x else y) (p_m (my_n p))) p.

(** A call that is under way and the code after it.  The argument [None] (or
    [false]) of a continuation stands for a handle that cannot be bound and for
    every return value other than [OK]. *)
Inductive act :=
  | Return (r : bool)
  | Exit
  | CallPrepare (dst : cstring) (arg : preparearg)
      (k : option prepareres → proposer → proposer * act)
  | CallAccept (dst : cstring) (arg : acceptarg) (k : bool → proposer → proposer * act)
  | CallDecide (dst : cstring) (arg : decidearg) (k : proposer → proposer * act)
  | CallCommit (instance : Z) (v : cstring) (k : proposer → proposer * act).

Abbreviation code := (proposer → proposer * act).

Fixpoint prepare (instance : Z) (nodes : list cstring) (p_h : prop_t) (accepts : list cstring)
    (v : cstring) (k : bool → list cstring → cstring → code) : code := λ p,
  match nodes with
  | [] => k true accepts v p
  | node :: nodes =>
      (p, CallPrepare node (Preparearg instance (my_n p) v) (λ res p,
         match res with
         | None => prepare instance nodes p_h accepts v k p
         | Some res =>
             if pr_oldinstance res =? 1 then
               (p, CallCommit instance (pr_v_a res) (λ p, k false accepts v (set_stable true p)))
             else if pr_accept res =? 0 then k false accepts v p
             else if pr_accept res =? 1 then
               let accepts := accepts ++ [node] in
               if negb (bool_decide (pr_v_a res = [])) && prop_gt (pr_n_a res) p_h
               then prepare instance nodes (pr_n_a res) accepts (pr_v_a res) k p
               else prepare instance nodes p_h accepts v k p
             else prepare instance nodes p_h accepts v k p
         end))
  end.

Fixpoint accept (instance : Z) (nodes accepts : list cstring) (v : cstring)
    (k : list cstring → code) : code := λ p,
  match nodes with
  | [] => k accepts p
  | node :: nodes =>
      (p, CallAccept node (Acceptarg instance (my_n p) v) (λ ok p,
         if ok then accept instance nodes (accepts ++ [node]) v k p
         else accept instance nodes accepts v k p))
  end.

Fixpoint decide_ (instance : Z) (accepts : list cstring) (v : cstring) (k : code) : code := λ p,
  match accepts with
  | [] => k p
  | node :: accepts =>
      (p, CallDecide node (Decidearg instance v) (λ p, decide_ instance accepts v k p))
  end.

(** The end of [run]. *)
Definition finish (r : bool) : code := λ p, (set_stable true p, Return r).

Definition run_accepted (instance : Z) (v : cstring) (accepts : list cstring) : code := λ p,
  if majority (c_nodes p) accepts then
    if break2 p then (p, Exit) else decide_ instance accepts v (finish true) p
  else finish false p.

Definition run_prepared (instance : Z) (ok : bool) (accepts : list cstring) (v : cstring)
    : code := λ p,
  if ok then
    if majority (c_nodes p) accepts then
      let v := if decide (v = []) then c_v p else v in
      if break1 p then (p, Exit) else accept instance accepts [] v (run_accepted instance v) p
    else finish false p
  else finish false p.

Definition run (n_h : prop_t) (instance : Z) (current_nodes : list cstring) (newv : cstring)
    : code := λ p,
  if negb (stable p) then (p, Return false) else
  let p := set_c_nodes current_nodes p in
  let p := set_c_v newv p in
  let p := setn n_h p in
  prepare instance (c_nodes p) (Prop_t 0 []) [] [] (run_prepared instance) p.
