(* ===== verification/Recovery.v ===== *)
(** * Restart of an acceptor from its log

    The acceptor writes a record whenever its durable state changes.  This file
    shows that a node that stops at any point between two requests and is started
    again on its log file answers every later request exactly as it would have
    without the restart.  The restarted state is not equal to the lost one:
    [logread] leaves the name part of a number it resets to 0, and an old instance
    that was only asked about is not logged.  [acc_equiv] is the equivalence that
    ignores those differences; the handlers respect it. *)

From S2P Require Import Prelude.
From S2P Require Import Marshall.
From S2P Require Import Protocol.
From S2P Require Import Streams.
From S2P Require Import Log.
From S2P Require Import Paxos.

(** ** Equivalence of acceptor states *)

Definition prop_equiv (p q : prop_t) : Prop :=
  p_n p = p_n q ∧ (p_n p ≠ 0 → p_m p = p_m q).

#[export] Instance prop_equiv_equivalence : Equivalence prop_equiv.
Proof.
  split.
  - by intros p.
  - intros p q [H1 H2]. split; [done|]. intros Hq. symmetry. apply H2. congruence.
  - intros p q r [H1 H2] [H3 H4]. split; [congruence|]. intros Hp.
    rewrite H2 by done. apply H4. congruence.
Qed.

Record acc_equiv (a b : acceptor) : Prop := {
  eq_me : acc_me a = acc_me b;
  eq_n_h : prop_equiv (n_h a) (n_h b);
  eq_n_a : prop_equiv (n_a a) (n_a b);
  eq_v_a : v_a a = v_a b;
  eq_instance_h : instance_h a = instance_h b;
  eq_values i : map_at [] i (values a) = map_at [] i (values b);
}.

#[export] Instance acc_equiv_equivalence : Equivalence acc_equiv.
Proof.
  split.
  - intros a. by split.
  - intros a b [? ? ? ? ? ?]. by split.
  - intros a b c [? H1 H2 ? ? ?] [? H3 H4 ? ? ?].
    split; [congruence|by rewrite H1|by rewrite H2|congruence..].
Qed.

#[export] Instance apply_record_proper :
  Proper (acc_equiv ==> eq ==> acc_equiv) apply_record.
Proof.
  intros a b [? [? ?] [? ?] ? ? Hv] r _ <-. destruct r as [i v|n|n v]; split; cbn; try done.
  intros j. rewrite !map_at_insert. case_decide; [done|apply Hv].
Qed.

#[export] Instance replay_proper :
  Proper (acc_equiv ==> eq ==> acc_equiv) (foldl apply_record).
Proof.
  intros a b H rs _ <-. revert a b H. induction rs as [|r rs IH]; intros a b H; cbn; [done|].
  apply IH. by rewrite H.
Qed.

(** ** The handlers respect the equivalence *)

Lemma prop_gt_equiv n p q : 1 <= p_n n → prop_equiv p q → prop_gt n p = prop_gt n q.
Proof.
  intros Hn [H1 H2]. unfold prop_gt. rewrite <- H1. destruct (decide (p_n p = 0)) as [->|Hp].
  - destruct (Z.gtb_spec (p_n n) 0), (Z.eqb_spec (p_n n) 0); cbn; (done || lia).
  - by rewrite H2.
Qed.

Lemma prop_ge_equiv n p q : 1 <= p_n n → prop_equiv p q → prop_ge n p = prop_ge n q.
Proof.
  intros Hn [H1 H2]. unfold prop_ge. rewrite <- H1. destruct (decide (p_n p = 0)) as [->|Hp].
  - destruct (Z.gtb_spec (p_n n) 0), (Z.eqb_spec (p_n n) 0); cbn; (done || lia).
  - by rewrite H2.
Qed.

(** Requests the acceptor serves, with what the RPC layer hands to [preparereq]
    as the reply to fill, and their replies. *)
Inductive preq :=
  | QPrepare (arg : preparearg) (r : prepareres)
  | QAccept (arg : acceptarg)
  | QDecide (arg : decidearg)
  | QCommit (instance : Z) (v : cstring).

Inductive prep :=
  | APrepare (r : prepareres)
  | AAccept (status : Z)
  | ADecide (status : Z) (u : upcalls)
  | ACommit (u : upcalls).

Definition serve (q : preq) (a : acceptor) : prep * acceptor :=
  match q with
  | QPrepare arg r => let '(r, a) := preparereq arg r a in (APrepare r, a)
  | QAccept arg => let '(s, a) := acceptreq arg a in (AAccept s, a)
  | QDecide arg => let '(s, u, a) := decidereq arg a in (ADecide s u, a)
  | QCommit i v => let '(u, a) := commit i v a in (ACommit u, a)
  end.

Fixpoint serve_all (qs : list preq) (a : acceptor) : list prep * acceptor :=
  match qs with
  | [] => ([], a)
  | q :: qs => let '(r, a) := serve q a in let '(rs, a) := serve_all qs a in (r :: rs, a)
  end.

(** Proposal numbers start at 1 ([setn]); names are single words; values are
    single lines. *)
Definition preq_ok (q : preq) : Prop :=
  match q with
  | QPrepare arg _ => 1 <= p_n (pa_n arg) ∧ prop_ok (pa_n arg)
  | QAccept arg => 1 <= p_n (aa_n arg) ∧ prop_ok (aa_n arg) ∧ no_newline (aa_v arg)
  | QDecide arg => is_u32 (da_instance arg) ∧ no_newline (da_v arg)
  | QCommit i v => is_u32 i ∧ no_newline v
  end.

Lemma commit_wo_equiv i v a b :
  acc_equiv a b →
  fst (commit_wo i v a) = fst (commit_wo i v b) ∧ acc_equiv (snd (commit_wo i v a)) (snd (commit_wo i v b)).
Proof.
  intros E. pose proof E as [Hm H1 H2 Hv Hi Hvs]. unfold commit_wo. rewrite <- Hi.
  destruct (i >? instance_h a); [|by split]. split; [done|].
  split; cbn; rewrite ?Hm; try done.
  intros j. rewrite !map_at_insert. case_decide; [done|apply Hvs].
Qed.

Lemma serve_equiv q a b :
  preq_ok q → acc_equiv a b →
  fst (serve q a) = fst (serve q b) ∧ acc_equiv (snd (serve q a)) (snd (serve q b)).
Proof.
  intros Hq E. pose proof E as [Hm H1 H2 Hv Hi Hvs].
  destruct q as [arg r|arg|arg|i v]; cbn [serve preq_ok] in *.
  - destruct Hq as [Hn _]. unfold preparereq. rewrite <- Hi.
    destruct (pa_instance arg <=? instance_h a).
    + cbn. rewrite Hvs. split; [done|]. split; cbn; try done.
      intros j. by rewrite !map_touch_at.
    + rewrite (prop_gt_equiv (pa_n arg) (n_h b) (n_h a)) by done.
      destruct (prop_gt (pa_n arg) (n_h a)); [|by split]. cbn. destruct H2 as [H2 H2'].
      rewrite <- H2, <- Hv. destruct (Z.eqb_spec (p_n (n_a a)) 0) as [He|He]; cbn.
      * split; [done|]. by split.
      * split; [|by split]. do 2 f_equal.
        specialize (H2' He). destruct (n_a a), (n_a b). cbn in *. congruence.
  - destruct Hq as [Hn _]. unfold acceptreq. rewrite (prop_ge_equiv _ (n_h a) (n_h b)) by done.
    destruct (prop_ge _ _); cbn; [|by split]. split; [done|]. by split.
  - unfold decidereq. rewrite <- Hi. destruct (negb _); [|by split].
    pose proof (commit_wo_equiv (da_instance arg) (da_v arg) a b E) as [Hu Ha].
    destruct (commit_wo _ _ a), (commit_wo _ _ b). cbn in *. split; [congruence|done].
  - pose proof (commit_wo_equiv i v a b E) as [Hu Ha]. unfold commit.
    destruct (commit_wo _ _ a), (commit_wo _ _ b). cbn in *. split; [congruence|done].
Qed.

Lemma serve_all_equiv qs a b :
  Forall preq_ok qs → acc_equiv a b → fst (serve_all qs a) = fst (serve_all qs b).
Proof.
  intros Hqs. revert a b. induction Hqs as [|q qs Hq _ IH]; intros a b E; cbn; [done|].
  destruct (serve_equiv q a b Hq E) as [Hr Ha].
  destruct (serve q a) as [r a'], (serve q b) as [r' b']. cbn in *. subst r'.
  specialize (IH a' b' Ha). destruct (serve_all qs a'), (serve_all qs b'). cbn in *. congruence.
Qed.

(** ** The log always describes the state *)

Definition durable (a : acceptor) : Prop :=
  ∃ rs, logf a = render_all rs ∧ Forall record_ok rs ∧
        acc_equiv (foldl apply_record (acceptor0 (acc_me a) []) rs) a.

Lemma durable_record a a' r :
  durable a → record_ok r → logf a' = logf a ++ render r → acc_equiv (apply_record a r) a' →
  durable a'.
Proof.
  intros (rs & Hl & Hrs & He) Hr Hl' Ha. exists (rs ++ [r]). split; [|split].
  - by rewrite render_all_snoc, Hl', Hl.
  - apply Forall_app. split; [done|]. by constructor.
  - assert (Hm : acc_me a' = acc_me a) by (rewrite <- (eq_me _ _ Ha); by destruct r).
    rewrite Hm, foldl_app. cbn [foldl]. by rewrite He.
Qed.

Lemma durable_same a a' :
  durable a → acc_equiv a a' → logf a' = logf a → durable a'.
Proof.
  intros (rs & Hl & Hrs & He) Ha Hl'. exists rs. split; [congruence|]. split; [done|].
  rewrite <- (eq_me _ _ Ha). by rewrite He.
Qed.

Lemma commit_wo_durable i v a :
  is_u32 i → no_newline v → durable a → durable (snd (commit_wo i v a)).
Proof.
  intros Hi Hv D. unfold commit_wo. destruct (i >? instance_h a); [|done].
  apply (durable_record a _ (RDone i v)); [done|done|by cbn|].
  by split; cbn.
Qed.

Lemma serve_durable q a : preq_ok q → durable a → durable (snd (serve q a)).
Proof.
  intros Hq D. destruct q as [arg r|arg|arg|i v]; cbn [serve preq_ok] in *.
  - destruct Hq as [Hn Hok]. unfold preparereq. destruct (pa_instance arg <=? instance_h a).
    + cbn. apply (durable_same a); [done| |done]. split; cbn; try done.
      intros j. by rewrite map_touch_at.
    + destruct (prop_gt (pa_n arg) (n_h a)); [|done]. cbn.
      apply (durable_record a _ (RHigh (pa_n arg))); [done|done|done|].
      by split; cbn.
  - destruct Hq as (Hn & Hok & Hv). unfold acceptreq. destruct (prop_ge _ _); [|done]. cbn.
    apply (durable_record a _ (RProp (aa_n arg) (aa_v arg))); [done|done|done|]. by split; cbn.
  - destruct Hq as [Hi Hv]. unfold decidereq. destruct (negb _); [|done].
    pose proof (commit_wo_durable _ _ a Hi Hv D). by destruct (commit_wo _ _ a).
  - destruct Hq as [Hi Hv]. unfold commit.
    pose proof (commit_wo_durable _ _ a Hi Hv D). by destruct (commit_wo _ _ a).
Qed.

Lemma serve_all_durable qs a : Forall preq_ok qs → durable a → durable (snd (serve_all qs a)).
Proof.
  intros Hqs. revert a. induction Hqs as [|q qs Hq _ IH]; intros a D; cbn; [done|].
  pose proof (serve_durable q a Hq D) as D'. destruct (serve q a) as [r a']. cbn in D'.
  specialize (IH a' D'). by destruct (serve_all qs a').
Qed.

(** ** Instances only grow; the name stays *)

Lemma commit_wo_mono i v a :
  instance_h a <= instance_h (snd (commit_wo i v a)) ∧ acc_me (snd (commit_wo i v a)) = acc_me a.
Proof.
  unfold commit_wo. rewrite Z.gtb_ltb. destruct (Z.ltb_spec (instance_h a) i); cbn; split; (done || lia).
Qed.

Lemma serve_mono q a :
  instance_h a <= instance_h (snd (serve q a)) ∧ acc_me (snd (serve q a)) = acc_me a.
Proof.
  destruct q as [arg r|arg|arg|i v]; cbn [serve].
  - unfold preparereq. destruct (_ <=? _); [done|]. by destruct (prop_gt _ _).
  - unfold acceptreq. by destruct (prop_ge _ _).
  - unfold decidereq. destruct (negb _); [|done].
    pose proof (commit_wo_mono (da_instance arg) (da_v arg) a). by destruct (commit_wo _ _ a).
  - unfold commit. pose proof (commit_wo_mono i v a). by destruct (commit_wo _ _ a).
Qed.

Lemma serve_all_mono qs a :
  instance_h a <= instance_h (snd (serve_all qs a)) ∧ acc_me (snd (serve_all qs a)) = acc_me a.
Proof.
  revert a. induction qs as [|q qs IH]; intros a; cbn; [done|].
  pose proof (serve_mono q a). destruct (serve q a) as [r a']. cbn in *.
  specialize (IH a'). destruct (serve_all qs a'). cbn in *. split; [lia|].
  destruct_and!. congruence.
Qed.

(** ** Restart *)

(** A node started on an empty log file. *)
Lemma new_acceptor_empty uninit first me v :
  no_newline v →
  ∃ a, new_acceptor uninit first me v [] = LogOk a ∧ durable a ∧ acc_me a = me ∧
       (first = true → 1 <= instance_h a).
Proof.
  intros Hv. unfold new_acceptor, logread. cbn. destruct first; cbn.
  - eexists. split; [done|]. split; [|done]. exists [RDone 1 v]. split; [|split].
    + unfold render_all. cbn. by rewrite app_nil_r.
    + constructor; [|constructor]. split; [|done]. unfold_int. lia.
    + by split.
  - eexists. split; [done|]. split; [|done]. exists []. split; [done|]. split; [done|]. done.
Qed.

Lemma restart_equiv uninit first v a :
  durable a → (first = true → 1 <= instance_h a) →
  ∃ b, new_acceptor uninit first (acc_me a) v (logf a) = LogOk b ∧ acc_equiv b a ∧ logf b = logf a.
Proof.
  intros (rs & Hl & Hrs & He) Hfirst. unfold new_acceptor.
  rewrite (logread_render uninit (acceptor0 (acc_me a) (logf a)) rs) by done.
  assert (Hb : acc_equiv (foldl apply_record (acceptor0 (acc_me a) (logf a)) rs) a).
  { rewrite <- He at 3. apply replay_proper; [|done]. by split. }
  assert (Hlf : logf (foldl apply_record (acceptor0 (acc_me a) (logf a)) rs) = logf a).
  { change (logf a) with (logf (acceptor0 (acc_me a) (logf a))) at 2.
    generalize (acceptor0 (acc_me a) (logf a)). clear. induction rs as [|r rs IH]; intros x; [done|].
    cbn. rewrite IH. by destruct r. }
  rewrite (eq_instance_h _ _ Hb).
  destruct ((instance_h a =? 0) && first) eqn:E; [|by eexists].
  apply andb_true_iff in E as [E%Z.eqb_eq Ef]. specialize (Hfirst Ef). lia.
Qed.

(** C8. A node that stops between two requests and is started again on its log
    file answers every later sequence of requests as it would have without the
    restart, and its log goes on from the same content. *)
Theorem restart_transparent uninit uninit' first me v v' qs a0 b0 qs' :
  no_newline v → Forall preq_ok qs → Forall preq_ok qs' →
  new_acceptor uninit first me v [] = LogOk a0 →
  b0 = snd (serve_all qs a0) →
  ∃ b, new_acceptor uninit' first me v' (logf b0) = LogOk b ∧
    logf b = logf b0 ∧
    fst (serve_all qs' b) = fst (serve_all qs' b0).
Proof.
  intros Hv Hqs Hqs' Ha ->.
  destruct (new_acceptor_empty uninit first me v Hv) as (a & Ha' & D & Hme & Hfirst).
  rewrite Ha in Ha'. injection Ha' as <-.
  pose proof (serve_all_durable qs a0 Hqs D) as D'.
  destruct (serve_all_mono qs a0) as [Hmono Hme'].
  destruct (restart_equiv uninit' first v' (snd (serve_all qs a0)) D') as (b & Hb & He & Hlf).
  { intros Hf. specialize (Hfirst Hf). lia. }
  rewrite Hme', Hme in Hb. exists b. split; [done|]. split; [done|].
  by apply serve_all_equiv.
Qed.

(** A node promises 3, accepts a value for it, then is asked again with 2 and 4. *)
Lemma restart_transparent_witness :
  let p k := QPrepare (Preparearg 2 (Prop_t k ($"b")) []) (Prepareres 7 7 (Prop_t 7 []) []) in
  let qs := [p 3; QAccept (Acceptarg 2 (Prop_t 3 ($"b")) ($"a b "))] in
  ∃ a0 b,
    new_acceptor 5 true ($"a") ($"a") [] = LogOk a0 ∧
    new_acceptor 9 true ($"a") ($"z") (logf (snd (serve_all qs a0))) = LogOk b ∧
    logf b = logf (snd (serve_all qs a0)) ∧
    fst (serve_all [p 2; p 4] b) =
      [APrepare (Prepareres 0 0 (Prop_t 7 []) []);
       APrepare (Prepareres 0 1 (Prop_t 3 ($"b")) ($"a b "))].
Proof.
  intros p qs.
  assert (Hp : ∀ k, k = 2 ∨ k = 3 ∨ k = 4 → preq_ok (p k)).
  { intros k Hk. repeat split; cbn; [lia|unfold_int; lia..|done|].
    apply (bool_decide_unpack _). vm_compute. exact I. }
  assert (Hnl : ∀ l, bool_decide (no_newline l) = true → no_newline l).
  { intros l Hl. by apply bool_decide_eq_true in Hl. }
  destruct (new_acceptor 5 true ($"a") ($"a") []) as [a0| |] eqn:E;
    [|vm_compute in E; discriminate|vm_compute in E; discriminate].
  destruct (restart_transparent 5 9 true ($"a") ($"a") ($"z") qs a0 (snd (serve_all qs a0)) [p 2; p 4])
    as (b & H1 & H2 & H3).
  - by apply Hnl.
  - constructor; [auto|]. constructor; [|constructor].
    repeat split; cbn; [lia|unfold_int; lia..|done| |by apply Hnl].
    apply (bool_decide_unpack _). vm_compute. exact I.
  - repeat constructor; apply Hp; auto.
  - exact E.
  - reflexivity.
  - exists a0, b. split; [reflexivity|]. split; [exact H1|]. split; [exact H2|]. rewrite H3.
    vm_compute in E. injection E as <-. vm_compute. reflexivity.
Defined.

(** ** Joining: a node takes over another node's log *)

Definition agree (x y : acceptor) : Prop :=
  prop_equiv (n_h x) (n_h y) ∧ prop_equiv (n_a x) (n_a y) ∧ v_a x = v_a y ∧
  instance_h x = instance_h y.

Definition is_done (r : log_record) : Prop := match r with RDone _ _ => True | _ => False end.

Lemma replay_agree rs x y :
  agree x y → agree (foldl apply_record x rs) (foldl apply_record y rs).
Proof.
  revert x y. induction rs as [|r rs IH]; intros x y (H1 & H2 & H3 & H4); [by split_and!|].
  cbn. apply IH. by destruct r; split_and!.
Qed.

Lemma replay_done_agree rs x y :
  Exists is_done rs → agree (foldl apply_record x rs) (foldl apply_record y rs).
Proof.
  intros Hd. revert x y. induction Hd as [r rs Hr|r rs _ IH]; intros x y; cbn; [|apply IH].
  apply replay_agree. destruct r; [|done..]. by split_and!.
Qed.

Lemma replay_no_done rs x :
  ¬ Exists is_done rs → instance_h (foldl apply_record x rs) = instance_h x.
Proof.
  revert x. induction rs as [|r rs IH]; intros x Hd; [done|]. cbn. rewrite IH.
  - destruct r; [|done..]. destruct Hd. by constructor.
  - intros H. apply Hd. by apply Exists_cons_tl.
Qed.

Lemma replay_values rs x y i :
  values x !! i = None →
  values (foldl apply_record y rs) !! i = values (foldl apply_record x rs) !! i ∨
  (values (foldl apply_record x rs) !! i = None ∧
   values (foldl apply_record y rs) !! i = values y !! i).
Proof.
  intros Hx. induction rs as [|r rs IH] using rev_ind; [by right|].
  rewrite !foldl_app. cbn. destruct r as [j v|n|n v]; cbn; [|done..].
  rewrite !lookup_insert. case_decide; [by left|done].
Qed.

#[export] Instance is_done_dec r : Decision (is_done r).
Proof. destruct r; apply _. Defined.

(** C27. [restore] of the log [dump]ed by another node: the joining node takes
    over that node's instance, its promise and its accepted proposal, and knows
    the value of every instance the other knew. *)
Theorem restore_dump uninit a b :
  durable a → 1 <= instance_h a →
  ∃ b', restore uninit (log_dump a) b = LogOk b' ∧ logf b' = logf a ∧ agree b' a ∧
    (∀ i v, values a !! i = Some v → v ≠ [] → fst (value i b') = v).
Proof.
  intros (rs & Hl & Hrs & He) Hi. rewrite (log_dump_render a rs) by done.
  unfold restore. rewrite (logread_render uninit _ rs) by done.
  eexists. split; [done|]. split; [|split].
  - change (logf a) with (logf (log_restore (logf a) b)) at 2.
    generalize (log_restore (logf a) b). clear. induction rs as [|r rs IH]; intros x; [done|].
    cbn. rewrite IH. by destruct r.
  - assert (Hd : Exists is_done rs).
    { destruct (decide (Exists is_done rs)) as [|Hn]; [done|].
      apply (replay_no_done rs (acceptor0 (acc_me a) [])) in Hn.
      rewrite (eq_instance_h _ _ He) in Hn. cbn in Hn. lia. }
    destruct (replay_done_agree rs (log_restore (logf a) b) (acceptor0 (acc_me a) []) Hd)
      as (H1 & H2 & H3 & H4).
    destruct He as [_ E1 E2 E3 E4 _]. split_and!; [by rewrite H1|by rewrite H2|congruence..].
  - intros i v Hv Hne. cbn. pose proof (eq_values _ _ He i) as Hvi.
    rewrite (map_at_some [] i (values a) v Hv) in Hvi. unfold map_at in *.
    destruct (replay_values rs (acceptor0 (acc_me a) []) (log_restore (logf a) b) i) as [-> | [Hn _]];
      [done|done|]. rewrite Hn in Hvi. cbn in Hvi. congruence.
Qed.

Lemma restore_dump_witness :
  let a := Acceptor ($"a") (Prop_t 0 ($"a")) (Prop_t 0 ($"a")) [] 1 {[1 := $"a"]}
             (render_all [RDone 1 ($"a")]) in
  let b := acceptor0 ($"b") [] in
  ∃ b', restore 0 (log_dump a) b = LogOk b' ∧ logf b' = logf a ∧ agree b' a ∧
    (∀ i v, values a !! i = Some v → v ≠ [] → fst (value i b') = v).
Proof.
  intros a b. apply restore_dump; [|unfold a; cbn; lia].
  exists [RDone 1 ($"a")]. split; [reflexivity|]. split; [|by split].
  constructor; [|constructor]. split; [unfold_int; lia|].
  apply (bool_decide_unpack _). vm_compute. exact I.
Defined.
