(* ===== verification/Agreement.v ===== *)
(** * Agreement of the Paxos implementation

    A network of nodes, each with the acceptor and the proposer of paxos.cc, that
    exchange messages which may be delayed, lost and duplicated.  The transition
    function runs the translated handlers and the translated [proposer::run].

    Under an ordering condition the acceptors that decide an instance decide the
    same value.  The condition excludes two schedules that the code does not
    exclude itself; for each of them a concrete run ends with two nodes that
    decided different values. *)

From S2P Require Import Prelude.
From S2P Require Import Marshall.
From S2P Require Import Protocol.
From S2P Require Import Streams.
From S2P Require Import Log.
From S2P Require Import Paxos.

#[export] Instance preparearg_eq_dec : EqDecision preparearg.
Proof. solve_decision. Defined.
#[export] Instance acceptarg_eq_dec : EqDecision acceptarg.
Proof. solve_decision. Defined.

(** ** The network *)

Record node := Node { acc : acceptor; pro : proposer; thr : list act }.

Inductive msg :=
  | MPrepare (dst : cstring) (arg : preparearg)
  | MAccept (dst : cstring) (arg : acceptarg)
  | MDecide (dst : cstring) (arg : decidearg).

Inductive rep :=
  | RPrepare (src : cstring) (arg : preparearg) (res : prepareres)
  | RAccept (src : cstring) (arg : acceptarg) (status : Z).

Record sys := Sys { nds : gmap cstring node; msgs : list msg; reps : list rep }.

Inductive label :=
  | LStart (p : cstring) (instance : Z) (ns : list cstring) (v : cstring)
  | LSend (p : cstring) (k : nat)
  | LDeliver (j : nat) (r : prepareres)
  | LReply (p : cstring) (k j : nat)
  | LNoReply (p : cstring) (k : nat)
  | LCommit (p : cstring) (k : nat).

(** Thread [k] of a node goes on with code [c]. *)
Definition resume (k : nat) (c : code) (nd : node) : node :=
  let '(p, t) := c (pro nd) in Node (acc nd) p (<[k := t]> (thr nd)).

Definition set_acc (a : acceptor) (nd : node) : node := Node a (pro nd) (thr nd).

Definition request (t : act) : option msg :=
  match t with
  | CallPrepare dst arg _ => Some (MPrepare dst arg)
  | CallAccept dst arg _ => Some (MAccept dst arg)
  | CallDecide dst arg _ => Some (MDecide dst arg)
  | _ => None
  end.

(** The code a thread goes on with when a reply arrives. *)
Definition on_reply (t : act) (r : rep) : option code :=
  match t, r with
  | CallPrepare dst arg k, RPrepare src arg' res =>
      if decide (dst = src ∧ arg = arg') then Some (k (Some res)) else None
  | CallAccept dst arg k, RAccept src arg' status =>
      if decide (dst = src ∧ arg = arg') then Some (k (status =? paxos_OK)) else None
  | _, _ => None
  end.

(** ... and when none arrives in time. *)
Definition on_silence (t : act) : option code :=
  match t with
  | CallPrepare _ _ k => Some (k None)
  | CallAccept _ _ k => Some (k false)
  | CallDecide _ _ k => Some k
  | _ => None
  end.

Definition deliver (m : msg) (r : prepareres) (s : sys) : option sys :=
  match m with
  | MPrepare dst arg =>
      nd ← nds s !! dst;
      let '(res, a) := preparereq arg r (acc nd) in
      Some (Sys (<[dst := set_acc a nd]> (nds s)) (msgs s) (RPrepare dst arg res :: reps s))
  | MAccept dst arg =>
      nd ← nds s !! dst;
      let '(st, a) := acceptreq arg (acc nd) in
      Some (Sys (<[dst := set_acc a nd]> (nds s)) (msgs s) (RAccept dst arg st :: reps s))
  | MDecide dst arg =>
      nd ← nds s !! dst;
      let '(_, _, a) := decidereq arg (acc nd) in
      Some (Sys (<[dst := set_acc a nd]> (nds s)) (msgs s) (reps s))
  end.

Definition step1 (l : label) (s : sys) : option sys :=
  match l with
  | LStart p i ns v =>
      nd ← nds s !! p;
      let '(pr, t) := run (n_h (acc nd)) i ns v (pro nd) in
      Some (Sys (<[p := Node (acc nd) pr (thr nd ++ [t])]> (nds s)) (msgs s) (reps s))
  | LSend p k =>
      nd ← nds s !! p; t ← thr nd !! k; m ← request t;
      Some (Sys (nds s) (m :: msgs s) (reps s))
  | LDeliver j r => m ← msgs s !! j; deliver m r s
  | LReply p k j =>
      nd ← nds s !! p; t ← thr nd !! k; r ← reps s !! j; c ← on_reply t r;
      Some (Sys (<[p := resume k c nd]> (nds s)) (msgs s) (reps s))
  | LNoReply p k =>
      nd ← nds s !! p; t ← thr nd !! k; c ← on_silence t;
      Some (Sys (<[p := resume k c nd]> (nds s)) (msgs s) (reps s))
  | LCommit p k =>
      nd ← nds s !! p; t ← thr nd !! k;
      match t with
      | CallCommit i v c =>
          Some (Sys (<[p := resume k c (set_acc (snd (commit i v (acc nd))) nd)]> (nds s))
                  (msgs s) (reps s))
      | _ => None
      end
  end.

Fixpoint exec (ls : list label) (s : sys) : option sys :=
  match ls with [] => Some s | l :: ls => s ← step1 l s; exec ls s end.

Definition decided (i : Z) (p : cstring) (v : cstring) (s : sys) : Prop :=
  ∃ nd, nds s !! p = Some nd ∧ i <= instance_h (acc nd) ∧ values (acc nd) !! i = Some v.

(** ** Majorities intersect *)

Lemma filter_overlap (l : list cstring) (P Q : cstring → bool) :
  (length l < length (filter (λ x, P x = true) l) + length (filter (λ x, Q x = true) l))%nat →
  ∃ x, x ∈ l ∧ P x = true ∧ Q x = true.
Proof.
  induction l as [|x l IH]; [cbn; lia|].
  rewrite !filter_cons. repeat case_decide; cbn [length];
    [intros _; exists x; split; [constructor|done]|..];
    (intros Hl; destruct IH as (y & ? & ? & ?); [lia|]; exists y; split; [by constructor|done]).
Qed.

Lemma majority_overlap l1 a b :
  majority l1 a = true → majority l1 b = true → ∃ x, x ∈ l1 ∧ x ∈ a ∧ x ∈ b.
Proof.
  unfold majority. rewrite !Z.geb_le, Z.shiftr_div_pow2 by lia. change (2 ^ 1) with 2.
  intros Ha Hb. pose proof (Z.div_mod (Z.of_nat (length l1)) 2).
  pose proof (Z.mod_pos_bound (Z.of_nat (length l1)) 2).
  destruct (filter_overlap l1 (λ x, isamember x a) (λ x, isamember x b)) as (x & Hx & H1 & H2).
  - lia.
  - exists x. split; [done|]. split; by apply isamember_elem.
Qed.

(** ** The core argument

    [promise x n r]: node [x] promised number [n] with the reply [r], which
    reports its last vote.  [vote x n v]: node [x] accepted [(n, v)].  [req n v]: a
    proposer asked to accept [(n, v)]. *)

(** What the loop of [prepare] knows from the replies [L]: the highest vote that
    was reported. *)
Definition summary (L : list (cstring * prepareres)) (p_h : prop_t) (v : cstring) : Prop :=
  (v = [] ∧ p_h = Prop_t 0 [] ∧ ∀ x r, (x, r) ∈ L → pr_v_a r = []) ∨
  (∃ x r, (x, r) ∈ L ∧ v = pr_v_a r ∧ v ≠ [] ∧ p_h = pr_n_a r ∧
     ∀ y r', (y, r') ∈ L → pr_v_a r' ≠ [] → prop_ge p_h (pr_n_a r') = true).

Lemma filter_lt {A} (P Q : A → Prop) `{∀ x, Decision (P x), ∀ x, Decision (Q x)} l x :
  (∀ y, P y → Q y) → x ∈ l → Q x → ¬ P x → (length (filter P l) < length (filter Q l))%nat.
Proof.
  intros HPQ Hx HQ HP.
  assert (Hle : ∀ l, (length (filter P l) ≤ length (filter Q l))%nat).
  { clear -HPQ. induction l as [|y l IH]; [done|]. rewrite !filter_cons.
    repeat case_decide; cbn [length]; first [lia|naive_solver]. }
  induction Hx as [y l|z y l Hy IH]; rewrite !filter_cons.
  - specialize (Hle l). rewrite decide_False, decide_True by done. cbn [length]. lia.
  - specialize (IH HQ HP). repeat case_decide; cbn [length]; first [lia|naive_solver].
Qed.

Lemma prop_ge_cases a b : prop_ge a b = true → a = b ∨ prop_gt a b = true.
Proof.
  rewrite prop_ge_gt, negb_true_iff. intros H. destruct (prop_gt_total a b) as [?|[?|?]]; auto.
  congruence.
Qed.

Lemma prop_ge_trans a b c : prop_ge a b = true → prop_ge b c = true → prop_ge a c = true.
Proof.
  intros [->|H1]%prop_ge_cases; [done|]. intros [<-|H2]%prop_ge_cases.
  - rewrite prop_ge_gt, negb_true_iff. apply not_true_is_false. intros H.
    pose proof (prop_gt_trans _ _ _ H H1) as Hi. by rewrite prop_gt_irrefl in Hi.
  - rewrite prop_ge_gt, negb_true_iff. apply not_true_is_false. intros H.
    pose proof (prop_gt_trans _ _ _ H (prop_gt_trans _ _ _ H1 H2)) as Hi.
    by rewrite prop_gt_irrefl in Hi.
Qed.

Lemma prop_gt_ge a b : prop_gt a b = true → prop_ge a b = true.
Proof.
  intros H. rewrite prop_ge_gt, negb_true_iff. apply not_true_is_false. intros H'.
  pose proof (prop_gt_trans _ _ _ H H') as Hi. by rewrite prop_gt_irrefl in Hi.
Qed.

Lemma prop_ge_refl a : prop_ge a a = true.
Proof. by rewrite prop_ge_gt, prop_gt_irrefl. Qed.

Lemma prop_gt_ge_trans a b c : prop_gt a b = true → prop_ge b c = true → prop_gt a c = true.
Proof. intros H [<-|?]%prop_ge_cases; [done|]. by eapply prop_gt_trans. Qed.

Lemma prop_ge_gt_trans a b c : prop_ge a b = true → prop_gt b c = true → prop_gt a c = true.
Proof. intros [->|?]%prop_ge_cases; [done|]. intros. by eapply prop_gt_trans. Qed.

Section core.
Context (ns : list cstring) (nums : list prop_t).
Context (promise : cstring → prop_t → prepareres → Prop).
Context (vote : cstring → prop_t → cstring → Prop) (req : prop_t → cstring → Prop).

Definition justified (n : prop_t) (v : cstring) : Prop :=
  ∃ L p_h v0, majority ns L.*1 = true ∧ (∀ x r, (x, r) ∈ L → promise x n r) ∧
    summary L p_h v0 ∧ (v0 = [] ∨ v0 = v).

Definition chosen (v : cstring) : Prop :=
  ∃ n Q, majority ns Q = true ∧ ∀ x, x ∈ Q → vote x n v.

Hypothesis req_num : ∀ n v, req n v → n ∈ nums.
Hypothesis req_uniq : ∀ n v w, req n v → req n w → v = w.
Hypothesis req_just : ∀ n v, req n v → justified n v.
Hypothesis vote_req : ∀ x n v, vote x n v → req n v.
Hypothesis promise_votes : ∀ x n r n' v', promise x n r → vote x n' v' → prop_gt n n' = true →
  pr_v_a r ≠ [] ∧ prop_ge (pr_n_a r) n' = true.
Hypothesis promise_from : ∀ x n r, promise x n r → pr_v_a r ≠ [] →
  vote x (pr_n_a r) (pr_v_a r) ∧ prop_gt n (pr_n_a r) = true.

Lemma later_request n v Q n' w :
  majority ns Q = true → (∀ x, x ∈ Q → vote x n v) → prop_gt n' n = true → req n' w → w = v.
Proof using req_num req_uniq req_just vote_req promise_votes promise_from.
  intros HQ HvQ. remember (length (filter (λ m, prop_gt n' m = true) nums)) as k eqn:Hk.
  revert n' w Hk. induction (lt_wf k) as [k _ IH]. intros n' w -> Hgt Hreq.
  destruct (req_just n' w Hreq) as (L & ph & v0 & HL & Hprom & Hsum & Hv0).
  destruct (majority_overlap ns Q L.*1 HQ HL) as (x & _ & HxQ & HxL).
  apply list_elem_of_fmap in HxL as ([x' r] & Hx & HxL). cbn in Hx. subst x'.
  destruct (promise_votes x n' r n v (Hprom _ _ HxL) (HvQ _ HxQ) Hgt) as [Hne Hge].
  destruct Hsum as [(_ & _ & Hall)|(y & r' & HyL & -> & Hr' & Hph & Hmax)].
  { by destruct (Hne (Hall _ _ HxL)). }
  destruct Hv0 as [?|<-]; [done|]. pose proof (Hmax _ _ HxL Hne) as Hge'.
  destruct (promise_from y n' r' (Hprom _ _ HyL) Hr') as [Hvy Hgy]. subst ph.
  pose proof (prop_ge_trans _ _ _ Hge' Hge) as Hge''.
  apply prop_ge_cases in Hge'' as [He|Hgt''].
  - apply (req_uniq n); [rewrite <- He; by apply (vote_req y)|].
    by apply (vote_req x), HvQ.
  - refine (IH _ _ (pr_n_a r') _ eq_refl Hgt'' (vote_req _ _ _ Hvy)).
    apply (filter_lt _ _ nums (pr_n_a r')).
    + intros m Hm. by eapply prop_gt_trans.
    + by apply (req_num _ (pr_v_a r')), (vote_req y).
    + done.
    + by rewrite prop_gt_irrefl.
Qed.

Lemma chosen_unique v w : chosen v → chosen w → v = w.
Proof using req_num req_uniq req_just vote_req promise_votes promise_from.
  intros (n & Q & HQ & Hv) (n' & Q' & HQ' & Hw).
  destruct (majority_overlap ns Q Q' HQ HQ') as (x & _ & HxQ & HxQ').
  destruct (prop_gt_total n n') as [->|[Hgt|Hgt]].
  - eapply req_uniq; [by eapply vote_req, Hv|by eapply vote_req, Hw].
  - eapply (later_request n' w Q'); [done..|]. by eapply vote_req, Hv.
  - symmetry. eapply (later_request n v Q); [done..|]. by eapply vote_req, Hw.
Qed.
End core.

(** ** The invariant *)

Section safety.
Variables (i : Z) (ns : list cstring).

Definition promised (s : sys) (x : cstring) (n : prop_t) (r : prepareres) : Prop :=
  (∃ v0, RPrepare x (Preparearg i n v0) r ∈ reps s) ∧ pr_oldinstance r ≠ 1 ∧ pr_accept r = 1.
Definition voted (s : sys) (x : cstring) (n : prop_t) (v : cstring) : Prop :=
  RAccept x (Acceptarg i n v) paxos_OK ∈ reps s.
Definition asked (s : sys) (x : cstring) (n : prop_t) (v : cstring) : Prop :=
  MAccept x (Acceptarg i n v) ∈ msgs s.

Abbreviation just s := (justified ns (promised s)).
Abbreviation chose s := (chosen ns (voted s)).

(** Soup order: messages and replies are only added. *)
Definition grows (s s' : sys) : Prop := msgs s ⊆ msgs s' ∧ reps s ⊆ reps s'.

Lemma promised_grows s s' x n r : grows s s' → promised s x n r → promised s' x n r.
Proof using Type. intros [_ H] ((v0 & ?) & ? & ?). split; [exists v0; by apply H|done]. Qed.
Lemma voted_grows s s' x n v : grows s s' → voted s x n v → voted s' x n v.
Proof using Type. intros [_ H] ?. by apply H. Qed.
Lemma just_grows s s' n v : grows s s' → just s n v → just s' n v.
Proof using Type.
  intros H (L & ph & v0 & ? & Hp & ? & ?). exists L, ph, v0. split_and!; try done.
  intros x r Hx. by apply (promised_grows s), Hp.
Qed.
Lemma chose_grows s s' v : grows s s' → chose s v → chose s' v.
Proof using Type.
  intros H (n & Q & ? & Hv). exists n, Q. split; [done|]. intros x Hx.
  by apply (voted_grows s), Hv.
Qed.
Hint Resolve promised_grows voted_grows just_grows chose_grows : core.

(** An acceptor: before its decision it knows its promises and votes; after it,
    its value was chosen. *)
Definition acc_ok (s : sys) (x : cstring) (a : acceptor) : Prop :=
  if decide (instance_h a < i) then
    (∀ n r, promised s x n r → prop_ge (n_h a) n = true) ∧
    (∀ n v, voted s x n v → p_n (n_a a) ≠ 0 ∧ prop_ge (n_a a) n = true) ∧
    (p_n (n_a a) ≠ 0 → voted s x (n_a a) (v_a a) ∧ prop_ge (n_h a) (n_a a) = true)
  else ∃ v, values a !! i = Some v ∧ chose s v.

(** The call a thread of [run] is waiting for. *)
Inductive live (s : sys) (p : proposer) : act → Prop :=
  | live_prepare rest L p_h v :
      rest ≠ [] → (∀ x r, (x, r) ∈ L → promised s x (my_n p) r) → summary L p_h v →
      (∀ x w, ¬ asked s x (my_n p) w) →
      live s p (snd (prepare i rest p_h L.*1 v (run_prepared i) p))
  | live_commit va accepts v :
      chose s va →
      live s p (CallCommit i va (λ p, run_prepared i false accepts v (set_stable true p)))
  | live_accept rest accepts v :
      rest ≠ [] → v ≠ [] → (∀ x, x ∈ rest → ∃ r, promised s x (my_n p) r) →
      just s (my_n p) v → (∀ x, x ∈ accepts → voted s x (my_n p) v) →
      (∀ x w, asked s x (my_n p) w → w = v) →
      live s p (snd (accept i rest accepts v (run_accepted i v) p))
  | live_decide rest v :
      rest ≠ [] → chose s v → live s p (snd (decide_ i rest v (finish true) p)).

Definition terminal (t : act) : Prop :=
  match t with Return _ | Exit => True | _ => False end.

Record node_ok (s : sys) (x : cstring) (nd : node) : Prop := {
  k_acc : acc_ok s x (acc nd);
  k_name : p_m (my_n (pro nd)) = x;
  k_num n y v : asked s y n v → p_m n = x → p_n n <= p_n (my_n (pro nd));
  k_thr k t : thr nd !! k = Some t → terminal t ∨
    (S k = length (thr nd) ∧ c_nodes (pro nd) = ns ∧ c_v (pro nd) ≠ [] ∧
     1 <= p_n (my_n (pro nd)) ∧ live s (pro nd) t);
}.

(** The messages and replies alone. *)
Record soup_ok (s : sys) : Prop := {
  m_prepare x arg : MPrepare x arg ∈ msgs s → pa_instance arg = i;
  m_accept x arg : MAccept x arg ∈ msgs s → aa_instance arg = i ∧ aa_v arg ≠ [] ∧
    1 <= p_n (aa_n arg) ∧ (∃ r, promised s x (aa_n arg) r) ∧ just s (aa_n arg) (aa_v arg);
  m_decide x arg : MDecide x arg ∈ msgs s → da_instance arg = i ∧ chose s (da_v arg);
  m_old x arg r : RPrepare x arg r ∈ reps s → pr_oldinstance r = 1 → chose s (pr_v_a r);
  m_voted x n v : voted s x n v → asked s x n v;
  m_uniq x y n v w : asked s x n v → asked s y n w → v = w;
  m_votes x n r n' v' : promised s x n r → voted s x n' v' → prop_gt n n' = true →
    pr_v_a r ≠ [] ∧ prop_ge (pr_n_a r) n' = true;
  m_from x n r : promised s x n r → pr_v_a r ≠ [] →
    voted s x (pr_n_a r) (pr_v_a r) ∧ prop_gt n (pr_n_a r) = true;
}.

Definition inv (s : sys) : Prop :=
  soup_ok s ∧ ∀ x nd, nds s !! x = Some nd → node_ok s x nd.

Definition msg_num (m : msg) : option prop_t :=
  match m with MAccept _ arg => Some (aa_n arg) | _ => None end.

Lemma soup_agreement s v w : soup_ok s → chose s v → chose s w → v = w.
Proof using Type.
  intros S. apply (chosen_unique ns (omap msg_num (msgs s)) (promised s) (voted s)
    (λ n v, ∃ x, asked s x n v)).
  - intros n u [x Hx]. apply list_elem_of_omap. by exists (MAccept x (Acceptarg i n u)).
  - intros n u u' [x Hx] [y Hy]. by apply (m_uniq s S x y n).
  - intros n u [x Hx]. apply (m_accept s S) in Hx. cbn in Hx. naive_solver.
  - intros x n u Hx. exists x. by apply (m_voted s S).
  - intros x n r n' v' Hp Hv. by apply (m_votes s S x n r n' v').
  - intros x n r Hp Hv. by apply (m_from s S).
Qed.

Lemma inv_agreement s x y v w :
  inv s → decided i x v s → decided i y w s → v = w.
Proof using Type.
  intros [S N] (nd & Hx & Hi & Hv) (nd' & Hy & Hi' & Hw).
  pose proof (k_acc _ _ _ (N _ _ Hx)) as H1. pose proof (k_acc _ _ _ (N _ _ Hy)) as H2.
  unfold acc_ok in *. rewrite decide_False in H1 by lia. rewrite decide_False in H2 by lia.
  destruct H1 as (v' & ? & ?), H2 as (w' & ? & ?). simplify_eq.
  by eapply soup_agreement.
Qed.

(** *** Growth of the soup without new accept requests *)

Lemma live_grows s s' p t :
  grows s s' → (∀ x w, asked s' x (my_n p) w → asked s x (my_n p) w) →
  live s p t → live s' p t.
Proof using Type.
  intros G Ha. destruct 1 as [rest L ph v ? Hp ? Hn|va acs v ?|rest acs v ? ? Hp ? ? Hw|rest v ? ?].
  - constructor; eauto. intros x w Hx. by eapply Hn, Ha.
  - constructor. eauto.
  - constructor; eauto. intros x Hx. destruct (Hp x Hx) as [r ?]. eauto.
  - constructor; eauto.
Qed.

Lemma acc_ok_grows s s' x a :
  grows s s' → (∀ n r, promised s' x n r → promised s x n r) →
  (∀ n v, voted s' x n v → voted s x n v) → acc_ok s x a → acc_ok s' x a.
Proof using Type.
  intros G Hp Hv. unfold acc_ok. case_decide.
  - intros (H1 & H2 & H3). split; [eauto|]. split; [eauto|]. intros Hn.
    destruct (H3 Hn). eauto.
  - intros (v & ? & ?). eauto.
Qed.
(** *** The code after a call *)

Definition next_ok (s : sys) (p : proposer) (c : proposer * act) : Prop :=
  my_n (fst c) = my_n p ∧ c_nodes (fst c) = c_nodes p ∧ c_v (fst c) = c_v p ∧
  (terminal (snd c) ∨ live s (fst c) (snd c)).

Lemma next_finish s p r : next_ok s p (finish r p).
Proof using Type. unfold next_ok. cbn. auto. Qed.

Lemma next_decide s p rest v : chose s v → next_ok s p (decide_ i rest v (finish true) p).
Proof using Type.
  intros Hc. destruct rest as [|x rest]; [apply next_finish|].
  unfold next_ok. cbn [decide_ fst]. split_and!; try done. right.
  by apply (live_decide s p (x :: rest) v).
Qed.

Lemma next_accepted s p acs v :
  c_nodes p = ns → (∀ x, x ∈ acs → voted s x (my_n p) v) → next_ok s p (run_accepted i v acs p).
Proof using Type.
  intros Hn Hv. unfold run_accepted. rewrite Hn.
  destruct (majority ns acs) eqn:Hm; [|apply next_finish].
  destruct (break2 p); [unfold next_ok; cbn; auto|].
  apply next_decide. by exists (my_n p), acs.
Qed.

Lemma next_accept s p rest acs v :
  c_nodes p = ns → v ≠ [] → (∀ x, x ∈ rest → ∃ r, promised s x (my_n p) r) →
  just s (my_n p) v → (∀ x, x ∈ acs → voted s x (my_n p) v) →
  (∀ x w, asked s x (my_n p) w → w = v) →
  next_ok s p (accept i rest acs v (run_accepted i v) p).
Proof using Type.
  intros Hn Hv Hp Hj Hvo Ha. destruct rest as [|x rest]; [by apply next_accepted|].
  unfold next_ok. cbn [accept fst]. split_and!; try done. right.
  by apply (live_accept s p (x :: rest) acs v).
Qed.

Lemma next_prepare s p rest L p_h v :
  c_nodes p = ns → c_v p ≠ [] →
  (∀ x r, (x, r) ∈ L → promised s x (my_n p) r) → summary L p_h v →
  (∀ x w, ¬ asked s x (my_n p) w) →
  next_ok s p (prepare i rest p_h L.*1 v (run_prepared i) p).
Proof using Type.
  intros Hn Hv Hp Hs Ha. destruct rest as [|x rest].
  - cbn [prepare]. unfold run_prepared. rewrite Hn.
    destruct (majority ns L.*1) eqn:Hm; [|apply next_finish].
    destruct (break1 p); [unfold next_ok; cbn; auto|].
    apply next_accept; [done|by case_decide| | | |].
    + intros x Hx. apply list_elem_of_fmap in Hx as ([y r] & -> & Hy). eauto.
    + exists L, p_h, v. split_and!; [done..|]. case_decide; auto.
    + intros x Hx. by apply elem_of_nil in Hx.
    + intros x w Hx. by destruct (Ha x w).
  - unfold next_ok. cbn [prepare fst]. split_and!; try done. right.
    by apply (live_prepare s p (x :: rest) L p_h v).
Qed.

Lemma summary_snoc L p_h v x r :
  summary L p_h v →
  if negb (bool_decide (pr_v_a r = [])) && prop_gt (pr_n_a r) p_h
  then summary (L ++ [(x, r)]) (pr_n_a r) (pr_v_a r)
  else 1 <= p_n (pr_n_a r) ∨ pr_v_a r = [] → summary (L ++ [(x, r)]) p_h v.
Proof using Type.
  intros Hs. assert (Hin : ∀ y r', (y, r') ∈ L ++ [(x, r)] ↔ (y, r') ∈ L ∨ (y = x ∧ r' = r)).
  { intros y r'. rewrite elem_of_app, list_elem_of_singleton. naive_solver. }
  case_bool_decide as Hr; cbn [negb andb].
  - intros _. destruct Hs as [(-> & -> & Hall)|(y & r' & Hy & -> & Hne & -> & Hmax)].
    + left. split_and!; [done..|]. intros y r' [?|[-> ->]]%Hin; eauto.
    + right. exists y, r'. split_and!; [apply Hin; by left|done..|].
      intros z r'' [?|[-> ->]]%Hin; [by eapply Hmax|done].
  - destruct (prop_gt (pr_n_a r) p_h) eqn:Hg.
    + right. exists x, r. split_and!; [apply Hin; by right|done..|].
      intros z r'' [Hz|[-> ->]]%Hin Hr''; [|apply prop_ge_refl].
      destruct Hs as [(-> & -> & Hall)|(y & r' & Hy & -> & Hne & -> & Hmax)].
      * by destruct Hr''; eapply Hall.
      * apply prop_gt_ge. eapply prop_gt_ge_trans; [done|]. by eapply Hmax.
    + intros [Hn|?]; [|done].
      destruct Hs as [(-> & -> & Hall)|(y & r' & Hy & -> & Hne & -> & Hmax)].
      * exfalso. unfold prop_gt in Hg. cbn in Hg. apply orb_false_iff in Hg as [Hg _].
        rewrite Z.gtb_ltb in Hg. apply Z.ltb_ge in Hg. lia.
      * right. exists y, r'. split_and!; [apply Hin; by left|done..|].
        intros z r'' [?|[-> ->]]%Hin Hr''; [by eapply Hmax|].
        rewrite prop_ge_gt. by rewrite Hg.
Qed.
Lemma live_reply s p t r c :
  soup_ok s → c_nodes p = ns → c_v p ≠ [] → live s p t → r ∈ reps s →
  on_reply t r = Some c → next_ok s p (c p).
Proof using Type.
  intros S Hn Hv Hl Hr Hc.
  destruct Hl as [rest L ph v Hne Hp Hs Ha|va acs v ?|rest acs v Hne Hvn Hp Hj Hvo Ha|rest v Hne Hch].
  - destruct rest as [|x rest]; [done|]. cbn [prepare snd on_reply] in Hc.
    destruct r as [src arg res|]; [|done]. case_decide as Hd; [|done].
    destruct Hd as [<- <-]. simplify_eq. cbn beta iota.
    destruct (Z.eqb_spec (pr_oldinstance res) 1) as [Ho|Ho].
    { unfold next_ok. cbn [fst snd]. split_and!; try done. right.
      apply live_commit. by eapply (m_old s S). }
    destruct (Z.eqb_spec (pr_accept res) 0); [apply next_finish|].
    destruct (Z.eqb_spec (pr_accept res) 1) as [Hac|]; [|by apply next_prepare].
    assert (Hpr : promised s x (my_n p) res) by (split; [by exists v|done]).
    assert (Hp' : ∀ y r', (y, r') ∈ L ++ [(x, res)] → promised s y (my_n p) r').
    { intros y r'. rewrite elem_of_app, list_elem_of_singleton. naive_solver. }
    pose proof (summary_snoc L ph v x res Hs) as Hsum.
    change (L.*1 ++ [x]) with (L.*1 ++ [(x, res)].*1). rewrite <- fmap_app.
    destruct (negb _ && _); apply next_prepare; try done. apply Hsum.
    destruct (decide (pr_v_a res = [])) as [|Hva]; [by right|left].
    destruct (m_from s S _ _ _ Hpr Hva) as [Hvo _].
    apply (m_voted s S), (m_accept s S) in Hvo as (_ & _ & ? & _). done.
  - done.
  - destruct rest as [|x rest]; [done|]. cbn [accept snd on_reply] in Hc.
    destruct r as [|src arg st]; [done|]. case_decide as Hd; [|done].
    destruct Hd as [<- <-]. simplify_eq. cbn beta iota.
    destruct (Z.eqb_spec st paxos_OK) as [->|]; apply next_accept; try done;
      try (intros y Hy; apply Hp; by apply elem_of_cons; right).
    intros y. rewrite elem_of_app, list_elem_of_singleton. intros [?| ->]; [by apply Hvo|done].
  - by destruct rest.
Qed.

Lemma live_silence s p t c :
  c_nodes p = ns → c_v p ≠ [] → live s p t → on_silence t = Some c → next_ok s p (c p).
Proof using Type.
  intros Hn Hv Hl Hc.
  destruct Hl as [rest L ph v Hne Hp Hs Ha|va acs v ?|rest acs v Hne Hvn Hp Hj Hvo Ha|rest v Hne Hch].
  - destruct rest as [|x rest]; [done|]. cbn in Hc. simplify_eq. by apply next_prepare.
  - done.
  - destruct rest as [|x rest]; [done|]. cbn in Hc. simplify_eq. cbn beta iota.
    apply next_accept; try done. intros y Hy. apply Hp. by apply elem_of_cons; right.
  - destruct rest as [|x rest]; [done|]. cbn in Hc. simplify_eq. by apply next_decide.
Qed.

(** A thread that goes on leaves its node well-formed. *)
Lemma resume_ok s x nd k c :
  node_ok s x nd → S k = length (thr nd) → c_nodes (pro nd) = ns → c_v (pro nd) ≠ [] →
  1 <= p_n (my_n (pro nd)) → next_ok s (pro nd) (c (pro nd)) →
  node_ok s x (resume k c nd).
Proof using Type.
  intros [K1 K2 K3 K4] Hk Hn Hv H1 (E1 & E2 & E3 & E4). unfold resume.
  destruct (c (pro nd)) as [p' t'] eqn:Ec. cbn [fst snd] in *. split; cbn [acc pro thr]; try done.
  - congruence.
  - intros n y v Hy. rewrite E1. by apply (K3 n y v).
  - intros j t. rewrite length_insert. destruct (decide (j = k)) as [->|Hj].
    + rewrite list_lookup_insert_eq by lia. intros [= <-]. destruct E4 as [?|?]; [by left|right].
      rewrite E1, E2, E3. done.
    + rewrite list_lookup_insert_ne by done. intros Ht. destruct (K4 j t Ht) as [?|(Hl & _)]; [by left|].
      lia.
Qed.

Lemma node_ok_grows s s' x nd :
  grows s s' → (∀ y n v, asked s' y n v → asked s y n v ∨ p_m n ≠ x) →
  (∀ n r, promised s' x n r → promised s x n r) →
  (∀ n v, voted s' x n v → voted s x n v) → node_ok s x nd → node_ok s' x nd.
Proof using Type.
  intros G Ha Hp Hv [K1 K2 K3 K4]. split; [by apply (acc_ok_grows s)|done|..].
  - intros n y v [?|?]%Ha Hn; [by eapply K3|done].
  - intros k t Ht. destruct (K4 k t Ht) as [?|(? & ? & ? & ? & Hl)]; [by left|right].
    split_and!; try done. apply (live_grows s); [done| |done].
    intros y w [?|Hn]%Ha; [done|]. by rewrite K2 in Hn.
Qed.

(** A node changed, the soup did not. *)
Lemma inv_set_node s x nd :
  inv s → node_ok s x nd → inv (Sys (<[x := nd]> (nds s)) (msgs s) (reps s)).
Proof using Type.
  intros [S N] Hnd. split; [destruct S; split; assumption|].
  intros y nd'. cbn [nds]. rewrite lookup_insert. case_decide as Hy.
  - intros [= <-]. subst y. apply (node_ok_grows s); auto. by split.
  - intros Hy'. apply (node_ok_grows s); auto. by split.
Qed.

Lemma live_thread s x nd k t :
  node_ok s x nd → thr nd !! k = Some t → ¬ terminal t →
  S k = length (thr nd) ∧ c_nodes (pro nd) = ns ∧ c_v (pro nd) ≠ [] ∧
  1 <= p_n (my_n (pro nd)) ∧ live s (pro nd) t.
Proof using Type. intros K Ht Hn. by destruct (k_thr _ _ _ K k t Ht). Qed.

Lemma inv_reply s x nd k t r c :
  inv s → nds s !! x = Some nd → thr nd !! k = Some t → r ∈ reps s → on_reply t r = Some c →
  inv (Sys (<[x := resume k c nd]> (nds s)) (msgs s) (reps s)).
Proof using Type.
  intros I Hx Ht Hr Hc. pose proof I as [S N]. apply inv_set_node; [done|].
  destruct (live_thread s x nd k t (N _ _ Hx) Ht) as (? & ? & ? & ? & ?); [intros Hf; destruct t; done || (by destruct r)|].
  apply resume_ok; try done; [by apply N|]. by eapply live_reply.
Qed.

Lemma inv_silence s x nd k t c :
  inv s → nds s !! x = Some nd → thr nd !! k = Some t → on_silence t = Some c →
  inv (Sys (<[x := resume k c nd]> (nds s)) (msgs s) (reps s)).
Proof using Type.
  intros I Hx Ht Hc. pose proof I as [S N]. apply inv_set_node; [done|].
  destruct (live_thread s x nd k t (N _ _ Hx) Ht) as (? & ? & ? & ? & ?); [intros Hf; by destruct t|].
  apply resume_ok; try done; [by apply N|]. by eapply live_silence.
Qed.
Lemma commit_acc_ok s x a v :
  chose s v → acc_ok s x a → acc_ok s x (snd (commit_wo i v a)).
Proof using Type.
  intros Hc Ha. unfold commit_wo. rewrite Z.gtb_ltb.
  destruct (Z.ltb_spec (instance_h a) i); [|done]. unfold acc_ok. cbn.
  rewrite decide_False by lia. exists v. by rewrite lookup_insert_eq.
Qed.

Lemma set_acc_ok s x nd a : node_ok s x nd → acc_ok s x a → node_ok s x (set_acc a nd).
Proof using Type. intros [K1 K2 K3 K4] Ha. by split. Qed.

Lemma inv_commit s x nd k j v c :
  inv s → nds s !! x = Some nd → thr nd !! k = Some (CallCommit j v c) →
  inv (Sys (<[x := resume k c (set_acc (snd (commit j v (acc nd))) nd)]> (nds s)) (msgs s) (reps s)).
Proof using Type.
  intros I Hx Ht. pose proof I as [S N]. apply inv_set_node; [done|].
  destruct (live_thread s x nd k _ (N _ _ Hx) Ht) as (Hk & Hn & Hv & H1 & Hl); [auto|].
  remember (CallCommit j v c) as t eqn:Et.
  destruct Hl as [rest L ph w Hne ? ? ?|va acs w Hch|rest acs w Hne ? ? ? ? ?|rest w Hne ?];
    try (destruct rest; [done|by cbn in Et]).
  simplify_eq. apply resume_ok; try done.
  - apply set_acc_ok; [by apply N|]. apply commit_acc_ok; [done|]. apply (k_acc _ _ _ (N _ _ Hx)).
  - unfold next_ok. cbn. auto.
Qed.

Definition may_start (nd : node) : Prop :=
  Forall terminal (thr nd) ∧ 0 <= p_n (my_n (pro nd)) ∧ p_n (my_n (pro nd)) + 1 < 2 ^ 32 ∧
  0 <= p_n (n_h (acc nd)) ∧ p_n (n_h (acc nd)) + 1 < 2 ^ 32.

Lemma setn_fresh n p :
  0 <= p_n (my_n p) → p_n (my_n p) + 1 < 2 ^ 32 → 0 <= p_n n → p_n n + 1 < 2 ^ 32 →
  p_n (my_n p) < p_n (my_n (setn n p)) ∧ p_n n < p_n (my_n (setn n p)) ∧
  p_m (my_n (setn n p)) = p_m (my_n p).
Proof using Type.
  intros. unfold setn. cbn. rewrite !u32_id by (unfold_int; lia). rewrite Z.gtb_ltb.
  destruct (Z.ltb_spec (p_n (my_n p) + 1) (p_n n + 1)); split_and!; (done || lia).
Qed.

Lemma inv_start s x nd v pr t :
  inv s → nds s !! x = Some nd → may_start nd → v ≠ [] →
  run (n_h (acc nd)) i ns v (pro nd) = (pr, t) →
  inv (Sys (<[x := Node (acc nd) pr (thr nd ++ [t])]> (nds s)) (msgs s) (reps s)).
Proof using Type.
  intros I Hx (Hterm & H1 & H2 & H3 & H4) Hv Hrun. pose proof I as [So N].
  apply inv_set_node; [done|]. destruct (N _ _ Hx) as [K1 K2 K3 K4].
  assert (Hold : ∀ k u, thr nd !! k = Some u → terminal u) by (intros k u; by apply Forall_lookup).
  assert (Hk : ∀ (Q : act → Prop) k u, (thr nd ++ [t]) !! k = Some u → Q t →
    terminal u ∨ (S k = length (thr nd ++ [t]) ∧ Q u)).
  { intros Q k u Hu HQ. rewrite length_app. cbn.
    destruct (decide (k < length (thr nd))%nat).
    - rewrite lookup_app_l in Hu by done. left. by apply (Hold k).
    - rewrite lookup_app_r in Hu by lia. apply list_lookup_singleton_Some in Hu as [? <-].
      right. split; [lia|done]. }
  unfold run in Hrun. destruct (stable (pro nd)); cbn [negb] in Hrun.
  - set (p1 := setn (n_h (acc nd)) (set_c_v v (set_c_nodes ns (pro nd)))) in Hrun.
    destruct (setn_fresh (n_h (acc nd)) (set_c_v v (set_c_nodes ns (pro nd)))) as (F1 & F2 & F3);
      [done..|]. fold p1 in F1, F2, F3.
    assert (c_nodes p1 = ns ∧ c_v p1 = v) as [Hn1 Hv1] by done. clearbody p1.
    cbn [my_n set_c_v set_c_nodes] in F1, F2, F3.
    assert (Hnew : ∀ y w, ¬ asked s y (my_n p1) w).
    { intros y w Hy. apply K3 in Hy; [lia|congruence]. }
    pose proof (next_prepare s p1 (c_nodes p1) [] (Prop_t 0 []) []) as Hnx.
    change ([].*1) with (@nil cstring) in Hnx. rewrite Hrun in Hnx.
    destruct Hnx as (E1 & E2 & E3 & E4); [done|congruence| |left; split_and!; [done..|]|done|];
      [intros ? ? Hin; by apply elem_of_nil in Hin..|].
    cbn [fst snd] in *. split; cbn [acc pro thr]; [done|congruence|..].
    + intros n y w Hy Hn. rewrite E1. specialize (K3 n y w Hy Hn). lia.
    + intros k u Hu. destruct E4 as [Ht|Hl].
      * destruct (Hk terminal k u Hu Ht) as [?|[_ ?]]; by left.
      * destruct (Hk _ k u Hu Hl) as [?|[? ?]]; [by left|right].
        rewrite E1, E2, E3. split_and!; (done || congruence || lia).
  - simplify_eq. split; cbn [acc pro thr]; try done. intros k u Hu.
    destruct (Hk terminal k u Hu Logic.I) as [?|[_ ?]]; by left.
Qed.

(** *** Sending *)

Definition send (m : msg) (s : sys) : sys := Sys (nds s) (m :: msgs s) (reps s).

Lemma send_grows m s : grows s (send m s).
Proof using Type. split; [intros ? ?; by apply elem_of_cons; right|done]. Qed.

Definition sendable (s : sys) (m : msg) : Prop :=
  match m with
  | MPrepare _ arg => pa_instance arg = i
  | MAccept x arg => aa_instance arg = i ∧ aa_v arg ≠ [] ∧ 1 <= p_n (aa_n arg) ∧
      (∃ r, promised s x (aa_n arg) r) ∧ just s (aa_n arg) (aa_v arg) ∧
      ∀ y w, asked s y (aa_n arg) w → w = aa_v arg
  | MDecide _ arg => da_instance arg = i ∧ chose s (da_v arg)
  end.

Lemma soup_send s m : soup_ok s → sendable s m → soup_ok (send m s).
Proof using Type.
  intros [M1 M2 M3 M4 M5 M6 M7 M8] Hm. pose proof (send_grows m s) as G.
  assert (Hin : ∀ m', m' ∈ msgs (send m s) → m' = m ∨ m' ∈ msgs s)
    by (intros m' Hm'; by apply elem_of_cons in Hm').
  split.
  - intros x arg [<-|?]%Hin; [done|eauto].
  - intros x arg [<-|Hx]%Hin; [|apply M2 in Hx].
    + destruct Hm as (? & ? & ? & [r ?] & ? & ?). split_and!; eauto.
    + destruct Hx as (? & ? & ? & [r ?] & ?). split_and!; eauto.
  - intros x arg [<-|Hx]%Hin; [destruct Hm as [? ?]|apply M3 in Hx as [? ?]]; split; eauto.
  - intros x arg r Hr Ho. eauto.
  - intros x n v Hv. apply G, M5, Hv.
  - intros x y n v w Hv%Hin Hw%Hin. destruct m as [d arg|d arg|d arg].
    + destruct Hv as [?|Hv], Hw as [?|Hw]; try done. by eapply M6.
    + destruct Hm as (_ & _ & _ & _ & _ & Hu).
      destruct Hv as [Hv|Hv], Hw as [Hw|Hw]; simplify_eq; cbn in Hu;
        [done|by apply Hu in Hw|by apply Hu in Hv|by eapply M6].
    + destruct Hv as [?|Hv], Hw as [?|Hw]; try done. by eapply M6.
  - exact M7.
  - exact M8.
Qed.

Lemma live_sendable s p t m :
  1 <= p_n (my_n p) → live s p t → request t = Some m → sendable s m.
Proof using Type.
  intros H1 Hl Hm.
  destruct Hl as [rest L ph v Hne Hp Hs Ha|va acs v ?|rest acs v Hne Hvn Hp Hj Hvo Ha|rest v Hne Hch];
    [destruct rest as [|x rest]; [done|]|done|destruct rest as [|x rest]; [done|]..];
    cbn in Hm; simplify_eq; cbn; [done| |done].
  split_and!; try done. apply Hp. constructor.
Qed.

(** A request of a live thread does not disturb the thread. *)
Lemma live_send s p t m : live s p t → request t = Some m → live (send m s) p t.
Proof using Type.
  intros Hl Hm. pose proof (send_grows m s) as G.
  destruct Hl as [rest L ph v Hne Hp Hs Ha|va acs v ?|rest acs v Hne Hvn Hp Hj Hvo Ha|rest v Hne Hch].
  - constructor; eauto. intros x w [Hx|Hx]%elem_of_cons; [|by apply (Ha x w)].
    destruct rest; [done|]. cbn in Hm. by simplify_eq.
  - done.
  - constructor; eauto. intros x w [Hx|Hx]%elem_of_cons; [|by apply (Ha x w)].
    destruct rest; [done|]. cbn in Hm. by simplify_eq.
  - constructor; eauto.
Qed.

(** Every accept request a live thread sends carries the node's number. *)
Lemma live_number s p t x arg :
  live s p t → request t = Some (MAccept x arg) → aa_n arg = my_n p.
Proof using Type.
  intros Hl Hm. destruct Hl as [[|? ?]|?|[|? ?]|[|? ?]]; try done; cbn in Hm; by simplify_eq.
Qed.

Lemma inv_send s x nd k t m :
  inv s → nds s !! x = Some nd → thr nd !! k = Some t → request t = Some m → inv (send m s).
Proof using Type.
  intros [So N] Hx Ht Hm. pose proof (send_grows m s) as G.
  destruct (live_thread s x nd k t (N _ _ Hx) Ht) as (Hk & Hn & Hv & H1 & Hl);
    [intros Hf; by destruct t|].
  split; [apply soup_send; [done|by eapply live_sendable]|].
  assert (Hask : ∀ y n v, asked (send m s) y n v → asked s y n v ∨ n = my_n (pro nd)).
  { intros y n v [<-|Hy]%elem_of_cons; [right|by left].
    by apply (live_number s (pro nd) t) in Hm. }
  intros y nd' Hy. cbn in Hy. destruct (decide (y = x)) as [->|Hyx].
  - rewrite Hx in Hy. injection Hy as <-. destruct (N _ _ Hx) as [K1 K2 K3 K4].
    split; [by apply (acc_ok_grows s)|done|..].
    + intros n z v [Hz| ->]%Hask Hnx; [by eapply K3|lia].
    + intros j u Hu. destruct (K4 j u Hu) as [?|(? & ? & ? & ? & ?)]; [by left|right].
      assert (j = k) as -> by lia. assert (u = t) as -> by congruence.
      split_and!; try done. by apply live_send.
  - apply (node_ok_grows s); [done| |done|done|by apply N].
    intros z n v [?| ->]%Hask; [by left|right].
    rewrite (k_name _ _ _ (N _ _ Hx)). congruence.
Qed.

(** *** Delivery *)

Definition answer (x : cstring) (a : acceptor) (nd : node) (r : rep) (s : sys) : sys :=
  Sys (<[x := set_acc a nd]> (nds s)) (msgs s) (r :: reps s).

Lemma answer_grows x a nd r s : grows s (answer x a nd r s).
Proof using Type. split; [done|intros ? ?; by apply elem_of_cons; right]. Qed.

(** The other nodes after an answer of [x]. *)
Lemma answer_nodes x a nd r s :
  (∀ y nd', nds s !! y = Some nd' → node_ok s y nd') → nds s !! x = Some nd →
  acc_ok (answer x a nd r s) x a →
  (∀ y n q, y ≠ x → promised (answer x a nd r s) y n q → promised s y n q) →
  (∀ y n v, y ≠ x → voted (answer x a nd r s) y n v → voted s y n v) →
  ∀ y nd', nds (answer x a nd r s) !! y = Some nd' → node_ok (answer x a nd r s) y nd'.
Proof using Type.
  intros N Hx Ha Hp Hv y nd'. pose proof (answer_grows x a nd r s) as G. cbn [nds answer].
  rewrite lookup_insert. case_decide as Hy.
  - intros [= <-]. subst y. destruct (N _ _ Hx) as [K1 K2 K3 K4].
    split; [done|done|exact K3|].
    intros k t Ht. destruct (K4 k t Ht) as [?|(? & ? & ? & ? & ?)]; [by left|right].
    split_and!; try done. by apply (live_grows s).
  - intros Hy'. apply (node_ok_grows s); eauto.
Qed.

Lemma answer_prepare s x nd arg r a :
  inv s → nds s !! x = Some nd → pa_instance arg = i →
  (pr_oldinstance r = 1 → chose s (pr_v_a r)) →
  (pr_oldinstance r ≠ 1 → pr_accept r = 1 →
     (∀ n' v', voted s x n' v' → prop_gt (pa_n arg) n' = true →
        pr_v_a r ≠ [] ∧ prop_ge (pr_n_a r) n' = true) ∧
     (pr_v_a r ≠ [] → voted s x (pr_n_a r) (pr_v_a r) ∧ prop_gt (pa_n arg) (pr_n_a r) = true)) →
  acc_ok (answer x a nd (RPrepare x arg r) s) x a →
  inv (answer x a nd (RPrepare x arg r) s).
Proof using Type.
  intros [So N] Hx Hi Hold Hnew Ha. set (s' := answer _ _ _ _ _) in *.
  pose proof (answer_grows x a nd (RPrepare x arg r) s) as G. fold s' in G.
  assert (Hv : ∀ y n v, voted s' y n v → voted s y n v).
  { intros y n v Hy. by apply elem_of_cons in Hy as [?|?]. }
  assert (Hp : ∀ y n q, promised s' y n q → promised s y n q ∨
    (y = x ∧ n = pa_n arg ∧ q = r ∧ pr_oldinstance r ≠ 1 ∧ pr_accept r = 1)).
  { intros y n q ((v0 & Hy) & Ho & Hac). apply elem_of_cons in Hy as [Hy|Hy].
    - right. by simplify_eq.
    - left. split; [by exists v0|done]. }
  split.
  - destruct So as [M1 M2 M3 M4 M5 M6 M7 M8]. split; [exact M1| | | | |exact M6| |].
    + intros y ar Hy. apply M2 in Hy as (? & ? & ? & [q ?] & ?). split_and!; eauto.
    + intros y ar Hy. apply M3 in Hy as [? ?]. eauto.
    + intros y ar q Hy Ho. apply elem_of_cons in Hy as [?|Hy]; [simplify_eq|]; eauto.
    + intros y n v Hy. by apply M5, Hv.
    + intros y n q n' v' Hq Hv'%Hv Hg. apply Hp in Hq as [?|(-> & -> & -> & Ho & Hac)]; [by eapply M7|].
      destruct (Hnew Ho Hac) as [H1 _]. by apply (H1 n' v').
    + intros y n q Hq Hne. apply Hp in Hq as [Hq|(-> & -> & -> & Ho & Hac)].
      * destruct (M8 y n q Hq Hne). eauto.
      * destruct (Hnew Ho Hac) as [_ H2]. destruct (H2 Hne). eauto.
  - apply answer_nodes; try done.
    + intros y n q Hy [?|(-> & _)]%Hp; done.
    + intros y n v _. apply Hv.
Qed.

Lemma answer_accept s x nd arg st a :
  inv s → nds s !! x = Some nd → MAccept x arg ∈ msgs s →
  (st = paxos_OK → ∀ n r, promised s x n r → prop_ge (aa_n arg) n = true) →
  acc_ok (answer x a nd (RAccept x arg st) s) x a →
  inv (answer x a nd (RAccept x arg st) s).
Proof using Type.
  intros [So N] Hx Hm Hge Ha. set (s' := answer _ _ _ _ _) in *.
  pose proof (answer_grows x a nd (RAccept x arg st) s) as G. fold s' in G.
  assert (Hp : ∀ y n q, promised s' y n q → promised s y n q).
  { intros y n q ((v0 & Hy) & Ho & Hac). apply elem_of_cons in Hy as [Hy|Hy]; [done|].
    split; [by exists v0|done]. }
  assert (Hv : ∀ y n v, voted s' y n v → voted s y n v ∨
    (y = x ∧ arg = Acceptarg i n v ∧ st = paxos_OK)).
  { intros y n v Hy. apply elem_of_cons in Hy as [?|?]; [right; by simplify_eq|by left]. }
  split.
  - destruct So as [M1 M2 M3 M4 M5 M6 M7 M8]. split; [exact M1| | | | |exact M6| |].
    + intros y ar Hy. apply M2 in Hy as (? & ? & ? & [q ?] & ?). split_and!; eauto.
    + intros y ar Hy. apply M3 in Hy as [? ?]. eauto.
    + intros y ar q Hy Ho. apply elem_of_cons in Hy as [?|Hy]; [done|]. eauto.
    + intros y n v [?|(-> & -> & ?)]%Hv; [by apply M5|done].
    + intros y n q n' v' Hq%Hp Hv' Hg. apply Hv in Hv' as [?|(-> & -> & Hst)]; [by eapply M7|].
      specialize (Hge Hst n q Hq). cbn in Hge. rewrite prop_ge_gt, Hg in Hge. done.
    + intros y n q Hq%Hp Hne. destruct (M8 y n q Hq Hne). eauto.
  - apply answer_nodes; try done.
    + intros y n q _. apply Hp.
    + intros y n v Hy [?|(-> & _)]%Hv; done.
Qed.

Lemma acc_open s x a :
  instance_h a < i → acc_ok s x a →
  (∀ n r, promised s x n r → prop_ge (n_h a) n = true) ∧
  (∀ n v, voted s x n v → p_n (n_a a) ≠ 0 ∧ prop_ge (n_a a) n = true) ∧
  (p_n (n_a a) ≠ 0 → voted s x (n_a a) (v_a a) ∧ prop_ge (n_h a) (n_a a) = true).
Proof using Type. intros Hi Ha. unfold acc_ok in Ha. by rewrite decide_True in Ha. Qed.

Lemma acc_done s x a :
  i <= instance_h a → acc_ok s x a → ∃ v, values a !! i = Some v ∧ chose s v.
Proof using Type. intros Hi Ha. unfold acc_ok in Ha. rewrite decide_False in Ha by lia. done. Qed.

(** A reply that is no promise leaves the soup as it is for the acceptors. *)
Lemma acc_ok_no_promise s x nd arg r a :
  ¬ (pr_oldinstance r ≠ 1 ∧ pr_accept r = 1) → acc_ok s x a →
  acc_ok (answer x a nd (RPrepare x arg r) s) x a.
Proof using Type.
  intros Hr. apply acc_ok_grows; [apply answer_grows|..].
  - intros n q ((v0 & Hy) & Ho & Hac). apply elem_of_cons in Hy as [Hy|Hy]; [simplify_eq; by destruct Hr|].
    split; [by exists v0|done].
  - intros n v Hy. by apply elem_of_cons in Hy as [?|?].
Qed.

Lemma deliver_prepare s x nd arg r res a :
  inv s → nds s !! x = Some nd → pa_instance arg = i →
  preparereq arg r (acc nd) = (res, a) → inv (answer x a nd (RPrepare x arg res) s).
Proof using Type.
  intros I Hx Hi H. pose proof (k_acc _ _ _ (proj2 I _ _ Hx)) as Ha.
  unfold preparereq in H. rewrite Hi in H.
  destruct (Z.leb_spec i (instance_h (acc nd))) as [Hle|Hlt].
  - destruct (acc_done _ _ _ Hle Ha) as (v & Hv & Hch). cbn in H. injection H as <- <-.
    assert (Hmt : map_touch [] i (values (acc nd)) = values (acc nd))
      by (unfold map_touch; by rewrite Hv).
    rewrite Hmt. apply answer_prepare; try done.
    + intros _. cbn. by rewrite (map_at_some _ _ _ _ Hv).
    + apply acc_ok_no_promise; [by intros [? ?]|]. by destruct (acc nd).
  - destruct (acc_open _ _ _ Hlt Ha) as (H1 & H2 & H3).
    destruct (prop_gt (pa_n arg) (n_h (acc nd))) eqn:Hg; cbn in H.
    + assert (Hnh : ∀ n q, promised s x n q → prop_ge (pa_n arg) n = true).
      { intros n q Hq. apply prop_gt_ge. eapply prop_gt_ge_trans; [done|by eapply H1]. }
      assert (Hacc : ∀ res', acc_ok (answer x (loghigh (pa_n arg) (set_n_h (pa_n arg) (acc nd)))
                        nd (RPrepare x arg res') s) x
                      (loghigh (pa_n arg) (set_n_h (pa_n arg) (acc nd)))).
      { intros res'. unfold acc_ok. cbn. rewrite decide_True by done. split_and!.
        - intros n q ((v0 & Hq) & Ho & Hac). apply elem_of_cons in Hq as [Hq|Hq].
          + simplify_eq. apply prop_ge_refl.
          + apply (Hnh n q). split; [by exists v0|done].
        - intros n v Hq. apply elem_of_cons in Hq as [?|Hq]; [done|]. by apply (H2 n v).
        - intros Hn. destruct (H3 Hn) as [Hvo Hge]. split; [by apply elem_of_cons; right|].
          apply prop_gt_ge. by eapply prop_gt_ge_trans. }
      destruct (Z.eqb_spec (p_n (n_a (acc nd))) 0) as [Hz|Hz]; simplify_eq;
        apply answer_prepare; try done; intros _ _; cbn.
      * split; [|done]. intros n' v' Hv'. by destruct (H2 n' v' Hv').
      * destruct (H3 Hz) as [Hvo Hge]. split.
        -- intros n' v' Hv' _. destruct (H2 n' v' Hv'). split; [|done].
           apply (m_voted s (proj1 I)), (m_accept s (proj1 I)) in Hvo. naive_solver.
        -- intros _. split; [done|]. by eapply prop_gt_ge_trans.
    + simplify_eq. apply answer_prepare; try done. by apply acc_ok_no_promise; [intros [? ?]|].
Qed.

Lemma deliver_accept s x nd arg st a :
  inv s → nds s !! x = Some nd → MAccept x arg ∈ msgs s → instance_h (acc nd) < i →
  acceptreq arg (acc nd) = (st, a) → inv (answer x a nd (RAccept x arg st) s).
Proof using Type.
  intros I Hx Hm Hlt H. pose proof (k_acc _ _ _ (proj2 I _ _ Hx)) as Ha.
  destruct (acc_open _ _ _ Hlt Ha) as (H1 & H2 & H3).
  pose proof (m_accept s (proj1 I) _ _ Hm) as (Hi & Hne & Hn & [q Hq] & _).
  unfold acceptreq in H. destruct (prop_ge (aa_n arg) (n_h (acc nd))) eqn:Hg; cbn in H; simplify_eq.
  - apply answer_accept; try done.
    + intros _ n r Hr. eapply prop_ge_trans; [exact Hg|by eapply H1].
    + unfold acc_ok. cbn. rewrite decide_True by done. split_and!.
      * intros n r ((v0 & Hr) & Ho & Hac). apply elem_of_cons in Hr as [?|Hr]; [done|].
        apply (H1 n r). split; [by exists v0|done].
      * intros n v Hv. split; [lia|]. apply elem_of_cons in Hv as [Hv|Hv].
        -- simplify_eq. apply prop_ge_refl.
        -- destruct (H2 n v Hv) as [Hz Hge]. destruct (H3 Hz) as [_ Hge'].
           eapply prop_ge_trans; [exact Hg|]. by eapply prop_ge_trans.
      * intros _. split; [|by eapply H1]. apply elem_of_cons. left. destruct arg; cbn in *; congruence.
  - apply answer_accept; try done. revert Ha. apply acc_ok_grows; [apply answer_grows|..].
    + intros n r ((v0 & Hr) & Ho & Hac). apply elem_of_cons in Hr as [?|Hr]; [done|].
      split; [by exists v0|done].
    + intros n v Hv. by apply elem_of_cons in Hv as [?|?].
Qed.

Lemma deliver_decide s x nd arg st u a :
  inv s → nds s !! x = Some nd → MDecide x arg ∈ msgs s →
  decidereq arg (acc nd) = (st, u, a) →
  inv (Sys (<[x := set_acc a nd]> (nds s)) (msgs s) (reps s)).
Proof using Type.
  intros I Hx Hm H. pose proof (proj2 I _ _ Hx) as K.
  apply inv_set_node; [done|]. apply set_acc_ok; [done|].
  destruct (m_decide s (proj1 I) _ _ Hm) as [Hi Hch].
  unfold decidereq in H. destruct (negb _); [|simplify_eq; apply K].
  rewrite Hi in H. pose proof (commit_acc_ok s x (acc nd) (da_v arg) Hch (k_acc _ _ _ K)) as Hc.
  destruct (commit_wo i (da_v arg) (acc nd)). by simplify_eq.
Qed.

(** ** The ordering condition and the theorem *)

(** Every run proposes a value for instance [i] at the nodes [ns]; a node starts
    a run only when its earlier runs have returned and its counters do not wrap;
    an accept request reaches an acceptor before the acceptor's decision. *)
Definition orderly (l : label) (s : sys) : Prop :=
  match l with
  | LStart p i' ns' v => i' = i ∧ ns' = ns ∧ v ≠ [] ∧
      match nds s !! p with Some nd => may_start nd | None => True end
  | LDeliver j _ =>
      match msgs s !! j with
      | Some (MAccept x _) =>
          match nds s !! x with Some nd => instance_h (acc nd) < i | None => True end
      | _ => True
      end
  | _ => True
  end.

Fixpoint orderly_run (ls : list label) (s : sys) : Prop :=
  match ls with
  | [] => True
  | l :: ls => orderly l s ∧ match step1 l s with Some s => orderly_run ls s | None => True end
  end.

(** Nodes that have not decided instance [i], nor promised or accepted anything
    for it, with nothing under way. *)
Definition initial (s : sys) : Prop :=
  msgs s = [] ∧ reps s = [] ∧
  ∀ x nd, nds s !! x = Some nd →
    instance_h (acc nd) < i ∧ p_n (n_a (acc nd)) = 0 ∧ p_m (my_n (pro nd)) = x ∧ thr nd = [].

Lemma inv_initial s : initial s → inv s.
Proof using Type.
  intros (Hm & Hr & Hn).
  assert (Hp : ∀ x n r, ¬ promised s x n r).
  { intros x n r ((v0 & Hx) & _). rewrite Hr in Hx. by apply elem_of_nil in Hx. }
  assert (Hv : ∀ x n v, ¬ voted s x n v).
  { intros x n v Hx. unfold voted in Hx. rewrite Hr in Hx. by apply elem_of_nil in Hx. }
  assert (Ha : ∀ m, m ∉ msgs s) by (intros m; rewrite Hm; apply not_elem_of_nil).
  split.
  - split; try (intros; exfalso; by eapply Ha); try (intros; exfalso; by eapply Hp).
    + intros x arg r Hx. rewrite Hr in Hx. by apply elem_of_nil in Hx.
    + intros x n v Hx. by destruct (Hv x n v).
  - intros x nd Hx. destruct (Hn x nd Hx) as (H1 & H2 & H3 & H4). split; [|done|..].
    + unfold acc_ok. rewrite decide_True by done. split_and!; [|naive_solver|done].
      intros n r Hq. by destruct (Hp x n r).
    + intros n y v Hy. by destruct (Ha (MAccept y (Acceptarg i n v))).
    + intros k t. by rewrite H4.
Qed.

Lemma inv_step1 l s s' : inv s → orderly l s → step1 l s = Some s' → inv s'.
Proof using Type.
  intros I Ho H. destruct l as [p i' ns' v|p k|j r|p k j|p k|p k]; cbn in Ho, H.
  - apply bind_Some in H as (nd & Hx & H). destruct Ho as (-> & -> & Hv & Hs). rewrite Hx in Hs.
    destruct (run (n_h (acc nd)) i ns v (pro nd)) as [pr t] eqn:Hr. simplify_eq.
    by eapply inv_start.
  - apply bind_Some in H as (nd & Hx & H). apply bind_Some in H as (t & Ht & H).
    apply bind_Some in H as (m & Hm & H). simplify_eq. by eapply inv_send.
  - apply bind_Some in H as (m & Hm & H). rewrite Hm in Ho.
    apply list_elem_of_lookup_2 in Hm. destruct m as [x arg|x arg|x arg]; cbn in H;
      apply bind_Some in H as (nd & Hx & H).
    + destruct (preparereq arg r (acc nd)) as [res a] eqn:Hp. simplify_eq.
      eapply deliver_prepare; try done. by apply (m_prepare s (proj1 I) x).
    + rewrite Hx in Ho. destruct (acceptreq arg (acc nd)) as [st a] eqn:Hp. simplify_eq.
      by eapply deliver_accept.
    + destruct (decidereq arg (acc nd)) as [[st u] a] eqn:Hp. simplify_eq.
      by eapply deliver_decide.
  - apply bind_Some in H as (nd & Hx & H). apply bind_Some in H as (t & Ht & H).
    apply bind_Some in H as (r & Hr & H). apply bind_Some in H as (c & Hc & H). simplify_eq.
    apply list_elem_of_lookup_2 in Hr. by eapply inv_reply.
  - apply bind_Some in H as (nd & Hx & H). apply bind_Some in H as (t & Ht & H).
    apply bind_Some in H as (c & Hc & H). simplify_eq. by eapply inv_silence.
  - apply bind_Some in H as (nd & Hx & H). apply bind_Some in H as (t & Ht & H).
    destruct t; try done. simplify_eq. by eapply inv_commit.
Qed.

Lemma inv_exec ls s s' : inv s → orderly_run ls s → exec ls s = Some s' → inv s'.
Proof using Type.
  revert s. induction ls as [|l ls IH]; intros s I Ho H; cbn in Ho, H; [by simplify_eq|].
  destruct Ho as [Ho Hos]. apply bind_Some in H as (s1 & H1 & H). rewrite H1 in Hos.
  apply (IH s1); [by eapply inv_step1|done|done].
Qed.

End safety.

(** ** Two schedules that break agreement *)

Definition r0 : prepareres := Prepareres 0 0 (Prop_t 0 []) [].

Definition fresh_node (p : cstring) : node := Node (acceptor0 p []) (new_proposer 0 p) [].

Definition three : sys :=
  Sys (list_to_map ((λ p, (p, fresh_node p)) <$> [$"a"; $"b"; $"c"])) [] [].

(** Thread [k] of [p] makes its current call and gets the reply. *)
Definition round (p : cstring) (k : nat) : list label :=
  [LSend p k; LDeliver 0 r0; LReply p k 0].
(** ... a decide call. *)
Definition round_decide (p : cstring) (k : nat) : list label :=
  [LSend p k; LDeliver 0 r0; LNoReply p k].

Definition committed_values (i : Z) (s : sys) : list (cstring * option cstring) :=
  (λ kv, (fst kv, values (acc (snd kv)) !! i)) <$> map_to_list (nds s).

(** Node [a] prepares at all nodes and stops.  Node [b] prepares with a higher
    number at [a] and [b], gets its value accepted and decided there.  The decision
    resets the highest number the acceptors have seen, and [acceptreq] does not look
    at the instance: the old accept requests of [a] now succeed, and [c] decides the
    value of [a]. *)
Definition late_accept : list label :=
  let ns := [$"a"; $"b"; $"c"] in
  let a := $"a" in let b := $"b" in
  [LStart a 1 ns ($"va")] ++ round a 0 ++ round a 0 ++ round a 0 ++
  [LStart b 1 ns ($"vb")] ++ round b 0 ++ round b 0 ++ [LNoReply b 0] ++
  round b 0 ++ round b 0 ++ round_decide b 0 ++ round_decide b 0 ++
  round a 0 ++ round a 0 ++ round a 0 ++
  round_decide a 0 ++ round_decide a 0 ++ round_decide a 0.

(** Two calls of [run] at the same node: [stable] is never set to [false], so the
    second call is not refused, and it changes [my_n] under the first one.  The
    accept requests the first call still sends carry its own value under the number
    of the second call. *)
Definition overlapping_runs : list label :=
  let ns := [$"a"; $"b"; $"c"] in
  let a := $"a" in
  [LStart a 1 ns ($"va")] ++ round a 0 ++ round a 0 ++ round a 0 ++
  [LStart a 1 ns ($"vx")] ++ round a 1 ++ round a 1 ++ [LNoReply a 1] ++
  round a 1 ++ round a 1 ++ round_decide a 1 ++
  [LNoReply a 0] ++ round a 0 ++ round a 0 ++ round_decide a 0 ++ round_decide a 0.

(** C1. Agreement: in every orderly run, any two nodes that have decided instance
    [i] have decided the same value, whatever messages are lost, delayed, reordered
    or duplicated and however many proposers compete. *)
Theorem agreement i ns ls s s' x y v w :
  initial i s → orderly_run i ns ls s → exec ls s = Some s' →
  decided i x v s' → decided i y w s' → v = w.
Proof.
  intros Hi Ho He. apply (inv_agreement i ns).
  by apply (inv_exec i ns ls s); [apply inv_initial|..].
Qed.

(** Node [a] gets its value accepted by itself only; node [b] then finds it in
    the replies to its own prepare requests and has it decided everywhere. *)
Definition takeover : list label :=
  let ns := [$"a"; $"b"; $"c"] in
  let a := $"a" in let b := $"b" in
  [LStart a 1 ns ($"va")] ++ round a 0 ++ round a 0 ++ round a 0 ++
  round a 0 ++ [LNoReply a 0; LNoReply a 0] ++
  [LStart b 1 ns ($"vb")] ++ round b 0 ++ round b 0 ++ round b 0 ++
  round b 0 ++ round b 0 ++ round b 0 ++
  round_decide b 0 ++ round_decide b 0 ++ round_decide b 0.

#[export] Instance terminal_dec t : Decision (terminal t).
Proof. destruct t; apply _. Defined.
#[export] Instance may_start_dec nd : Decision (may_start nd).
Proof. unfold may_start. apply _. Defined.
#[export] Instance orderly_dec i ns l s : Decision (orderly i ns l s).
Proof.
  destruct l as [p i' ns' v|p k|j r|p k j|p k|p k]; cbn; try apply _.
  - destruct (nds s !! p); apply _.
  - destruct (msgs s !! j) as [[x arg|x arg|x arg]|]; try apply _.
    destruct (nds s !! x); apply _.
Defined.
#[export] Instance orderly_run_dec i ns ls : ∀ s, Decision (orderly_run i ns ls s).
Proof.
  induction ls as [|l ls IH]; intros s; cbn; [apply _|].
  apply and_dec; [apply _|]. destruct (step1 l s) as [s'|]; [apply IH|apply _].
Defined.

Lemma decided_compute i p v s :
  match nds s !! p with
  | Some nd => bool_decide (i <= instance_h (acc nd) ∧ values (acc nd) !! i = Some v)
  | None => false
  end = true → decided i p v s.
Proof.
  unfold decided. destruct (nds s !! p) as [nd|]; [|done].
  intros [? ?]%bool_decide_eq_true. eauto.
Qed.

Lemma three_initial : initial 1 three.
Proof.
  split; [done|]. split; [done|]. intros x nd Hx.
  apply elem_of_list_to_map_2, list_elem_of_fmap in Hx as (p & [= -> ->] & _). done.
Qed.

Lemma agreement_witness :
  ∃ s', exec takeover three = Some s' ∧ orderly_run 1 [$"a"; $"b"; $"c"] takeover three ∧
    decided 1 ($"a") ($"va") s' ∧ ∀ w, decided 1 ($"c") w s' → $"va" = w.
Proof.
  destruct (exec takeover three) as [s'|] eqn:E; [|vm_compute in E; discriminate].
  assert (Ho : orderly_run 1 [$"a"; $"b"; $"c"] takeover three)
    by (apply (bool_decide_unpack _); vm_compute; exact I).
  assert (Ha : decided 1 ($"a") ($"va") s').
  { apply decided_compute. vm_compute in E. injection E as <-. vm_compute. reflexivity. }
  exists s'. split; [reflexivity|]. split; [exact Ho|]. split; [exact Ha|]. intros w Hw.
  apply (agreement 1 [$"a"; $"b"; $"c"] takeover three s' ($"a") ($"c") ($"va") w);
    [exact three_initial|exact Ho|exact E|exact Ha|exact Hw].
Defined.


(** Nor with two overlapping runs at one node, although then every accept
    request reaches an undecided acceptor. *)
Theorem overlapping_runs_disagree :
  ∃ s', exec overlapping_runs three = Some s' ∧
    decided 1 ($"a") ($"vx") s' ∧ decided 1 ($"c") ($"va") s'.
Proof.
  destruct (exec overlapping_runs three) as [s'|] eqn:E; [|vm_compute in E; discriminate].
  exists s'. split; [done|]. vm_compute in E. injection E as <-.
  split; apply decided_compute; vm_compute; reflexivity.
Qed.
