(* ===== verification/Config.v ===== *)
(** * Views

    config.h and config.cc: the current view of a node, the text form of a view
    that Paxos agrees on, the upcall that installs a view, the proposals to add
    and remove a member, and the heartbeats. *)

From S2P Require Import Prelude.
From S2P Require Import Marshall.
From S2P Require Import Protocol.
From S2P Require Import Streams.
From S2P Require Import Log.
From S2P Require Import Paxos.
From S2P Require Import Recovery.

(** ** Text form of a view *)

(** [while (ist >> m) view.push_back(m);] *)
Fixpoint members_loop (fuel : nat) (ist : istream) (m : cstring) (view : list cstring)
    : list cstring :=
  match fuel with
  | O => view
  | S fuel =>
      let '(m, ist) := read_word m ist in
      if is_fail ist then view else members_loop fuel ist m (view ++ [m])
  end.

Definition members (v : cstring) : list cstring :=
  members_loop (S (length v)) (is_open v) [] [].

Fixpoint view_value (m : list cstring) : cstring :=
  match m with
  | [] => []
  | x :: m => x ++ $" " ++ view_value m
  end.

(** ** State

    [deleted] records the calls of [mgr.delete_handle]; [view_changes] those of
    [vc->commit_change_wo]. *)

Record config := Config {
  myvid : Z; cfg_me : cstring; mems : list cstring; cfg_acc : acceptor; cfg_pro : proposer;
  deleted : list cstring; view_changes : nat;
}.

Definition set_view (v : Z) (m : list cstring) (c : config) : config :=
  Config v (cfg_me c) m (cfg_acc c) (cfg_pro c) (deleted c) (view_changes c).
Definition set_cfg_acc (a : acceptor) (c : config) : config :=
  Config (myvid c) (cfg_me c) (mems c) a (cfg_pro c) (deleted c) (view_changes c).
Definition delete_handle (m : cstring) (c : config) : config :=
  Config (myvid c) (cfg_me c) (mems c) (cfg_acc c) (cfg_pro c) (deleted c ++ [m]) (view_changes c).
Definition commit_change_wo (c : config) : config :=
  Config (myvid c) (cfg_me c) (mems c) (cfg_acc c) (cfg_pro c) (deleted c) (S (view_changes c)).

Definition get_view (instance : Z) (c : config) : list cstring * config :=
  let '(v, a) := value instance (cfg_acc c) in (members v, set_cfg_acc a c).

Definition reconstruct (c : config) : config :=
  if instance_h (cfg_acc c) >? 0 then
    let vid := instance_h (cfg_acc c) in
    let '(m, c) := get_view vid c in set_view vid m c
  else c.

(** The constructor: the acceptor reads its log, then the view is rebuilt. *)
Definition new_config (uninit uninit_n : Z) (first me file : cstring) : option config :=
  match new_acceptor uninit (bool_decide (me = first)) me me file with
  | LogOk a => Some (reconstruct (Config 0 me [] a (new_proposer uninit_n me) [] 0))
  | _ => None
  end.

Definition cfg_restore (uninit : Z) (s : cstring) (c : config) : option config :=
  match restore uninit s (cfg_acc c) with
  | LogOk a => Some (reconstruct (set_cfg_acc a c))
  | _ => None
  end.

(** The upcall of the acceptor. *)
Definition paxos_commit (instance : Z) (v : cstring) (c : config) : config :=
  let newmem := members v in
  let c := foldl (λ c m, if negb (isamember m newmem) && negb (bool_decide (cfg_me c = m))
                         then delete_handle m c else c) c (mems c) in
  let c := set_view instance newmem c in
  commit_change_wo c.

Definition ismember (m : cstring) (c : config) : bool := isamember m (mems c).
Definition get_curview (c : config) : list cstring * config := get_view (myvid c) c.
Definition get_prevview (c : config) : list cstring * config := get_view (u32 (myvid c - 1)) c.

(** [add] and [remove_wo]: the proposal, as the code of [proposer::run]. *)
Definition add (new_m : cstring) (c : config) : code :=
  let m := mems c ++ [new_m] in
  run (n_h (cfg_acc c)) (u32 (myvid c + 1)) (mems c) (view_value m).

Definition remove_wo (m : cstring) (c : config) : code :=
  let n := filter (λ x, x ≠ m) (mems c) in
  run (n_h (cfg_acc c)) (u32 (myvid c + 1)) (mems c) (view_value n).

(** ** Heartbeats *)

Inductive heartbeat_t := HB_OK | VIEWERR | FAILURE.

#[export] Instance heartbeat_t_eq_dec : EqDecision heartbeat_t.
Proof. solve_decision. Defined.

(** The handler: [None] is a failed assertion; the reply carries [myvid]. *)
Definition heartbeat (vid : Z) (c : config) : option (Z * Z) :=
  let r := s32 (myvid c) in
  if vid =? myvid c then Some (paxos_OK, r)
  else if isrunning (cfg_pro c) then
    if (vid =? u32 (myvid c + 1)) || (u32 (vid + 1) =? myvid c) then Some (paxos_OK, r) else None
  else Some (paxos_ERR, r).

Definition timeout_failure : Z := -1.
Definition atmostonce_failure : Z := -4.
Definition oldsrv_failure : Z := -5.

(** A remote heartbeat call: what it returns, [None] when no handle can be bound,
    and the state after it, since the mutex is free during the call. *)
Abbreviation hb_call := (cstring → config → option Z * config).

Definition doheartbeat (call : hb_call) (m : cstring) (c : config) : heartbeat_t * config :=
  let '(reply, c) := call m c in
  let ret := default timeout_failure reply in
  if negb (ret =? paxos_OK) then
    if (ret =? atmostonce_failure) || (ret =? oldsrv_failure) then (HB_OK, delete_handle m c)
    else if ret <? 0 then (FAILURE, c) else (VIEWERR, c)
  else (HB_OK, c).

(** [m = me; for (...) if (m > mems[i]) m = mems[i];] *)
Definition smallest (me : cstring) (l : list cstring) : cstring :=
  foldl (λ m x, if str_ltb x m then x else m) me l.

(** The outcome of one round: the member to remove, if any; [HBad] is an access
    beyond the end of [mems]. *)
Inductive hb_round := HBKeep | HBRemove (m : cstring) | HBBad.

(** [for (i = 0; i < mems.size(); i++)]: [mems] is read at each iteration, and
    again for the member to remove after its call. *)
Fixpoint ping_loop (fuel : nat) (call : hb_call) (i : nat) (c : config) : hb_round * config :=
  match fuel with
  | O => (HBKeep, c)
  | S fuel =>
      match mems c !! i with
      | None => (HBKeep, c)
      | Some x =>
          if bool_decide (x = cfg_me c) then ping_loop fuel call (S i) c else
          let '(h, c) := doheartbeat call x c in
          if decide (h = HB_OK) then ping_loop fuel call (S i) c
          else match mems c !! i with Some m => (HBRemove m, c) | None => (HBBad, c) end
      end
  end.

(** One round of [heartbeater]; one unit of fuel per member and one for the end of
    the loop, when the calls leave the view alone. *)
Definition heartbeater_round (call : hb_call) (c : config) : hb_round * config :=
  if negb (isamember (cfg_me c) (mems c)) then (HBKeep, c) else
  let m := smallest (cfg_me c) (mems c) in
  if bool_decide (m = cfg_me c) then ping_loop (S (length (mems c))) call 0 c
  else
    let '(h, c) := doheartbeat call m c in
    if decide (h = HB_OK) then (HBKeep, c) else (HBRemove m, c).

(** ** The text form round trips *)

Lemma members_loop_eq fuel l w view :
  Forall name_ok l → (length l < fuel)%nat →
  members_loop fuel (is_open (view_value l)) w view = view ++ l ∧
  members_loop fuel (is_open (" "%char :: view_value l)) w view = view ++ l.
Proof.
  intros Hl. revert fuel w view. induction Hl as [|x l [Hx Hs] _ IH]; intros [|fuel] w view Hf;
    cbn in Hf; try lia.
  - cbn. by rewrite app_nil_r.
  - destruct (IH fuel x (view ++ [x])) as [_ IH2]; [lia|].
    cbn [members_loop view_value]. change ($" " ++ view_value l) with (" "%char :: view_value l).
    rewrite read_word_eq, read_word_ws by done. cbn [is_fail is_open].
    rewrite IH2. rewrite <- (assoc_L (++)). done.
Qed.

Lemma view_value_length l : (length l ≤ length (view_value l))%nat.
Proof. induction l as [|x l IH]; cbn; [done|]. rewrite !length_app. cbn. lia. Qed.

Lemma view_value_line l : Forall name_ok l → no_newline (view_value l).
Proof.
  induction 1 as [|x l [Hx Hs] _ IH]; cbn; [constructor|].
  apply no_newline_app; [by apply no_space_no_newline|]. by constructor.
Qed.

(** A view survives the trip through Paxos: parsing the text form of a list of
    node names gives the list back, and the text is one line, as the log needs. *)
Theorem members_value l :
  Forall name_ok l → members (view_value l) = l ∧ no_newline (view_value l).
Proof.
  intros Hl. split; [|by apply view_value_line]. unfold members.
  destruct (members_loop_eq (S (length (view_value l))) l [] [] Hl) as [H _]; [|done].
  pose proof (view_value_length l). lia.
Qed.

Lemma members_value_witness :
  members (view_value [$"127.0.0.1:4001"; $"127.0.0.1:4003"]) =
    [$"127.0.0.1:4001"; $"127.0.0.1:4003"] ∧
  no_newline (view_value [$"127.0.0.1:4001"; $"127.0.0.1:4003"]).
Proof.
  apply (members_value [$"127.0.0.1:4001"; $"127.0.0.1:4003"]).
  repeat constructor; try discriminate; apply (bool_decide_unpack _); vm_compute; exact I.
Defined.

(** ** Installing a view *)

Lemma paxos_commit_fields i v c :
  mems (paxos_commit i v c) = members v ∧ myvid (paxos_commit i v c) = i ∧
  cfg_acc (paxos_commit i v c) = cfg_acc c ∧ cfg_me (paxos_commit i v c) = cfg_me c ∧
  view_changes (paxos_commit i v c) = S (view_changes c) ∧
  deleted (paxos_commit i v c) =
    deleted c ++ filter (λ m, m ∉ members v ∧ m ≠ cfg_me c) (mems c).
Proof.
  unfold paxos_commit.
  set (f := λ (c : config) m, if negb (isamember m (members v)) && negb (bool_decide (cfg_me c = m))
                         then delete_handle m c else c).
  assert (Hf : ∀ l c, cfg_acc (foldl f c l) = cfg_acc c ∧ cfg_me (foldl f c l) = cfg_me c ∧
    view_changes (foldl f c l) = view_changes c ∧
    deleted (foldl f c l) = deleted c ++ filter (λ m, m ∉ members v ∧ m ≠ cfg_me c) l).
  { clear c. induction l as [|m l IH]; intros c; cbn [foldl]; [by rewrite app_nil_r|].
    destruct (IH (f c m)) as (H1 & H2 & H3 & H4). rewrite H1, H2, H3, H4, filter_cons.
    unfold f. rewrite isamember_spec.
    case_bool_decide as E1; [|case_bool_decide as E2]; cbn [negb andb].
    - rewrite decide_False by (by intros [? _]). done.
    - rewrite decide_False by (intros [_ ?]; congruence). done.
    - rewrite decide_True by (split; congruence). cbn. by rewrite <- (assoc_L (++)). }
  destruct (Hf (mems c) c) as (H1 & H2 & H3 & H4). cbn. rewrite H1, H2, H3, H4. done.
Qed.

(** When the acceptor decides an instance and calls [paxos_commit], the node
    moves to that view: [myvid] is the instance, the members are those of the decided
    value, [get_curview] reads the same members back from the acceptor, and exactly
    the handles of the nodes that left (other than the node itself) are dropped. *)
Theorem view_installed i v c u a c' :
  commit_wo i v (cfg_acc c) = (u, a) → instance_h (cfg_acc c) < i →
  c' = foldl (λ c iv, paxos_commit (fst iv) (snd iv) c) (set_cfg_acc a c) u →
  myvid c' = i ∧ mems c' = members v ∧ fst (get_curview c') = members v ∧
  view_changes c' = S (view_changes c) ∧
  deleted c' = deleted c ++ filter (λ m, m ∉ members v ∧ m ≠ cfg_me c) (mems c).
Proof.
  intros Hc Hi ->. assert (u = [(i, v)] ∧ map_at [] i (values a) = v) as [-> Hv].
  { unfold commit_wo in Hc. rewrite Z.gtb_ltb in Hc.
    destruct (Z.ltb_spec (instance_h (cfg_acc c)) i); [|lia]. simplify_eq.
    split; [done|]. cbn. by rewrite map_at_insert, decide_True. }
  cbn [foldl fst snd].
  destruct (paxos_commit_fields i v (set_cfg_acc a c)) as (H1 & H2 & H3 & _ & H5 & H6).
  split; [exact H2|]. split; [exact H1|]. split; [|split; [exact H5|exact H6]].
  unfold get_curview, get_view. rewrite H2, H3. cbn [value fst cfg_acc set_cfg_acc]. by rewrite Hv.
Qed.

Definition demo_config : config :=
  Config 1 ($"a") [$"a"] (acceptor0 ($"a") []) (new_proposer 0 ($"a")) [] 0.

Lemma view_installed_witness :
  ∃ c', myvid c' = 2 ∧ mems c' = [$"a"; $"b"] ∧ fst (get_curview c') = [$"a"; $"b"] ∧
    view_changes c' = 1%nat.
Proof.
  destruct (view_installed 2 ($"a b ") demo_config _ _ _ eq_refl eq_refl eq_refl)
    as (H1 & H2 & H3 & H4 & _).
  eexists. split; [exact H1|]. split; [exact H2|]. split; [exact H3|exact H4].
Defined.

(** ** Restart: the view is rebuilt from the log *)

(** A node that restarts on the log of an acceptor in instance [i] comes up
    in view [i] with the members of the value decided there. *)
Theorem restart_view uninit uninit_n first me a i v :
  durable a → acc_me a = me → 1 <= i → instance_h a = i → values a !! i = Some v →
  ∃ c, new_config uninit uninit_n first me (logf a) = Some c ∧
    myvid c = i ∧ mems c = members v ∧ fst (get_curview c) = members v.
Proof.
  intros D <- Hi Hia Hv. unfold new_config.
  destruct (restart_equiv uninit (bool_decide (acc_me a = first)) (acc_me a) a D) as (b & -> & E & _);
    [intros _; lia|].
  eexists. split; [done|]. unfold reconstruct. cbn [cfg_acc].
  rewrite (eq_instance_h _ _ E), Hia, Z.gtb_ltb. destruct (Z.ltb_spec 0 i); [|lia].
  unfold get_view. cbn [value]. cbn.
  rewrite map_touch_at, (eq_values _ _ E), (map_at_some _ _ _ _ Hv). done.
Qed.

Lemma restart_view_witness :
  let a := Acceptor ($"a") (Prop_t 0 ($"a")) (Prop_t 0 ($"a")) [] 1 {[1 := $"a"]}
             (render_all [RDone 1 ($"a")]) in
  ∃ c, new_config 0 0 ($"a") ($"a") (logf a) = Some c ∧
    myvid c = 1 ∧ mems c = members ($"a") ∧ fst (get_curview c) = members ($"a").
Proof.
  intros a. apply (restart_view 0 0 ($"a") ($"a") a 1 ($"a")); [|reflexivity|lia|reflexivity|reflexivity].
  exists [RDone 1 ($"a")]. split; [reflexivity|]. split; [|by split].
  constructor; [|constructor]. split; [unfold_int; lia|].
  apply (bool_decide_unpack _). vm_compute. exact I.
Defined.

(** ** The proposer never reports that it is running *)

Inductive stays : act → Prop :=
  | stays_return r : stays (Return r)
  | stays_exit : stays Exit
  | stays_prepare d a k :
      (∀ r p, stable p = true → stable (fst (k r p)) = true ∧ stays (snd (k r p))) →
      stays (CallPrepare d a k)
  | stays_accept d a k :
      (∀ r p, stable p = true → stable (fst (k r p)) = true ∧ stays (snd (k r p))) →
      stays (CallAccept d a k)
  | stays_decide d a k :
      (∀ p, stable p = true → stable (fst (k p)) = true ∧ stays (snd (k p))) →
      stays (CallDecide d a k)
  | stays_commit i v k :
      (∀ p, stable p = true → stable (fst (k p)) = true ∧ stays (snd (k p))) →
      stays (CallCommit i v k).

Definition stays_code (c : code) : Prop :=
  ∀ p, stable p = true → stable (fst (c p)) = true ∧ stays (snd (c p)).

Lemma stays_finish r : stays_code (finish r).
Proof. intros p Hp. split; [done|constructor]. Qed.

Lemma stays_decide_ i l v k : stays_code k → stays_code (decide_ i l v k).
Proof.
  intros Hk. induction l as [|x l IH]; intros p Hp; cbn; [by apply Hk|].
  split; [done|]. constructor. apply IH.
Qed.

Lemma stays_accept_ i l acs v k : (∀ acs, stays_code (k acs)) → stays_code (accept i l acs v k).
Proof.
  intros Hk. revert acs. induction l as [|x l IH]; intros acs p Hp; cbn; [by apply Hk|].
  split; [done|]. constructor. intros [] q Hq; by apply IH.
Qed.

Lemma stays_prepare_ i l ph acs v k :
  (∀ b acs v, stays_code (k b acs v)) → stays_code (prepare i l ph acs v k).
Proof.
  intros Hk. revert ph acs v. induction l as [|x l IH]; intros ph acs v p Hp; cbn [prepare]; [by apply Hk|].
  split; [done|]. cbn [snd]. constructor. intros [res|] q Hq; [|by apply IH].
  destruct (pr_oldinstance res =? 1); [|destruct (pr_accept res =? 0)].
  - split; [done|]. constructor. intros p' Hp'. by apply Hk.
  - by apply Hk.
  - destruct (pr_accept res =? 1); [|by apply IH]. destruct (negb _ && _); by apply IH.
Qed.

(** No code path of [proposer::run] clears [stable]: while a run is under way,
    at every call it waits for, [isrunning] is still false. *)
Theorem never_running n_h i nodes v p :
  stable p = true → isrunning (fst (run n_h i nodes v p)) = false ∧ stays (snd (run n_h i nodes v p)).
Proof.
  intros Hp. unfold run, isrunning. rewrite Hp. cbn [negb].
  set (p1 := setn _ _). destruct (stays_prepare_ i (c_nodes p1) (Prop_t 0 []) [] [] (run_prepared i))
    with p1 as [H1 H2].
  - intros b acs w q Hq. unfold run_prepared. destruct b; [|by apply stays_finish].
    destruct (majority _ _); [|by apply stays_finish]. destruct (break1 q); [split; [done|constructor]|].
    apply stays_accept_; [|done]. intros acs' q' Hq'. unfold run_accepted.
    destruct (majority _ _); [|by apply stays_finish]. destruct (break2 q'); [split; [done|constructor]|].
    apply stays_decide_; [apply stays_finish|done].
  - done.
  - by rewrite H1.
Qed.

Lemma never_running_witness :
  isrunning (fst (run (Prop_t 0 []) 2 [$"a"; $"b"] ($"a b ") (new_proposer 0 ($"a")))) = false ∧
  stays (snd (run (Prop_t 0 []) 2 [$"a"; $"b"] ($"a b ") (new_proposer 0 ($"a")))).
Proof. apply never_running. reflexivity. Defined.

(** ** Heartbeats *)

(** Calls that leave the configuration alone. *)
Definition quiet (call : hb_call) : Prop := ∀ m c, snd (call m c) = c.

Definition failed (call : hb_call) (m : cstring) : Prop :=
  ∃ c, fst (doheartbeat call m c) ≠ HB_OK.

Lemma doheartbeat_quiet call m c :
  quiet call → mems (snd (doheartbeat call m c)) = mems c ∧ cfg_me (snd (doheartbeat call m c)) = cfg_me c.
Proof.
  intros Hq. unfold doheartbeat. pose proof (Hq m c) as H. destruct (call m c) as [r c']. cbn in H. subst c'.
  destruct (negb _); [|done]. destruct (_ || _); [done|]. by destruct (_ <? 0).
Qed.

Lemma smallest_spec me l : smallest me l = me ∨ smallest me l ∈ l.
Proof.
  unfold smallest. revert me. induction l as [|x l IH]; intros me; cbn; [by left|].
  destruct (str_ltb x me).
  - destruct (IH x) as [->|?]; right; by constructor.
  - destruct (IH me) as [->|?]; [by left|right; by constructor].
Qed.

Lemma ping_loop_spec fuel call i c :
  quiet call → (length (mems c) < i + fuel)%nat →
  match fst (ping_loop fuel call i c) with
  | HBRemove m => m ∈ mems c ∧ m ≠ cfg_me c ∧ failed call m
  | HBBad => False
  | HBKeep => ∀ j x, (i ≤ j)%nat → mems c !! j = Some x → x ≠ cfg_me c →
      ∃ c', fst (doheartbeat call x c') = HB_OK
  end.
Proof.
  intros Hq. revert i c. induction fuel as [|fuel IH]; intros i c Hf; cbn [ping_loop].
  { cbn. intros j x Hj Hx. apply lookup_lt_Some in Hx. lia. }
  destruct (mems c !! i) as [x|] eqn:Hi.
  2: { cbn. intros j y Hj Hy. apply lookup_lt_Some in Hy. apply lookup_ge_None in Hi. lia. }
  case_bool_decide as Hx.
  { specialize (IH (S i) c). destruct (fst (ping_loop fuel call (S i) c)); [|apply IH; lia..].
    intros j y Hj Hy Hne. destruct (decide (j = i)) as [->|]; [congruence|].
    apply (IH ltac:(lia) j y); [lia|done|done]. }
  destruct (doheartbeat_quiet call x c Hq) as [H1 H2].
  destruct (doheartbeat call x c) as [h c'] eqn:Eh. cbn [snd] in *.
  case_decide as Hh.
  - specialize (IH (S i) c'). rewrite H1, H2 in IH.
    destruct (fst (ping_loop fuel call (S i) c')); [|apply IH; lia..].
    intros j y Hj Hy Hne. destruct (decide (j = i)) as [->|].
    + exists c. rewrite Hi in Hy. injection Hy as <-. by rewrite Eh.
    + apply (IH ltac:(lia) j y); [lia|done|done].
  - rewrite H1, Hi. cbn. split; [by eapply list_elem_of_lookup_2|]. split; [done|].
    exists c. by rewrite Eh.
Qed.

(** A round of the heartbeat thread during which the view does not change:
    a member that is to be removed is another node whose heartbeat failed; when the
    node has the smallest name and no member is to be removed, every other member
    answered; a node outside the view removes nobody. *)
Theorem heartbeater_removes_failed call c :
  quiet call →
  match fst (heartbeater_round call c) with
  | HBRemove m => m ∈ mems c ∧ m ≠ cfg_me c ∧ failed call m
  | HBBad => False
  | HBKeep => smallest (cfg_me c) (mems c) = cfg_me c → cfg_me c ∈ mems c →
      ∀ x, x ∈ mems c → x ≠ cfg_me c → ∃ c', fst (doheartbeat call x c') = HB_OK
  end.
Proof.
  intros Hq. unfold heartbeater_round. rewrite isamember_spec.
  case_bool_decide as Hm; cbn [negb]; [|cbn; by intros _ ?].
  case_bool_decide as Hs.
  - pose proof (ping_loop_spec (S (length (mems c))) call 0 c Hq) as H.
    destruct (fst (ping_loop _ call 0 c)); [|apply H; lia..].
    intros _ _ x [j Hx]%list_elem_of_lookup_1 Hne. apply (H ltac:(lia) j); [lia|done|done].
  - destruct (smallest_spec (cfg_me c) (mems c)) as [?|Hin]; [done|].
    destruct (doheartbeat call (smallest (cfg_me c) (mems c)) c) as [h c'] eqn:Eh.
    case_decide; cbn; [intros ?; by destruct Hs|]. split; [done|]. split; [done|]. exists c. by rewrite Eh.
Qed.

Lemma heartbeater_removes_failed_witness :
  let call := λ m c, (if decide (m = $"b") then None else Some 0, c) in
  let c := Config 3 ($"a") [$"a"; $"c"; $"b"] (acceptor0 ($"a") []) (new_proposer 0 ($"a")) [] 0 in
  fst (heartbeater_round call c) = HBRemove ($"b") ∧
  ($"b" ∈ mems c ∧ $"b" ≠ cfg_me c ∧ failed call ($"b")).
Proof.
  intros call c. split; [vm_compute; reflexivity|].
  apply (heartbeater_removes_failed call c). intros m c'. reflexivity.
Defined.

(** When the view changes during the failed call, the member at the same position
    of the new view is the one that is removed, whether or not it answers. *)
Example heartbeater_race :
  let new := Config 4 ($"a") [$"a"; $"d"] (acceptor0 ($"a") []) (new_proposer 0 ($"a")) [] 0 in
  let call := λ m c, if decide (m = $"b") then (None, new) else (Some 0, c) in
  let c := Config 3 ($"a") [$"a"; $"b"; $"d"] (acceptor0 ($"a") []) (new_proposer 0 ($"a")) [] 0 in
  fst (heartbeater_round call c) = HBRemove ($"d").
Proof. vm_compute. reflexivity. Qed.
