(* ===== verification/Rsm.v ===== *)
(** * The replicated state machine

    rsm.h and rsm.cc.  A replica is the record [rsm]: the view stamps, the primary,
    the configuration and the state of the replicated service.  Handlers return
    [None] when they do not return: a failed assertion, or [rsm_mutex] being held
    by a call that left without releasing it.

    The service behind the replication is a parameter: its registered procedures,
    and the pair [marshal_state]/[unmarshal_state] of rsm_state_transfer.h as a
    class. *)

From S2P Require Import Prelude.
From S2P Require Import Marshall.
From S2P Require Import Protocol.
From S2P Require Import Streams.
From S2P Require Import Log.
From S2P Require Import Paxos.
From S2P Require Import Recovery.
From S2P Require Import Config.

(** ** Interfaces *)

(** rsm_state_transfer.h *)
Class StateTransfer (S : Type) := {
  st_marshal : S → option cstring;
  st_unmarshal : cstring → S → option S;
}.

(** What the replication relies on: a replica that is still in the state [st_fresh]
    ends up in a state equivalent to the one the bytes were made from. *)
Class StateTransferOk (S : Type) `{StateTransfer S} := {
  st_wf : S → Prop;
  st_fresh : S → Prop;
  st_equiv : relation S;
  st_transfer a b : st_wf a → st_fresh b →
    ∃ bytes c, st_marshal a = Some bytes ∧ st_unmarshal bytes b = Some c ∧ st_equiv a c;
}.

(** A registered procedure: [int fn(unmarshall &args, marshall &ret)] on the
    service's state. *)
Definition proc (S : Type) := unmarshall → marshall → S → option (Z * marshall * S).

(** The [reg] templates: the wrapper reads the arguments, asserts that nothing is
    left, calls the method and writes its result.  [r0] is the uninitialised result
    variable; the wrapper for five arguments does not read the fifth, which stays
    uninitialised as well. *)
Section reg.
Context {S A1 A2 A3 A4 A5 R : Type}
  `{Wire A1, Wire A2, Wire A3, Wire A4, Wire A5, Wire R}.

Definition call_method (c : option (Z * R * S)) (ret : marshall) : option (Z * marshall * S) :=
  '(b, r, x) ← c; ret ← w_put r ret; Some (b, ret, x).

Definition reg1 (r0 : R) (meth : A1 → R → S → option (Z * R * S)) : proc S := λ args ret x,
  '(a1, args) ← w_get w_def args;
  if okdone args then call_method (meth a1 r0 x) ret else None.

Definition reg2 (r0 : R) (meth : A1 → A2 → R → S → option (Z * R * S)) : proc S := λ args ret x,
  '(a1, args) ← w_get w_def args; '(a2, args) ← w_get w_def args;
  if okdone args then call_method (meth a1 a2 r0 x) ret else None.

Definition reg3 (r0 : R) (meth : A1 → A2 → A3 → R → S → option (Z * R * S)) : proc S :=
  λ args ret x,
  '(a1, args) ← w_get w_def args; '(a2, args) ← w_get w_def args;
  '(a3, args) ← w_get w_def args;
  if okdone args then call_method (meth a1 a2 a3 r0 x) ret else None.

Definition reg4 (r0 : R) (meth : A1 → A2 → A3 → A4 → R → S → option (Z * R * S)) : proc S :=
  λ args ret x,
  '(a1, args) ← w_get w_def args; '(a2, args) ← w_get w_def args;
  '(a3, args) ← w_get w_def args; '(a4, args) ← w_get w_def args;
  if okdone args then call_method (meth a1 a2 a3 a4 r0 x) ret else None.

Definition reg5 (r0 : R) (a5 : A5) (meth : A1 → A2 → A3 → A4 → A5 → R → S → option (Z * R * S))
    : proc S := λ args ret x,
  '(a1, args) ← w_get w_def args; '(a2, args) ← w_get w_def args;
  '(a3, args) ← w_get w_def args; '(a4, args) ← w_get w_def args;
  if okdone args then call_method (meth a1 a2 a3 a4 a5 r0 x) ret else None.
End reg.

Definition rsm_OK : Z := 0.
Definition rsm_ERR : Z := 1.
Definition rsm_NOTPRIMARY : Z := 2.
Definition rsm_BUSY : Z := 3.

Section rsm.
Context {S : Type} (procs : gmap Z (proc S)).

(** ** State *)

(** [reg1]: the handler of a procedure number is replaced. *)
Definition rsm_reg (n : Z) (h : proc S) (ps : gmap Z (proc S)) : gmap Z (proc S) := <[n := h]> ps.

Record rsm := Rsm {
  r_cfg : config;
  r_service : S;
  myvs : viewstamp;
  last_myvs : viewstamp;
  r_primary : cstring;
  inviewchange : bool;
  waiting_for_transfer : list cstring;
  rsm_mutex : bool;               (* held by a call that has returned *)
}.

Definition set_cfg x s := Rsm x (r_service s) (myvs s) (last_myvs s) (r_primary s) (inviewchange s)
  (waiting_for_transfer s) (rsm_mutex s).
Definition set_service x s := Rsm (r_cfg s) x (myvs s) (last_myvs s) (r_primary s) (inviewchange s)
  (waiting_for_transfer s) (rsm_mutex s).
Definition set_vs new old s := Rsm (r_cfg s) (r_service s) new old (r_primary s) (inviewchange s)
  (waiting_for_transfer s) (rsm_mutex s).
Definition set_primary_name x s := Rsm (r_cfg s) (r_service s) (myvs s) (last_myvs s) x
  (inviewchange s) (waiting_for_transfer s) (rsm_mutex s).
Definition set_inviewchange x s := Rsm (r_cfg s) (r_service s) (myvs s) (last_myvs s) (r_primary s) x
  (waiting_for_transfer s) (rsm_mutex s).
Definition set_waiting x s := Rsm (r_cfg s) (r_service s) (myvs s) (last_myvs s) (r_primary s)
  (inviewchange s) x (rsm_mutex s).
Definition set_mutex x s := Rsm (r_cfg s) (r_service s) (myvs s) (last_myvs s) (r_primary s)
  (inviewchange s) (waiting_for_transfer s) x.

Definition myaddr (s : rsm) : cstring := cfg_me (r_cfg s).

(** The constructor. *)
Definition new_rsm (first : cstring) (cfg : config) (service : S) : rsm :=
  Rsm cfg service (Viewstamp 0 1) (Viewstamp (myvid cfg) 0) first false [] false.

(** [pthread_mutex_lock(&rsm_mutex)] at the start of a handler. *)
Definition locked {A} (s : rsm) (k : option A) : option A := if rsm_mutex s then None else k.

Definition curview (s : rsm) : list cstring * rsm :=
  let '(v, c) := get_curview (r_cfg s) in (v, set_cfg c s).
Definition prevview (s : rsm) : list cstring * rsm :=
  let '(v, c) := get_prevview (r_cfg s) in (v, set_cfg c s).

(** ** Executing a request *)

Definition execute (procno : Z) (req : cstring) (x : S) : option (cstring * S) :=
  h ← procs !! procno;
  args ← unmarshall_of_string req;
  '(ret, rep, x) ← h args new_marshall x;
  rep1 ← put_int ret new_marshall;
  reps ← m_str rep;
  rep1 ← put_string reps rep1;
  reps ← m_str rep1;
  Some (reps, x).

(** ** Views *)

(** The first member of the previous view that is in the new one. *)
Fixpoint first_in (p c : list cstring) : option cstring :=
  match p with
  | [] => None
  | x :: p => if isamember x c then Some x else first_in p c
  end.

Definition set_primary (s : rsm) : option rsm :=
  let '(c, s) := curview s in
  let '(p, s) := prevview s in
  if bool_decide (c = []) then None else
  if isamember (r_primary s) c then Some s else
  if bool_decide (p = []) then None else
  x ← first_in p c; Some (set_primary_name x s).

Definition commit_change_wo (s : rsm) : option rsm :=
  let s := set_inviewchange true s in
  s ← set_primary s;
  Some (set_vs (Viewstamp (myvid (r_cfg s)) (seqno (myvs s))) (myvs s) s).

Definition commit_change (s : rsm) : option rsm := locked s (commit_change_wo s).

Definition amiprimary_wo (s : rsm) : bool :=
  bool_decide (r_primary s = myaddr s) && negb (inviewchange s).

Definition amiprimary (s : rsm) : option bool := locked s (Some (amiprimary_wo s)).

(** ** Requests *)

(** The handler at a backup. *)
Definition invoke (procno : Z) (vs : viewstamp) (req : cstring) (s : rsm) : option (Z * rsm) :=
  locked s (
    if negb (vid (myvs s) =? vid vs) || negb (seqno (myvs s) =? u32 (seqno vs - 1)) ||
       negb (ismember (myaddr s) (r_cfg s))
    then Some (rsm_ERR, s)
    else
      '(rep, x) ← execute procno req (r_service s);
      args ← unmarshall_of_string rep;
      '(ret, _) ← get_int args;
      Some (ret, set_vs vs (myvs s) (set_service x s))).

(** How the call to a backup goes: no handle or no connection; the call is made and
    the reply is lost; the call is made and answered. *)
Inductive link := Unreachable | ReplyLost | Reachable.

(** The call of [invoke] at [m]: whether [ret >= 0], and the backups after it. *)
Definition call_invoke (l : link) (procno : Z) (vs : viewstamp) (req m : cstring)
    (bs : gmap cstring rsm) : bool * gmap cstring rsm :=
  match l, bs !! m with
  | Unreachable, _ | _, None => (false, bs)
  | _, Some b =>
      match invoke procno vs req b with
      | None => (false, bs)
      | Some (ret, b) =>
          (match l with Reachable => 0 <=? ret | _ => false end, <[m := b]> bs)
      end
  end.

(** The loop over the members of the view. *)
Fixpoint call_backups (links : cstring → link) (procno : Z) (vs : viewstamp) (req me : cstring)
    (mems : list cstring) (bs : gmap cstring rsm) : bool * gmap cstring rsm :=
  match mems with
  | [] => (true, bs)
  | m :: mems =>
      if bool_decide (m = me) then call_backups links procno vs req me mems bs else
      let '(ok, bs) := call_invoke (links m) procno vs req m bs in
      if ok then call_backups links procno vs req me mems bs else (false, bs)
  end.

(** The handler at the primary: status, reply, its state and the backups. *)
Definition client_invoke (links : cstring → link) (procno : Z) (req r : cstring)
    (s : rsm) (bs : gmap cstring rsm) : option (Z * cstring * rsm * gmap cstring rsm) :=
  if inviewchange s then Some (rsm_BUSY, r, s, bs) else
  primary ← amiprimary s;
  if negb primary then Some (rsm_NOTPRIMARY, r, s, bs) else
  let new_vs := Viewstamp (vid (myvs s)) (u32 (seqno (myvs s) + 1)) in
  let '(mems, s) := curview s in
  let '(ok, bs) := call_backups links procno new_vs req (myaddr s) mems bs in
  if negb ok then Some (rsm_BUSY, r, s, bs) else
  '(r, x) ← execute procno req (r_service s);
  Some (rsm_OK, r, set_vs new_vs (myvs s) (set_service x s), bs).

Definition client_members (s : rsm) : option (Z * list cstring * rsm) :=
  locked s (let '(m, s) := curview s in Some (rsm_OK, m ++ [r_primary s], s)).

(** ** Joining and state transfer *)

Context `{StateTransfer S}.

Definition transferreq (last : viewstamp) (r : transferres) (s : rsm)
    : option (Z * transferres * rsm) :=
  locked s (
    st ← (if vs_neqb last (myvs s) then st_marshal (r_service s) else Some (tr_state r));
    Some (rsm_OK, Transferres st (myvs s), s)).

(** [reply]: the answer of the primary, [None] when the call failed. *)
Definition statetransfer (reply : option transferres) (s : rsm) : option (bool * rsm) :=
  match reply with
  | None => Some (false, s)
  | Some r =>
      x ← (if vs_neqb (myvs s) (tr_last r) then st_unmarshal (tr_state r) (r_service s)
           else Some (r_service s));
      Some (true, set_vs (tr_last r) (myvs s) (set_service x s))
  end.

Fixpoint erase_first (m : cstring) (l : list cstring) : list cstring :=
  match l with
  | [] => []
  | x :: l => if bool_decide (x = m) then l else x :: erase_first m l
  end.

(** The early return leaves [rsm_mutex] locked.  The last component tells whether
    [sync_cond] is signalled. *)
Definition transferdonereq (m : cstring) (s : rsm) : option (Z * rsm * bool) :=
  locked s (
    if negb (inviewchange s) then Some (rsm_ERR, set_mutex true s, false) else
    let s := if bool_decide (waiting_for_transfer s = [])
             then let '(v, s) := curview s in set_waiting v s else s in
    let s := set_waiting (erase_first m (waiting_for_transfer s)) s in
    Some (rsm_OK, s, bool_decide (length (waiting_for_transfer s) = 1%nat))).

(** [add]: what [cfg->add] does to the replica, and its result. *)
Definition joinreq (add : cstring → rsm → (bool * rsm)%type) (m : cstring) (r : joinres) (s : rsm)
    : option (Z * joinres * rsm) :=
  locked s (
    if ismember m (r_cfg s) then Some (rsm_OK, Joinres (log_dump (cfg_acc (r_cfg s))), s)
    else if negb (bool_decide (myaddr s = r_primary s)) then Some (rsm_NOTPRIMARY, r, s)
    else
      let '(ok, s) := add m s in
      if ok then Some (rsm_OK, Joinres (log_dump (cfg_acc (r_cfg s))), s)
      else Some (rsm_ERR, r, s)).

(** [reply]: the answer to [joinreq], [None] when the call failed. *)
Definition join (uninit : Z) (reply : option joinres) (s : rsm) : option (bool * rsm) :=
  match reply with
  | None => Some (false, s)
  | Some r => c ← cfg_restore uninit (jr_log r) (r_cfg s);
              Some (true, set_inviewchange true (set_cfg c s))
  end.

(** [reply]: the status [transferdonereq] answered with, or a negative one when the
    call failed; [None] when there is no connection. *)
Definition statetransferdone (reply : option Z) : bool := bool_decide (reply = Some rsm_OK).

(** One round of the loop of [recovery] that joins the group: [None] is inside the
    result when the node is a member and the loop ends; otherwise whether [join]
    succeeded, after which the node sleeps and tries again or goes on. *)
Definition recovery_join (uninit : Z) (reply : option joinres) (s : rsm)
    : option (option bool * rsm) :=
  if ismember (myaddr s) (r_cfg s) then Some (None, s)
  else '(ok, s) ← join uninit reply s; Some (Some ok, s).

(** The rest of a round of [recovery], at a member of the view: [xfer] and [done] are
    the answers to the calls to the primary, [r] the loop's variable.  [Waiting] is
    the wait at [sync_cond]. *)
Inductive recovery_result := Waiting | Slept (r : bool) (s : rsm).

Definition recovery_round (xfer : option transferres) (done : option Z) (r : bool) (s : rsm)
    : option recovery_result :=
  rs ← (if inviewchange s && negb (bool_decide (r_primary s = myaddr s)) then
          rs ← statetransfer xfer s; Some (if fst rs : bool then statetransferdone done else false, snd rs)
        else Some (r, s));
  let '(r, s) := (rs : bool * rsm) in
  if inviewchange s && bool_decide (r_primary s = myaddr s) then
    if bool_decide (length (waiting_for_transfer s) = 1%nat) then
      let s := set_waiting [] s in
      Some (Slept true (set_inviewchange false s))
    else Some Waiting
  else Some (Slept r (if r then set_inviewchange false s else s)).

End rsm.

Arguments rsm S : clear implicits.

(** ** The primary of a view *)

Section views.
Context {S : Type}.
Implicit Types s : rsm S.

Definition cur s : list cstring := members (map_at [] (myvid (r_cfg s)) (values (cfg_acc (r_cfg s)))).
Definition prev s : list cstring :=
  members (map_at [] (u32 (myvid (r_cfg s) - 1)) (values (cfg_acc (r_cfg s)))).

(** Reading a view changes nothing that is observed later. *)
Definition same_but_cfg s s' : Prop :=
  cur s' = cur s ∧ prev s' = prev s ∧ r_service s' = r_service s ∧ myvs s' = myvs s ∧
  last_myvs s' = last_myvs s ∧ r_primary s' = r_primary s ∧ inviewchange s' = inviewchange s ∧
  waiting_for_transfer s' = waiting_for_transfer s ∧ rsm_mutex s' = rsm_mutex s ∧
  myaddr s' = myaddr s ∧ mems (r_cfg s') = mems (r_cfg s) ∧ myvid (r_cfg s') = myvid (r_cfg s).

Lemma curview_eq s : fst (curview s) = cur s ∧ same_but_cfg s (snd (curview s)).
Proof.
  unfold curview, get_curview, get_view, value. cbn. split; [done|].
  unfold same_but_cfg, cur, prev. cbn. rewrite !map_touch_at. done.
Qed.

Lemma prevview_eq s : fst (prevview s) = prev s ∧ same_but_cfg s (snd (prevview s)).
Proof.
  unfold prevview, get_prevview, get_view, value. cbn. split; [done|].
  unfold same_but_cfg, cur, prev. cbn. rewrite !map_touch_at. done.
Qed.

Lemma first_in_spec p c :
  match first_in p c with
  | Some x => x ∈ p ∧ x ∈ c
  | None => ∀ x, x ∈ p → x ∉ c
  end.
Proof.
  induction p as [|y p IH]; cbn; [intros x Hx; by apply elem_of_nil in Hx|].
  rewrite isamember_spec. case_bool_decide as Hy; [split; [constructor|done]|].
  destruct (first_in p c) as [x|].
  - destruct IH. split; [by constructor|done].
  - intros x [->|?]%elem_of_cons; [done|auto].
Qed.

(** The primary after a view change is a member of the new view; it is the
    old primary when that is still a member, and otherwise a member of the previous
    view.  The assertion fails exactly when the new view is empty or has no member
    in common with the old primary and the previous view. *)
Theorem set_primary_spec s :
  match set_primary s with
  | Some s' =>
      r_primary s' ∈ cur s ∧ (r_primary s ∈ cur s → r_primary s' = r_primary s) ∧
      (r_primary s ∉ cur s → r_primary s' ∈ prev s) ∧
      r_service s' = r_service s ∧ myvs s' = myvs s
  | None => r_primary s ∉ cur s ∧ ∀ x, x ∈ prev s → x ∉ cur s
  end.
Proof.
  unfold set_primary. destruct (curview_eq s) as [Hc C]. destruct (curview s) as [c s1].
  cbn [fst snd] in *. destruct C as (C1 & C2 & C3 & C4 & _ & C6 & _).
  destruct (prevview_eq s1) as [Hp P]. destruct (prevview s1) as [p s2].
  cbn [fst snd] in *. destruct P as (P1 & P2 & P3 & P4 & _ & P6 & _).
  rewrite <- Hc, <- C2, <- Hp, isamember_spec, P6, C6.
  case_bool_decide as Ec; [subst c; rewrite Ec; split; [apply not_elem_of_nil|intros; apply not_elem_of_nil]|].
  case_bool_decide as Em; [rewrite P6, C6, P3, C3, P4, C4; done|].
  case_bool_decide as Ep; [rewrite Ep; split; [done|intros x Hx; by apply elem_of_nil in Hx]|].
  pose proof (first_in_spec p c) as Hf. destruct (first_in p c) as [x|]; cbn.
  - destruct Hf. rewrite P3, C3, P4, C4. done.
  - done.
Qed.
End views.

(** ** Replication *)

Section replication.
Context {S : Type} (procs : gmap Z (proc S)).
Implicit Types s b : rsm S.

(** The status a reply of [execute] starts with. *)
Definition reply_status (rep : cstring) : option Z :=
  args ← unmarshall_of_string rep; '(ret, _) ← get_int args; Some ret.

(** A backup with this view stamp and state, ready for requests. *)
Definition at_state (vs : viewstamp) (x : S) b : Prop :=
  r_service b = x ∧ myvs b = vs ∧ rsm_mutex b = false ∧ ismember (myaddr b) (r_cfg b) = true.

Definition next_vs (vs : viewstamp) : viewstamp := Viewstamp (vid vs) (u32 (seqno vs + 1)).

Definition insync s (bs : gmap cstring (rsm S)) : Prop :=
  inviewchange s = false ∧ r_primary s = myaddr s ∧ rsm_mutex s = false ∧ is_u32 (seqno (myvs s)) ∧
  ∀ m, m ∈ cur s → m ≠ myaddr s → ∃ b, bs !! m = Some b ∧ at_state (myvs s) (r_service s) b.

Lemma next_vs_pred vs : is_u32 (seqno vs) → u32 (seqno (next_vs vs) - 1) = seqno vs.
Proof.
  intros H. unfold next_vs. cbn. unfold_int. rewrite Zminus_mod_idemp_l.
  replace (seqno vs + 1 - 1) with (seqno vs) by lia. by apply Z.mod_small.
Qed.

Lemma next_vs_ne vs : is_u32 (seqno vs) → seqno (next_vs vs) ≠ u32 (seqno (next_vs vs) - 1).
Proof.
  intros H. rewrite next_vs_pred by done. unfold next_vs. cbn. unfold_int.
  destruct (decide (seqno vs + 1 = 2 ^ 32)) as [E|].
  - rewrite E, Z_mod_same_full. lia.
  - rewrite Z.mod_small by lia. lia.
Qed.

Lemma invoke_old vs x b procno req rep x' ret :
  is_u32 (seqno vs) → at_state vs x b →
  execute procs procno req x = Some (rep, x') → reply_status rep = Some ret →
  ∃ b', invoke procs procno (next_vs vs) req b = Some (ret, b') ∧ at_state (next_vs vs) x' b'.
Proof.
  intros Hvs (H1 & H2 & H3 & H4) He Hr. unfold invoke, locked. rewrite H3, H2, H4, next_vs_pred by done.
  cbn [vid next_vs]. rewrite !Z.eqb_refl. cbn [negb orb]. rewrite H1, He. cbn [mbind option_bind].
  unfold reply_status in Hr. apply bind_Some in Hr as (args & -> & Hr). cbn [mbind option_bind].
  apply bind_Some in Hr as ([ret' u] & -> & [= ->]). cbn [mbind option_bind].
  eexists. split; [done|]. by split_and!.
Qed.

Lemma invoke_new vs x b procno req :
  is_u32 (seqno vs) → at_state (next_vs vs) x b →
  invoke procs procno (next_vs vs) req b = Some (rsm_ERR, b).
Proof.
  intros Hvs (H1 & H2 & H3 & H4). unfold invoke, locked. rewrite H3, H2.
  rewrite (proj2 (Z.eqb_neq _ _) (next_vs_ne vs Hvs)). cbn [negb]. by rewrite orb_true_r.
Qed.

(** Every backup is at the old state or has executed the request. *)
Definition old_or_new (vs : viewstamp) (x x' : S) b : Prop :=
  at_state vs x b ∨ at_state (next_vs vs) x' b.

Lemma call_invoke_spec l vs x procno req rep x' ret m bs b :
  is_u32 (seqno vs) → execute procs procno req x = Some (rep, x') →
  reply_status rep = Some ret → 0 <= ret → bs !! m = Some b → old_or_new vs x x' b →
  ∃ b' ok, call_invoke procs l procno (next_vs vs) req m bs = (ok, <[m := b']> bs) ∧
    old_or_new vs x x' b' ∧ (at_state (next_vs vs) x' b → at_state (next_vs vs) x' b') ∧
    (l = Reachable → ok = true ∧ at_state (next_vs vs) x' b').
Proof.
  intros Hvs He Hr Hret Hb Hon. unfold call_invoke. rewrite Hb.
  assert (Hi : ∃ r b', invoke procs procno (next_vs vs) req b = Some (r, b') ∧ 0 <= r ∧
    at_state (next_vs vs) x' b').
  { destruct Hon as [Ho|Hn].
    - destruct (invoke_old vs x b procno req rep x' ret Hvs Ho He Hr) as (b' & -> & ?). eauto.
    - rewrite (invoke_new vs x' b) by done. exists rsm_ERR, b. unfold rsm_ERR. split_and!; [done|lia|done]. }
  destruct Hi as (r & b' & -> & Hr0 & Hn). destruct l.
  - exists b, false. rewrite insert_id by done. split_and!; done.
  - exists b', false. split_and!; try done. by right.
  - exists b', true. rewrite (proj2 (Z.leb_le 0 r)) by done. split_and!; try done. by right.
Qed.

Lemma call_backups_spec links vs x procno req rep x' ret me mems bs :
  is_u32 (seqno vs) → execute procs procno req x = Some (rep, x') →
  reply_status rep = Some ret → 0 <= ret →
  (∀ m, m ∈ mems → m ≠ me → ∃ b, bs !! m = Some b ∧ old_or_new vs x x' b) →
  ∃ ok bs', call_backups procs links procno (next_vs vs) req me mems bs = (ok, bs') ∧
    (∀ m b, bs !! m = Some b → old_or_new vs x x' b → ∃ b', bs' !! m = Some b' ∧ old_or_new vs x x' b') ∧
    (∀ m b, bs !! m = Some b → at_state (next_vs vs) x' b →
       ∃ b', bs' !! m = Some b' ∧ at_state (next_vs vs) x' b') ∧
    ((∀ m, links m = Reachable) → ok = true ∧
       ∀ m, m ∈ mems → m ≠ me → ∃ b', bs' !! m = Some b' ∧ at_state (next_vs vs) x' b').
Proof.
  intros Hvs He Hr Hret. revert bs. induction mems as [|m mems IH]; intros bs Hb; cbn [call_backups].
  { exists true, bs. split_and!; eauto. intros _. split; [done|].
    intros m Hm. by apply elem_of_nil in Hm. }
  case_bool_decide as Hme.
  { destruct (IH bs) as (ok & bs' & E & H1 & H2 & H3); [intros y Hy; apply Hb; by constructor|].
    exists ok, bs'. split_and!; try done. intros B. destruct (H3 B) as [? Hall].
    split; [done|]. intros y [->|Hy]%elem_of_cons Hne; [done|auto]. }
  destruct (Hb m) as (b & Hbm & Hon); [constructor|done|].
  destruct (call_invoke_spec (links m) vs x procno req rep x' ret m bs b Hvs He Hr Hret Hbm Hon)
    as (b' & ok & -> & Hon' & Hnew' & Hreach).
  assert (G1 : ∀ y c, bs !! y = Some c → old_or_new vs x x' c →
    ∃ c', <[m := b']> bs !! y = Some c' ∧ old_or_new vs x x' c').
  { intros y c Hy Hc. destruct (decide (y = m)) as [->|]; [rewrite lookup_insert_eq; eauto|].
    rewrite lookup_insert_ne by done. eauto. }
  assert (G2 : ∀ y c, bs !! y = Some c → at_state (next_vs vs) x' c →
    ∃ c', <[m := b']> bs !! y = Some c' ∧ at_state (next_vs vs) x' c').
  { intros y c Hy Hc. destruct (decide (y = m)) as [->|]; [rewrite lookup_insert_eq|].
    - rewrite Hbm in Hy. injection Hy as <-. eauto.
    - rewrite lookup_insert_ne by done. eauto. }
  destruct ok.
  - destruct (IH (<[m := b']> bs)) as (ok & bs' & E & H1 & H2 & H3).
    { intros y Hy Hne. destruct (Hb y) as (c & Hc & Hoc); [by constructor|done|]. by eapply G1. }
    exists ok, bs'. split; [done|]. split; [|split].
    + intros y c Hy Hc. destruct (G1 y c Hy Hc) as (c' & ? & ?). eauto.
    + intros y c Hy Hc. destruct (G2 y c Hy Hc) as (c' & ? & ?). eauto.
    + intros B. destruct (H3 B) as [? Hall]. split; [done|].
      intros y [->|Hy]%elem_of_cons Hne; [|auto].
      destruct (Hreach (B m)) as [_ Hat]. apply (H2 m b'); [apply lookup_insert_eq|done].
  - exists false, (<[m := b']> bs). split; [done|]. split; [done|]. split; [done|].
    intros B. by destruct (Hreach (B m)).
Qed.
(** The reference: a single server that executes the requests one by one. *)
Fixpoint single (reqs : list (Z * cstring)) (x : S) : option (list cstring * S) :=
  match reqs with
  | [] => Some ([], x)
  | (procno, req) :: reqs =>
      '(rep, x) ← execute procs procno req x;
      '(reps, x) ← single reqs x; Some (rep :: reps, x)
  end.

(** The replicated service: the requests of the clients, in the order in which the
    primary takes them. *)
Fixpoint replicated (links : cstring → link) (reqs : list (Z * cstring)) (s : rsm S)
    (bs : gmap cstring (rsm S))
    : option (list (Z * cstring) * rsm S * gmap cstring (rsm S)) :=
  match reqs with
  | [] => Some ([], s, bs)
  | (procno, req) :: reqs =>
      '(st, r, s, bs) ← client_invoke procs links procno req [] s bs;
      '(out, s, bs) ← replicated links reqs s bs; Some ((st, r) :: out, s, bs)
  end.

(** Handlers answer with a non-negative status, as all servers of the repository
    do; negative values are reserved for the RPC layer. *)
Definition answers : Prop := ∀ procno req x rep x',
  execute procs procno req x = Some (rep, x') → ∃ ret, reply_status rep = Some ret ∧ 0 <= ret.

Lemma amiprimary_insync s bs : insync s bs → amiprimary s = Some true.
Proof.
  intros (H1 & H2 & H3 & _). unfold amiprimary, locked, amiprimary_wo. rewrite H3, H1.
  by rewrite bool_decide_eq_true_2.
Qed.

Lemma client_invoke_reachable links procno req r s bs rep x' :
  answers → (∀ m, links m = Reachable) → insync s bs →
  execute procs procno req (r_service s) = Some (rep, x') →
  ∃ s' bs', client_invoke procs links procno req r s bs = Some (rsm_OK, rep, s', bs') ∧
    insync s' bs' ∧ r_service s' = x' ∧ myvs s' = next_vs (myvs s) ∧ myaddr s' = myaddr s.
Proof.
  intros Ha Hl I He. pose proof (amiprimary_insync s bs I) as Hp.
  destruct I as (H1 & H2 & H3 & H4 & H5). unfold client_invoke. rewrite H1, Hp. cbn [mbind option_bind negb].
  destruct (curview_eq s) as [Hc C]. destruct (curview s) as [mems0 s1]. cbn [fst snd] in *.
  destruct C as (C1 & C2 & C3 & C4 & _ & C6 & C7 & _ & C9 & C10 & _ & _). subst mems0.
  destruct (Ha _ _ _ _ _ He) as (ret & Hr & Hret).
  destruct (call_backups_spec links (myvs s) (r_service s) procno req rep x' ret (myaddr s) (cur s) bs)
    as (ok & bs' & E & _ & _ & Hok); try done.
  { intros m Hm Hne. destruct (H5 m Hm Hne) as (b & Hb & Hat). exists b. split; [done|by left]. }
  fold (next_vs (myvs s)). rewrite C10, E. destruct (Hok Hl) as [-> Hall]. cbn [negb].
  rewrite C3, He. cbn [mbind option_bind]. eexists _, bs'. split; [done|]. split; [|split_and!; [done|done|exact C10]].
  unfold insync. split_and!.
  - change (inviewchange s1 = false). congruence.
  - change (r_primary s1 = myaddr s1). congruence.
  - change (rsm_mutex s1 = false). congruence.
  - apply u32_range.
  - change (∀ m, m ∈ cur s1 → m ≠ myaddr s1 →
      ∃ b, bs' !! m = Some b ∧ at_state (next_vs (myvs s)) x' b).
    rewrite C1, C10. done.
Qed.
End replication.

Lemma replicated_spec {S} (procs : gmap Z (proc S)) links reqs s bs reps x' :
  answers procs → (∀ m, links m = Reachable) → insync s bs →
  single procs reqs (r_service s) = Some (reps, x') →
  ∃ s' bs', replicated procs links reqs s bs = Some ((λ r, (rsm_OK, r)) <$> reps, s', bs') ∧
    r_service s' = x' ∧ insync s' bs'.
Proof.
  intros Ha Hl. revert s bs reps. induction reqs as [|[procno req] reqs IH]; intros s bs reps I H; cbn in H.
  { simplify_eq. by exists s, bs. }
  apply bind_Some in H as ([rep x1] & He & H). apply bind_Some in H as ([reps1 x2] & Hs & H). simplify_eq.
  destruct (client_invoke_reachable procs links procno req [] s bs rep x1 Ha Hl I He)
    as (s1 & bs1 & E & I1 & <- & _).
  destruct (IH s1 bs1 reps1 I1 Hs) as (s' & bs' & E' & ? & ?).
  exists s', bs'. split; [|done]. cbn [replicated]. rewrite E. cbn [mbind option_bind].
  rewrite E'. done.
Qed.

(** C2. Replication is transparent: starting from replicas in sync and while the
    backups can be reached, the replicated service answers every sequence of client
    requests exactly as one server executing them one by one would, and at the end all
    replicas hold that server's state and the same view stamp. *)
Theorem replication_refines {S} (procs : gmap Z (proc S)) links reqs s bs reps x' :
  answers procs → (∀ m, links m = Reachable) → insync s bs →
  single procs reqs (r_service s) = Some (reps, x') →
  ∃ s' bs', replicated procs links reqs s bs = Some ((λ r, (rsm_OK, r)) <$> reps, s', bs') ∧
    r_service s' = x' ∧ insync s' bs'.
Proof. apply replicated_spec. Qed.


(** ** Replies of [execute] *)

(** The reply carries the status and the marshalled result of the procedure. *)
Lemma execute_reply {S} (procs : gmap Z (proc S)) procno req (x x' : S) h args ret m bs :
  procs !! procno = Some h → unmarshall_of_string req = Some args →
  h args new_marshall x = Some (ret, m, x') → m_rep m bs → is_s32 ret →
  Z.of_nat (8 + length bs) <= max_content →
  execute procs procno req x = Some (enc_u32 ret ++ enc_string bs, x') ∧
  reply_status (enc_u32 ret ++ enc_string bs) = Some ret.
Proof.
  intros Hh Ha Hf Hm Hr Hl.
  assert (Hb31 : Z.of_nat (length bs) < 2 ^ 31).
  { unfold max_content in Hl. rewrite RPC_HEADER_SZ_eq in Hl. lia. }
  assert (Hlen : length (enc_u32 ret ++ enc_string bs) = (8 + length bs)%nat)
    by (rewrite length_app, length_enc_u32, length_enc_string; lia).
  split.
  - unfold execute. rewrite Hh. cbn [mbind option_bind]. rewrite Ha. cbn [mbind option_bind].
    rewrite Hf. cbn [mbind option_bind].
    destruct (put_int_puts ret new_marshall [] new_marshall_rep) as (m1 & -> & R1).
    { rewrite length_enc_u32. unfold max_content. rewrite RPC_HEADER_SZ_eq. cbn. lia. }
    cbn [mbind option_bind]. change (m_str m) with (get_content m).
    rewrite (m_rep_content m bs Hm). cbn [mbind option_bind].
    destruct (put_string_puts bs Hb31 m1 _ R1) as (m2 & -> & R2).
    { cbn [app]. rewrite length_enc_u32, length_enc_string. lia. }
    cbn [mbind option_bind]. change (m_str m2) with (get_content m2).
    rewrite (m_rep_content _ _ R2). done.
  - unfold reply_status.
    destruct (unmarshall_of_string_rep (enc_u32 ret ++ enc_string bs)) as (u & -> & Ru);
      [by rewrite Hlen|]. cbn [mbind option_bind].
    destruct (get_int_gets ret _ _ _ Ru) as (u' & -> & _). cbn [mbind option_bind].
    rewrite <- (s32_of_u32 ret) at 2 by done. f_equal. apply s32_u32_eq. by rewrite u32_idemp.
Qed.

(** ** A concrete service: a counter with the procedure "add" *)

Definition counter_add : proc Z :=
  reg1 (SInt 0) (λ n _ x, Some (0, SInt (s32 (x + sint_val n)), s32 (x + sint_val n))).

Definition counter : gmap Z (proc Z) := {[1 := counter_add]}.

(** A procedure that answers with a non-negative status and a small result. *)
Definition proc_ok {S} (h : proc S) : Prop := ∀ args x ret m x',
  h args new_marshall x = Some (ret, m, x') →
  ∃ bs, m_rep m bs ∧ is_s32 ret ∧ 0 <= ret ∧ Z.of_nat (8 + length bs) <= max_content.

Lemma answers_procs {S} (procs : gmap Z (proc S)) :
  (∀ n h, procs !! n = Some h → proc_ok h) → answers procs.
Proof.
  intros Hp procno req x rep x' H. pose proof H as H0. unfold execute in H0.
  apply bind_Some in H0 as (h & Hh & H0).
  apply bind_Some in H0 as (args & Ha & H0). apply bind_Some in H0 as ([[ret m] x1] & Hc & _).
  destruct (Hp _ _ Hh _ _ _ _ _ Hc) as (bs & Hm & Hr & Hr0 & Hl).
  destruct (execute_reply procs procno req x x1 h args ret m bs) as [E Hs]; try done.
  rewrite H in E. injection E as -> _. by exists ret.
Qed.

(** Wrappers whose result is an [int]. *)
Lemma put_result_ok (r : sint) m :
  w_put r new_marshall = Some m → m_rep m (enc_u32 (sint_val r)) ∧
  Z.of_nat (8 + length (enc_u32 (sint_val r))) <= max_content.
Proof.
  intros H. unfold max_content. rewrite RPC_HEADER_SZ_eq, length_enc_u32. split; [|lia].
  destruct (put_int_puts (sint_val r) new_marshall [] new_marshall_rep) as (m2 & E2 & R2).
  { rewrite length_enc_u32. unfold max_content. rewrite RPC_HEADER_SZ_eq. cbn. lia. }
  change (put_int (sint_val r) new_marshall) with (w_put r new_marshall) in E2.
  rewrite H in E2. by injection E2 as <-.
Qed.

Definition status_ok (b : Z) : Prop := is_s32 b ∧ 0 <= b.

Lemma call_method_ok {S} (c : option (Z * sint * S)) ret m x' :
  (∀ b r x, c = Some (b, r, x) → status_ok b) →
  call_method c new_marshall = Some (ret, m, x') →
  ∃ bs, m_rep m bs ∧ is_s32 ret ∧ 0 <= ret ∧ Z.of_nat (8 + length bs) <= max_content.
Proof.
  intros Hm H. unfold call_method in H. apply bind_Some in H as ([[b r] x1] & Hc & H).
  apply bind_Some in H as (m' & Hp & H). injection H as <- <- <-.
  apply put_result_ok in Hp as [? ?]. destruct (Hm _ _ _ Hc). eauto.
Qed.

Lemma reg1_ok {S A1} `{Wire A1} (r0 : sint) (meth : A1 → sint → S → option (Z * sint * S)) :
  (∀ a1 r x b r' x', meth a1 r x = Some (b, r', x') → status_ok b) → proc_ok (reg1 r0 meth).
Proof.
  intros Hm args x ret m x' Hc. unfold reg1 in Hc. apply bind_Some in Hc as ([a1 u] & _ & Hc).
  destruct (okdone u); [|done]. eapply call_method_ok; [|done]. eauto.
Qed.

Lemma reg2_ok {S A1 A2} `{Wire A1, Wire A2} (r0 : sint)
    (meth : A1 → A2 → sint → S → option (Z * sint * S)) :
  (∀ a1 a2 r x b r' x', meth a1 a2 r x = Some (b, r', x') → status_ok b) → proc_ok (reg2 r0 meth).
Proof.
  intros Hm args x ret m x' Hc. unfold reg2 in Hc. apply bind_Some in Hc as ([a1 u] & _ & Hc).
  apply bind_Some in Hc as ([a2 u2] & _ & Hc).
  destruct (okdone u2); [|done]. eapply call_method_ok; [|done]. eauto.
Qed.

Lemma reg3_ok {S A1 A2 A3} `{Wire A1, Wire A2, Wire A3} (r0 : sint)
    (meth : A1 → A2 → A3 → sint → S → option (Z * sint * S)) :
  (∀ a1 a2 a3 r x b r' x', meth a1 a2 a3 r x = Some (b, r', x') → status_ok b) →
  proc_ok (reg3 r0 meth).
Proof.
  intros Hm args x ret m x' Hc. unfold reg3 in Hc. apply bind_Some in Hc as ([a1 u] & _ & Hc).
  apply bind_Some in Hc as ([a2 u2] & _ & Hc). apply bind_Some in Hc as ([a3 u3] & _ & Hc).
  destruct (okdone u3); [|done]. eapply call_method_ok; [|done]. eauto.
Qed.

Lemma counter_answers : answers counter.
Proof.
  apply answers_procs. intros n h Hh. unfold counter in Hh. apply lookup_singleton_Some in Hh as [_ <-].
  apply reg1_ok. intros a1 r x b r' x' [= <- _ _]. split; [unfold_int; lia|lia].
Qed.

(** Nodes [a], [b] and [c] in view 3, [a] being the primary. *)
Definition view3 (me : cstring) : config :=
  Config 3 me [$"a"; $"b"; $"c"]
    (Acceptor me (Prop_t 0 me) (Prop_t 0 me) [] 3 {[3 := $"a b c "]} []) (new_proposer 0 me) [] 0.
Definition replica (me : cstring) (vs : viewstamp) (x : Z) : rsm Z :=
  Rsm (view3 me) x vs vs ($"a") false [] false.
Definition group (vb : viewstamp) : gmap cstring (rsm Z) :=
  {[$"b" := replica ($"b") vb 10; $"c" := replica ($"c") (Viewstamp 3 7) 10]}.
(** The request "add n". *)
Definition add_req (n : Z) : cstring := enc_u32 n.

Lemma group_insync : insync (replica ($"a") (Viewstamp 3 7) 10) (group (Viewstamp 3 7)).
Proof.
  split; [done|]. split; [done|]. split; [done|]. split; [unfold_int; cbn; lia|].
  intros m Hm Hne. replace (cur _) with [$"a"; $"b"; $"c"] in Hm by (vm_compute; reflexivity).
  apply elem_of_cons in Hm as [->|Hm]; [done|].
  apply elem_of_cons in Hm as [->|Hm]; [eexists; split; [vm_compute; reflexivity|done]|].
  apply elem_of_cons in Hm as [->|Hm]; [eexists; split; [vm_compute; reflexivity|done]|].
  by apply elem_of_nil in Hm.
Qed.

Lemma replication_refines_witness :
  ∃ s' bs',
    replicated counter (λ _, Reachable) [(1, add_req 5); (1, add_req 8)]
      (replica ($"a") (Viewstamp 3 7) 10) (group (Viewstamp 3 7)) =
    Some ([(rsm_OK, enc_u32 0 ++ enc_string (enc_u32 15)); (rsm_OK, enc_u32 0 ++ enc_string (enc_u32 23))], s', bs') ∧
    r_service s' = 23 ∧ insync s' bs'.
Proof.
  apply (replication_refines counter (λ _, Reachable) [(1, add_req 5); (1, add_req 8)]
    (replica ($"a") (Viewstamp 3 7) 10) (group (Viewstamp 3 7))
    [enc_u32 0 ++ enc_string (enc_u32 15); enc_u32 0 ++ enc_string (enc_u32 23)] 23);
    [exact counter_answers|reflexivity|exact group_insync|vm_compute; reflexivity].
Defined.


(** A backup that refuses a request is taken for one that executed it: its
    [ERR] is not negative.  Here [b] is one request behind; the client gets [OK], [a]
    and [c] execute the request and [b] does not. *)
Theorem refused_by_backup :
  match client_invoke counter (λ _, Reachable) 1 (add_req 5) [] (replica ($"a") (Viewstamp 3 7) 10)
          (group (Viewstamp 3 6)) with
  | Some (st, _, s', bs') => st = rsm_OK ∧ r_service s' = 15 ∧
      (r_service <$> bs' !! ($"b")) = Some 10 ∧ (r_service <$> bs' !! ($"c")) = Some 15
  | None => False
  end.
Proof. vm_compute. repeat split. Qed.

(** ** State transfer *)


(** The counter transfers its value as four bytes. *)
#[export] Instance counter_transfer : StateTransfer Z := {
  st_marshal x := m ← put_int x new_marshall; m_str m;
  st_unmarshal bytes _ := reply_status bytes;
}.

#[export, program] Instance counter_transfer_ok : StateTransferOk Z := {
  st_wf := is_s32; st_fresh _ := True; st_equiv := eq;
}.
Next Obligation.
  intros a b Ha _. exists (enc_u32 a), a. cbn. destruct (put_int_puts a new_marshall [] new_marshall_rep) as (m & Hm & Rm).
  { rewrite length_enc_u32. unfold max_content. rewrite RPC_HEADER_SZ_eq. cbn. lia. }
  rewrite Hm. cbn. split; [exact (m_rep_content _ _ Rm)|]. split; [|done].
  unfold reply_status. destruct (unmarshall_of_string_rep (enc_u32 a)) as (u & -> & Ru).
  { rewrite length_enc_u32. unfold max_content. rewrite RPC_HEADER_SZ_eq. cbn. lia. }
  cbn [mbind option_bind]. rewrite <- (app_nil_r (enc_u32 a)) in Ru.
  destruct (get_int_gets a _ _ _ Ru) as (u' & -> & _). cbn [mbind option_bind].
  f_equal. rewrite <- (s32_of_u32 a) at 2 by done. apply s32_u32_eq. by rewrite u32_idemp.
Qed.


(** ** Two ways to stop for good *)

(** [transferdonereq] outside a view change returns without releasing
    [rsm_mutex]; after it no other handler of the replica returns. *)
Theorem transferdone_deadlock {S} (procs : gmap Z (proc S)) `{StateTransfer S} m (s : rsm S) :
  rsm_mutex s = false → inviewchange s = false →
  ∃ s', transferdonereq m s = Some (rsm_ERR, s', false) ∧
    (∀ n vs req, invoke procs n vs req s' = None) ∧
    (∀ links n req r bs, client_invoke procs links n req r s' bs = None) ∧
    client_members s' = None ∧ amiprimary s' = None ∧
    (∀ vs r, transferreq vs r s' = None) ∧ (∀ add m' r, joinreq add m' r s' = None) ∧
    (∀ m', transferdonereq m' s' = None).
Proof.
  intros Hm Hi. unfold transferdonereq, locked. rewrite Hm, Hi. cbn.
  eexists. split; [done|].
  unfold invoke, client_invoke, client_members, amiprimary, transferreq, joinreq, locked. cbn.
  by rewrite Hi.
Qed.

Lemma transferdone_deadlock_witness :
  ∃ s', transferdonereq ($"b") (replica ($"a") (Viewstamp 3 7) 10) = Some (rsm_ERR, s', false) ∧
    client_members s' = None.
Proof.
  destruct (transferdone_deadlock counter
    (H := {| st_marshal := λ _ : Z, None; st_unmarshal := λ _ _, None |})
    ($"b") (replica ($"a") (Viewstamp 3 7) 10)) as (s' & H1 & _ & _ & H2 & _); [reflexivity|reflexivity|].
  exists s'. split; [exact H1|exact H2].
Defined.

(** A primary that is left alone in its view waits for [sync_cond] although there
    is no backup that could signal it, so it never leaves the view change. *)
Example lone_primary_waits :
  let c := Config 4 ($"a") [$"a"]
    (Acceptor ($"a") (Prop_t 0 ($"a")) (Prop_t 0 ($"a")) [] 4 {[4 := $"a "]} []) (new_proposer 0 ($"a")) [] 0 in
  let s := Rsm c 10 (Viewstamp 4 7) (Viewstamp 3 7) ($"a") true [] false in
  @recovery_round Z {| st_marshal := λ _ : Z, None; st_unmarshal := λ _ _, None |} None None false s = Some Waiting.
Proof. reflexivity. Qed.
