(* ===== verification/Handle.v ===== *)
(** * Shared RPC clients

    handle.cc: a table of RPC clients by address, each with a count of the [handle] objects
    that point to it.  The nodes of the table and the clients are objects with an address;
    using one that is not there is [None]. *)

From S2P Require Import Prelude.
From S2P Require Import Marshall.

Record hinfo := Hinfo { h_cl : nat; refcnt : Z; h_del : bool; h_m : cstring }.

(** [clients]: the [rpcc] objects that exist. *)
Record handle_mgr := HMgr { hmap : gmap cstring nat; nodes : gmap nat hinfo; clients : gset nat }.

Definition new_handle_mgr : handle_mgr := HMgr ∅ ∅ ∅.

Definition set_node (n : nat) (h : hinfo) (s : handle_mgr) : handle_mgr :=
  HMgr (hmap s) (<[n := h]> (nodes s)) (clients s).

(** [bound]: whether [bind] succeeds; [n], [cl]: addresses of a new node and client. *)
Definition get_handle (bound : bool) (n cl : nat) (m : cstring) (s : handle_mgr) : option (option nat * handle_mgr) :=
  match hmap s !! m with
  | None =>
      let s := HMgr (hmap s) (nodes s) ({[cl]} ∪ clients s) in
      if bound then Some (Some n, HMgr (<[m := n]> (hmap s)) (<[n := Hinfo cl 1 false m]> (nodes s)) (clients s))
      else Some (None, s)
  | Some k =>
      h ← nodes s !! k;
      if h_del h then Some (None, s)
      else Some (Some k, set_node k (Hinfo (h_cl h) (refcnt h + 1) (h_del h) (h_m h)) s)
  end.

(** [cancel] and [delete] of the client need it to exist. *)
Definition delete_handle_wo (m : cstring) (s : handle_mgr) : option handle_mgr :=
  match hmap s !! m with
  | None => Some s
  | Some k =>
      h ← nodes s !! k;
      if refcnt h =? 0 then
        if bool_decide (h_cl h ∈ clients s)
        then Some (HMgr (delete m (hmap s)) (delete k (nodes s)) (clients s ∖ {[h_cl h]})) else None
      else Some (set_node k (Hinfo (h_cl h) (refcnt h) true (h_m h)) s)
  end.

Definition delete_handle (m : cstring) (s : handle_mgr) : option handle_mgr := delete_handle_wo m s.

Definition done_handle (k : nat) (s : handle_mgr) : option handle_mgr :=
  h ← nodes s !! k;
  let h := Hinfo (h_cl h) (refcnt h - 1) (h_del h) (h_m h) in
  let s := set_node k h s in
  if (refcnt h <=? 0) && h_del h then delete_handle_wo (h_m h) s else Some s.

(** [handle::get_rpcc] *)
Definition get_rpcc (h : option nat) (s : handle_mgr) : option (option nat) :=
  match h with None => Some None | Some k => i ← nodes s !! k; Some (Some (h_cl i)) end.

(** ** Handles in use *)

(** [uses k]: how many [handle] objects point to the node. *)
Record hsys := HSys { hm : handle_mgr; uses : nat → nat }.

Definition more (k : nat) (u : nat → nat) (j : nat) : nat := if decide (j = k) then S (u j) else u j.
Definition less (k : nat) (u : nat → nat) (j : nat) : nat := if decide (j = k) then pred (u j) else u j.

Inductive hstep : hsys → hsys → Prop :=
  | h_get bound n cl m k s' s :
      nodes (hm s) !! n = None → cl ∉ clients (hm s) →
      get_handle bound n cl m (hm s) = Some (Some k, s') → hstep s (HSys s' (more k (uses s)))
  | h_get_none bound n cl m s' s :
      nodes (hm s) !! n = None → cl ∉ clients (hm s) →
      get_handle bound n cl m (hm s) = Some (None, s') → hstep s (HSys s' (uses s))
  | h_done k s' s : uses s k ≠ 0%nat → done_handle k (hm s) = Some s' → hstep s (HSys s' (less k (uses s)))
  | h_delete m s' s : delete_handle m (hm s) = Some s' → hstep s (HSys s' (uses s)).

Record hinv (s : hsys) : Prop := HInv {
  i_map m k : hmap (hm s) !! m = Some k → ∃ h, nodes (hm s) !! k = Some h ∧ h_m h = m;
  i_node k h : nodes (hm s) !! k = Some h →
    hmap (hm s) !! h_m h = Some k ∧ refcnt h = Z.of_nat (uses s k) ∧ h_cl h ∈ clients (hm s);
  i_own k k' h h' : nodes (hm s) !! k = Some h → nodes (hm s) !! k' = Some h' → h_cl h = h_cl h' → k = k';
  i_used k : uses s k ≠ 0%nat → is_Some (nodes (hm s) !! k);
}.

Lemma set_node_inv s k h h' u :
  hinv s → nodes (hm s) !! k = Some h → h_cl h' = h_cl h → h_m h' = h_m h →
  (∀ j, j ≠ k → u j = uses s j) → refcnt h' = Z.of_nat (u k) → hinv (HSys (set_node k h' (hm s)) u).
Proof.
  intros [I1 I2 I3 I4] Hk Hcl Hm Hu Hr. split; cbn.
  - intros m j Hj. destruct (I1 m j Hj) as (i & Hi & Him). destruct (decide (j = k)) as [->|].
    + rewrite lookup_insert_eq. exists h'. split; [done|]. congruence.
    + rewrite lookup_insert_ne by done. eauto.
  - intros j i. destruct (decide (j = k)) as [->|].
    + rewrite lookup_insert_eq. intros [= Hi]. subst i. destruct (I2 k h Hk) as (? & _ & ?).
      split_and!; [congruence|done|congruence].
    + rewrite lookup_insert_ne by done. intros Hi. destruct (I2 j i Hi) as (? & -> & ?). by rewrite Hu.
  - intros j j' i i'. rewrite !lookup_insert. repeat case_decide; intros; simplify_eq; try done.
    + eapply I3; [exact Hk|done|congruence].
    + eapply I3; [done|exact Hk|congruence].
    + by eapply I3.
  - intros j Hj. rewrite lookup_insert. case_decide; [eauto|]. apply I4. by rewrite <- Hu.
Qed.

Lemma delete_handle_inv m s :
  hinv s → ∃ s', delete_handle_wo m (hm s) = Some s' ∧ hinv (HSys s' (uses s)).
Proof.
  intros I. pose proof I as [I1 I2 I3 I4]. unfold delete_handle_wo.
  destruct (hmap (hm s) !! m) as [k|] eqn:E; [|exists (hm s); split; [done|by destruct s]].
  destruct (I1 m k E) as (h & Hk & Hm). rewrite Hk. cbn. destruct (I2 k h Hk) as (_ & Hr & Hcl).
  destruct (Z.eqb_spec (refcnt h) 0) as [H0|H0].
  - rewrite bool_decide_true by done. eexists. split; [done|]. assert (uses s k = 0%nat) as Hu by lia. split; cbn.
    + intros m' j [Hne Hj]%lookup_delete_Some. destruct (I1 m' j Hj) as (i & Hi & Him).
      rewrite lookup_delete_ne; [eauto|]. intros <-. congruence.
    + intros j i [Hne Hi]%lookup_delete_Some. destruct (I2 j i Hi) as (Hj & ? & ?).
      split_and!; [|done|].
      * rewrite lookup_delete_ne; [done|]. intros Heq. congruence.
      * apply elem_of_difference. split; [done|]. intros ->%elem_of_singleton%(I3 _ _ _ _ Hi Hk). done.
    + intros j j' i i' [_ Hi]%lookup_delete_Some [_ Hi']%lookup_delete_Some. by eapply I3.
    + intros j Hj. rewrite lookup_delete_ne; [by apply I4|]. intros <-. done.
  - eexists. split; [done|]. by eapply set_node_inv.
Qed.

Lemma get_handle_inv bound n cl m s :
  hinv s → nodes (hm s) !! n = None → cl ∉ clients (hm s) →
  ∃ r s', get_handle bound n cl m (hm s) = Some (r, s') ∧
    match r with Some k => hinv (HSys s' (more k (uses s))) | None => hinv (HSys s' (uses s)) end.
Proof.
  intros I Hn Hc. pose proof I as [I1 I2 I3 I4]. unfold get_handle. destruct (hmap (hm s) !! m) as [k|] eqn:E.
  - destruct (I1 m k E) as (h & Hk & Hm). rewrite Hk. cbn. destruct (h_del h) eqn:Ed.
    + eexists None, _. split; [done|]. by destruct s.
    + eexists (Some k), _. split; [done|]. destruct (I2 k h Hk) as (_ & Hr & _).
      eapply set_node_inv; [done|done|done|done| |].
      * intros j Hj. unfold more. by rewrite decide_False.
      * cbn. unfold more. rewrite decide_True by done. lia.
  - assert (uses s n = 0%nat) as Hu.
    { destruct (decide (uses s n = 0%nat)) as [|Hne]; [done|]. destruct (I4 n Hne) as [? ?]. congruence. }
    destruct bound.
    + eexists (Some n), _. split; [done|]. split; cbn.
      * intros m' j. rewrite !lookup_insert. case_decide; [intros [= <-]; rewrite decide_True by done; eauto|].
        intros Hj. destruct (I1 m' j Hj) as (i & Hi & Him). rewrite decide_False; [eauto|]. congruence.
      * intros j i. rewrite !lookup_insert. case_decide; [intros [= <-]; subst j|].
        -- cbn. rewrite decide_True by done. unfold more. rewrite decide_True by done. split_and!; [done|lia|set_solver].
        -- intros Hi. destruct (I2 j i Hi) as (Hj & ? & ?). unfold more. rewrite (decide_False (P := j = n)) by done.
           rewrite decide_False; [split_and!; [done|done|set_solver]|]. congruence.
      * intros j j' i i'. rewrite !lookup_insert. repeat case_decide; intros; simplify_eq; try done.
        -- cbn in *. destruct (I2 j' i') as (_ & _ & ?); [done|]. congruence.
        -- cbn in *. destruct (I2 j i) as (_ & _ & ?); [done|]. congruence.
        -- by eapply I3.
      * intros j. unfold more. rewrite lookup_insert. repeat case_decide; subst; eauto; congruence.
    + eexists None, _. split; [done|]. split; cbn; [done| |done|done].
      intros j i Hi. destruct (I2 j i Hi) as (? & ? & ?). split_and!; [done|done|set_solver].
Qed.

Lemma done_handle_inv k s :
  hinv s → uses s k ≠ 0%nat → ∃ s', done_handle k (hm s) = Some s' ∧ hinv (HSys s' (less k (uses s))).
Proof.
  intros I Hu. destruct (i_used _ I k Hu) as [h Hk]. destruct (i_node _ I k h Hk) as (_ & Hr & _).
  unfold done_handle. rewrite Hk. cbn.
  set (h' := Hinfo (h_cl h) (refcnt h - 1) (h_del h) (h_m h)).
  assert (hinv (HSys (set_node k h' (hm s)) (less k (uses s)))) as I'.
  { eapply set_node_inv; [done|done|done|done| |].
    - intros j Hj. unfold less. by rewrite decide_False.
    - cbn. unfold less. rewrite decide_True by done. lia. }
  destruct (_ && _); [|by eexists]. exact (delete_handle_inv (h_m h') _ I').
Qed.

Lemma hstep_inv s s' : hinv s → hstep s s' → hinv s'.
Proof.
  intros I Hs. destruct Hs as [bound n cl m k s' s Hn Hc H|bound n cl m s' s Hn Hc H|k s' s Hu H|m s' s H].
  - destruct (get_handle_inv bound n cl m s I Hn Hc) as (r & s2 & E & I2). rewrite E in H. by simplify_eq.
  - destruct (get_handle_inv bound n cl m s I Hn Hc) as (r & s2 & E & I2). rewrite E in H. by simplify_eq.
  - destruct (done_handle_inv k s I Hu) as (s2 & E & I2). rewrite E in H. by simplify_eq.
  - destruct (delete_handle_inv m s I) as (s2 & E & I2). unfold delete_handle in H. rewrite E in H. by simplify_eq.
Qed.

Definition no_handles : hsys := HSys new_handle_mgr (λ _, 0%nat).

(** C29. In every sequence of making and ending handles and of deleting addresses, a
    handle that is in use points to a node that exists, with a client that exists and a
    count that is the number of the handles in use; ending a handle and deleting an address never
    touch an object that is gone, and an address whose count is zero is really deleted. *)
Theorem handles_safe s :
  rtc hstep no_handles s →
  (∀ k, uses s k ≠ 0%nat → ∃ h, nodes (hm s) !! k = Some h ∧ h_cl h ∈ clients (hm s) ∧
     refcnt h = Z.of_nat (uses s k) ∧ get_rpcc (Some k) (hm s) = Some (Some (h_cl h)) ∧
     is_Some (done_handle k (hm s))) ∧
  (∀ m, ∃ s', delete_handle m (hm s) = Some s' ∧
     ((∀ k, hmap (hm s) !! m = Some k → uses s k = 0%nat) → hmap s' !! m = None)).
Proof.
  intros Hr. assert (hinv s) as I.
  { assert (hinv no_handles) as I0 by (split; cbn; done).
    revert I0. induction Hr as [|a b c Hab _ IH]; [done|]. intros I. apply IH. by eapply hstep_inv. }
  split.
  - intros k Hu. destruct (i_used _ I k Hu) as [h Hk]. destruct (i_node _ I k h Hk) as (_ & Hc & Hcl).
    exists h. split_and!; [done|done|done|by cbn; rewrite Hk|]. destruct (done_handle_inv k s I Hu) as (? & -> & _). eauto.
  - intros m. destruct (delete_handle_inv m s I) as (s' & E & _). exists s'. split; [done|]. intros Hz.
    unfold delete_handle_wo in E. destruct (hmap (hm s) !! m) as [k|] eqn:Em; [|by simplify_eq].
    destruct (i_map _ I m k Em) as (h & Hk & _). destruct (i_node _ I k h Hk) as (_ & Hc & Hcl). rewrite Hk in E. cbn in E.
    rewrite Hc, (Hz k eq_refl), bool_decide_true in E by done. cbn in E. injection E as <-. apply lookup_delete_eq.
Qed.

(** An address is deleted while a handle uses it: the node stays until the handle ends. *)
Lemma handles_safe_witness :
  ∃ s s', rtc hstep no_handles s ∧ uses s 1%nat = 1%nat ∧ done_handle 1 (hm s) = Some s' ∧ hmap s' = ∅.
Proof.
  set (a := $"h:1"). set (n1 := Hinfo 9 1 false a). set (n2 := Hinfo 9 1 true a).
  set (g1 := HMgr {[a := 1%nat]} {[1%nat := n1]} ({[9%nat]} ∪ ∅)). set (g2 := HMgr {[a := 1%nat]} {[1%nat := n2]} ({[9%nat]} ∪ ∅)).
  assert (rtc hstep no_handles (HSys g2 (more 1 (λ _, 0%nat)))) as Hr.
  { eapply rtc_l; [apply (h_get true 1 9 a 1 g1); [reflexivity|vm_compute; discriminate|reflexivity]|].
    eapply rtc_l; [apply (h_delete a g2); vm_compute; reflexivity|]. apply rtc_refl. }
  destruct (handles_safe (HSys g2 (more 1 (λ _, 0%nat))) Hr) as [H1 _].
  destruct (H1 1%nat) as (h & _ & _ & _ & _ & [s' Hd]); [vm_compute; discriminate|].
  exists (HSys g2 (more 1 (λ _, 0%nat))), s'. split; [exact Hr|]. split; [reflexivity|]. split; [exact Hd|].
  vm_compute in Hd. injection Hd as <-. vm_compute. reflexivity.
Defined.
