(* ===== verification/RsmTest.v ===== *)
(** * Faults on demand

    The test server of a replica (rsm.cc, [test_net_repairreq], [breakpointreq] and the hooks
    they arm), the hooks of the proposer (paxos.cc), and the program that drives them
    (rsmtest_client.cc, rsm_tester.cc) over the RPC library. *)

From S2P Require Import Prelude.
From S2P Require Import Marshall.
From S2P Require Import Protocol.
From S2P Require Import RpcStubs.
From S2P Require Import Connection.
From S2P Require Import RpcServer.
From S2P Require Import RpcClient.
From S2P Require Import RpcEnd.
From S2P Require Import RpcSession.
From S2P Require Import Streams.
From S2P Require Import Address.
From S2P Require Import Log.
From S2P Require Import Paxos.
From S2P Require Import Config.
From S2P Require Import Rsm.
From S2P Require Import Handle.

(** ** The replica with its hooks *)

Section hooks.
Context {S : Type}.

(** [reach] and [srv_reach] are the members [reachable_] of the RPC clients, by their
    address, and of [rsmrpc]; clients that are not in [reach] are reachable. *)
Record hooked := Hooked {
  k_rsm : rsm S;
  partitioned : bool; dopartition : bool; rsm_break1 : bool; rsm_break2 : bool;
  k_mgr : handle_mgr; reach : gmap nat bool; srv_reach : bool;
}.

Definition new_hooked (r : rsm S) (mg : handle_mgr) : hooked := Hooked r false false false false mg ∅ true.

Definition set_k_rsm x k := Hooked x (partitioned k) (dopartition k) (rsm_break1 k) (rsm_break2 k) (k_mgr k) (reach k) (srv_reach k).
Definition set_partitioned x k :=
  Hooked (k_rsm k) x (dopartition k) (rsm_break1 k) (rsm_break2 k) (k_mgr k) (reach k) (srv_reach k).
Definition set_dopartition x k :=
  Hooked (k_rsm k) (partitioned k) x (rsm_break1 k) (rsm_break2 k) (k_mgr k) (reach k) (srv_reach k).
Definition set_rsm_break1 x k :=
  Hooked (k_rsm k) (partitioned k) (dopartition k) x (rsm_break2 k) (k_mgr k) (reach k) (srv_reach k).
Definition set_rsm_break2 x k :=
  Hooked (k_rsm k) (partitioned k) (dopartition k) (rsm_break1 k) x (k_mgr k) (reach k) (srv_reach k).
Definition set_links mg re k :=
  Hooked (k_rsm k) (partitioned k) (dopartition k) (rsm_break1 k) (rsm_break2 k) mg re (srv_reach k).
Definition set_srv_reach x k :=
  Hooked (k_rsm k) (partitioned k) (dopartition k) (rsm_break1 k) (rsm_break2 k) (k_mgr k) (reach k) x.

(** [bound m]: whether a new client can bind to [m]. *)
Context (bound : cstring → bool).

(** The body of the loop: a [handle] for [m], which ends with the block. *)
Definition net_repair_one (heal : bool) (m : cstring) (k : hooked) : option hooked :=
  let mg := k_mgr k in
  '(h, mg) ← get_handle (bound m) (fresh (dom (nodes mg))) (fresh (clients mg)) m mg;
  cl ← get_rpcc h mg;
  let re := match cl with Some c => <[c := heal]> (reach k) | None => reach k end in
  mg ← match h with Some n => done_handle n mg | None => Some mg end;
  Some (set_links mg re k).

Fixpoint net_repair_loop (heal : bool) (ms : list cstring) (k : hooked) : option hooked :=
  match ms with
  | [] => Some k
  | m :: ms =>
      k ← (if bool_decide (m = myaddr (k_rsm k)) then Some k else net_repair_one heal m k);
      net_repair_loop heal ms k
  end.

Definition net_repair_wo (heal : bool) (k : hooked) : option hooked :=
  let '(m, r) := curview (k_rsm k) in
  k ← net_repair_loop heal m (set_k_rsm r k);
  Some (set_srv_reach heal k).

Definition test_OK : Z := 0.
Definition test_ERR : Z := 1.
Definition net_repair_num : Z := 73729.
Definition breakpoint_num : Z := 73730.

Definition test_net_repairreq (heal r : sint) (k : hooked) : option (Z * sint * hooked) :=
  locked (k_rsm k) (
  k ← (if negb (sint_val heal =? 0) then k ← net_repair_wo true k; Some (set_partitioned false k)
       else Some (set_partitioned false (set_dopartition true k)));
  Some (test_OK, SInt test_OK, k)).

(** [exit(1)] is [None]. *)
Definition rsm_breakpoint1 (k : hooked) : option hooked := if rsm_break1 k then None else Some k.
Definition rsm_breakpoint2 (k : hooked) : option hooked := if rsm_break2 k then None else Some k.

Definition partition1 (k : hooked) : option hooked :=
  if dopartition k then k ← net_repair_wo false k; Some (set_partitioned true (set_dopartition false k)) else Some k.

Definition cfg_breakpoint (b : Z) (c : config) : config :=
  Config (myvid c) (cfg_me c) (mems c) (cfg_acc c) (breakpoint b (cfg_pro c)) (deleted c) (view_changes c).

Definition breakpointreq (b r : sint) (k : hooked) : option (Z * sint * hooked) :=
  locked (k_rsm k) (
  let '(r, k) :=
    if sint_val b =? 1 then (test_OK, set_rsm_break1 true k)
    else if sint_val b =? 2 then (test_OK, set_rsm_break2 true k)
    else if (sint_val b =? 3) || (sint_val b =? 4)
    then (test_OK, set_k_rsm (set_cfg (cfg_breakpoint (sint_val b) (r_cfg (k_rsm k))) (k_rsm k)) k)
    else (test_ERR, k) in
  Some (r, SInt r, k)).

(** The second server of the replica. *)
Definition test_procs : list (Z * handler hooked) :=
  [(net_repair_num, rpcs_reg1 (SInt 0) test_net_repairreq); (breakpoint_num, rpcs_reg1 (SInt 0) breakpointreq)].
Definition testsvr (rnd : Z) (k : hooked) : option (rpcs hooked) := start_rpcs rnd 0 k test_procs.

(** ** The tester *)

Context (inet_addr : cstring → Z) (gethostbyname : cstring → option (Z * Z)).
Context (junk : nat → ascii) (cn : nat).

(** The connection to the address is the one in the state.  A failed [bind] is only
    printed. *)
Definition rsmtest_client (dst : cstring) (s : rpcc * world hooked) : option (rpcc * world hooked) :=
  _ ← make_sockaddr inet_addr gethostbyname dst; '(_, s) ← rpcc_bind junk cn s; Some s.

(** The result variable is not initialised; the assertion ends the process. *)
Definition test_call (n arg : Z) (s : rpcc * world hooked) : option (Z * (rpcc * world hooked)) :=
  '(ret, r, s) ← remote1 junk cn n (SInt arg) (SInt 0) s;
  if ret =? test_OK then Some (sint_val r, s) else None.
Definition rt_net_repair (heal : Z) := test_call net_repair_num heal.
Definition rt_breakpoint (b : Z) := test_call breakpoint_num b.

Inductive tester_out := Usage | Repaired (r : Z) | Broken (b r : Z) | Unknown (command : cstring).

Definition rsm_tester (argv : list cstring) (s : rpcc * world hooked) : option (tester_out * (rpcc * world hooked)) :=
  match argv with
  | [_; dst; command; arg] =>
      s ← rsmtest_client dst s;
      if bool_decide (command = $"partition") then
        n ← atoi arg; '(r, s) ← rt_net_repair n s; Some (Repaired r, s)
      else if bool_decide (command = $"breakpoint") then
        b ← atoi arg; '(r, s) ← rt_breakpoint b s; Some (Broken b r, s)
      else Some (Unknown command, s)
  | _ => Some (Usage, s)
  end.
End hooks.
Arguments hooked : clear implicits.

(** ** Partitions *)

(** The client of an address and whether it is reachable. *)
Definition client_of (m : cstring) (mg : handle_mgr) : option nat :=
  n ← hmap mg !! m; h ← nodes mg !! n; Some (h_cl h).
Definition link {S} (m : cstring) (k : hooked S) : option bool :=
  c ← client_of m (k_mgr k); Some (default true (reach k !! c)).

(** A handle for [m] can be had. *)
Definition reached (bound : cstring → bool) (m : cstring) (mg : handle_mgr) : Prop :=
  match hmap mg !! m with
  | Some n => ∃ h, nodes mg !! n = Some h ∧ h_del h = false
  | None => bound m = true
  end.

Lemma hinv_ext mg u u' : (∀ j, u j = u' j) → hinv (HSys mg u) → hinv (HSys mg u').
Proof.
  intros E [I1 I2 I3 I4]. split; cbn in *; [done| |done|].
  - intros j h Hj. rewrite <- E. by apply I2.
  - intros j. rewrite <- E. apply I4.
Qed.

Lemma less_more n u j : less n (more n u) j = u j.
Proof. unfold less, more. by case_decide. Qed.

Lemma fresh_node mg : nodes mg !! fresh (dom (nodes mg)) = None.
Proof. apply not_elem_of_dom, is_fresh. Qed.

(** Two addresses do not share a client. *)
Lemma client_own mg u m m' c :
  hinv (HSys mg u) → client_of m mg = Some c → client_of m' mg = Some c → m = m'.
Proof.
  intros I H1 H2. apply bind_Some in H1 as (n & E1 & H1). apply bind_Some in H1 as (h & F1 & [= <-]).
  apply bind_Some in H2 as (n' & E2 & H2). apply bind_Some in H2 as (h' & F2 & [= E]).
  assert (n = n') as <- by by apply (i_own _ I n n' h h' F1 F2). cbn in *. simplify_eq.
  destruct (i_map _ I m n E1) as (? & ? & <-). destruct (i_map _ I m' n E2) as (? & ? & <-). cbn in *. by simplify_eq.
Qed.

Section partition.
Context {S : Type} (bound : cstring → bool) (u : nat → nat).
Implicit Types k : hooked S.

Definition handles_ok k : Prop := hinv (HSys (k_mgr k) u).

(** What a use of a handle leaves as it is. *)
Definition same_hooks k k' : Prop :=
  k_rsm k' = k_rsm k ∧ partitioned k' = partitioned k ∧ dopartition k' = dopartition k ∧
  rsm_break1 k' = rsm_break1 k ∧ rsm_break2 k' = rsm_break2 k ∧ srv_reach k' = srv_reach k.

Lemma set_node_client n h h' m mg :
  nodes mg !! n = Some h → h_cl h' = h_cl h → client_of m (set_node n h' mg) = client_of m mg.
Proof using Type.
  intros Hn Hc. unfold client_of. cbn. destruct (hmap mg !! m) as [j|]; [|done]. cbn. destruct (decide (j = n)) as [->|].
  - rewrite lookup_insert_eq, Hn. cbn. by rewrite Hc.
  - by rewrite lookup_insert_ne.
Qed.

Lemma set_node_reached n h h' m mg :
  nodes mg !! n = Some h → h_del h' = h_del h → reached bound m mg → reached bound m (set_node n h' mg).
Proof using Type.
  intros Hn Hd. unfold reached. cbn. destruct (hmap mg !! m) as [j|]; [|done]. intros (i & Hi & Hi').
  rewrite lookup_insert. case_decide; [|eauto]. simplify_eq. eexists. split; [done|]. congruence.
Qed.

(** A [handle] object that is made, used and ended: the client it gives and what is
    left of it. *)
Record used (m : cstring) (mg : handle_mgr) (n c : nat) (mg1 mg2 : handle_mgr) : Prop := Used {
  us_rpcc : get_rpcc (Some n) mg1 = Some (Some c);
  us_done : done_handle n mg1 = Some mg2;
  us_inv : hinv (HSys mg2 u);
  us_client : client_of m mg2 = Some c;
  us_others m' : m' ≠ m → client_of m' mg2 = client_of m' mg;
  us_reached m' : reached bound m' mg → reached bound m' mg2;
}.

Definition ended (n : nat) (h : hinfo) (mg : handle_mgr) : handle_mgr :=
  set_node n (Hinfo (h_cl h) (refcnt h - 1) false (h_m h)) mg.

Lemma end_handle m mg1 n h (mg2 := ended n h mg1) :
  hinv (HSys mg1 (more n u)) → nodes mg1 !! n = Some h → h_del h = false → hmap mg1 !! m = Some n →
  get_rpcc (Some n) mg1 = Some (Some (h_cl h)) ∧ done_handle n mg1 = Some mg2 ∧ hinv (HSys mg2 u) ∧
  (∀ m', client_of m' mg2 = client_of m' mg1) ∧ client_of m mg2 = Some (h_cl h) ∧
  ∀ m', reached bound m' mg1 → reached bound m' mg2.
Proof using Type.
  subst mg2. intros I Hn Hd Hm. destruct (done_handle_inv n _ I) as (mg2 & Ed & Id); [cbn; unfold more; by rewrite decide_True|].
  cbn [hm] in Ed. pose proof Ed as Ed'. unfold done_handle in Ed'. rewrite Hn in Ed'. cbn in Ed'. rewrite Hd, andb_false_r in Ed'.
  injection Ed' as <-. fold (ended n h mg1) in *.
  assert (∀ m', client_of m' (ended n h mg1) = client_of m' mg1) as Hcl by (intros m'; unfold ended; by erewrite set_node_client).
  split_and!; [cbn; by rewrite Hn|done|eapply hinv_ext; [|exact Id]; intros x; cbn; apply less_more|done| |].
  - rewrite Hcl. unfold client_of. rewrite Hm. cbn. by rewrite Hn.
  - intros m'. by eapply set_node_reached.
Qed.

(** A node that is there, and a new one. *)
Lemma use_known m mg j h b n c :
  hinv (HSys mg u) → hmap mg !! m = Some j → nodes mg !! j = Some h → h_del h = false →
  ∃ cl mg1 mg2, get_handle b n c m mg = Some (Some j, mg1) ∧ used m mg j cl mg1 mg2.
Proof using Type.
  intros I Hm Hj Hd. set (h1 := Hinfo (h_cl h) (refcnt h + 1) false (h_m h)). exists (h_cl h), (set_node j h1 mg). eexists.
  split; [unfold get_handle; rewrite Hm, Hj; cbn; by rewrite Hd|].
  assert (nodes (set_node j h1 mg) !! j = Some h1) as Hj1 by apply lookup_insert_eq.
  destruct (end_handle m (set_node j h1 mg) j h1) as (H1 & H2 & H3 & H4 & H5 & H6); [|done|done|done|].
  { apply (set_node_inv (HSys mg u) j h h1 (more j u)); [exact I|done|done|done| |]; cbn.
    - intros x Hx. unfold more. by rewrite decide_False.
    - unfold more. rewrite decide_True by done. destruct (i_node _ I j h Hj) as (_ & -> & _). cbn. lia. }
  split; [exact H1|exact H2|exact H3|exact H5| |].
  - intros m' _. rewrite H4. by erewrite set_node_client.
  - intros m' Hr. apply H6. by eapply set_node_reached.
Qed.

Lemma use_new m mg n c :
  hinv (HSys mg u) → hmap mg !! m = None → nodes mg !! n = None → c ∉ clients mg →
  ∃ mg1 mg2, get_handle true n c m mg = Some (Some n, mg1) ∧ used m mg n c mg1 mg2.
Proof using Type.
  intros I Hm Hn Hc. set (h1 := Hinfo c 1 false m).
  destruct (get_handle_inv true n c m (HSys mg u) I Hn Hc) as (r & mg1 & Eg & Ig). cbn [hm uses] in Eg, Ig.
  pose proof Eg as E. unfold get_handle in E. rewrite Hm in E. injection E as <- <-.
  match type of Ig with hinv (HSys ?g _) => set (mg1 := g) in * end. exists mg1. eexists. split; [exact Eg|].
  destruct (end_handle m mg1 n h1) as (H1 & H2 & H3 & H4 & H5 & H6); [done|apply lookup_insert_eq|done|apply lookup_insert_eq|].
  assert (∀ m' j, hmap mg !! m' = Some j → j ≠ n) as Hold.
  { intros m' j Hj ->. destruct (i_map _ I m' n Hj) as (h' & Hh & _). cbn in Hh. by rewrite Hn in Hh. }
  split; [exact H1|exact H2|exact H3|exact H5| |].
  - intros m' Hne. rewrite H4. unfold client_of, mg1. cbn. rewrite lookup_insert_ne by done.
    destruct (hmap mg !! m') as [j|] eqn:E; [|done]. cbn. rewrite lookup_insert_ne; [done|]. by apply not_eq_sym, (Hold m').
  - intros m' Hr. apply H6. unfold reached, mg1 in *. cbn. rewrite lookup_insert. case_decide; [eexists; by rewrite lookup_insert_eq|].
    destruct (hmap mg !! m') as [j|] eqn:E; [|done]. rewrite lookup_insert_ne; [done|]. by apply not_eq_sym, (Hold m').
Qed.

Lemma net_repair_one_spec heal m k :
  handles_ok k → reached bound m (k_mgr k) →
  ∃ k', net_repair_one bound heal m k = Some k' ∧ handles_ok k' ∧ same_hooks k k' ∧ link m k' = Some heal ∧
    (∀ m', m' ≠ m → link m' k' = link m' k) ∧
    ∀ m', reached bound m' (k_mgr k) → reached bound m' (k_mgr k').
Proof using Type.
  intros I Hr. set (mg := k_mgr k) in *. set (n := fresh (dom (nodes mg))). set (c := fresh (clients mg)).
  assert (∃ j cl mg1 mg2, get_handle (bound m) n c m mg = Some (Some j, mg1) ∧ used m mg j cl mg1 mg2)
    as (j & cl & mg1 & mg2 & Eg & [H1 H2 H3 H4 H5 H6]).
  { unfold reached in Hr. fold mg in Hr. destruct (hmap mg !! m) as [j|] eqn:Em.
    - destruct Hr as (h & Hj & Hd). destruct (use_known m mg j h (bound m) n c) as (cl & mg1 & mg2 & E & U); [done..|]. by eexists _, _, _, _.
    - rewrite Hr. destruct (use_new m mg n c) as (mg1 & mg2 & E & U); [done|done|apply fresh_node|apply is_fresh|]. by eexists _, _, _, _. }
  unfold net_repair_one. fold mg n c. rewrite Eg. cbn [mbind option_bind]. rewrite H1. cbn [mbind option_bind].
  rewrite H2. cbn [mbind option_bind]. eexists. split; [done|]. split_and!; [exact H3|by split_and!| | |exact H6].
  - unfold link. cbn. rewrite H4. cbn. by rewrite lookup_insert_eq.
  - intros m' Hne. unfold link. cbn. fold mg. rewrite <- H5 by done. destruct (client_of m' mg2) as [c'|] eqn:E'; [|done]. cbn.
    rewrite lookup_insert_ne; [done|]. intros <-. apply Hne. by eapply client_own.
Qed.
Lemma net_repair_loop_spec heal ms k :
  handles_ok k → (∀ m, m ∈ ms → m ≠ myaddr (k_rsm k) → reached bound m (k_mgr k)) →
  ∃ k', net_repair_loop bound heal ms k = Some k' ∧ handles_ok k' ∧ same_hooks k k' ∧
    (∀ m, m ∈ ms → m ≠ myaddr (k_rsm k) → link m k' = Some heal) ∧
    (∀ m, m ∉ ms ∨ m = myaddr (k_rsm k) → link m k' = link m k) ∧
    ∀ m', reached bound m' (k_mgr k) → reached bound m' (k_mgr k').
Proof using Type.
  revert k. induction ms as [|m ms IH]; intros k I Hr; cbn [net_repair_loop].
  { exists k. split_and!; [done|done|by split_and!|set_solver|done|done]. }
  case_bool_decide as Eme.
  - cbn [mbind option_bind]. destruct (IH k I) as (k' & E & I' & Hs & H1 & H2 & H3); [intros ??; apply Hr; set_solver|].
    exists k'. split_and!; [exact E|done|done| | |exact H3]; intros m' Hm'.
    + intros Hne. apply H1; [set_solver|done].
    + apply H2. set_solver.
  - destruct (net_repair_one_spec heal m k I) as (k1 & E1 & I1 & S1 & L1 & O1 & R1); [apply Hr; [set_solver|done]|].
    rewrite E1. cbn [mbind option_bind]. pose proof S1 as (Er & Q1&Q2&Q3&Q4&Q5).
    destruct (IH k1 I1) as (k' & E & I' & (?&?&?&?&?&?) & H1 & H2 & H3).
    { intros m' Hin Hne. rewrite Er in Hne. apply R1, Hr; [set_solver|done]. }
    rewrite Er in H1, H2. exists k'. split_and!; [exact E|exact I'|split_and!; congruence| | |].
    + intros m' Hin Hne. destruct (decide (m' ∈ ms)) as [|Hn]; [by apply H1|].
      assert (m' = m) as -> by set_solver. rewrite H2 by by left. done.
    + intros m' Hm'. rewrite H2 by set_solver. apply O1. set_solver.
    + intros m' Hm'. by apply H3, R1.
Qed.

(** The peers of the node and its links to them. *)
Definition peer k (m : cstring) : Prop := m ∈ cur (k_rsm k) ∧ m ≠ myaddr (k_rsm k).
Definition links k (b : bool) : Prop := srv_reach k = b ∧ ∀ m, peer k m → link m k = Some b.
Definition peers_reached k : Prop := ∀ m, peer k m → reached bound m (k_mgr k).

Lemma cur_again (r : rsm S) : cur (snd (curview r)) = cur r ∧ myaddr (snd (curview r)) = myaddr r ∧
  rsm_mutex (snd (curview r)) = rsm_mutex r.
Proof using Type. destruct (curview_eq r) as [_ C]. unfold same_but_cfg in C. tauto. Qed.

Lemma net_repair_spec heal k :
  handles_ok k → peers_reached k →
  ∃ k', net_repair_wo bound heal k = Some k' ∧ handles_ok k' ∧ links k' heal ∧ peers_reached k' ∧
    (∀ m, peer k' m ↔ peer k m) ∧ (∀ m, ¬ peer k m → link m k' = link m k) ∧ k_rsm k' = snd (curview (k_rsm k)) ∧
    partitioned k' = partitioned k ∧ dopartition k' = dopartition k ∧
    rsm_break1 k' = rsm_break1 k ∧ rsm_break2 k' = rsm_break2 k.
Proof using Type.
  intros I Hr. destruct (curview_eq (k_rsm k)) as [Hc _]. destruct (cur_again (k_rsm k)) as (Hc1 & Hm1 & _).
  unfold net_repair_wo. destruct (curview (k_rsm k)) as [ms r] eqn:Ec. cbn [fst snd] in *. subst ms.
  destruct (net_repair_loop_spec heal (cur (k_rsm k)) (set_k_rsm r k)) as (k1 & -> & I1 & (Er & ?&?&?&?&?) & L1 & O1 & R1);
    [done| |]; cbn [k_rsm set_k_rsm k_mgr] in *; rewrite Hm1 in *.
  { intros m Hin Hne. by apply Hr. }
  cbn [mbind option_bind]. eexists. split; [done|].
  assert (∀ m, peer (set_srv_reach heal k1) m ↔ peer k m) as Hp.
  { intros m. unfold peer. cbn [k_rsm set_srv_reach]. by rewrite Er, Hc1, Hm1. }
  split_and!; try done.
  - split; [done|]. intros m Hm%Hp. by apply L1; destruct Hm.
  - intros m Hm%Hp. apply R1, Hr, Hm.
  - intros m Hn. apply O1. unfold peer in Hn. destruct (decide (m = myaddr (k_rsm k))); [by right|]. left. by intros ?; apply Hn.
Qed.

(** The request to partition arms the node and changes no link.  At the hook the node is
    cut off from every other member of its view, in both directions, once.  The request to
    heal restores every link; handles that other threads use are not affected. *)
Theorem partition_heals k r :
  handles_ok k → peers_reached k → rsm_mutex (k_rsm k) = false → dopartition k = false →
  ∃ k1 k2 k3,
    test_net_repairreq bound (SInt 0) r k = Some (test_OK, SInt test_OK, k1) ∧ (∀ m, link m k1 = link m k) ∧
    partition1 bound k1 = Some k2 ∧ links k2 false ∧ partitioned k2 = true ∧ partition1 bound k2 = Some k2 ∧
    test_net_repairreq bound (SInt 1) r k2 = Some (test_OK, SInt test_OK, k3) ∧ links k3 true ∧ partitioned k3 = false ∧
    (∀ m, peer k3 m ↔ peer k m) ∧ (∀ m, ¬ peer k m → link m k3 = link m k) ∧ handles_ok k3.
Proof using Type.
  intros I Hr Hm Hd. set (k1 := set_partitioned false (set_dopartition true k)).
  destruct (net_repair_spec false k1) as (k2' & E2 & I2 & L2 & R2 & P2 & N2 & Er2 & _); [done|done|].
  set (k2 := set_partitioned true (set_dopartition false k2')).
  destruct (net_repair_spec true k2) as (k3' & E3 & I3 & L3 & _ & P3 & N3 & _); [done|done|].
  exists k1, k2, (set_partitioned false k3'). unfold test_net_repairreq, locked.
  assert (rsm_mutex (k_rsm k2) = false) as Hm2.
  { change (rsm_mutex (k_rsm k2') = false). rewrite Er2. destruct (cur_again (k_rsm k1)) as (_ & _ & ->). exact Hm. }
  rewrite Hm, Hm2. cbn [sint_val Z.eqb negb mbind option_bind]. rewrite E3. cbn [mbind option_bind].
  assert (partition1 bound k1 = Some k2) as Ep by (unfold partition1; cbn [dopartition k1 set_partitioned set_dopartition]; by rewrite E2).
  split_and!; try done.
  - intros m. rewrite <- (P2 m : _ ↔ peer k m). exact (P3 m).
  - intros m Hn. etransitivity; [|exact (N2 m Hn)]. apply (N3 m). by rewrite (P2 m : peer k2 m ↔ _).
Qed.
End partition.

(** ** Breakpoints of the proposer *)

(** The code of a proposal in which, as long as [dies] holds, no accept request (where
    [accepts] is false) and no decide request is sent. *)
Inductive stops (dies : proposer → Prop) (accepts : bool) : act → Prop :=
  | stops_return r : stops dies accepts (Return r)
  | stops_exit : stops dies accepts Exit
  | stops_prepare dst arg kont :
      (∀ res p, dies p → dies (fst (kont res p)) ∧ stops dies accepts (snd (kont res p))) →
      stops dies accepts (CallPrepare dst arg kont)
  | stops_accept dst arg kont :
      accepts = true → (∀ ok p, dies p → dies (fst (kont ok p)) ∧ stops dies accepts (snd (kont ok p))) →
      stops dies accepts (CallAccept dst arg kont)
  | stops_commit instance v kont :
      (∀ p, dies p → dies (fst (kont p)) ∧ stops dies accepts (snd (kont p))) →
      stops dies accepts (CallCommit instance v kont).

Definition stops_code (dies : proposer → Prop) (accepts : bool) (c : code) : Prop :=
  ∀ p, dies p → dies (fst (c p)) ∧ stops dies accepts (snd (c p)).

(** The flags are not touched by a proposal. *)
Definition flag_only (dies : proposer → Prop) : Prop :=
  ∀ p q, break1 p = break1 q → break2 p = break2 q → dies p → dies q.

Lemma finish_stops dies accepts r : flag_only dies → stops_code dies accepts (finish r).
Proof. intros F p Hp. split; [by apply (F p)|constructor]. Qed.

Lemma prepare_stops dies accepts instance nodes p_h acc v kont :
  flag_only dies → (∀ ok acc v, stops_code dies accepts (kont ok acc v)) →
  stops_code dies accepts (prepare instance nodes p_h acc v kont).
Proof.
  intros F Hk. revert p_h acc v. induction nodes as [|node nodes IH]; intros p_h acc v p Hp; cbn [prepare]; [by apply Hk|].
  split; [done|]. constructor. intros [res|] q Hq; [|by apply IH].
  destruct (_ =? 1). { split; [done|]. constructor. intros q' Hq'. by apply Hk, (F q'). }
  destruct (_ =? 0); [by apply Hk|]. destruct (_ =? 1); [|by apply IH]. destruct (_ && _); by apply IH.
Qed.

Lemma accept_stops dies instance nodes acc v kont :
  (∀ acc, stops_code dies true (kont acc)) → stops_code dies true (accept instance nodes acc v kont).
Proof.
  intros Hk. revert acc. induction nodes as [|node nodes IH]; intros acc p Hp; cbn [accept]; [by apply Hk|].
  split; [done|]. constructor; [done|]. intros [] q Hq; by apply IH.
Qed.

Lemma run_stops dies accepts n_h instance nodes v :
  flag_only dies → (∀ ok acc v, stops_code dies accepts (run_prepared instance ok acc v)) →
  stops_code dies accepts (run n_h instance nodes v).
Proof.
  intros F Hk p Hp. unfold run. destruct (negb _); [split; [done|constructor]|].
  apply prepare_stops; [done|done|]. by apply (F p).
Qed.

(** A node that was sent to breakpoint 3 asks for promises and never asks any node to accept a
    value; one that was sent to breakpoint 4 may have a value accepted and never tells
    any node to decide. *)
Theorem breakpoints_stop b n_h instance nodes v p :
  b = 3 ∨ b = 4 →
  let dies q := (if b =? 3 then break1 q else break2 q) = true in
  dies (breakpoint b p) ∧ stops_code dies (negb (b =? 3)) (run n_h instance nodes v).
Proof.
  intros Hb dies. assert (flag_only dies) as F by (intros p1 p2 E1 E2; unfold dies; by rewrite E1, E2).
  split; [by destruct Hb as [-> | ->]|]. apply run_stops; [done|]. intros ok acc v' q Hq. unfold run_prepared.
  destruct ok; [|by apply finish_stops]. destruct (majority _ _); [|by apply finish_stops].
  destruct Hb as [-> | ->]; cbn [Z.eqb Pos.eqb negb] in *.
  - change (break1 q = true) in Hq. rewrite Hq. split; [exact Hq|constructor].
  - destruct (break1 q); [split; [done|constructor]|]. apply accept_stops; [|exact Hq]. intros acc' q' Hq'.
    unfold run_accepted. destruct (majority _ _); [|by apply finish_stops].
    change (break2 q' = true) in Hq'. rewrite Hq'. split; [exact Hq'|constructor].
Qed.

(** ** The tester over the RPC library *)

Lemma atoi_s32 s n : atoi s = Some n → - 2 ^ 31 <= n < 2 ^ 31.
Proof.
  unfold atoi. assert (∀ z, chk_int z = Some n → - 2 ^ 31 <= n < 2 ^ 31) as Hc.
  { intros z. unfold chk_int, INT_MAX. destruct (_ && _) eqn:E; [|done]. intros [= <-]. lia. }
  destruct (skip_ws _) as [|c r]; [intros [= <-]; lia|]. repeat destruct (_ =? _); apply Hc.
Qed.

Section tester.
Context {S : Type} (bound : cstring → bool) (junk : nat → ascii) (cn : nat).
Implicit Types k : hooked S.

Lemma fits_sint z : - 2 ^ 31 <= z < 2 ^ 31 → fits (SInt z).
Proof using Type.
  intros Hz. split; [exact Hz|]. cbn [w_enc sint_wire_ok]. rewrite length_enc_u32. change MAX_PDU with 10485760. lia.
Qed.

Lemma test_call_ok n (meth : sint → sint → hooked S → option (Z * sint * hooked S)) a ret k' c w :
  open_session c w cn → n ≠ bind_proc → s32 n = n → xid_ c + 1 < 2 ^ 32 →
  procs_ (w_srv w) !! n = Some (rpcs_reg1 (SInt 0) meth) → - 2 ^ 31 <= a < 2 ^ 31 → 0 <= ret < 2 ^ 31 →
  meth (SInt a) (SInt 0) (service (w_srv w)) = Some (ret, SInt ret, k') →
  ∃ s', test_call junk cn n a (c, w) = (if ret =? test_OK then Some (ret, s') else None) ∧ service (w_srv (snd s')) = k'.
Proof using Type.
  intros O Hb Hs Hx Hp Ha Hr Hm. assert (fits (SInt ret)) as Hf by (apply fits_sint; lia).
  destruct (remote1_ok junk cn (rpcs_reg1 (SInt 0) meth) (SInt 0) meth n (SInt a) ret (SInt 0) (SInt ret) c w k' O Hb Hx) as (c' & w' & E & _ & Es & _);
    [by rewrite Hs|done|by apply fits_sint|done|done|exact Hf|exact (w_get_ok _ (proj1 Hf))|].
  exists (c', w'). unfold test_call. rewrite E. cbn [mbind option_bind sint_val]. done.
Qed.

Context (inet_addr : cstring → Z) (gethostbyname : cstring → option (Z * Z)).

(** What the handler does with a number. *)
Lemma breakpointreq_spec n k :
  rsm_mutex (k_rsm k) = false →
  (1 <= n <= 4 → ∃ k', breakpointreq (SInt n) (SInt 0) k = Some (test_OK, SInt test_OK, k') ∧
      rsm_break1 k' = rsm_break1 k || (n =? 1) ∧ rsm_break2 k' = rsm_break2 k || (n =? 2) ∧
      cfg_pro (r_cfg (k_rsm k')) = breakpoint n (cfg_pro (r_cfg (k_rsm k))) ∧ ∀ m, link m k' = link m k) ∧
  (¬ (1 <= n <= 4) → breakpointreq (SInt n) (SInt 0) k = Some (test_ERR, SInt test_ERR, k)).
Proof using Type.
  intros Hm. unfold breakpointreq, locked. rewrite Hm. cbn [sint_val]. split.
  - intros Hb. assert (n = 1 ∨ n = 2 ∨ n = 3 ∨ n = 4) as [-> | [-> | [-> | ->]]] by lia; cbn; eexists;
      (split; [done|]); cbn; rewrite ?orb_true_r, ?orb_false_r; by split_and!.
  - intros Hb. rewrite (proj2 (Z.eqb_neq n 1)), (proj2 (Z.eqb_neq n 2)), (proj2 (Z.eqb_neq n 3)), (proj2 (Z.eqb_neq n 4)) by lia.
    done.
Qed.

(** The tester, run against the test server of a replica whose mutex is free.  A partition
    request has the effect of the handler and prints its result.  A breakpoint from 1
    to 4 arms that breakpoint and no other and touches no link; for any other number
    the handler answers ERR and the tester ends with a failed assertion. *)
Theorem rsm_tester_runs rnd k srv w retrans rndc prog dst arg a n :
  testsvr bound rnd k = Some srv → srv_step (LAccept cn) (rpcs_world srv) = Some w →
  make_sockaddr inet_addr gethostbyname dst = Some a → atoi arg = Some n → rsm_mutex (k_rsm k) = false →
  let main command := rsm_tester inet_addr gethostbyname junk cn [prog; dst; command; arg] (new_rpcc retrans rndc, w) in
  (∀ k', test_net_repairreq bound (SInt n) (SInt 0) k = Some (test_OK, SInt test_OK, k') →
     ∃ s', main ($"partition") = Some (Repaired test_OK, s') ∧ service (w_srv (snd s')) = k') ∧
  (1 <= n <= 4 → ∃ s' k', main ($"breakpoint") = Some (Broken n test_OK, s') ∧ service (w_srv (snd s')) = k' ∧
     rsm_break1 k' = rsm_break1 k || (n =? 1) ∧ rsm_break2 k' = rsm_break2 k || (n =? 2) ∧
     cfg_pro (r_cfg (k_rsm k')) = breakpoint n (cfg_pro (r_cfg (k_rsm k))) ∧ ∀ m, link m k' = link m k) ∧
  (¬ (1 <= n <= 4) → main ($"breakpoint") = None).
Proof using Type.
  intros Hs Ha Hd Hn Hm main. destruct (bind_new junk _ _ _ _ _ _ _ retrans rndc Hs Ha) as (c1 & w1 & Eb & O & Ek & Hx & Hp).
  assert (xid_ c1 + 1 < 2 ^ 32) as Hx' by (rewrite Hx; lia).
  apply Forall_cons in Hp as [Hp1 Hp]. apply Forall_cons in Hp as [Hp2 _]. cbn [fst snd] in Hp1, Hp2.
  pose proof (atoi_s32 _ _ Hn) as Hr.
  assert (∀ command, main command =
    if bool_decide (command = $"partition") then '(r, s) ← rt_net_repair junk cn n (c1, w1); Some (Repaired r, s)
    else if bool_decide (command = $"breakpoint") then '(r, s) ← rt_breakpoint junk cn n (c1, w1); Some (Broken n r, s)
    else Some (Unknown command, (c1, w1))) as Em.
  { intros command. unfold main, rsm_tester, rsmtest_client. rewrite Hd. cbn [mbind option_bind]. rewrite Eb.
    cbn [mbind option_bind]. rewrite Hn. done. }
  split_and!; [intros k' Hk|intros Hb|intros Hb]; rewrite Em; unfold rt_net_repair, rt_breakpoint.
  - destruct (test_call_ok net_repair_num (test_net_repairreq bound) n test_OK k' c1 w1 O) as (s' & E & Es);
      [discriminate|reflexivity|exact Hx'|exact Hp1|exact Hr|unfold test_OK; lia|rewrite Ek; exact Hk|].
    exists s'. rewrite bool_decide_true by reflexivity. rewrite E, Z.eqb_refl. split; [reflexivity|exact Es].
  - rewrite bool_decide_false, bool_decide_true by done.
    destruct (proj1 (breakpointreq_spec n k Hm) Hb) as (k' & Hk & Q).
    destruct (test_call_ok breakpoint_num breakpointreq n test_OK k' c1 w1 O) as (s' & E & Es);
      [discriminate|reflexivity|exact Hx'|exact Hp2|exact Hr|unfold test_OK, test_ERR; lia|rewrite Ek; exact Hk|].
    exists s', k'. rewrite E, Z.eqb_refl. split; [reflexivity|]. split; [exact Es|exact Q].
  - rewrite bool_decide_false, bool_decide_true by done.
    pose proof (proj2 (breakpointreq_spec n k Hm) Hb) as Hk.
    destruct (test_call_ok breakpoint_num breakpointreq n test_ERR k c1 w1 O) as (s' & E & Es);
      [discriminate|reflexivity|exact Hx'|exact Hp2|exact Hr|unfold test_OK, test_ERR; lia|rewrite Ek; exact Hk|].
    rewrite E. reflexivity.
Qed.
End tester.

(** A replica with one peer, which is cut off and reached again. *)
Definition demo_view : acceptor := acceptor0 ($"5000") [].
Definition demo_hooked : hooked unit :=
  new_hooked (Rsm (Config 1 ($"5000") [$"5000"; $"5001"] (set_values {[1 := $"5000 5001 "]} demo_view)
                (new_proposer 0 ($"5000")) [] 0) () (Viewstamp 1 1) (Viewstamp 1 0) ($"5000") false [] false) new_handle_mgr.
Definition demo_testsvr : rpcs (hooked unit) :=
  default (Rpcs 0 ∅ ∅ ∅ 0 0 ∅ true demo_hooked) (testsvr (λ _, true) 7 demo_hooked).
Definition demo_tester_world : world (hooked unit) := srv_next (LAccept 1) (rpcs_world demo_testsvr).

Lemma rsm_tester_runs_witness :
  ∃ s' k', rsm_tester inet_addr_ex (λ _, None) (λ _, "?"%char) 1 [$"rsm_tester"; $"5001"; $"breakpoint"; $"3"]
      (new_rpcc true 9, demo_tester_world) = Some (Broken 3 test_OK, s') ∧
    service (w_srv (snd s')) = k' ∧ break1 (cfg_pro (r_cfg (k_rsm k'))) = true.
Proof.
  destruct (rsm_tester_runs (λ _, true) (λ _, "?"%char) 1 inet_addr_ex (λ _, None) 7 demo_hooked demo_testsvr demo_tester_world
    true 9 ($"rsm_tester") ($"5001") ($"3") (Sockaddr 16777343 (htons 5001)) 3) as (_ & H & _).
  - unfold demo_testsvr. destruct (testsvr _ 7 demo_hooked) as [s|] eqn:E; [reflexivity|discriminate E].
  - exact (accept_next demo_testsvr).
  - vm_compute. reflexivity.
  - vm_compute. reflexivity.
  - reflexivity.
  - destruct H as (s' & k' & E & Ek & _ & _ & Ep & _); [lia|]. exists s', k'. split; [exact E|]. split; [exact Ek|].
    rewrite Ep. reflexivity.
Defined.

Lemma partition_heals_witness :
  ∃ k1 k2 k3, test_net_repairreq (λ _, true) (SInt 0) (SInt 0) demo_hooked = Some (test_OK, SInt test_OK, k1) ∧
    partition1 (λ _, true) k1 = Some k2 ∧ link ($"5001") k2 = Some false ∧
    test_net_repairreq (λ _, true) (SInt 1) (SInt 0) k2 = Some (test_OK, SInt test_OK, k3) ∧ link ($"5001") k3 = Some true.
Proof.
  assert (peer demo_hooked ($"5001")) as Hp.
  { split; [|vm_compute; discriminate]. apply list_elem_of_In. vm_compute. right. left. reflexivity. }
  destruct (partition_heals (λ _, true) (λ _, 0%nat) demo_hooked (SInt 0)) as (k1 & k2 & k3 & E1 & _ & E2 & L2 & _ & _ & E3 & L3 & _ & P3 & _).
  - split; intros; done.
  - intros m Hm. unfold reached. cbn. rewrite lookup_empty. reflexivity.
  - reflexivity.
  - reflexivity.
  - exists k1, k2, k3. split; [exact E1|]. split; [exact E2|]. split; [|split; [exact E3|apply L3, P3, Hp]].
    injection E1 as <-. vm_compute in E2. injection E2 as <-. vm_compute. reflexivity.
Defined.

(** A flag that nothing else reads: no other function of rsm.cc calls the hooks, so the
    requests for breakpoints 1 and 2 and for a partition do not change what a replica does. *)
Example armed_only :
  (k_rsm <$> (snd <$> breakpointreq (SInt 1) (SInt 0) demo_hooked)) = Some (k_rsm demo_hooked) ∧
  (reach <$> (snd <$> test_net_repairreq (λ _, true) (SInt 0) (SInt 0) demo_hooked)) = Some (reach demo_hooked).
Proof. by vm_compute. Qed.
