(* ===== verification/LockServerCache.v ===== *)
(** * The caching lock server

    lock_server_cache.h and lock_server_cache.cc: the replicated lock table, the
    handlers, one round of the revoker and of the retryer thread, and the transfer
    of the state to another replica.  [None] stands for a failed assertion, for
    [exit], and for the undefined behaviour of a wire operation.

    Lock ids and sequence ids are [unsigned long long] ([ull]), client ids, states
    and counters are [int] ([sint]). *)

From S2P Require Import Prelude.
From S2P Require Import Marshall.

Record revoke_info := RevokeInfo { ri_lid : ull; ri_clid : sint; ri_seqid : ull }.

#[export] Instance revoke_info_eq_dec : EqDecision revoke_info.
Proof. solve_decision. Defined.

(** [lock_status] and [lock_protocol::xxstatus] *)
Definition FREE : sint := SInt 0.
Definition LOCKED : sint := SInt 1.
Definition REVOKING : sint := SInt 2.

Definition lock_OK : Z := 0.
Definition lock_RETRY : Z := 1.
Definition lock_RPCERR : Z := 2.

(** ** State.  [m_clid_rpcc] maps a client to the host its connection is bound to. *)

Record lsc := Lsc {
  m_lock_status : gmap ull sint;
  m_clid_rpcc : gmap sint cstring;
  m_clid_host : gmap sint cstring;
  m_lock_clid : gmap ull sint;
  m_lock_retrylist : gmap ull (list sint);
  l_revoke : list revoke_info;
  m_lock_clid_count : gmap ull (gmap sint sint);
  m_lock_seqid : gmap ull ull;
}.

Definition on_status f s := Lsc (f (m_lock_status s)) (m_clid_rpcc s) (m_clid_host s) (m_lock_clid s)
  (m_lock_retrylist s) (l_revoke s) (m_lock_clid_count s) (m_lock_seqid s).
Definition on_rpcc f s := Lsc (m_lock_status s) (f (m_clid_rpcc s)) (m_clid_host s) (m_lock_clid s)
  (m_lock_retrylist s) (l_revoke s) (m_lock_clid_count s) (m_lock_seqid s).
Definition on_host f s := Lsc (m_lock_status s) (m_clid_rpcc s) (f (m_clid_host s)) (m_lock_clid s)
  (m_lock_retrylist s) (l_revoke s) (m_lock_clid_count s) (m_lock_seqid s).
Definition on_clid f s := Lsc (m_lock_status s) (m_clid_rpcc s) (m_clid_host s) (f (m_lock_clid s))
  (m_lock_retrylist s) (l_revoke s) (m_lock_clid_count s) (m_lock_seqid s).
Definition on_retrylist f s := Lsc (m_lock_status s) (m_clid_rpcc s) (m_clid_host s) (m_lock_clid s)
  (f (m_lock_retrylist s)) (l_revoke s) (m_lock_clid_count s) (m_lock_seqid s).
Definition on_revoke f s := Lsc (m_lock_status s) (m_clid_rpcc s) (m_clid_host s) (m_lock_clid s)
  (m_lock_retrylist s) (f (l_revoke s)) (m_lock_clid_count s) (m_lock_seqid s).
Definition on_count f s := Lsc (m_lock_status s) (m_clid_rpcc s) (m_clid_host s) (m_lock_clid s)
  (m_lock_retrylist s) (l_revoke s) (f (m_lock_clid_count s)) (m_lock_seqid s).
Definition on_seqid f s := Lsc (m_lock_status s) (m_clid_rpcc s) (m_clid_host s) (m_lock_clid s)
  (m_lock_retrylist s) (l_revoke s) (m_lock_clid_count s) (f (m_lock_seqid s)).

Definition new_lsc : lsc := Lsc ∅ ∅ ∅ ∅ ∅ [] ∅ ∅.

(** [-1] converted to the element type of each map. *)
Definition no_client : sint := SInt (-1).
Definition no_seqid : ull := Ull (u64 (-1)).

(** Values of [m[k]]. *)
Definition status_of (lid : ull) (s : lsc) : sint := map_at FREE lid (m_lock_status s).
Definition clid_of (lid : ull) (s : lsc) : sint := map_at (SInt 0) lid (m_lock_clid s).
Definition seqid_of (lid : ull) (s : lsc) : ull := map_at (Ull 0) lid (m_lock_seqid s).
Definition waiters (lid : ull) (s : lsc) : list sint := map_at [] lid (m_lock_retrylist s).
Definition counts_of (lid : ull) (s : lsc) : gmap sint sint := map_at ∅ lid (m_lock_clid_count s).

(** ** Handlers *)

(** [bind host]: whether the new connection could be bound. *)
Definition subscribe (bind : cstring → bool) (clid : sint) (host : cstring) (s : lsc)
    : option (Z * lsc) :=
  let s := on_host <[clid := host]> s in
  if bind host then Some (lock_OK, on_rpcc <[clid := host]> s) else None.

(** The revoke request for the current holder of [lid]. *)
Definition push_revoke (lid : ull) (s : lsc) : lsc :=
  if negb (bool_decide (status_of lid s = REVOKING)) then
    let s := on_status <[lid := REVOKING]> s in
    on_revoke (λ l, l ++ [RevokeInfo lid (clid_of lid s) (seqid_of lid s)]) s
  else s.

(** A lock that was never seen before gets its entries. *)
Definition init_lock (lid : ull) (s : lsc) : lsc :=
  if negb (map_count lid (m_lock_status s)) then
    let s := on_status <[lid := FREE]> s in
    let s := on_retrylist <[lid := []]> s in
    let s := on_seqid <[lid := no_seqid]> s in
    on_clid <[lid := no_client]> s
  else s.

(** The lock is assigned to the client, and its counter goes up. *)
Definition grant (clid : sint) (lid seqid : ull) (s : lsc) : lsc :=
  let s := on_clid <[lid := clid]> s in
  let s := on_seqid <[lid := seqid]> s in
  let s := on_status <[lid := LOCKED]> s in
  on_count (map_update ∅ lid (λ m,
    if negb (map_count clid m) then <[clid := SInt 1]> m
    else map_update (SInt 0) clid (λ n, SInt (s32 (sint_val n + 1))) m)) s.

Definition acquire (clid : sint) (lid seqid : ull) (s : lsc) : option (Z * lsc) :=
  let s := init_lock lid s in
  if negb (map_count clid (m_clid_rpcc s)) then None else
  if bool_decide (status_of lid s = FREE) then
    let s := grant clid lid seqid s in
    let s := on_retrylist (map_touch [] lid) s in
    let s := if negb (bool_decide (waiters lid s = [])) then push_revoke lid s else s in
    Some (lock_OK, s)
  else
    let s := push_revoke lid s in
    let s := on_retrylist (map_update [] lid (λ l, l ++ [clid])) s in
    Some (lock_RETRY, s).

Definition release (clid : sint) (lid : ull) (retry : Z) (s : lsc) : option (Z * lsc) :=
  if negb (map_count clid (m_clid_rpcc s)) then None else
  let s := on_clid (map_touch (SInt 0) lid) s in
  if negb (bool_decide (clid_of lid s = clid)) then Some (lock_RPCERR, s) else
  let s := on_clid <[lid := no_client]> s in
  let s := on_seqid <[lid := no_seqid]> s in
  let s := on_status <[lid := FREE]> s in
  let s := if retry =? 1 then on_retrylist (map_update [] lid (λ l, l ++ [clid])) s else s in
  Some (lock_OK, s).

Definition stat (clid : sint) (lid : ull) (s : lsc) : option (Z * sint * lsc) :=
  if negb (map_count clid (m_clid_rpcc s)) then None else
  let s := on_count (map_touch ∅ lid) s in
  if negb (map_count clid (counts_of lid s)) then Some (lock_OK, SInt 0, s)
  else Some (lock_OK, map_at (SInt 0) clid (counts_of lid s), s).

(** ** The threads *)

(** One round of [revoker] with a non-empty list: the call of [revoke] it makes, if
    any.  [None]: a call through a null pointer. *)
Definition revoker_round (primary : bool) (s : lsc) : option (list revoke_info * lsc) :=
  match l_revoke s with
  | [] => Some ([], s)
  | info :: l =>
      let s := on_revoke (λ _, l) s in
      let lid := ri_lid info in
      let s := on_clid (map_touch (SInt 0) lid) s in
      if bool_decide (clid_of lid s = FREE) then Some ([], s) else
      let differs := negb (bool_decide (clid_of lid s = ri_clid info)) in
      let s := if differs then s else on_seqid (map_touch (Ull 0) lid) s in
      if differs || negb (bool_decide (seqid_of lid s = ri_seqid info)) then Some ([], s) else
      if primary then
        if map_count (ri_clid info) (m_clid_rpcc s) then Some ([info], s) else None
      else Some ([], s)
  end.

Definition findFreeLocks (s : lsc) : list ull :=
  fst <$> filter (λ p, snd p = FREE) (map_entries (m_lock_status s)).

(** The inner loop of [retryer]: the first waiter of every free lock. *)
Fixpoint pop_waiters (free_locks : list ull) (m : gmap ull sint) (s : lsc) : gmap ull sint * lsc :=
  match free_locks with
  | [] => (m, s)
  | lid :: free_locks =>
      let s := on_retrylist (map_touch [] lid) s in
      match waiters lid s with
      | [] => pop_waiters free_locks m s
      | c :: l => pop_waiters free_locks (<[lid := c]> m) (on_retrylist <[lid := l]> s)
      end
  end.

(** One round: the calls of [retry], in the order of the lock ids. *)
Definition retryer_round (primary : bool) (s : lsc) : option (list (ull * sint) * lsc) :=
  let '(m, s) := pop_waiters (findFreeLocks s) ∅ s in
  let calls := map_entries m in
  if negb primary then Some ([], s)
  else if forallb (λ p, map_count (snd p) (m_clid_rpcc s)) calls then Some (calls, s) else None.

(** ** State transfer *)

Definition put_revoke (i : revoke_info) (m : marshall) : option marshall :=
  m ← w_put (ri_lid i) m; m ← w_put (ri_clid i) m; w_put (ri_seqid i) m.
Definition get_revoke (u : unmarshall) : option (revoke_info * unmarshall) :=
  '(a, u) ← w_get (w_def : ull) u; '(b, u) ← w_get (w_def : sint) u;
  '(c, u) ← w_get (w_def : ull) u; Some (RevokeInfo a b c, u).

Definition put_size (n : nat) (m : marshall) : option marshall := put_uint (u32 (Z.of_nat n)) m.

Definition put_state (s : lsc) (m : marshall) : option marshall :=
  m ← w_put (m_lock_status s) m;
  m ← w_put (m_clid_host s) m;
  m ← w_put (m_lock_clid s) m;
  m ← put_size (size (m_lock_retrylist s)) m;
  m ← put_elems (λ p m, m ← w_put (fst p) m; w_put (snd p) m) (map_entries (m_lock_retrylist s)) m;
  m ← put_size (length (l_revoke s)) m;
  m ← put_elems put_revoke (l_revoke s) m;
  m ← put_size (size (m_lock_clid_count s)) m;
  m ← put_elems (λ p m, m ← w_put (fst p) m; w_put (snd p) m) (map_entries (m_lock_clid_count s)) m;
  w_put (m_lock_seqid s) m.

Definition marshal_state (s : lsc) : option cstring := put_state s new_marshall ≫= m_str.

(** Binding a connection to every host of the table. *)
Fixpoint rebind (bind : cstring → bool) (hosts : list (sint * cstring)) (s : lsc) : option lsc :=
  match hosts with
  | [] => Some s
  | (clid, host) :: hosts =>
      if bind host then rebind bind hosts (on_rpcc <[clid := host]> s) else None
  end.

Definition unmarshal_state (bind : cstring → bool) (state : cstring) (s : lsc) : option lsc :=
  u ← unmarshall_of_string state;
  '(status, u) ← w_get (m_lock_status s) u;
  let s := on_status (λ _, status) s in
  '(hosts, u) ← w_get (m_clid_host s) u;
  let s := on_host (λ _, hosts) s in
  s ← rebind bind (map_entries (m_clid_host s)) s;
  '(clids, u) ← w_get (m_lock_clid s) u;
  let s := on_clid (λ _, clids) s in
  '(n, u) ← get_uint u;
  '(lists, u) ← get_entries (Z.to_nat n) (m_lock_retrylist s) u;
  let s := on_retrylist (λ _, lists) s in
  '(n, u) ← get_uint u;
  '(revs, u) ← get_elems get_revoke (Z.to_nat n) (l_revoke s) u;
  let s := on_revoke (λ _, revs) s in
  '(n, u) ← get_uint u;
  '(counts, u) ← get_entries (Z.to_nat n) (m_lock_clid_count s) u;
  let s := on_count (λ _, counts) s in
  '(seqids, u) ← w_get (m_lock_seqid s) u;
  Some (on_seqid (λ _, seqids) s).

(** ** The transferred bytes *)

Definition revoke_enc (i : revoke_info) : cstring :=
  w_enc (ri_lid i) ++ w_enc (ri_clid i) ++ w_enc (ri_seqid i).

Definition count_enc (n : nat) : cstring := enc_u32 (Z.of_nat n).

Definition state_enc (s : lsc) : cstring :=
  w_enc (m_lock_status s) ++ w_enc (m_clid_host s) ++ w_enc (m_lock_clid s) ++
  count_enc (size (m_lock_retrylist s)) ++ concat (w_enc <$> map_entries (m_lock_retrylist s)) ++
  count_enc (length (l_revoke s)) ++ concat (revoke_enc <$> l_revoke s) ++
  count_enc (size (m_lock_clid_count s)) ++ concat (w_enc <$> map_entries (m_lock_clid_count s)) ++
  w_enc (m_lock_seqid s).

Record lsc_wf (s : lsc) : Prop := {
  wf_status : w_wf (m_lock_status s);
  wf_host : w_wf (m_clid_host s);
  wf_clid : w_wf (m_lock_clid s);
  wf_retry : w_wf (m_lock_retrylist s);
  wf_revoke : Forall (λ i, w_wf (ri_lid i) ∧ w_wf (ri_clid i) ∧ w_wf (ri_seqid i)) (l_revoke s) ∧
              Z.of_nat (length (l_revoke s)) < 2 ^ 31;
  wf_count : w_wf (m_lock_clid_count s);
  wf_seqid : w_wf (m_lock_seqid s);
  wf_size : Z.of_nat (length (state_enc s)) <= max_content;
}.

Lemma put_size_puts n : puts (put_size n) (count_enc n).
Proof. unfold count_enc. rewrite <- enc_u32_wrap. apply put_uint_puts. Qed.

Lemma put_revoke_puts i :
  w_wf (ri_lid i) ∧ w_wf (ri_clid i) ∧ w_wf (ri_seqid i) → puts (put_revoke i) (revoke_enc i).
Proof.
  intros (H1 & H2 & H3). apply puts_seq; [by apply w_put_ok|].
  apply puts_seq; by apply w_put_ok.
Qed.

Lemma get_revoke_gets i :
  w_wf (ri_lid i) ∧ w_wf (ri_clid i) ∧ w_wf (ri_seqid i) → gets get_revoke (revoke_enc i) i.
Proof.
  intros (H1 & H2 & H3). destruct i as [a b c]; cbn [ri_lid ri_clid ri_seqid] in *.
  eapply (gets_bind (w_get w_def)); [exact (w_get_ok a H1)|].
  eapply (gets_bind (w_get w_def)); [exact (w_get_ok b H2)|].
  exact (gets_map (w_get w_def) (λ c, RevokeInfo a b c) _ c (w_get_ok c H3)).
Qed.

Lemma put_pairs_puts `{WireOk A, WireOk B} (l : list (A * B)) :
  Forall w_wf l →
  puts (put_elems (λ p m, m ← w_put (fst p) m; w_put (snd p) m) l) (concat (w_enc <$> l)).
Proof.
  intros Hl. apply put_elems_puts. eapply Forall_impl; [exact Hl|].
  intros [a b] [Ha Hb]. apply puts_seq; by apply w_put_ok.
Qed.

Lemma put_state_puts s : lsc_wf s → puts (put_state s) (state_enc s).
Proof.
  intros [W1 W2 W3 [W4 _] [W5 _] [W6 _] W7 _].
  do 3 (apply puts_seq; [by apply w_put_ok|]).
  apply puts_seq; [apply put_size_puts|]. apply puts_seq; [by apply put_pairs_puts|].
  apply puts_seq; [apply put_size_puts|]. apply puts_seq.
  { apply put_elems_puts. eapply Forall_impl; [exact W5|]. apply put_revoke_puts. }
  apply puts_seq; [apply put_size_puts|]. apply puts_seq; [by apply put_pairs_puts|].
  by apply w_put_ok.
Qed.

Lemma marshal_state_eq s : lsc_wf s → marshal_state s = Some (state_enc s).
Proof.
  intros W. destruct (put_state_puts s W new_marshall [] new_marshall_rep (wf_size s W)) as (m & Hm & Hr).
  unfold marshal_state. rewrite Hm. exact (m_rep_content m (state_enc s) Hr).
Qed.

Lemma rebind_all bind hosts s :
  (∀ p, p ∈ hosts → bind (snd p) = true) →
  rebind bind hosts s = Some (on_rpcc (insert_all hosts) s).
Proof.
  revert s. induction hosts as [|[c h] hosts IH]; intros s Hb; cbn; [by destruct s|].
  pose proof (Hb (c, h)) as Hh. cbn in Hh. rewrite Hh by constructor.
  rewrite IH; [done|]. intros p Hp. apply Hb. by constructor.
Qed.

Lemma get_count_gets n : Z.of_nat n < 2 ^ 31 → gets get_uint (count_enc n) (Z.of_nat n).
Proof.
  intros Hn. eapply gets_eq; [apply get_uint_gets|]. rewrite u32_id; [done|]. unfold_int. lia.
Qed.

Lemma transfer_eq bind a b :
  lsc_wf a → (∀ c h, m_clid_host a !! c = Some h → bind h = true) →
  ∃ bytes, marshal_state a = Some bytes ∧
    unmarshal_state bind bytes b = Some
      (Lsc (m_lock_status a) (m_clid_host a ∪ m_clid_rpcc b) (m_clid_host a) (m_lock_clid a)
         (m_lock_retrylist a ∪ m_lock_retrylist b) (l_revoke b ++ l_revoke a)
         (m_lock_clid_count a ∪ m_lock_clid_count b) (m_lock_seqid a)).
Proof.
  intros W Hb. exists (state_enc a). split; [by apply marshal_state_eq|].
  destruct (unmarshall_of_string_rep (state_enc a) (wf_size a W)) as (u0 & Hu0 & R0).
  destruct W as [W1 W2 W3 [W4 L4] [W5 L5] [W6 L6] W7 _].
  unfold unmarshal_state. rewrite Hu0. cbn [mbind option_bind].
  unfold state_enc in R0. rewrite <- (app_nil_r (w_enc (m_lock_seqid a))) in R0.
  destruct (w_get_ok _ W1 _ _ _ R0) as (u1 & E1 & R1 & _).
  change (w_get (m_lock_status b) u0) with (w_get (w_def : gmap ull sint) u0). rewrite E1. cbn [mbind option_bind].
  destruct (w_get_ok _ W2 _ _ _ R1) as (u2 & E2 & R2 & _).
  change (w_get (m_clid_host _) u1) with (w_get (w_def : gmap sint cstring) u1). rewrite E2.
  cbn [mbind option_bind]. cbn [m_clid_host on_host].
  rewrite rebind_all by (intros [c h] Hp; apply map_entries_elem in Hp; by apply (Hb c)).
  cbn [mbind option_bind].
  destruct (w_get_ok _ W3 _ _ _ R2) as (u3 & E3 & R3 & _).
  change (w_get (m_lock_clid _) u2) with (w_get (w_def : gmap ull sint) u2). rewrite E3. cbn [mbind option_bind].
  destruct (get_count_gets _ L4 _ _ _ R3) as (u4 & E4 & R4 & _). rewrite E4. cbn [mbind option_bind].
  rewrite Nat2Z.id, <- map_entries_length.
  destruct (get_entries_gets _ (m_lock_retrylist b) W4 _ _ _ R4) as (u5 & E5 & R5 & _).
  cbn [m_lock_retrylist on_clid on_rpcc on_host on_status]. rewrite E5. cbn [mbind option_bind].
  destruct (get_count_gets _ L5 _ _ _ R5) as (u6 & E6 & R6 & _). rewrite E6. cbn [mbind option_bind].
  rewrite Nat2Z.id.
  assert (G7 : Forall (λ i, gets get_revoke (revoke_enc i) i) (l_revoke a))
    by (eapply Forall_impl; [exact W5|]; apply get_revoke_gets).
  destruct (get_elems_gets get_revoke revoke_enc (l_revoke a) (l_revoke b) G7 _ _ _ R6)
    as (u7 & E7 & R7 & _).
  cbn [l_revoke on_retrylist on_clid on_rpcc on_host on_status]. rewrite E7. cbn [mbind option_bind].
  destruct (get_count_gets _ L6 _ _ _ R7) as (u8 & E8 & R8 & _). rewrite E8. cbn [mbind option_bind].
  rewrite Nat2Z.id, <- map_entries_length.
  destruct (get_entries_gets _ (m_lock_clid_count b) W6 _ _ _ R8) as (u9 & E9 & R9 & _).
  cbn [m_lock_clid_count on_revoke on_retrylist on_clid on_rpcc on_host on_status]. rewrite E9.
  cbn [mbind option_bind].
  destruct (w_get_ok _ W7 _ _ _ R9) as (u10 & E10 & _).
  change (w_get (m_lock_seqid _) u9) with (w_get (w_def : gmap ull ull) u9). rewrite E10.
  cbn [mbind option_bind]. rewrite !insert_all_entries.
  unfold on_rpcc. cbn. by rewrite insert_all_entries.
Qed.

(** C35. Transfer of the lock table to another replica: [unmarshal_state] of the
    bytes of [marshal_state] succeeds.  The lock states, hosts, holders and sequence
    ids become those of the source and every client of the source is connected; the
    waiting lists and counters of the source are added to those the replica had, and
    the pending revocations are appended to its own. *)
Theorem state_transfer bind a b :
  lsc_wf a → (∀ c h, m_clid_host a !! c = Some h → bind h = true) →
  ∃ bytes, marshal_state a = Some bytes ∧
    unmarshal_state bind bytes b = Some
      (Lsc (m_lock_status a) (m_clid_host a ∪ m_clid_rpcc b) (m_clid_host a) (m_lock_clid a)
         (m_lock_retrylist a ∪ m_lock_retrylist b) (l_revoke b ++ l_revoke a)
         (m_lock_clid_count a ∪ m_lock_clid_count b) (m_lock_seqid a)).
Proof. apply transfer_eq. Qed.

Definition transfer_demo : lsc :=
  Lsc {[Ull 5 := REVOKING]} {[SInt 3 := $"h"]} {[SInt 3 := $"h"]} {[Ull 5 := SInt 3]}
    {[Ull 5 := [SInt 4]]} [RevokeInfo (Ull 5) (SInt 3) (Ull 1)] {[Ull 5 := {[SInt 3 := SInt 1]}]}
    {[Ull 5 := Ull 1]}.

Lemma state_transfer_witness :
  ∃ bytes, marshal_state transfer_demo = Some bytes ∧
    unmarshal_state (λ _, true) bytes new_lsc = Some transfer_demo.
Proof.
  destruct (state_transfer (λ _, true) transfer_demo new_lsc) as (bytes & H1 & H2); [|reflexivity|].
  - split; try (split; [repeat constructor|]); cbn; try (unfold_int; cbn; lia); try done.
    all: repeat constructor; try (unfold_int; cbn; lia).
  - exists bytes. split; [exact H1|]. rewrite H2. vm_compute. reflexivity.
Defined.

(** ** What the lock server promises

    Abstractly a lock server is the map from locks to their holders. *)

Definition spec_acquire (c : sint) (lid : ull) (h : ull → option sint) : Z * (ull → option sint) :=
  match h lid with
  | None => (lock_OK, λ l, if decide (l = lid) then Some c else h l)
  | Some _ => (lock_RETRY, h)
  end.

Definition spec_release (c : sint) (lid : ull) (h : ull → option sint) : Z * (ull → option sint) :=
  if decide (h lid = Some c) then (lock_OK, λ l, if decide (l = lid) then None else h l)
  else (lock_RPCERR, h).

(** The holders the state describes. *)
Definition holder (s : lsc) (lid : ull) : option sint :=
  if decide (status_of lid s = FREE) then None else Some (clid_of lid s).

(** Invariant: [sent] are the revocations sent so far. *)
Record lock_inv (sent : list revoke_info) (s : lsc) : Prop := {
  v_status lid : status_of lid s = FREE ∨ status_of lid s = LOCKED ∨ status_of lid s = REVOKING;
  v_free lid : status_of lid s = FREE → sint_val (clid_of lid s) <= 0;
  v_held lid : status_of lid s ≠ FREE → 0 < sint_val (clid_of lid s);
  v_locked lid : status_of lid s = LOCKED → waiters lid s = [];
  v_pending lid : status_of lid s = REVOKING →
    RevokeInfo lid (clid_of lid s) (seqid_of lid s) ∈ l_revoke s ++ sent;
}.

(** Two states with the same lock table. *)
Definition same_locks (s s' : lsc) : Prop :=
  (∀ l, status_of l s' = status_of l s) ∧ (∀ l, clid_of l s' = clid_of l s) ∧
  (∀ l, seqid_of l s' = seqid_of l s) ∧ (∀ l, waiters l s' = waiters l s) ∧
  l_revoke s' = l_revoke s.

Lemma same_locks_inv sent s s' : same_locks s s' → lock_inv sent s → lock_inv sent s'.
Proof.
  intros (H1 & H2 & H3 & H4 & H5) [V1 V2 V3 V4 V5].
  split; intros lid; rewrite ?H1, ?H2, ?H3, ?H4, ?H5; auto.
Qed.

Lemma same_locks_holder s s' lid : same_locks s s' → holder s' lid = holder s lid.
Proof. intros (H1 & H2 & _). unfold holder. by rewrite H1, H2. Qed.

(** *** [push_revoke] *)

Lemma push_revoke_fields lid s l :
  status_of l (push_revoke lid s) = (if decide (l = lid) then REVOKING else status_of l s) ∧
  clid_of l (push_revoke lid s) = clid_of l s ∧ seqid_of l (push_revoke lid s) = seqid_of l s ∧
  waiters l (push_revoke lid s) = waiters l s.
Proof.
  unfold push_revoke. case_bool_decide as H; cbn [negb].
  - case_decide; subst; done.
  - split; [|done]. unfold status_of. cbn. rewrite map_at_insert. by repeat case_decide; subst.
Qed.

Lemma push_revoke_list lid s :
  l_revoke (push_revoke lid s) =
    if decide (status_of lid s = REVOKING) then l_revoke s
    else l_revoke s ++ [RevokeInfo lid (clid_of lid s) (seqid_of lid s)].
Proof. unfold push_revoke. by case_bool_decide; case_decide. Qed.

Lemma push_revoke_inv sent lid s :
  (∀ l, l ≠ lid → status_of l s = LOCKED → waiters l s = []) →
  (∀ l, status_of l s = FREE ∨ status_of l s = LOCKED ∨ status_of l s = REVOKING) →
  (∀ l, status_of l s = FREE → sint_val (clid_of l s) <= 0) →
  (∀ l, status_of l s ≠ FREE → 0 < sint_val (clid_of l s)) →
  (∀ l, status_of l s = REVOKING → RevokeInfo l (clid_of l s) (seqid_of l s) ∈ l_revoke s ++ sent) →
  status_of lid s ≠ FREE → lock_inv sent (push_revoke lid s).
Proof.
  intros Hl Hs Hf Hh Hp Hn. split; intros l;
    destruct (push_revoke_fields lid s l) as (E1 & E2 & E3 & E4);
    rewrite ?E1, ?E2, ?E3, ?E4, ?push_revoke_list.
  - case_decide; auto.
  - case_decide; [done|auto].
  - case_decide; [subst; auto|auto].
  - case_decide; [done|auto].
  - case_decide; subst.
    + intros _. case_decide as Hr; [by apply Hp|].
      rewrite !elem_of_app. left. right. by constructor.
    + intros Hr. specialize (Hp l Hr). case_decide; [done|].
      rewrite !elem_of_app in *. naive_solver.
Qed.

(** *** The handlers *)

Lemma status_insert lid v s l :
  status_of l (on_status <[lid := v]> s) = if decide (l = lid) then v else status_of l s.
Proof. unfold status_of. cbn. rewrite map_at_insert. by repeat case_decide; subst. Qed.

Lemma init_lock_status lid s l : status_of l (init_lock lid s) = status_of l s.
Proof.
  unfold init_lock. destruct (map_count lid (m_lock_status s)) eqn:E; [done|]. cbn [negb].
  apply map_count_false in E. unfold status_of. cbn. rewrite map_at_insert.
  case_decide; [|done]. subst. unfold map_at. by rewrite E.
Qed.

Lemma init_lock_fields lid s :
  (init_lock lid s = s) ∨
  (status_of lid s = FREE ∧ l_revoke (init_lock lid s) = l_revoke s ∧
   (∀ l, clid_of l (init_lock lid s) = if decide (l = lid) then no_client else clid_of l s) ∧
   (∀ l, seqid_of l (init_lock lid s) = if decide (l = lid) then no_seqid else seqid_of l s) ∧
   (∀ l, waiters l (init_lock lid s) = if decide (l = lid) then [] else waiters l s)).
Proof.
  unfold init_lock. destruct (map_count lid (m_lock_status s)) eqn:E; [by left|right]. cbn [negb].
  apply map_count_false in E. split_and!; [unfold status_of, map_at; by rewrite E|done|..];
    intros l; unfold clid_of, seqid_of, waiters; cbn; rewrite map_at_insert;
    by repeat case_decide; subst.
Qed.

Lemma init_lock_inv sent lid s :
  lock_inv sent s → lock_inv sent (init_lock lid s) ∧ ∀ l, holder (init_lock lid s) l = holder s l.
Proof.
  intros [V1 V2 V3 V4 V5].
  destruct (init_lock_fields lid s) as [->|(Hf & Hr & Hc & Hq & Hw)]; [by repeat split|].
  split.
  - split; intros l; rewrite ?init_lock_status, ?Hc, ?Hq, ?Hw, ?Hr; auto; case_decide; auto;
      subst; rewrite ?Hf; done.
  - intros l. unfold holder. rewrite init_lock_status, Hc. repeat case_decide; subst; done.
Qed.

Lemma grant_fields clid lid seqid s l :
  let s' := on_retrylist (map_touch [] lid) (grant clid lid seqid s) in
  status_of l s' = (if decide (l = lid) then LOCKED else status_of l s) ∧
  clid_of l s' = (if decide (l = lid) then clid else clid_of l s) ∧
  seqid_of l s' = (if decide (l = lid) then seqid else seqid_of l s) ∧
  waiters l s' = waiters l s ∧ l_revoke s' = l_revoke s.
Proof.
  cbn. split_and!; unfold status_of, clid_of, seqid_of, waiters; cbn;
    rewrite ?map_at_insert, ?map_touch_at; try done; by repeat case_decide; subst.
Qed.

Lemma grant_inv sent clid lid seqid s :
  let s2 := on_retrylist (map_touch [] lid) (grant clid lid seqid s) in
  let s3 := if negb (bool_decide (waiters lid s2 = [])) then push_revoke lid s2 else s2 in
  lock_inv sent s → 0 < sint_val clid → status_of lid s = FREE → lock_inv sent s3.
Proof.
  intros s2 s3 [V1 V2 V3 V4 V5] Hc Hf.
  pose proof (grant_fields clid lid seqid s) as F. cbn zeta in F. fold s2 in F. clearbody s2.
  assert ((∀ l, status_of l s2 = FREE ∨ status_of l s2 = LOCKED ∨ status_of l s2 = REVOKING) ∧
    (∀ l, status_of l s2 = FREE → sint_val (clid_of l s2) <= 0) ∧
    (∀ l, status_of l s2 ≠ FREE → 0 < sint_val (clid_of l s2)) ∧
    (∀ l, status_of l s2 = REVOKING →
       RevokeInfo l (clid_of l s2) (seqid_of l s2) ∈ l_revoke s2 ++ sent)) as (K2 & K3 & K4 & K5).
  { split_and!; intros l; destruct (F l) as (E1 & E2 & E3 & _ & E5); rewrite ?E1, ?E2, ?E3, ?E5;
      case_decide; (done || auto). }
  subst s3. case_bool_decide as Hw; cbn [negb].
  - split; auto. intros l. destruct (F l) as (-> & _ & _ & Hwl & _). rewrite Hwl.
    case_decide; [|auto]. subst l. intros _. by rewrite <- Hwl.
  - apply push_revoke_inv; auto.
    + intros l Hl. destruct (F l) as (-> & _ & _ & -> & _). rewrite decide_False by done. auto.
    + destruct (F lid) as (-> & _). by rewrite decide_True.
Qed.

Lemma grant_holder clid lid seqid s l :
  let s2 := on_retrylist (map_touch [] lid) (grant clid lid seqid s) in
  let s3 := if negb (bool_decide (waiters lid s2 = [])) then push_revoke lid s2 else s2 in
  holder s3 l = if decide (l = lid) then Some clid else holder s l.
Proof.
  intros s2 s3. destruct (grant_fields clid lid seqid s l) as (E1 & E2 & _). fold s2 in E1, E2.
  clearbody s2. subst s3. unfold holder. destruct (push_revoke_fields lid s2 l) as (P1 & P2 & _).
  case_bool_decide; cbn [negb]; rewrite ?P1, ?P2, ?E1, E2;
    destruct (decide (l = lid)) as [->|]; done.
Qed.

Lemma refuse_inv sent clid lid s :
  let s3 := on_retrylist (map_update [] lid (λ l, l ++ [clid])) (push_revoke lid s) in
  lock_inv sent s → status_of lid s ≠ FREE →
  lock_inv sent s3 ∧ ∀ l, holder s3 l = holder s l.
Proof.
  intros s3 [V1 V2 V3 V4 V5] Hf.
  assert (Vp : lock_inv sent (push_revoke lid s)) by (apply push_revoke_inv; auto).
  assert (Hst : ∀ l, status_of l s3 = status_of l (push_revoke lid s)) by done.
  assert (Hcl : ∀ l, clid_of l s3 = clid_of l (push_revoke lid s)) by done.
  split.
  - destruct Vp as [P1 P2 P3 P4 P5]. split; auto. intros l.
    rewrite Hst. intros Hl. destruct (push_revoke_fields lid s l) as (E & _).
    rewrite E in Hl. case_decide as Hd; [done|]. unfold s3, waiters. cbn.
    unfold map_update. rewrite map_at_insert, decide_False by congruence.
    fold (waiters l (push_revoke lid s)). apply P4. by rewrite E.
  - intros l. unfold holder. rewrite Hst, Hcl.
    destruct (push_revoke_fields lid s l) as (-> & -> & _).
    destruct (decide (l = lid)) as [->|]; [|done]. by rewrite !decide_False.
Qed.

(** [acquire] grants a free lock and refuses a held one. *)
Lemma acquire_refines sent clid lid seqid s r s' :
  lock_inv sent s → 0 < sint_val clid → acquire clid lid seqid s = Some (r, s') →
  lock_inv sent s' ∧ r = fst (spec_acquire clid lid (holder s)) ∧
  ∀ l, holder s' l = snd (spec_acquire clid lid (holder s)) l.
Proof.
  intros V0 Hc H. destruct (init_lock_inv sent lid s V0) as [V Hh]. unfold acquire in H.
  assert (Hs : spec_acquire clid lid (holder s) =
    if decide (status_of lid (init_lock lid s) = FREE)
    then (lock_OK, λ l, if decide (l = lid) then Some clid else holder s l) else (lock_RETRY, holder s)).
  { unfold spec_acquire. rewrite <- Hh. unfold holder at 1. by case_decide. }
  rewrite Hs. clear Hs. revert V Hh H. generalize (init_lock lid s) as s1. intros s1 V Hh H.
  destruct (negb _); [done|]. case_bool_decide as Hf.
  - rewrite decide_True by done. injection H as <- <-. cbn [fst snd]. split; [|split; [done|]].
    + by apply (grant_inv sent).
    + intros l. rewrite <- Hh. apply (grant_holder clid lid seqid s1 l).
  - rewrite decide_False by done. injection H as <- <-. cbn [fst snd].
    destruct (refuse_inv sent clid lid s1 V Hf) as [P1 P2]. split; [done|]. split; [done|].
    intros l. by rewrite P2.
Qed.

Lemma same_locks_touch lid s : same_locks s (on_clid (map_touch (SInt 0) lid) s).
Proof. split_and!; try done. intros l. unfold clid_of. cbn. by rewrite map_touch_at. Qed.

Lemma release_refines sent clid lid retry s r s' :
  lock_inv sent s → 0 < sint_val clid → release clid lid retry s = Some (r, s') →
  lock_inv sent s' ∧ r = fst (spec_release clid lid (holder s)) ∧
  ∀ l, holder s' l = snd (spec_release clid lid (holder s)) l.
Proof.
  intros V Hc H. unfold release in H. destruct (negb (map_count _ _)); [done|].
  pose proof (same_locks_touch lid s) as T. pose proof (same_locks_inv sent _ _ T V) as V1.
  assert (Hh : ∀ l, holder (on_clid (map_touch (SInt 0) lid) s) l = holder s l)
    by (intros l; by apply same_locks_holder).
  assert (Hs : spec_release clid lid (holder s) =
    if decide (clid_of lid (on_clid (map_touch (SInt 0) lid) s) = clid)
    then (lock_OK, λ l, if decide (l = lid) then None else holder s l) else (lock_RPCERR, holder s)).
  { unfold spec_release. rewrite <- Hh. unfold holder at 1. destruct V1 as [_ W _ _ _].
    specialize (W lid). repeat case_decide; try done; [|congruence|congruence].
    subst clid. specialize (W ltac:(done)). lia. }
  rewrite Hs. revert V1 Hh H. generalize (on_clid (map_touch (SInt 0) lid) s) as s1.
  intros s1 [V1 V2 V3 V4 V5] Hh H. case_bool_decide as Hd; cbn [negb] in H.
  - rewrite decide_True by done. injection H as <- <-. cbn [fst snd].
    set (s3 := if retry =? 1 then _ else _).
    assert (F : ∀ l, status_of l s3 = (if decide (l = lid) then FREE else status_of l s1) ∧
      clid_of l s3 = (if decide (l = lid) then no_client else clid_of l s1) ∧
      seqid_of l s3 = (if decide (l = lid) then no_seqid else seqid_of l s1) ∧
      (l ≠ lid → waiters l s3 = waiters l s1) ∧ l_revoke s3 = l_revoke s1).
    { intros l. unfold s3. destruct (retry =? 1);
        unfold status_of, clid_of, seqid_of, waiters; cbn; unfold map_update; rewrite !map_at_insert;
        repeat case_decide; subst; split_and!; done. }
    clearbody s3. split; [|split; [done|]].
    + split; intros l; destruct (F l) as (E1 & E2 & E3 & E4 & E5); rewrite ?E1, ?E2, ?E3, ?E5;
        case_decide; try done; auto. intros Hl. rewrite E4 by done. auto.
    + intros l. rewrite <- Hh. unfold holder. destruct (F l) as (-> & -> & _).
      destruct (decide (l = lid)); [by rewrite decide_True|done].
  - rewrite decide_False by done. injection H as <- <-. split; [by split|]. done.
Qed.

Lemma revoker_inv sent s calls s' :
  lock_inv sent s → revoker_round true s = Some (calls, s') →
  lock_inv (calls ++ sent) s' ∧ ∀ l, holder s' l = holder s l.
Proof.
  intros V H. unfold revoker_round in H. destruct (l_revoke s) as [|info rest] eqn:Er.
  { injection H as <- <-. done. }
  set (s1 := on_clid (map_touch (SInt 0) (ri_lid info)) (on_revoke (λ _, rest) s)) in H.
  set (s2 := on_seqid (map_touch (Ull 0) (ri_lid info)) s1) in H.
  assert (F : ∀ x, x = s1 ∨ x = s2 → (∀ l, status_of l x = status_of l s) ∧
    (∀ l, clid_of l x = clid_of l s) ∧ (∀ l, seqid_of l x = seqid_of l s) ∧
    (∀ l, waiters l x = waiters l s) ∧ l_revoke x = rest).
  { intros x [-> | ->]; split_and!; try done; intros l; unfold clid_of, seqid_of; cbn;
      by rewrite map_touch_at. }
  assert (K : ∀ x c, x = s1 ∨ x = s2 →
    (info ∈ c ∨ clid_of (ri_lid info) s = FREE ∨ clid_of (ri_lid info) s ≠ ri_clid info ∨
     seqid_of (ri_lid info) s ≠ ri_seqid info) →
    lock_inv (c ++ sent) x ∧ ∀ l, holder x l = holder s l).
  { intros x c Hx Hi. destruct (F x Hx) as (E1 & E2 & E3 & E4 & E5). destruct V as [V1 V2 V3 V4 V5].
    split; [|intros l; unfold holder; by rewrite E1, E2].
    split; intros l; rewrite ?E1, ?E2, ?E3, ?E4, ?E5; auto.
    intros Hl. specialize (V5 l Hl). rewrite Er in V5.
    rewrite !elem_of_app, elem_of_cons in *. destruct V5 as [[Hin|Hin]|Hin]; [|by left|by right; right].
    right; left. subst info. cbn in Hi. destruct Hi as [Hi|[Hi|[Hi|Hi]]]; try done.
    assert (0 < sint_val (clid_of l s)) by (apply V3; by rewrite Hl). by rewrite Hi in *. }
  destruct (F s1 (or_introl eq_refl)) as (_ & C1 & Q1 & _ & _).
  destruct (F s2 (or_intror eq_refl)) as (_ & C2 & Q2 & _ & _).
  revert H. rewrite C1. case_bool_decide as H1; [intros [= <- <-]; apply K; auto|].
  case_bool_decide as H2; cbn [negb orb].
  - rewrite Q2. case_bool_decide as H3; cbn [negb]; [|intros [= <- <-]; apply K; auto].
    destruct (map_count _ _); [|done]. intros [= <- <-]. apply K; [by right|]. left. by constructor.
  - intros [= <- <-]. apply K; auto.
Qed.

Lemma pop_waiters_locks free_locks m s :
  let s' := snd (pop_waiters free_locks m s) in
  (∀ l, status_of l s' = status_of l s) ∧ (∀ l, clid_of l s' = clid_of l s) ∧
  (∀ l, seqid_of l s' = seqid_of l s) ∧ (∀ l, ∃ k, waiters l s' = drop k (waiters l s)) ∧
  l_revoke s' = l_revoke s.
Proof.
  cbn. revert m s. induction free_locks as [|lid fl IH]; intros m s; cbn [pop_waiters].
  { split_and!; try done. intros l. by exists 0%nat. }
  set (s1 := on_retrylist (map_touch [] lid) s).
  assert (W1 : ∀ l, waiters l s1 = waiters l s)
    by (intros l; unfold waiters; cbn; by rewrite map_touch_at).
  rewrite W1. destruct (waiters lid s) as [|c l'] eqn:Ew.
  - destruct (IH m s1) as (I1 & I2 & I3 & I4 & I5). split_and!; try done.
    intros l. destruct (I4 l) as [k Hk]. exists k. by rewrite Hk, W1.
  - destruct (IH (<[lid := c]> m) (on_retrylist <[lid := l']> s1)) as (I1 & I2 & I3 & I4 & I5).
    split_and!; try done. intros l. destruct (I4 l) as [k Hk]. rewrite Hk.
    unfold waiters at 1. cbn. rewrite map_at_insert. case_decide as Hd; [subst l|].
    + exists (S k). rewrite Ew. done.
    + exists k. f_equal. by rewrite <- W1.
Qed.

Lemma retryer_inv sent s calls s' :
  lock_inv sent s → retryer_round true s = Some (calls, s') →
  lock_inv sent s' ∧ ∀ l, holder s' l = holder s l.
Proof.
  intros [V1 V2 V3 V4 V5] H. unfold retryer_round in H.
  destruct (pop_waiters_locks (findFreeLocks s) ∅ s) as (E1 & E2 & E3 & E4 & E5).
  destruct (pop_waiters (findFreeLocks s) ∅ s) as [m s1]. cbn in *.
  destruct (forallb _ _); [|done]. injection H as <- <-. split.
  - split; intros l; rewrite ?E1, ?E2, ?E3, ?E5; auto. intros Hl. destruct (E4 l) as [k ->].
    rewrite V4 by done. apply drop_nil.
  - intros l. unfold holder. by rewrite E1, E2.
Qed.

(** ** Runs of the primary *)

Inductive op :=
  | OAcquire (clid : sint) (lid seqid : ull)
  | ORelease (clid : sint) (lid : ull) (retry : Z)
  | OStat (clid : sint) (lid : ull)
  | OSubscribe (bind : cstring → bool) (clid : sint) (host : cstring)
  | ORevoker
  | ORetryer.

Inductive out :=
  | OStatus (r : Z)
  | OCount (r : Z) (n : sint)
  | ORevoked (l : list revoke_info)
  | ORetried (l : list (ull * sint)).

Definition lstep (o : op) (s : lsc) : option (out * lsc) :=
  match o with
  | OAcquire c lid q => '(r, s) ← acquire c lid q s; Some (OStatus r, s)
  | ORelease c lid y => '(r, s) ← release c lid y s; Some (OStatus r, s)
  | OStat c lid => '(r, n, s) ← stat c lid s; Some (OCount r n, s)
  | OSubscribe b c h => '(r, s) ← subscribe b c h s; Some (OStatus r, s)
  | ORevoker => '(l, s) ← revoker_round true s; Some (ORevoked l, s)
  | ORetryer => '(l, s) ← retryer_round true s; Some (ORetried l, s)
  end.

(** Client ids are positive. *)
Definition op_ok (o : op) : Prop :=
  match o with
  | OAcquire c _ _ | ORelease c _ _ => 0 < sint_val c
  | _ => True
  end.

Definition revoked (x : out) : list revoke_info :=
  match x with ORevoked l => l | _ => [] end.

(** What the specification says about one step. *)
Definition spec_step (o : op) (x : out) (h h' : ull → option sint) : Prop :=
  match o with
  | OAcquire c lid _ => x = OStatus (fst (spec_acquire c lid h)) ∧ ∀ l, h' l = snd (spec_acquire c lid h) l
  | ORelease c lid _ => x = OStatus (fst (spec_release c lid h)) ∧ ∀ l, h' l = snd (spec_release c lid h) l
  | _ => ∀ l, h' l = h l
  end.

Lemma lstep_refines sent o s x s' :
  lock_inv sent s → op_ok o → lstep o s = Some (x, s') →
  lock_inv (revoked x ++ sent) s' ∧ spec_step o x (holder s) (holder s').
Proof.
  intros V Ho H. destruct o as [c lid q|c lid y|c lid|b c h| |]; cbn in *.
  - apply bind_Some in H as ([r s1] & H & E). simplify_eq.
    destruct (acquire_refines sent c lid q s r s' V Ho H) as (? & -> & ?). done.
  - apply bind_Some in H as ([r s1] & H & E). simplify_eq.
    destruct (release_refines sent c lid y s r s' V Ho H) as (? & -> & ?). done.
  - apply bind_Some in H as ([[r n] s1] & H & E). simplify_eq. unfold stat in H.
    destruct (negb (map_count c (m_clid_rpcc s))); [done|].
    assert (T : same_locks s (on_count (map_touch ∅ lid) s)) by done.
    destruct (negb _); simplify_eq; (split; [by apply (same_locks_inv sent s)|
      intros l; by apply same_locks_holder]).
  - apply bind_Some in H as ([r s1] & H & E). simplify_eq. unfold subscribe in H.
    destruct (b h); [|done]. injection H as <- <-.
    assert (T : same_locks s (on_rpcc <[c := h]> (on_host <[c := h]> s))) by done.
    split; [by apply (same_locks_inv sent s)|intros l; by apply same_locks_holder].
  - apply bind_Some in H as ([r s1] & H & E). simplify_eq. by apply revoker_inv.
  - apply bind_Some in H as ([r s1] & H & E). simplify_eq. by eapply retryer_inv.
Qed.

(** A run: the operations with their results, the last one first. *)
Inductive runs : list (op * out) → lsc → Prop :=
  | runs_new : runs [] new_lsc
  | runs_step tr s o x s' : runs tr s → op_ok o → lstep o s = Some (x, s') → runs ((o, x) :: tr) s'.

Definition all_sent (tr : list (op * out)) : list revoke_info := concat ((λ p, revoked (snd p)) <$> tr).

Lemma new_lsc_inv : lock_inv [] new_lsc.
Proof. split; intros lid; [by left|done..]. Qed.

Lemma runs_inv tr s : runs tr s → lock_inv (all_sent tr) s.
Proof.
  induction 1 as [|tr s o x s' _ IH Ho H]; [apply new_lsc_inv|].
  destruct (lstep_refines _ o s x s' IH Ho H) as [V _]. done.
Qed.

(** A lock stays with its holder until the holder releases it. *)
Lemma holder_stays tr2 tr1 s lid c q :
  runs (tr2 ++ (OAcquire c lid q, OStatus lock_OK) :: tr1) s →
  (∀ y, (ORelease c lid y, OStatus lock_OK) ∉ tr2) → holder s lid = Some c.
Proof.
  revert s. induction tr2 as [|[o x] tr2 IH]; intros s H Hn; cbn [app] in H;
    inversion H as [|tr s0 o' x' s' H0 Ho Hs]; subst; clear H;
    pose proof (runs_inv _ _ H0) as V; destruct (lstep_refines _ _ _ _ _ V Ho Hs) as [_ Hsp].
  - cbn in Hsp. destruct Hsp as [Hr Hl]. rewrite Hl. unfold spec_acquire in *.
    destruct (holder s0 lid); [done|]. cbn. by rewrite decide_True.
  - assert (Hh : holder s0 lid = Some c).
    { apply IH; [done|]. intros y Hy. apply (Hn y). by constructor. }
    destruct o as [c' l' q'|c' l' y'|c' l'|b' c' h'| |]; cbn in Hsp;
      try (by rewrite Hsp); destruct Hsp as [Hr Hl]; rewrite Hl.
    + unfold spec_acquire. destruct (holder s0 l') eqn:El; [done|]. cbn.
      destruct (decide (lid = l')) as [<-|]; [congruence|done].
    + unfold spec_release in *. destruct (decide (holder s0 l' = Some c')) as [E|]; [|done]. cbn in *.
      destruct (decide (lid = l')) as [<-|]; [|done]. rewrite Hh in E. injection E as <-.
      destruct (Hn y'). rewrite Hr. by constructor.
Qed.

Definition is_release (c : sint) (lid : ull) (p : op * out) : bool :=
  match p with
  | (ORelease c' l _, OStatus r) => bool_decide (c' = c ∧ l = lid ∧ r = lock_OK)
  | _ => false
  end.

(** Mutual exclusion: between two grants of a lock the first client released
    it.  (The trace lists the newest operation first; it may contain any operation
    of any client and rounds of both threads.) *)
Theorem mutual_exclusion tr1 tr2 c1 c2 lid q1 q2 s :
  runs ((OAcquire c2 lid q2, OStatus lock_OK) :: tr2 ++ (OAcquire c1 lid q1, OStatus lock_OK) :: tr1) s →
  ∃ y, (ORelease c1 lid y, OStatus lock_OK) ∈ tr2.
Proof.
  intros H. destruct (decide (Exists (λ p, is_release c1 lid p = true) tr2)) as [E|E].
  { apply Exists_exists in E as ([[] []] & Hin & He); try done.
    apply bool_decide_eq_true in He as (-> & -> & ->). eauto. }
  exfalso. inversion H as [|tr s0 o x s' H0 Ho Hs]; subst.
  pose proof (runs_inv _ _ H0) as V. destruct (lstep_refines _ _ _ _ _ V Ho Hs) as [_ [Hr _]].
  apply holder_stays in H0; [by unfold spec_acquire in Hr; rewrite H0 in Hr|].
  intros y Hy. apply E. apply Exists_exists. eexists. split; [exact Hy|]. by apply bool_decide_eq_true.
Qed.

(** Nobody waits unnoticed: while clients wait for a held lock, the request to
    revoke it from its current holder is queued or was sent. *)
Theorem waiting_is_revoked tr s lid c :
  runs tr s → holder s lid = Some c → waiters lid s ≠ [] →
  RevokeInfo lid c (seqid_of lid s) ∈ l_revoke s ++ all_sent tr.
Proof.
  intros H Hh Hw. destruct (runs_inv _ _ H) as [V1 V2 V3 V4 V5].
  unfold holder in Hh. case_decide; [done|]. injection Hh as <-. apply V5.
  destruct (V1 lid) as [?|[Hl|?]]; [done| |done]. by destruct (Hw (V4 lid Hl)).
Qed.

(** *** A concrete run *)

Fixpoint lexec (os : list op) (tr : list (op * out)) (s : lsc) : option (list (op * out) * lsc) :=
  match os with
  | [] => Some (tr, s)
  | o :: os => '(x, s) ← lstep o s; lexec os ((o, x) :: tr) s
  end.

Lemma lexec_runs os tr s tr' s' :
  runs tr s → Forall op_ok os → lexec os tr s = Some (tr', s') → runs tr' s'.
Proof.
  revert tr s. induction os as [|o os IH]; intros tr s Hr Ho H; cbn in H; [by simplify_eq|].
  apply bind_Some in H as ([x s1] & H1 & H). apply Forall_cons in Ho as [Ho Hos].
  apply (IH ((o, x) :: tr) s1); [|done|done]. by econstructor.
Qed.

Definition handover : list op :=
  [OSubscribe (λ _, true) (SInt 3) ($"h3"); OSubscribe (λ _, true) (SInt 4) ($"h4");
   OAcquire (SInt 3) (Ull 9) (Ull 1); OAcquire (SInt 4) (Ull 9) (Ull 1); ORevoker;
   ORelease (SInt 3) (Ull 9) 0; ORetryer; OAcquire (SInt 4) (Ull 9) (Ull 2)].

Lemma handover_ok n : Forall op_ok (take n handover).
Proof. apply Forall_take. repeat constructor. Qed.

Lemma mutual_exclusion_witness :
  let tr2 := [(ORetryer, ORetried [(Ull 9, SInt 4)]); (ORelease (SInt 3) (Ull 9) 0, OStatus lock_OK);
    (ORevoker, ORevoked [RevokeInfo (Ull 9) (SInt 3) (Ull 1)]);
    (OAcquire (SInt 4) (Ull 9) (Ull 1), OStatus lock_RETRY)] in
  ∃ y, (ORelease (SInt 3) (Ull 9) y, OStatus lock_OK) ∈ tr2.
Proof.
  intros tr2.
  destruct (lexec handover [] new_lsc) as [[tr s]|] eqn:E; [|vm_compute in E; discriminate].
  pose proof (lexec_runs handover [] new_lsc tr s runs_new (handover_ok 8) E) as R.
  vm_compute in E. injection E as <- <-.
  eapply (mutual_exclusion _ tr2 (SInt 3) (SInt 4) (Ull 9) (Ull 1) (Ull 2)). exact R.
Defined.

Lemma waiting_is_revoked_witness :
  ∃ tr s, runs tr s ∧ RevokeInfo (Ull 9) (SInt 3) (seqid_of (Ull 9) s) ∈ l_revoke s ++ all_sent tr.
Proof.
  destruct (lexec (take 5 handover) [] new_lsc) as [[tr s]|] eqn:E; [|vm_compute in E; discriminate].
  pose proof (lexec_runs (take 5 handover) [] new_lsc tr s runs_new (handover_ok 5) E) as R.
  exists tr, s. split; [exact R|].
  apply (waiting_is_revoked tr s (Ull 9) (SInt 3) R); vm_compute in E; injection E as <- <-;
    vm_compute; [reflexivity|discriminate].
Defined.

(** A backup takes revocations off its list without sending them; if it then becomes
    the primary, the waiting client's lock is never revoked. *)
Example backup_drops_revocations :
  let s := default new_lsc (snd <$> lexec (take 4 handover) [] new_lsc) in
  l_revoke s = [RevokeInfo (Ull 9) (SInt 3) (Ull 1)] ∧
  match revoker_round false s with
  | Some (calls, s') => calls = [] ∧ l_revoke s' = [] ∧ status_of (Ull 9) s' = REVOKING
  | None => False
  end.
Proof. vm_compute. repeat split. Qed.

(** A client with id 0: its revocations are skipped, because the holder is compared
    with the lock state [FREE]. *)
Example client_zero_not_revoked :
  let s := Lsc {[Ull 9 := REVOKING]} {[SInt 0 := $"h"]} ∅ {[Ull 9 := SInt 0]} {[Ull 9 := [SInt 4]]}
             [RevokeInfo (Ull 9) (SInt 0) (Ull 1)] ∅ {[Ull 9 := Ull 1]} in
  fst <$> revoker_round true s = Some [].
Proof. vm_compute. reflexivity. Qed.

(** ** Counters *)

Fixpoint grants (c : sint) (lid : ull) (tr : list (op * out)) : Z :=
  match tr with
  | [] => 0
  | (OAcquire c' l _, OStatus r) :: tr =>
      grants c lid tr + (if decide (c' = c ∧ l = lid ∧ r = lock_OK) then 1 else 0)
  | _ :: tr => grants c lid tr
  end.

Definition count_of (c : sint) (lid : ull) (s : lsc) : Z :=
  match counts_of lid s !! c with Some n => sint_val n | None => 0 end.

Lemma acquire_count c lid q s r s' d l :
  acquire c lid q s = Some (r, s') →
  count_of d l s' = if decide (c = d ∧ lid = l ∧ r = lock_OK) then s32 (count_of d l s + 1) else count_of d l s.
Proof.
  intros H. unfold acquire in H.
  assert (Hi : ∀ x y, count_of x y (init_lock lid s) = count_of x y s)
    by (clear; intros x y; unfold init_lock; destruct (negb _); reflexivity).
  rewrite <- Hi. revert H. generalize (init_lock lid s) as s1. clear s Hi. intros s H.
  destruct (negb (map_count _ _)); [done|].
  assert (Hp : ∀ x, count_of d l (push_revoke lid x) = count_of d l x)
    by (clear; intros x; unfold push_revoke; destruct (negb _); reflexivity).
  case_bool_decide as Hf.
  - assert (Hc : count_of d l s' = count_of d l (grant c lid q s)).
    { destruct (negb _) in H; injection H as <- <-; [by rewrite Hp|done]. }
    assert (r = lock_OK) as -> by (destruct (negb _) in H; congruence).
    rewrite Hc. unfold count_of, counts_of, grant. cbn. unfold map_update. rewrite map_at_insert.
    destruct (decide (lid = l)) as [->|].
    + set (m := map_at ∅ l (m_lock_clid_count s)). unfold map_count.
      destruct (m !! c) as [n|] eqn:Em; cbn [negb].
      * rewrite lookup_insert. case_decide as Hcd.
        -- subst d. rewrite decide_True by done. rewrite (map_at_some _ _ _ _ Em), Em. done.
        -- rewrite decide_False by naive_solver. done.
      * rewrite lookup_insert. case_decide as Hcd.
        -- subst d. rewrite decide_True by done. by rewrite Em.
        -- rewrite decide_False by naive_solver. done.
    + rewrite decide_False by naive_solver. done.
  - injection H as <- <-. rewrite decide_False by naive_solver.
    rewrite <- (Hp s). done.
Qed.

Lemma pop_waiters_counts fl m s :
  m_lock_clid_count (snd (pop_waiters fl m s)) = m_lock_clid_count s.
Proof.
  revert m s. induction fl as [|lid fl IH]; intros m s; cbn; [done|].
  destruct (waiters _ _); by rewrite IH.
Qed.

(** Operations other than [acquire] leave the counters. *)
Lemma other_count o s x s' c lid :
  lstep o s = Some (x, s') → match o with OAcquire _ _ _ => True | _ => count_of c lid s' = count_of c lid s end.
Proof.
  intros H. destruct o as [c' l' q|c' l' y|c' l'|b c' h| |]; cbn in H; [done|..].
  all: try apply bind_Some in H as ([r s1] & H & E); simplify_eq.
  - unfold release in H. destruct (negb _); [done|]. destruct (negb _); [by simplify_eq|].
    destruct (y =? 1); by simplify_eq.
  - destruct r as [r n]. simplify_eq. unfold stat in H.
    destruct (negb (map_count c' (m_clid_rpcc s))); [done|].
    assert (Ht : count_of c lid (on_count (map_touch ∅ l') s) = count_of c lid s)
      by (unfold count_of, counts_of; cbn; by rewrite map_touch_at).
    destruct (negb _); by simplify_eq.
  - unfold subscribe in H. destruct (b h); [|done]. by simplify_eq.
  - unfold revoker_round in H. destruct (l_revoke s); [by simplify_eq|].
    repeat case_bool_decide; cbn in H; try destruct (map_count _ _); by simplify_eq.
  - unfold retryer_round in H. pose proof (pop_waiters_counts (findFreeLocks s) ∅ s) as Hp.
    destruct (pop_waiters _ _ _) as [m s1]. cbn in *. destruct (forallb _ _); [|done].
    simplify_eq. unfold count_of, counts_of. by rewrite Hp.
Qed.

Lemma stat_count c lid s n s' :
  stat c lid s = Some (lock_OK, n, s') → sint_val n = count_of c lid s.
Proof.
  unfold stat. destruct (negb (map_count c (m_clid_rpcc s))); [done|].
  unfold count_of. assert (Hc : counts_of lid (on_count (map_touch ∅ lid) s) = counts_of lid s)
    by (unfold counts_of; cbn; by rewrite map_touch_at).
  rewrite Hc. unfold map_count, map_at. destruct (counts_of lid s !! c); cbn; intros; by simplify_eq.
Qed.

Lemma s32_succ z : s32 (s32 z + 1) = s32 (z + 1).
Proof.
  apply s32_u32_eq. unfold u32. rewrite <- (Zplus_mod_idemp_l z), <- (Zplus_mod_idemp_l (s32 z)).
  by rewrite (u32_s32 z : s32 z mod 2 ^ 32 = z mod 2 ^ 32).
Qed.

(** [stat] answers with the number of times the lock was granted to the
    client, as the [int] counter holds it. *)
Theorem stat_counts_grants tr s c lid n s' :
  runs tr s → stat c lid s = Some (lock_OK, n, s') → sint_val n = s32 (grants c lid tr).
Proof.
  intros H ->%stat_count. induction H as [|tr s o x s1 _ IH Ho H]; [done|].
  pose proof (other_count o s x s1 c lid H) as Hc.
  destruct o as [c' l' q|c' l' y|c' l'|b c' h| |]; cbn [grants]; rewrite ?Hc, <- ?IH; try done.
  cbn in H. apply bind_Some in H as ([r s2] & H & E). simplify_eq.
  rewrite (acquire_count _ _ _ _ _ _ c lid H), IH.
  destruct (decide _); [by rewrite s32_succ|by rewrite Z.add_0_r].
Qed.

Lemma stat_counts_grants_witness :
  ∃ tr s, runs tr s ∧ grants (SInt 3) (Ull 9) tr = 1 ∧
    ∀ n s', stat (SInt 3) (Ull 9) s = Some (lock_OK, n, s') → sint_val n = s32 (grants (SInt 3) (Ull 9) tr).
Proof.
  destruct (lexec handover [] new_lsc) as [[tr s]|] eqn:E; [|vm_compute in E; discriminate].
  pose proof (lexec_runs handover [] new_lsc tr s runs_new (handover_ok 8) E) as R.
  exists tr, s. split; [exact R|]. split.
  - vm_compute in E. injection E as <- _. vm_compute. reflexivity.
  - intros n s' Hs. exact (stat_counts_grants tr s (SInt 3) (Ull 9) n s' R Hs).
Defined.
