(* ===== verification/LockReplica.v ===== *)
(** * The replicated lock server

    lock_smain.cc registers the handlers of the caching lock server with the
    replicated state machine.  This file discharges the interfaces the replication
    relies on for that service, so that the theorems about replication and about
    the lock table hold together. *)

From S2P Require Import Prelude.
From S2P Require Import Marshall.
From S2P Require Import Protocol.
From S2P Require Import Config.
From S2P Require Import Rsm.
From S2P Require Import LockServerCache.

(** RPC numbers of lock_protocol.h *)
Definition acquire_num : Z := 28673.
Definition release_num : Z := 28674.
Definition subscribe_num : Z := 28675.
Definition stat_num : Z := 28676.

Section service.
Variables (bind : cstring → bool) (r0 : sint).

(** The handlers as methods with an unused [int &]. *)
Definition do_stat (c : sint) (l : ull) (r : sint) (s : lsc) : option (Z * sint * lsc) :=
  stat c l s.
Definition do_acquire (c : sint) (l q : ull) (r : sint) (s : lsc) : option (Z * sint * lsc) :=
  '(b, s) ← acquire c l q s; Some (b, r, s).
Definition do_release (c : sint) (l : ull) (y : sint) (r : sint) (s : lsc)
    : option (Z * sint * lsc) :=
  '(b, s) ← release c l (sint_val y) s; Some (b, r, s).
Definition do_subscribe (c : sint) (h : cstring) (r : sint) (s : lsc) : option (Z * sint * lsc) :=
  '(b, s) ← subscribe bind c h s; Some (b, r, s).

Definition lock_procs : gmap Z (proc lsc) :=
  rsm_reg subscribe_num (reg2 r0 do_subscribe)
  (rsm_reg release_num (reg3 r0 do_release)
  (rsm_reg acquire_num (reg3 r0 do_acquire)
  (rsm_reg stat_num (reg2 r0 do_stat) ∅))).

Lemma acquire_status c l q s b s' : acquire c l q s = Some (b, s') → status_ok b.
Proof using Type.
  unfold acquire. destruct (negb _); [done|]. case_bool_decide; intros [= <- _];
    (split; [unfold_int; unfold lock_OK, lock_RETRY; lia|unfold lock_OK, lock_RETRY; lia]).
Qed.

Lemma release_status c l y s b s' : release c l y s = Some (b, s') → status_ok b.
Proof using Type.
  unfold release. destruct (negb _); [done|]. destruct (negb _); intros [= <- _];
    (split; [unfold_int; unfold lock_OK, lock_RPCERR; lia|unfold lock_OK, lock_RPCERR; lia]).
Qed.

Lemma stat_status c l s b n s' : stat c l s = Some (b, n, s') → status_ok b.
Proof using Type.
  unfold stat. destruct (negb _); [done|]. destruct (negb _); intros [= <- _ _];
    (split; [unfold_int; unfold lock_OK; lia|unfold lock_OK; lia]).
Qed.

Lemma lock_answers : answers lock_procs.
Proof using Type.
  apply answers_procs. intros n h Hh. unfold lock_procs, rsm_reg in Hh.
  repeat (apply lookup_insert_Some in Hh as [[_ <-]|[_ Hh]]); [..|by rewrite lookup_empty in Hh].
  - apply reg2_ok. intros c h r x b r' x' Hm. unfold do_subscribe, subscribe in Hm.
    destruct (bind h); [|done]. injection Hm as <- _ _. split; [unfold_int|]; unfold lock_OK; lia.
  - apply reg3_ok. intros c l y r x b r' x' Hm. apply bind_Some in Hm as ([b1 s1] & Hm & [= <- _ _]).
    by eapply release_status.
  - apply reg3_ok. intros c l q r x b r' x' Hm. apply bind_Some in Hm as ([b1 s1] & Hm & [= <- _ _]).
    by eapply acquire_status.
  - apply reg2_ok. intros c l r x b r' x' Hm. by eapply stat_status.
Qed.
End service.

(** Lock tables that differ only in the connections a replica has open. *)
Definition lsc_equiv (a b : lsc) : Prop :=
  m_lock_status a = m_lock_status b ∧ m_clid_host a = m_clid_host b ∧ m_lock_clid a = m_lock_clid b ∧
  m_lock_retrylist a = m_lock_retrylist b ∧ l_revoke a = l_revoke b ∧
  m_lock_clid_count a = m_lock_clid_count b ∧ m_lock_seqid a = m_lock_seqid b.

Section transfer.
Variable bind : cstring → bool.

Instance lock_transfer : StateTransfer lsc := {
  st_marshal := marshal_state; st_unmarshal := unmarshal_state bind;
}.

Program Instance lock_transfer_ok : StateTransferOk lsc := {
  st_wf a := lsc_wf a ∧ ∀ c h, m_clid_host a !! c = Some h → bind h = true;
  st_fresh b := m_lock_retrylist b = ∅ ∧ l_revoke b = [] ∧ m_lock_clid_count b = ∅;
  st_equiv := lsc_equiv;
}.
Next Obligation.
  intros a b [W Hb] (F1 & F2 & F3). destruct (transfer_eq bind a b W Hb) as (bytes & H1 & H2).
  exists bytes. eexists. split; [done|]. split; [done|]. unfold lsc_equiv. cbn.
  rewrite F1, F2, F3, !(right_id_L ∅ (∪)). done.
Qed.

(** A replica of the lock server with an empty lock table that joins the
    group holds the primary's lock table afterwards: the same holders, waiting clients,
    pending revocations and counters. *)
Theorem lock_table_transferred (p b : rsm lsc) tr0 :
  rsm_mutex p = false → lsc_wf (r_service p) →
  (∀ c h, m_clid_host (r_service p) !! c = Some h → bind h = true) →
  r_service b = new_lsc → vs_neqb (myvs b) (myvs p) = true →
  ∃ res b', transferreq (myvs b) tr0 p = Some (rsm_OK, res, p) ∧
    statetransfer (Some res) b = Some (true, b') ∧ myvs b' = myvs p ∧
    lsc_equiv (r_service p) (r_service b') ∧
    ∀ lid, holder (r_service b') lid = holder (r_service p) lid.
Proof using Type.
  intros Hm W Hb Hn Hvs.
  destruct (st_transfer (r_service p) (r_service b)) as (bytes & c & H1 & H2 & H3);
    [done|by rewrite Hn|].
  unfold transferreq, statetransfer, locked. rewrite Hm, Hvs, H1. cbn [mbind option_bind].
  eexists _, _. split; [done|]. cbn [tr_last tr_state]. rewrite Hvs, H2. cbn [mbind option_bind].
  split; [done|]. split; [done|]. split; [done|]. intros lid. cbn.
  destruct H3 as (E1 & _ & E3 & _). unfold holder, status_of, clid_of. by rewrite E1, E3.
Qed.
End transfer.

Lemma lock_table_transferred_witness :
  let c := Config 3 ($"a") [] (Log.Acceptor ($"a") (Prop_t 0 []) (Prop_t 0 []) [] 3 ∅ [])
             (Paxos.new_proposer 0 ($"a")) [] 0 in
  let p := Rsm c transfer_demo (Viewstamp 3 7) (Viewstamp 3 6) ($"a") false [] false in
  let b := Rsm c new_lsc (Viewstamp 0 1) (Viewstamp 0 0) ($"a") true [] false in
  ∃ b', holder (r_service b') (Ull 5) = Some (SInt 3) ∧ myvs b' = Viewstamp 3 7.
Proof.
  intros c p b.
  destruct (lock_table_transferred (λ _, true) p b (Transferres [] (Viewstamp 0 0)))
    as (res & b' & _ & _ & H3 & _ & H5); [reflexivity| |reflexivity|reflexivity|reflexivity|].
  - split; try (split; [repeat constructor|]); cbn; try (unfold_int; cbn; lia); try done.
    all: repeat constructor; try (unfold_int; cbn; lia).
  - exists b'. split; [rewrite H5; reflexivity|exact H3].
Defined.


(** Three replicas of the lock server; clients 3 and 4 subscribe, 3 acquires lock 5
    and 4 asks for it. *)
Definition lock_replica (me : cstring) : rsm lsc :=
  Rsm (view3 me) new_lsc (Viewstamp 3 7) (Viewstamp 3 7) ($"a") false [] false.
Definition lock_group : gmap cstring (rsm lsc) :=
  {[$"b" := lock_replica ($"b"); $"c" := lock_replica ($"c")]}.
Definition lock_reqs : list (Z * cstring) :=
  [(subscribe_num, enc_u32 3 ++ enc_string ($"h:1")); (subscribe_num, enc_u32 4 ++ enc_string ($"h:2"));
   (acquire_num, enc_u32 3 ++ enc_u64 5 ++ enc_u64 1);
   (acquire_num, enc_u32 4 ++ enc_u64 5 ++ enc_u64 1)].

Lemma lock_group_insync : insync (lock_replica ($"a")) lock_group.
Proof.
  split; [done|]. split; [done|]. split; [done|]. split; [unfold_int; cbn; lia|].
  intros m Hm Hne. replace (cur _) with [$"a"; $"b"; $"c"] in Hm by (vm_compute; reflexivity).
  apply elem_of_cons in Hm as [->|Hm]; [done|].
  apply elem_of_cons in Hm as [->|Hm]; [eexists; split; [vm_compute; reflexivity|done]|].
  apply elem_of_cons in Hm as [->|Hm]; [eexists; split; [vm_compute; reflexivity|done]|].
  by apply elem_of_nil in Hm.
Qed.

