(* ===== verification/RsmClient.v ===== *)
(** * The client of the replicated state machine

    rsm_client.cc and the templates of rsm_client.h: the client keeps a connection to the
    replica it takes for the primary, asks another one when that fails or is not the
    primary, and wraps typed calls.  The replicas are a parameter: what an address answers
    to [invoke], to [members] and to [bind]; they are instantiated with the replicas of Rsm.v. *)

From S2P Require Import Prelude.
From S2P Require Import Marshall.
From S2P Require Import Protocol.
From S2P Require Import RpcStubs.
From S2P Require Import Config.
From S2P Require Import Rsm.

(** ** State *)

(** [p_nref]: threads that are in a call at the primary. *)
Record rsm_client := RsmClient { p_id : cstring; p_nref : Z; known_mems : list cstring }.

Definition set_mems (l : list cstring) (c : rsm_client) : rsm_client := RsmClient (p_id c) (p_nref c) l.

(** How a method ends: it returns, calls [exit], fails an assertion, or the loop has
    not ended within the fuel. *)
Inductive outcome (A : Type) := Returned (a : A) | Exited | Failed | NoFuel.
Arguments Returned {_} _.
Arguments Exited {_}.
Arguments Failed {_}.
Arguments NoFuel {_}.

#[export] Instance outcome_ret : MRet outcome := λ A a, Returned a.
#[export] Instance outcome_bind : MBind outcome := λ A B f o,
  match o with Returned a => f a | Exited => Exited | Failed => Failed | NoFuel => NoFuel end.

Section client.
Context {W : Type}.
(** Remote calls at an address: [ret] and the result; negative values are failures of the
    call, which leave the result as it is. *)
Variable call_invoke_at : cstring → Z → cstring → W → Z * cstring * W.
Variable call_members : cstring → W → Z * list cstring * W.
Variable call_bind : cstring → W → Z * W.

(** The end of [init_members] and the middle of [primary_failure]: go to [new_primary]. *)
Definition switch_primary (new_primary : cstring) (c : rsm_client) (w : W) : outcome (bool * rsm_client * W) :=
  if bool_decide (new_primary = p_id c) then Returned (true, c, w) else
  if negb (p_nref c =? 0) then Failed else
  let c := RsmClient new_primary (p_nref c) (known_mems c) in
  let '(ret, w) := call_bind (p_id c) w in
  Returned (negb (ret <? 0), c, w).

Definition init_members (c : rsm_client) (w : W) : outcome (bool * rsm_client * W) :=
  let '(ret, mems, w) := call_members (p_id c) w in
  let c := if ret <? 0 then c else set_mems mems c in
  if negb (ret =? rsm_OK) then Returned (false, c, w) else
  match rev (known_mems c) with
  | [] => Failed
  | new_primary :: l => switch_primary new_primary (set_mems (rev l) c) w
  end.

Fixpoint primary_failure (fuel : nat) (c : rsm_client) (w : W) : outcome (rsm_client * W) :=
  match fuel with
  | O => NoFuel
  | S fuel =>
      match rev (known_mems c) with
      | [] => Exited
      | new_primary :: l =>
          '(_, c, w) ← switch_primary new_primary (set_mems (rev l) c) w;
          '(r, c, w) ← init_members c w;
          if r : bool then Returned (c, w) else primary_failure fuel c w
      end
  end.

(** The status, the reply and the new states; the other threads leave the client alone. *)
Fixpoint invoke (fuel : nat) (proc : Z) (req rep : cstring) (c : rsm_client) (w : W)
    : outcome (Z * cstring * rsm_client * W) :=
  match fuel with
  | O => NoFuel
  | S fuel =>
      let '(ret, rep', w) := call_invoke_at (p_id c) proc req w in
      let rep := if ret <? 0 then rep else rep' in
      if ret =? rsm_OK then Returned (ret, rep, c, w) else
      if ret =? rsm_BUSY then invoke fuel proc req rep c w else
      '(again, c, w) ← (if ret =? rsm_NOTPRIMARY then init_members c w else Returned (false, c, w));
      if again : bool then invoke fuel proc req rep c w else
      '(c, w) ← primary_failure fuel c w;
      invoke fuel proc req rep c w
  end.

(** The constructor, after [bind]. *)
Definition new_rsm_client (dst : cstring) (w : W) : outcome (rsm_client * W) :=
  let '(ret, w) := call_bind dst w in
  if ret <? 0 then Exited else
  '(r, c, w) ← init_members (RsmClient dst 0 []) w;
  if r : bool then Returned (c, w) else Failed.

(** ** Typed calls; the arguments are in [m] *)

Section stubs.
Context {A1 A2 A3 A4 A5 R : Type} `{Wire A1, Wire A2, Wire A3, Wire A4, Wire A5, Wire R}.

Definition rsm_finish (fuel : nat) (proc : Z) (m : marshall) (r : R) (c : rsm_client) (w : W)
    : outcome (Z * R * rsm_client * W) :=
  match m_str m with
  | None => Failed
  | Some req =>
      '(_, rep, c, w) ← invoke fuel proc req [] c w;
      match ('(intret, u) ← (u ← unmarshall_of_string rep; get_int u);
             '(res, u) ← get_string [] u;
             u1 ← unmarshall_of_string res; '(r, _) ← w_get r u1; Some (intret, r)) with
      | Some (intret, r) => Returned (intret, r, c, w)
      | None => Failed
      end
  end.

Definition marshalled (o : option marshall) (k : marshall → outcome (Z * R * rsm_client * W))
    : outcome (Z * R * rsm_client * W) := match o with None => Failed | Some m => k m end.

Definition rsm_call1 (fuel : nat) (proc : Z) (a1 : A1) (r : R) (c : rsm_client) (w : W) :=
  marshalled (w_put a1 new_marshall) (λ m, rsm_finish fuel proc m r c w).

Definition rsm_call2 (fuel : nat) (proc : Z) (a1 : A1) (a2 : A2) (r : R) (c : rsm_client) (w : W) :=
  marshalled (m ← w_put a1 new_marshall; w_put a2 m) (λ m, rsm_finish fuel proc m r c w).

Definition rsm_call3 (fuel : nat) (proc : Z) (a1 : A1) (a2 : A2) (a3 : A3) (r : R) (c : rsm_client) (w : W) :=
  marshalled (m ← w_put a1 new_marshall; m ← w_put a2 m; w_put a3 m) (λ m, rsm_finish fuel proc m r c w).

Definition rsm_call4 (fuel : nat) (proc : Z) (a1 : A1) (a2 : A2) (a3 : A3) (a4 : A4) (r : R) (c : rsm_client) (w : W) :=
  marshalled (m ← w_put a1 new_marshall; m ← w_put a2 m; m ← w_put a3 m; w_put a4 m)
    (λ m, rsm_finish fuel proc m r c w).

Definition rsm_call5 (fuel : nat) (proc : Z) (a1 : A1) (a2 : A2) (a3 : A3) (a4 : A4) (a5 : A5) (r : R)
    (c : rsm_client) (w : W) :=
  marshalled (m ← w_put a1 new_marshall; m ← w_put a2 m; m ← w_put a3 m; m ← w_put a4 m; w_put a5 m)
    (λ m, rsm_finish fuel proc m r c w).
End stubs.
End client.

(** ** Against the replicas of Rsm.v *)

Section replicas.
Context {S : Type} (procs : gmap Z (proc S)) (links : cstring → link).

(** The replicas by address. *)
Local Notation replicas := (gmap cstring (rsm S)).

Definition at_invoke (a : cstring) (n : Z) (req : cstring) (w : replicas) : Z * cstring * replicas :=
  match w !! a with
  | None => (-1, [], w)
  | Some s =>
      match client_invoke procs links n req [] s (delete a w) with
      | None => (-1, [], w)
      | Some (ret, rep, s, bs) => (ret, rep, <[a := s]> bs)
      end
  end.

Definition at_members (a : cstring) (w : replicas) : Z * list cstring * replicas :=
  match w !! a with
  | None => (-1, [], w)
  | Some s =>
      match client_members s with
      | None => (-1, [], w)
      | Some (ret, mems, s) => (ret, mems, <[a := s]> w)
      end
  end.

Definition at_bind (a : cstring) (w : replicas) : Z * replicas := (if decide (is_Some (w !! a)) then 0 else -6, w).

(** The replica at [p] is the primary, its service state is [x], and the backups are in
    sync. *)
Definition led_by (p : cstring) (w : replicas) (x : S) : Prop :=
  ∃ s, w !! p = Some s ∧ myaddr s = p ∧ r_service s = x ∧ insync s (delete p w).

(** A replica that knows the primary and is not it. *)
Definition follows (p a : cstring) (w : replicas) : Prop :=
  ∃ b, w !! a = Some b ∧ a ≠ p ∧ myaddr b = a ∧ r_primary b = p ∧ inviewchange b = false ∧ rsm_mutex b = false.

Hypothesis Hlinks : ∀ m, links m = Reachable.
Hypothesis Hanswers : answers procs.

Lemma primary_serves p w x n req rep x' :
  led_by p w x → execute procs n req x = Some (rep, x') →
  ∃ w', at_invoke p n req w = (rsm_OK, rep, w') ∧ led_by p w' x'.
Proof using Hlinks Hanswers.
  intros (s & Hs & Hp & <- & I) He. unfold at_invoke. rewrite Hs.
  destruct (client_invoke_reachable procs links n req [] s (delete p w) rep x' Hanswers Hlinks I He)
    as (s' & bs' & -> & I' & Hx & _ & Hmy).
  eexists. split; [done|]. exists s'. split_and!; [apply lookup_insert_eq|congruence|done|].
  destruct I' as (H1 & H2 & H3 & H4 & H5). split_and!; [done..|]. intros m Hm Hne.
  destruct (H5 m Hm Hne) as (b & Hb & Hat). exists b. split; [|done].
  rewrite lookup_delete_ne by congruence. by rewrite lookup_insert_ne by congruence.
Qed.

Lemma follower_refuses p a w n req : follows p a w → at_invoke a n req w = (rsm_NOTPRIMARY, [], w).
Proof using Type.
  intros (b & Hb & Hne & Hmy & Hpr & Hiv & Hmx). unfold at_invoke, client_invoke. rewrite Hb, Hiv.
  unfold amiprimary, locked, amiprimary_wo. rewrite Hmx, Hiv. cbn [mbind option_bind negb andb].
  rewrite bool_decide_false by congruence. cbn. by rewrite insert_delete_id.
Qed.

Lemma follower_names p a w x :
  follows p a w → led_by p w x →
  ∃ mems w', at_members a w = (rsm_OK, mems ++ [p], w') ∧ led_by p w' x ∧ is_Some (w' !! p).
Proof using Type.
  intros (b & Hb & Hne & Hmy & Hpr & Hiv & Hmx) (s & Hs & Hp & Hx & I). unfold at_members, client_members, locked.
  rewrite Hb, Hmx. destruct (curview_eq b) as [_ C]. destruct (curview b) as [l b']. cbn [snd] in C.
  destruct C as (_ & _ & C3 & C4 & _ & C6 & _ & _ & C9 & C10 & C11 & _).
  exists l, (<[a := b']> w). rewrite C6, Hpr. split; [done|].
  split; [|rewrite lookup_insert_ne by done; eauto]. exists s. split_and!; [by rewrite lookup_insert_ne|done|done|].
  destruct I as (H1 & H2 & H3 & H4 & H5). split_and!; [done..|]. intros m Hm Hn.
  destruct (H5 m Hm Hn) as (b0 & Hb0 & A1 & A2 & A3 & A4).
  rewrite lookup_delete_ne in Hb0 by congruence. destruct (decide (m = a)) as [->|Hma].
  - exists b'. rewrite lookup_delete_ne, lookup_insert_eq by congruence. split; [done|].
    rewrite Hb in Hb0. injection Hb0 as <-.
    split_and!; [congruence|congruence|congruence|]. unfold ismember in *. by rewrite C10, C11.
  - exists b0. rewrite lookup_delete_ne, lookup_insert_ne by congruence. by split_and!.
Qed.

(** [invoke] gets to the primary, directly or through a replica that knows it. *)
Lemma invoke_at_primary fuel p w x n req rep x' c :
  led_by p w x → execute procs n req x = Some (rep, x') → p_nref c = 0 →
  p_id c = p ∨ follows p (p_id c) w →
  ∃ c' w', invoke at_invoke at_members at_bind (2 + fuel) n req [] c w = Returned (rsm_OK, rep, c', w') ∧
    p_id c' = p ∧ p_nref c' = 0 ∧ led_by p w' x'.
Proof using Hlinks Hanswers.
  intros Hled He Hn [Hp|Hf].
  - destruct (primary_serves p w x n req rep x' Hled He) as (w' & E & Hl). exists c, w'.
    cbn [invoke Nat.add]. rewrite Hp, E. by split_and!.
  - destruct (follower_names p (p_id c) w x Hf Hled) as (mems & w1 & Em & Hl1 & Hp1).
    destruct (primary_serves p w1 x n req rep x' Hl1 He) as (w' & E & Hl).
    exists (RsmClient p 0 mems), w'. split; [|done].
    cbn [invoke Nat.add]. rewrite (follower_refuses p _ w n req Hf).
    cbn [Z.ltb Z.eqb Z.compare rsm_OK rsm_BUSY rsm_NOTPRIMARY Pos.eqb Pos.compare].
    unfold init_members. rewrite Em. cbn [Z.ltb Z.eqb Z.compare rsm_OK negb known_mems set_mems].
    rewrite rev_app_distr. cbn [rev app]. rewrite rev_involutive.
    unfold switch_primary. cbn [p_id p_nref known_mems set_mems]. destruct Hf as (b & _ & Hne & _).
    rewrite bool_decide_false by congruence. rewrite Hn. cbn [Z.eqb negb]. unfold at_bind.
    rewrite decide_True by done. cbn [Z.ltb Z.compare negb mbind outcome_bind p_id]. by rewrite E.
Qed.

(** A handler that behaves like one with one argument, which may be a tuple. *)
Lemma execute_reg `{WireOk A, WireOk R} n h (meth : A → R → S → option (Z * R * S)) r0 a b r x x' :
  procs !! n = Some h → (∀ args ret x, h args ret x = reg1 r0 meth args ret x) → w_wf a → w_wf r → is_s32 b →
  Z.of_nat (length (w_enc a)) <= max_content → Z.of_nat (8 + length (w_enc r)) <= max_content →
  meth a r0 x = Some (b, r, x') →
  execute procs n (w_enc a) x = Some (enc_u32 b ++ enc_string (w_enc r), x').
Proof using Type.
  intros Hp Hh Ha Hr Hb La Lr Hm.
  destruct (unmarshall_of_string_rep (w_enc a) La) as (u & Hu & Ru). rewrite <- (app_nil_r (w_enc a)) in Ru.
  destruct (w_get_ok a Ha 0%nat u [] Ru) as (u' & Hg & (Hok & pre & post & _ & Hi & Hs & _) & _).
  destruct (w_put_ok r Hr new_marshall [] new_marshall_rep) as (m & Hput & Rm).
  { unfold max_content in *. cbn. lia. }
  apply (execute_reply procs n (w_enc a) x x' _ u b m (w_enc r) Hp Hu); [|done|done|done].
  rewrite Hh. unfold reg1. rewrite Hg. cbn [mbind option_bind].
  replace (okdone u') with true; [unfold call_method; rewrite Hm; cbn [mbind option_bind]; by rewrite Hput|].
  symmetry. unfold okdone. rewrite Hok, Hi, Hs. cbn. apply Z.eqb_eq. cbn. lia.
Qed.

Lemma execute_reg1 `{WireOk A, WireOk R} n (meth : A → R → S → option (Z * R * S)) r0 a b r x x' :
  procs !! n = Some (reg1 r0 meth) → w_wf a → w_wf r → is_s32 b →
  Z.of_nat (length (w_enc a)) <= max_content → Z.of_nat (8 + length (w_enc r)) <= max_content →
  meth a r0 x = Some (b, r, x') →
  execute procs n (w_enc a) x = Some (enc_u32 b ++ enc_string (w_enc r), x').
Proof using Type. intros Hp. by apply (execute_reg n (reg1 r0 meth)). Qed.

(** The typed call around [invoke]: arguments and reply as bytes. *)
Lemma rsm_call1_bytes `{WireOk A, WireOk R} fuel n (a : A) b (r : R) c w c' w' :
  w_wf a → w_wf r → is_s32 b →
  Z.of_nat (length (w_enc a)) <= max_content → Z.of_nat (8 + length (w_enc r)) <= max_content →
  invoke at_invoke at_members at_bind fuel n (w_enc a) [] c w
    = Returned (rsm_OK, enc_u32 b ++ enc_string (w_enc r), c', w') →
  rsm_call1 at_invoke at_members at_bind fuel n a w_def c w = Returned (b, r, c', w').
Proof using Type.
  intros Ha Hr Hb La Lr E. unfold rsm_call1, rsm_finish.
  destruct (w_put_ok a Ha new_marshall [] new_marshall_rep La) as (m & Hput & Rm). rewrite Hput. cbn [marshalled].
  change (m_str m) with (get_content m). rewrite (m_rep_content m _ Rm). cbn [app]. rewrite E. cbn [mbind outcome_bind].
  assert (Hlen : Z.of_nat (length (enc_u32 b ++ enc_string (w_enc r))) <= max_content)
    by (rewrite length_app, length_enc_u32, length_enc_string; unfold max_content in *; lia).
  destruct (unmarshall_of_string_rep _ Hlen) as (u & -> & Ru). cbn [mbind option_bind].
  destruct (get_int_gets b _ _ _ Ru) as (u1 & -> & Ru1 & _). cbn [mbind option_bind].
  rewrite <- (app_nil_r (enc_string _)) in Ru1.
  destruct (get_string_gets [] (w_enc r) ltac:(unfold max_content in Lr; rewrite RPC_HEADER_SZ_eq in Lr; lia) _ _ _ Ru1)
    as (u2 & -> & _). cbn [mbind option_bind].
  destruct (unmarshall_of_string_rep (w_enc r)) as (u3 & -> & Ru3); [unfold max_content in *; lia|]. cbn [mbind option_bind].
  rewrite <- (app_nil_r (w_enc r)) in Ru3. destruct (w_get_ok r Hr _ _ _ Ru3) as (u4 & -> & _). cbn [mbind option_bind].
  by rewrite s32_id.
Qed.

(** C12. Calls of the replicated service are transparent to a client: when the backups
    can be reached and are in sync, a typed call of the client, whose connection goes to the
    primary or to a replica that knows it, ends (within two attempts), returns the status and the
    result of the registered method for the arguments, leaves the service in the state of the
    method, executed once at every replica, and the client connected to the primary. *)
Theorem rsm_call_transparent `{WireOk A, WireOk R} fuel n (meth : A → R → S → option (Z * R * S)) r0 a b r x x' p c w :
  procs !! n = Some (reg1 r0 meth) → w_wf a → w_wf r → is_s32 b →
  Z.of_nat (length (w_enc a)) <= max_content → Z.of_nat (8 + length (w_enc r)) <= max_content →
  meth a r0 x = Some (b, r, x') →
  led_by p w x → p_nref c = 0 → p_id c = p ∨ follows p (p_id c) w →
  ∃ c' w', rsm_call1 at_invoke at_members at_bind (2 + fuel) n a w_def c w = Returned (b, r, c', w') ∧
    p_id c' = p ∧ p_nref c' = 0 ∧ led_by p w' x'.
Proof using Hlinks Hanswers.
  intros Hp Ha Hr Hb La Lr Hm Hled Hn Hc.
  pose proof (execute_reg1 n meth r0 a b r x x' Hp Ha Hr Hb La Lr Hm) as He.
  destruct (invoke_at_primary fuel p w x n _ _ x' c Hled He Hn Hc) as (c' & w' & E & Hid & Hnr & Hl).
  exists c', w'. split; [|done]. by apply rsm_call1_bytes.
Qed.
End replicas.

(** ** Failures *)

Section failures.
Context {W : Type} (call_members : cstring → W → Z * list cstring * W) (call_bind : cstring → W → Z * W).

(** When no replica answers, the search for a new primary ends: it tries every member the
    client knows and the process exits. *)
Lemma primary_failure_exits c w :
  p_nref c = 0 → (∀ a w, fst (fst (call_members a w)) < 0) →
  primary_failure call_members call_bind (1 + length (known_mems c)) c w = Exited.
Proof using Type.
  intros Hn Hf. remember (length (known_mems c)) as k eqn:Ek. revert c w Hn Ek.
  induction k as [|k IH]; intros c w Hn Ek; cbn [primary_failure Nat.add].
  { by destruct (known_mems c). }
  destruct (rev (known_mems c)) as [|a l] eqn:Er.
  { apply (f_equal length) in Er. rewrite length_rev in Er. cbn in Er. lia. }
  assert (length (rev l) = k) as Hl by (apply (f_equal length) in Er; rewrite length_rev in *; cbn in Er; lia).
  assert (∃ r c' w', switch_primary call_bind a (set_mems (rev l) c) w = Returned (r, c', w') ∧
    p_nref c' = 0 ∧ known_mems c' = rev l) as (r & c' & w' & -> & Hn' & Hk').
  { unfold switch_primary. case_bool_decide; [by eexists _, _, _|]. cbn [p_nref set_mems]. rewrite Hn. cbn [Z.eqb negb].
    destruct (call_bind _ w) as [ret w']. by eexists _, _, _. }
  cbn [mbind outcome_bind]. unfold init_members. pose proof (Hf (p_id c') w') as Hneg.
  destruct (call_members (p_id c') w') as [[ret mems] w2]. cbn [fst] in Hneg.
  rewrite (proj2 (Z.ltb_lt ret 0)) by done. destruct (Z.eqb_spec ret rsm_OK); [unfold rsm_OK in *; lia|].
  cbn [negb mbind outcome_bind]. apply (IH c' w2 Hn'). by rewrite Hk'.
Qed.

(** A client that has another thread in a call cannot change the primary: the assertion on
    the number of references fails. *)
Lemma busy_client_aborts a c w : p_nref c ≠ 0 → a ≠ p_id c → switch_primary call_bind a c w = Failed.
Proof using Type.
  intros Hn Ha. unfold switch_primary. rewrite bool_decide_false by done.
  by destruct (Z.eqb_spec (p_nref c) 0).
Qed.
End failures.

(** ** Several arguments as tuples *)

Section tuples.
Context {S W A1 A2 A3 A4 R : Type} `{Wire A1, Wire A2, Wire A3, Wire A4, Wire R}.
Context (inv : cstring → Z → cstring → W → Z * cstring * W) (mem : cstring → W → Z * list cstring * W)
  (bnd : cstring → W → Z * W).

Ltac call_tuple :=
  unfold rsm_call1, rsm_call2, rsm_call3, rsm_call4; f_equal;
  repeat (progress (cbn [w_put pair_wire fst snd mbind option_bind]; unfold put_pair));
  repeat (match goal with |- context [w_put ?a ?m] => destruct (w_put a m); [cbn [mbind option_bind]|done] end); reflexivity.

Lemma rsm_call2_tuple fuel n (a1 : A1) (a2 : A2) (r : R) c w :
  rsm_call2 inv mem bnd fuel n a1 a2 r c w = rsm_call1 inv mem bnd fuel n (a1, a2) r c w.
Proof using Type. call_tuple. Qed.

Lemma rsm_call3_tuple fuel n (a1 : A1) (a2 : A2) (a3 : A3) (r : R) c w :
  rsm_call3 inv mem bnd fuel n a1 a2 a3 r c w = rsm_call1 inv mem bnd fuel n (a1, (a2, a3)) r c w.
Proof using Type. call_tuple. Qed.

Lemma rsm_call4_tuple fuel n (a1 : A1) (a2 : A2) (a3 : A3) (a4 : A4) (r : R) c w :
  rsm_call4 inv mem bnd fuel n a1 a2 a3 a4 r c w = rsm_call1 inv mem bnd fuel n (a1, (a2, (a3, a4))) r c w.
Proof using Type. call_tuple. Qed.

Lemma reg2_tuple (r0 : R) (meth : A1 → A2 → R → S → option (Z * R * S)) args ret x :
  reg2 r0 meth args ret x = reg1 r0 (λ p, meth (fst p) (snd p)) args ret x.
Proof using Type. unfold reg2, reg1. stub_tuple. Qed.

Lemma reg3_tuple (r0 : R) (meth : A1 → A2 → A3 → R → S → option (Z * R * S)) args ret x :
  reg3 r0 meth args ret x = reg1 r0 (λ p, meth (fst p) (fst (snd p)) (snd (snd p))) args ret x.
Proof using Type. unfold reg3, reg1. stub_tuple. Qed.

Lemma reg4_tuple (r0 : R) (meth : A1 → A2 → A3 → A4 → R → S → option (Z * R * S)) args ret x :
  reg4 r0 meth args ret x
  = reg1 r0 (λ p, meth (fst p) (fst (snd p)) (fst (snd (snd p))) (snd (snd (snd p)))) args ret x.
Proof using Type. unfold reg4, reg1. stub_tuple. Qed.
End tuples.

(** Three replicas of a counter; the client is connected to the backup [b]. *)
Definition counters : gmap cstring (rsm Z) := <[$"a" := replica ($"a") (Viewstamp 3 7) 10]> (group (Viewstamp 3 7)).

Lemma counters_led : led_by ($"a") counters 10.
Proof.
  exists (replica ($"a") (Viewstamp 3 7) 10). split; [apply lookup_insert_eq|]. split; [reflexivity|]. split; [reflexivity|].
  unfold counters. rewrite delete_insert_id by (vm_compute; reflexivity). exact group_insync.
Qed.

Lemma rsm_call_transparent_witness :
  ∃ c' w', rsm_call1 (at_invoke counter (λ _, Reachable)) at_members at_bind 2 1 (SInt 5) (SInt 0)
             (RsmClient ($"b") 0 []) counters = Returned (0, SInt 15, c', w') ∧
    p_id c' = $"a" ∧ led_by ($"a") w' 15.
Proof.
  destruct (rsm_call_transparent counter (λ _, Reachable) (λ _, eq_refl) counter_answers 0 1
    (λ n _ x, Some (0, SInt (s32 (x + sint_val n)), s32 (x + sint_val n))) (SInt 0) (SInt 5) 0 (SInt 15) 10 15
    ($"a") (RsmClient ($"b") 0 []) counters) as (c' & w' & H1 & H2 & _ & H3);
    [reflexivity|vm_compute; split; [discriminate|reflexivity]|vm_compute; split; [discriminate|reflexivity]
    |vm_compute; split; [discriminate|reflexivity]|vm_compute; discriminate|vm_compute; discriminate|reflexivity
    |exact counters_led|reflexivity| |].
  - right. exists (replica ($"b") (Viewstamp 3 7) 10). repeat split; try (vm_compute; reflexivity). vm_compute. discriminate.
  - exists c', w'. split; [exact H1|]. split; [exact H2|exact H3].
Defined.
