(* ===== verification/LockClient.v ===== *)
(** * The plain lock client

    lock_client.cc: the calls of the lock client without a cache, through the client of the
    replicated state machine, and lock_demo.cc, which makes four of them.  The servers that
    lock_smain.cc starts register the handlers of the caching server for these calls
    (LockReplica.v); those handlers abort for clients that have not subscribed, and this
    client never subscribes. *)

From S2P Require Import Prelude.
From S2P Require Import Marshall.
From S2P Require Import Protocol.
From S2P Require Import Config.
From S2P Require Import Rsm.
From S2P Require Import LockServerCache.
From S2P Require Import LockReplica.
From S2P Require Import RsmClient.

(** ** The calls *)

Section calls.
Context {W : Type}.
Variable call_invoke_at : cstring → Z → cstring → W → Z * cstring * W.
Variable call_members : cstring → W → Z * list cstring * W.
Variable call_bind : cstring → W → Z * W.

(** [cl_id] is [cl->id()], [self] is [pthread_self()], [r] the uninitialised result. *)
Record lock_client := LockClient { lc_cl : rsm_client; cl_id : Z }.

Definition new_lock_client (dst : cstring) (id : Z) (w : W) : outcome (lock_client * W) :=
  '(c, w) ← new_rsm_client call_members call_bind dst w; Returned (LockClient c id, w).

Definition checked {A} (o : outcome (Z * sint * rsm_client * W)) (id : Z)
    (k : Z → sint → A) : outcome (A * lock_client * W) :=
  '(ret, r, c, w) ← o;
  if ret =? lock_OK then Returned (k ret r, LockClient c id, w) else Failed.

Definition lc_stat (fuel : nat) (lid : Z) (r : sint) (l : lock_client) (w : W) : outcome (Z * lock_client * W) :=
  checked (rsm_call2 call_invoke_at call_members call_bind fuel stat_num (SInt (cl_id l)) (Ull lid) r (lc_cl l) w)
    (cl_id l) (λ _ r, sint_val r).

Definition lc_acquire (fuel : nat) (self lid : Z) (r : sint) (l : lock_client) (w : W) : outcome (Z * lock_client * W) :=
  checked (rsm_call3 call_invoke_at call_members call_bind fuel acquire_num
             (SInt (cl_id l)) (UInt (u32 self)) (Ull lid) r (lc_cl l) w)
    (cl_id l) (λ ret _, ret).

Definition lc_release (fuel : nat) (self lid : Z) (l : lock_client) (w : W) : outcome (Z * lock_client * W) :=
  checked (rsm_call3 call_invoke_at call_members call_bind fuel release_num
             (SInt (cl_id l)) (UInt (u32 self)) (Ull lid) (SInt lock_OK) (lc_cl l) w)
    (cl_id l) (λ ret _, ret).

(** lock_demo.cc: what it prints. *)
Definition lock_demo (fuel : nat) (dst : cstring) (id self : Z) (r : sint) (w : W) : outcome (list Z * W) :=
  '(l, w) ← new_lock_client dst id w;
  '(r1, l, w) ← lc_stat fuel 1 r l w;
  '(r2, l, w) ← lc_acquire fuel self 1 r l w;
  '(r3, l, w) ← lc_release fuel self 1 l w;
  '(r4, l, w) ← lc_stat fuel 1 r l w;
  Returned ([r1; r2; r3; r4], w).
End calls.

(** ** Requests no replica executes *)

Section aborts.
Context {S : Type} (procs : gmap Z (proc S)) (links : cstring → link).
Context (n : Z) (req : cstring) (P : S → Prop).
Hypothesis aborts : ∀ x, P x → execute procs n req x = None.

Local Notation replicas := (gmap cstring (rsm S)).
Definition all_at (w : replicas) : Prop := map_Forall (λ _ s, P (r_service s)) w.

Lemma call_backups_aborts vs me mems bs :
  all_at bs → all_at (snd (call_backups procs links n vs req me mems bs)).
Proof using aborts.
  revert bs. induction mems as [|m mems IH]; intros bs Hb; cbn [call_backups]; [done|].
  case_bool_decide; [by apply IH|].
  assert (∃ ok bs', call_invoke procs (links m) n vs req m bs = (ok, bs') ∧ all_at bs') as (ok & bs' & -> & Hb').
  { unfold call_invoke. destruct (links m); [by eexists _, _|..];
      (destruct (bs !! m) as [b|] eqn:E; [|by eexists _, _]); pose proof (Hb m b E) as Hp; cbn beta in Hp;
      unfold Rsm.invoke, locked;
      (destruct (rsm_mutex b); [by eexists _, _|]); (destruct (_ || _ || _); [|rewrite aborts by done; by eexists _, _]);
      eexists _, _; (split; [reflexivity|]); by apply map_Forall_insert_2. }
  destruct ok; [by apply IH|done].
Qed.

Lemma all_curview s w a : all_at w → P (r_service s) → all_at (<[a := snd (curview s)]> w).
Proof using Type.
  intros Hw Hp. apply map_Forall_insert_2; [|done]. destruct (curview_eq s) as [_ (_ & _ & E & _)]. by rewrite E.
Qed.

Lemma at_invoke_aborts a w :
  all_at w → ∃ ret rep w', at_invoke procs links a n req w = (ret, rep, w') ∧ ret ≠ rsm_OK ∧ all_at w'.
Proof using aborts.
  intros Hw. unfold at_invoke. destruct (w !! a) as [s|] eqn:E; [|by eexists _, _, _].
  pose proof (Hw a s E) as Hp. cbn beta in Hp. unfold client_invoke.
  assert (<[a := s]> (delete a w) = w) as Hid by by apply insert_delete_id.
  destruct (inviewchange s); [rewrite Hid; by eexists _, _, _|].
  destruct (amiprimary s) as [[]|]; cbn [mbind option_bind negb]; [|rewrite Hid; by eexists _, _, _|by eexists _, _, _].
  pose proof (all_curview s (delete a w) a) as Hc. destruct (curview_eq s) as [_ (_ & _ & Es & _)].
  destruct (curview s) as [mems s1]. cbn [snd] in *.
  pose proof (call_backups_aborts (Viewstamp (vid (myvs s)) (u32 (seqno (myvs s) + 1))) (myaddr s1) mems (delete a w)) as Hb.
  destruct (call_backups _ _ _ _ _ _ _ _) as [ok bs]. cbn [snd] in Hb.
  assert (all_at bs) as Hbs by (apply Hb; by apply map_Forall_delete).
  destruct ok; cbn [negb]; [rewrite Es, aborts by done; by eexists _, _, _|].
  eexists _, _, _. split; [reflexivity|]. split; [done|]. apply map_Forall_insert_2; [by rewrite Es|done].
Qed.

Lemma at_members_keeps a w : all_at w → all_at (snd (at_members a w)).
Proof using Type.
  intros Hw. unfold at_members. destruct (w !! a) as [s|] eqn:E; [|done]. unfold client_members, locked.
  destruct (rsm_mutex s); [done|]. pose proof (all_curview s w a Hw (Hw a s E)) as Hc. by destruct (curview s).
Qed.

Lemma switch_keeps a c w r c' w' :
  all_at w → switch_primary at_bind a c w = Returned (r, c', w') → all_at w'.
Proof using Type.
  intros Hw. unfold switch_primary. case_bool_decide; [by intros [= _ _ <-]|]. destruct (negb _); [done|].
  unfold at_bind. by intros [= _ _ <-].
Qed.

Lemma init_members_keeps c w r c' w' :
  all_at w → init_members at_members at_bind c w = Returned (r, c', w') → all_at w'.
Proof using Type.
  intros Hw H. unfold init_members in H. pose proof (at_members_keeps (p_id c) w Hw) as Hm.
  destruct (at_members (p_id c) w) as [[ret mems] w1]. cbn [snd] in Hm.
  destruct (negb _); [by injection H as _ _ <-|]. destruct (rev _); [done|]. by eapply switch_keeps.
Qed.

Lemma primary_failure_keeps fuel c w c' w' :
  all_at w → primary_failure at_members at_bind fuel c w = Returned (c', w') → all_at w'.
Proof using Type.
  revert c w. induction fuel as [|fuel IH]; intros c w Hw H; cbn [primary_failure] in H; [done|].
  destruct (rev (known_mems c)) as [|a l]; [done|].
  destruct (switch_primary _ _ _ _) as [[[r1 c1] w1]| | |] eqn:E1; try done. cbn [mbind outcome_bind] in H.
  destruct (init_members _ _ _ _) as [[[r2 c2] w2]| | |] eqn:E2; try done. cbn [mbind outcome_bind] in H.
  pose proof (switch_keeps _ _ _ _ _ _ Hw E1) as H1. pose proof (init_members_keeps _ _ _ _ _ H1 E2) as H2.
  destruct r2; [by injection H as _ <-|]. by eapply IH.
Qed.

(** The client tries until it gives up. *)
Lemma invoke_never_returns fuel rep c w o :
  all_at w → RsmClient.invoke (at_invoke procs links) at_members at_bind fuel n req rep c w ≠ Returned o.
Proof using aborts.
  revert rep c w. induction fuel as [|fuel IH]; intros rep c w Hw H; cbn [RsmClient.invoke] in H; [done|].
  destruct (at_invoke_aborts (p_id c) w Hw) as (ret & rep' & w1 & E & Hne & Hw1). rewrite E in H.
  destruct (Z.eqb_spec ret rsm_OK); [done|].
  destruct (ret =? rsm_BUSY); [by eapply IH|].
  destruct (ret =? rsm_NOTPRIMARY).
  - destruct (init_members _ _ _ _) as [[[r2 c2] w2]| | |] eqn:E2; try done. cbn [mbind outcome_bind] in H.
    pose proof (init_members_keeps _ _ _ _ _ Hw1 E2) as H2. destruct r2; [by eapply IH|].
    destruct (primary_failure _ _ _ _ _) as [[c3 w3]| | |] eqn:E3; try done. cbn [mbind outcome_bind] in H.
    eapply IH; [|exact H]. by eapply primary_failure_keeps.
  - cbn [mbind outcome_bind] in H.
    destruct (primary_failure _ _ _ _ _) as [[c3 w3]| | |] eqn:E3; try done. cbn [mbind outcome_bind] in H.
    eapply IH; [|exact H]. by eapply primary_failure_keeps.
Qed.
End aborts.

(** ** The requests at the caching server *)

(** No connection to the client was made by a [subscribe]. *)
Definition unsubscribed (id : Z) (x : lsc) : Prop := map_count (SInt id) (m_clid_rpcc x) = false.

(** A request that begins with the number of the client. *)
Lemma request_head id tail :
  is_s32 id → (length tail <= 100)%nat →
  ∃ u u', unmarshall_of_string (enc_u32 id ++ tail) = Some u ∧ w_get w_def u = Some (SInt id, u') ∧ u_rep 0 u' tail.
Proof.
  intros Hid Hl. destruct (unmarshall_of_string_rep (enc_u32 id ++ tail)) as (u & Hu & R).
  { rewrite length_app, length_enc_u32. unfold max_content. rewrite RPC_HEADER_SZ_eq. lia. }
  assert (w_wf (SInt id)) as Hw by exact Hid.
  destruct (w_get_ok (SInt id) Hw _ _ _ R) as (u' & E & R' & _). by exists u, u'.
Qed.

Section handlers.
Context (bind : cstring → bool) (r0 : sint) (id : Z) (x : lsc).
Hypothesis Hid : is_s32 id.
Hypothesis Hx : unsubscribed id x.

Lemma stat_aborts lid : execute (lock_procs bind r0) stat_num (enc_u32 id ++ enc_u64 lid) x = None.
Proof using Hid Hx.
  destruct (request_head id (enc_u64 lid) Hid) as (u & u1 & Hu & Hg & _); [rewrite length_enc_u64; lia|].
  unfold execute. change (lock_procs bind r0 !! stat_num) with (Some (reg2 r0 do_stat)). cbn [mbind option_bind].
  rewrite Hu. cbn [mbind option_bind]. unfold reg2. rewrite Hg. cbn [mbind option_bind].
  destruct (w_get _ u1) as [[l u2]|]; [|done]. cbn [mbind option_bind]. destruct (okdone u2); [|done].
  unfold do_stat, stat. unfold unsubscribed in Hx. by rewrite Hx.
Qed.

Lemma release_aborts tid lid : execute (lock_procs bind r0) release_num (enc_u32 id ++ enc_u32 tid ++ enc_u64 lid) x = None.
Proof using Hid Hx.
  destruct (request_head id (enc_u32 tid ++ enc_u64 lid) Hid) as (u & u1 & Hu & Hg & _);
    [rewrite length_app, length_enc_u32, length_enc_u64; lia|].
  unfold execute. change (lock_procs bind r0 !! release_num) with (Some (reg3 r0 do_release)). cbn [mbind option_bind].
  rewrite Hu. cbn [mbind option_bind]. unfold reg3. rewrite Hg. cbn [mbind option_bind].
  destruct (w_get _ u1) as [[l u2]|]; [|done]. cbn [mbind option_bind].
  destruct (w_get _ u2) as [[y u3]|]; [|done]. cbn [mbind option_bind]. destruct (okdone u3); [|done].
  unfold do_release, release. unfold unsubscribed in Hx. by rewrite Hx.
Qed.
End handlers.

Section words.
#[local] Transparent enc_u64.
Lemma enc_u64_words x : enc_u64 x = enc_u32 (u32 (Z.shiftr x 32)) ++ enc_u32 (u32 x).
Proof. reflexivity. Qed.
End words.

(** [acquire] of this client sends 16 bytes where the handler of the caching server reads 20,
    which its wrapper asserts it has. *)
Lemma acquire_aborts bind r0 id tid lid x :
  is_s32 id → execute (lock_procs bind r0) acquire_num (enc_u32 id ++ enc_u32 tid ++ enc_u64 lid) x = None.
Proof.
  intros Hid. destruct (request_head id (enc_u32 tid ++ enc_u64 lid) Hid) as (u & u1 & Hu & Hg & R1);
    [rewrite length_app, length_enc_u32, length_enc_u64; lia|].
  unfold execute. change (lock_procs bind r0 !! acquire_num) with (Some (reg3 r0 do_acquire)). cbn [mbind option_bind].
  rewrite Hu. cbn [mbind option_bind]. unfold reg3. rewrite Hg. cbn [mbind option_bind].
  rewrite enc_u64_words in R1. cbn [w_get ull_wire]. unfold get_ull.
  destruct (get_uint_gets tid _ _ _ R1) as (u2 & -> & R2 & _). cbn [mbind option_bind].
  destruct (get_uint_gets _ _ _ _ R2) as (u3 & -> & R3 & _). cbn [mbind option_bind].
  rewrite <- (app_nil_r (enc_u32 (u32 lid))) in R3.
  destruct (get_uint_gets _ _ _ _ R3) as (u4 & -> & R4 & _). cbn [mbind option_bind].
  destruct R4 as (_ & pre & post & _ & Hi & Hs & _).
  destruct (get_uint_failed u4) as (u5 & -> & Hf); [rewrite Hi, Hs; cbn; lia|]. cbn [mbind option_bind].
  unfold okdone. by rewrite Hf.
Qed.

(** ** The calls at the replicas *)

Section replicas.
Context (bind : cstring → bool) (r0 : sint) (links : cstring → link).

Local Notation stat_at := (lc_stat (at_invoke (lock_procs bind r0) links) at_members at_bind).
Local Notation acquire_at := (lc_acquire (at_invoke (lock_procs bind r0) links) at_members at_bind).
Local Notation release_at := (lc_release (at_invoke (lock_procs bind r0) links) at_members at_bind).

(** A call whose request no replica executes does not return. *)
Lemma finish_never_returns fuel n m bytes r c w (P : lsc → Prop) o :
  m_rep m bytes → (∀ x, P x → execute (lock_procs bind r0) n bytes x = None) → all_at P w →
  rsm_finish (R := sint) (at_invoke (lock_procs bind r0) links) at_members at_bind fuel n m r c w ≠ Returned o.
Proof using Type.
  intros Rm Ha Hw H. unfold rsm_finish in H. change (m_str m) with (get_content m) in H.
  rewrite (m_rep_content m _ Rm) in H. cbn [app] in H.
  destruct (RsmClient.invoke _ _ _ _ _ _ _ _ _) as [[[[st rep] c'] w']| | |] eqn:E; try done.
  by apply (invoke_never_returns _ links n bytes P Ha) in E.
Qed.

Lemma checked_never_returns {W A} (p : outcome (Z * sint * rsm_client * W)) id (k : Z → sint → A) o :
  (∀ o', p ≠ Returned o') → checked p id k ≠ Returned o.
Proof using Type. intros H. destruct p as [o'| | |]; try done. by destruct (H o'). Qed.

Lemma sent {A} `{WireOk A} (a : A) :
  w_wf a → Z.of_nat (length (w_enc a)) <= max_content → ∃ m, w_put a new_marshall = Some m ∧ m_rep m (w_enc a).
Proof using Type. intros Ha Hl. apply (w_put_ok a Ha new_marshall [] new_marshall_rep Hl). Qed.

(** C40. The plain lock client does not work with the replicated lock server.  Whatever
    the state of the service, a replica that executes an [acquire] of this client aborts,
    because the request is shorter than the arguments of the registered handler; for a client
    that has not subscribed, and this client never does, [stat] and [release] abort it too.
    No call returns to the program. *)
Theorem lock_client_aborts fuel self lid r l w o :
  is_s32 (cl_id l) → is_u64 lid → all_at (unsubscribed (cl_id l)) w →
  stat_at fuel lid r l w ≠ Returned o ∧ acquire_at fuel self lid r l w ≠ Returned o ∧
  release_at fuel self lid l w ≠ Returned o ∧
  ∀ x, execute (lock_procs bind r0) acquire_num (enc_u32 (cl_id l) ++ enc_u32 (u32 self) ++ enc_u64 lid) x = None.
Proof using Type.
  intros Hid Hlid Hw. assert (is_u32 (u32 self)) as Hs by apply u32_range.
  assert (∀ k, (k <= 16)%nat → Z.of_nat k <= max_content) as Hmax
    by (intros; unfold max_content; rewrite RPC_HEADER_SZ_eq; lia).
  destruct (sent (SInt (cl_id l), Ull lid)) as (m2 & E2 & R2); [done| |].
  { cbn [w_enc pair_wire_ok fst snd sint_wire_ok ull_wire_ok sint_val ull_val].
    rewrite length_app, length_enc_u32, length_enc_u64. apply Hmax. lia. }
  destruct (sent (SInt (cl_id l), (UInt (u32 self), Ull lid))) as (m3 & E3 & R3); [done| |].
  { cbn [w_enc pair_wire_ok fst snd sint_wire_ok ull_wire_ok uint_wire_ok sint_val ull_val uint_val].
    rewrite !length_app, !length_enc_u32, length_enc_u64. apply Hmax. lia. }
  cbn [w_enc pair_wire_ok fst snd sint_wire_ok ull_wire_ok uint_wire_ok sint_val ull_val uint_val] in R2, R3.
  unfold lc_stat, lc_acquire, lc_release. rewrite rsm_call2_tuple, !rsm_call3_tuple. unfold rsm_call1.
  rewrite E2, E3. cbn [marshalled].
  split_and!; [apply checked_never_returns; intros o'; eapply (finish_never_returns _ _ _ _ _ _ _ (unsubscribed (cl_id l)));
    [eassumption|intros x Hx|exact Hw]..|].
  - exact (stat_aborts bind r0 (cl_id l) x Hid Hx lid).
  - exact (acquire_aborts bind r0 (cl_id l) (u32 self) lid x Hid).
  - exact (release_aborts bind r0 (cl_id l) x Hid Hx (u32 self) lid).
  - intros x. exact (acquire_aborts bind r0 (cl_id l) (u32 self) lid x Hid).
Qed.
End replicas.

Lemma lock_client_aborts_witness :
  let l := LockClient (RsmClient ($"a") 0 []) 7 in
  let w := <[$"a" := lock_replica ($"a")]> lock_group in
  lc_acquire (at_invoke (lock_procs (λ _, true) (SInt 0)) (λ _, Reachable)) at_members at_bind 50 99 1 (SInt 0) l w = NoFuel ∧
  ∀ o, lc_stat (at_invoke (lock_procs (λ _, true) (SInt 0)) (λ _, Reachable)) at_members at_bind 50 1 (SInt 0) l w ≠ Returned o.
Proof.
  intros l w. split; [vm_compute; reflexivity|]. intros o.
  apply (lock_client_aborts (λ _, true) (SInt 0) (λ _, Reachable) 50 99 1 (SInt 0) l w o);
    [cbn; unfold_int; lia|unfold_int; lia|].
  assert (∀ me, unsubscribed 7 (r_service (lock_replica me))) as H by (intros; vm_compute; reflexivity).
  repeat (apply map_Forall_insert_2; [apply H|]). apply map_Forall_empty.
Defined.
