(* ===== verification/LockClientCache.v ===== *)
(** * The caching lock client

    lock_client_cache.h and lock_client_cache.cc.  Every function is cut at the points where
    the thread releases [map_lock]: the remote calls and the waits at condition variables.
    Condition variables have names; a signal is reported to the caller of the operation.
    [None] stands for a failed assertion, a null pointer or undefined behaviour.  A handler
    that returns without unlocking [map_lock] leaves [map_lock_held] behind. *)

From S2P Require Import Prelude.
From S2P Require Import Marshall.

Inductive lock_status := NONE | FREE | LOCKED | RETRYING | ACQUIRING | RELEASING.

#[export] Instance lock_status_eq_dec : EqDecision lock_status.
Proof. solve_decision. Defined.

Definition lock_OK : Z := 0.
Definition lock_RETRY : Z := 1.

Record lock_client_cache := Lcc {
  seqid : ull;
  m_lock_thread : gmap ull Z;
  m_lock_status : gmap ull lock_status;
  m_lock_waitlist : gmap ull (list nat);
  m_lock_seqid : gmap ull ull;
  m_cond_waiting : gmap nat bool;
  m_lock_retry : gmap ull bool;
  l_revoke : list ull;
  m_waiting_revoke : gmap ull ull;
  l_released : list ull;
  map_lock_held : bool;
}.

Definition set_seqid x s := Lcc x (m_lock_thread s) (m_lock_status s) (m_lock_waitlist s) (m_lock_seqid s)
  (m_cond_waiting s) (m_lock_retry s) (l_revoke s) (m_waiting_revoke s) (l_released s) (map_lock_held s).
Definition on_thread f s := Lcc (seqid s) (f (m_lock_thread s)) (m_lock_status s) (m_lock_waitlist s)
  (m_lock_seqid s) (m_cond_waiting s) (m_lock_retry s) (l_revoke s) (m_waiting_revoke s) (l_released s) (map_lock_held s).
Definition on_status f s := Lcc (seqid s) (m_lock_thread s) (f (m_lock_status s)) (m_lock_waitlist s)
  (m_lock_seqid s) (m_cond_waiting s) (m_lock_retry s) (l_revoke s) (m_waiting_revoke s) (l_released s) (map_lock_held s).
Definition on_waitlist f s := Lcc (seqid s) (m_lock_thread s) (m_lock_status s) (f (m_lock_waitlist s))
  (m_lock_seqid s) (m_cond_waiting s) (m_lock_retry s) (l_revoke s) (m_waiting_revoke s) (l_released s) (map_lock_held s).
Definition on_seqid f s := Lcc (seqid s) (m_lock_thread s) (m_lock_status s) (m_lock_waitlist s)
  (f (m_lock_seqid s)) (m_cond_waiting s) (m_lock_retry s) (l_revoke s) (m_waiting_revoke s) (l_released s) (map_lock_held s).
Definition on_cond f s := Lcc (seqid s) (m_lock_thread s) (m_lock_status s) (m_lock_waitlist s)
  (m_lock_seqid s) (f (m_cond_waiting s)) (m_lock_retry s) (l_revoke s) (m_waiting_revoke s) (l_released s) (map_lock_held s).
Definition on_retry f s := Lcc (seqid s) (m_lock_thread s) (m_lock_status s) (m_lock_waitlist s)
  (m_lock_seqid s) (m_cond_waiting s) (f (m_lock_retry s)) (l_revoke s) (m_waiting_revoke s) (l_released s) (map_lock_held s).
Definition on_revoke f s := Lcc (seqid s) (m_lock_thread s) (m_lock_status s) (m_lock_waitlist s)
  (m_lock_seqid s) (m_cond_waiting s) (m_lock_retry s) (f (l_revoke s)) (m_waiting_revoke s) (l_released s) (map_lock_held s).
Definition on_waiting f s := Lcc (seqid s) (m_lock_thread s) (m_lock_status s) (m_lock_waitlist s)
  (m_lock_seqid s) (m_cond_waiting s) (m_lock_retry s) (l_revoke s) (f (m_waiting_revoke s)) (l_released s) (map_lock_held s).
Definition on_released f s := Lcc (seqid s) (m_lock_thread s) (m_lock_status s) (m_lock_waitlist s)
  (m_lock_seqid s) (m_cond_waiting s) (m_lock_retry s) (l_revoke s) (m_waiting_revoke s) (f (l_released s)) (map_lock_held s).
Definition keep_map_lock s := Lcc (seqid s) (m_lock_thread s) (m_lock_status s) (m_lock_waitlist s)
  (m_lock_seqid s) (m_cond_waiting s) (m_lock_retry s) (l_revoke s) (m_waiting_revoke s) (l_released s) true.

(** [-1] as thread and sequence id. *)
Definition no_thread : Z := u64 (-1).
Definition no_seqid : ull := Ull (u64 (-1)).

(** Values of [m[k]]. *)
Definition status_of (lid : ull) (s : lock_client_cache) : lock_status := map_at NONE lid (m_lock_status s).
Definition thread_of (lid : ull) (s : lock_client_cache) : Z := map_at 0 lid (m_lock_thread s).
Definition seqid_of (lid : ull) (s : lock_client_cache) : ull := map_at (Ull 0) lid (m_lock_seqid s).

Definition new_lock_client_cache : lock_client_cache :=
  Lcc (Ull 1) ∅ ∅ ∅ ∅ ∅ ∅ [] ∅ [] false.

(** ** [acquire] *)

(** How the thread goes on: it returns, calls the server and holds the condition [c], or
    waits at [c] for a retry or for its turn. *)
Inductive acquire_next :=
  | Returns (ret : Z) | Calls (c : nat) | WaitsRetry (c : nat) | WaitsTurn (c : nat).

Definition init_lock (lid : ull) (s : lock_client_cache) : lock_client_cache :=
  if negb (map_count lid (m_lock_status s)) then
    let s := on_status <[lid := NONE]> s in
    let s := on_seqid <[lid := no_seqid]> s in
    let s := on_waiting <[lid := no_seqid]> s in
    let s := on_thread <[lid := no_thread]> s in
    let s := on_waitlist <[lid := []]> s in
    on_retry <[lid := false]> s
  else s.

(** The head of the loop around the remote call. *)
Definition call_server (lid : ull) (cond : nat) (s : lock_client_cache) : acquire_next * lock_client_cache :=
  (Calls cond, on_status <[lid := ACQUIRING]> s).

(** From the label [acqu]; [cond] is the condition variable [new] returns. *)
Definition acqu (self : Z) (lid : ull) (cond : nat) (s : lock_client_cache)
    : option (acquire_next * lock_client_cache) :=
  if bool_decide (status_of lid s = NONE) then
    let s := set_seqid (Ull (u64 (ull_val (seqid s) + 1))) s in
    let s := on_cond <[cond := false]> s in
    Some (call_server lid cond s)
  else if bool_decide (thread_of lid s = self) then Some (Returns lock_OK, s)
  else if bool_decide (status_of lid s = FREE) then
    let s := on_status <[lid := LOCKED]> s in
    Some (Returns lock_OK, on_thread <[lid := self]> s)
  else
    l ← m_lock_waitlist s !! lid;
    let s := on_waitlist <[lid := l ++ [cond]]> s in
    Some (WaitsTurn cond, on_cond <[cond := true]> s).

Definition acquire_enter (self : Z) (lid : ull) (cond : nat) (s : lock_client_cache)
    : option (acquire_next * lock_client_cache) := acqu self lid cond (init_lock lid s).

(** After the answer of the server.  With any other answer the loop unlocks a mutex it
    does not hold. *)
Definition acquire_reply (self : Z) (lid : ull) (cond : nat) (ret : Z) (s : lock_client_cache)
    : option (acquire_next * lock_client_cache) :=
  if ret =? lock_OK then
    let s := on_cond (delete cond) s in
    let s := on_status <[lid := LOCKED]> s in
    let s := on_thread <[lid := self]> s in
    let s := on_seqid <[lid := seqid s]> s in
    let s := if bool_decide (map_at (Ull 0) lid (m_waiting_revoke s) = seqid s)
             then on_waiting <[lid := no_seqid]> (on_revoke (λ l, l ++ [lid]) s)
             else on_waiting (map_touch (Ull 0) lid) s in
    Some (Returns lock_OK, s)
  else if ret =? lock_RETRY then
    if map_at false lid (m_lock_retry s) then
      Some (call_server lid cond (on_retry <[lid := false]> s))
    else
      l ← m_lock_waitlist s !! lid;
      let s := on_retry (map_touch false lid) s in
      let s := on_waitlist <[lid := cond :: l]> s in
      let s := on_cond <[cond := true]> s in
      Some (WaitsRetry cond, on_status <[lid := RETRYING]> s)
  else None.

(** Woken up by a retry: the loop starts again. *)
Definition acquire_retried (lid : ull) (cond : nat) (s : lock_client_cache)
    : acquire_next * lock_client_cache := call_server lid cond s.

(** Woken up in the queue. *)
Definition acquire_requeued (self : Z) (lid : ull) (cond fresh : nat) (s : lock_client_cache)
    : option (acquire_next * lock_client_cache) := acqu self lid fresh (on_cond (delete cond) s).

(** ** [release], the handlers and the releaser thread *)

Definition listContains (l : list ull) (v : ull) : bool := existsb (λ x, bool_decide (x = v)) l.

(** The condition variable that is signalled, if any. *)
Definition release (self : Z) (lid : ull) (s : lock_client_cache)
    : option (Z * option nat * lock_client_cache) :=
  let s := on_thread (map_touch 0 lid) s in
  if negb (bool_decide (thread_of lid s = self)) then Some (lock_OK, None, s) else
  let s := on_thread <[lid := no_thread]> s in
  let s := on_retry <[lid := false]> s in
  if listContains (l_revoke s) lid then
    let s := on_status <[lid := RELEASING]> s in
    let s := on_waiting <[lid := no_seqid]> s in
    let s := on_seqid <[lid := no_seqid]> s in
    let s := on_released (λ l, l ++ [lid]) s in
    Some (lock_OK, None, on_revoke (filter (λ x, x ≠ lid)) s)
  else
    let s := on_status <[lid := FREE]> s in
    l ← m_lock_waitlist s !! lid;
    match l with
    | [] => Some (lock_OK, None, s)
    | c :: l => Some (lock_OK, Some c, on_waitlist <[lid := l]> s)
    end.

Inductive handler_result := HandlerWaits | HandlerReturns (ret : Z) (s : lock_client_cache).

(** The handler of revocations; it waits while the lock is being acquired. *)
Definition revoke (lid q : ull) (s : lock_client_cache) : option handler_result :=
  let s := on_status (map_touch NONE lid) s in
  if bool_decide (status_of lid s = ACQUIRING) then Some HandlerWaits else
  if bool_decide (status_of lid s = NONE) || bool_decide (status_of lid s = RELEASING)
  then Some (HandlerReturns lock_OK (keep_map_lock s)) else
  let s := on_seqid (map_touch (Ull 0) lid) s in
  let s := if bool_decide (seqid_of lid s = q) then
             if bool_decide (status_of lid s = FREE)
             then on_released (λ l, l ++ [lid]) (on_status <[lid := RELEASING]> s)
             else on_revoke (λ l, l ++ [lid]) s
           else s in
  if ull_val (seqid_of lid s) <? ull_val q then None else Some (HandlerReturns lock_OK s).

(** The handler of retries: the condition variable that is signalled, if any.  [None]
    also while the thread does not wait at its condition variable yet. *)
Definition retry (lid : ull) (s : lock_client_cache) : option (option nat * lock_client_cache) :=
  l ← m_lock_waitlist s !! lid;
  match l with
  | [] => Some (None, on_retry <[lid := true]> s)
  | c :: l' =>
      let s := on_status (map_touch NONE lid) s in
      if bool_decide (status_of lid s = ACQUIRING) then Some (None, on_retry <[lid := true]> s) else
      let s := on_waitlist <[lid := l']> s in
      let s := on_cond (map_touch false c) s in
      if map_at false c (m_cond_waiting s) then Some (Some c, s) else None
  end.

(** The releaser takes a lock: its id and the flag of the release request.  [Some None]:
    it waits. *)
Definition releaser_take (s : lock_client_cache) : option (option (ull * Z) * lock_client_cache) :=
  match l_released s with
  | [] => Some (None, s)
  | lid :: l =>
      let s := on_released (λ _, l) s in
      if negb (bool_decide (status_of lid s = RELEASING)) then None else
      w ← m_lock_waitlist s !! lid;
      let retry := match w with [] => 0 | _ => 1 end in
      Some (Some (lid, retry), on_status <[lid := NONE]> s)
  end.

(** ** What the operations do to the state and the holder of each lock *)

Definition lview (s : lock_client_cache) (l : ull) : lock_status * Z := (status_of l s, thread_of l s).

(** Only [lid] changes, to [v]. *)
Definition view_becomes (lid : ull) (v : lock_status * Z) (s s' : lock_client_cache) : Prop :=
  ∀ l, lview s' l = if decide (l = lid) then v else lview s l.

Lemma cstatus_insert lid v s l :
  status_of l (on_status <[lid := v]> s) = if decide (l = lid) then v else status_of l s.
Proof. unfold status_of. cbn. rewrite map_at_insert. by repeat case_decide; subst. Qed.
Lemma thread_insert lid v s l :
  thread_of l (on_thread <[lid := v]> s) = if decide (l = lid) then v else thread_of l s.
Proof. unfold thread_of. cbn. rewrite map_at_insert. by repeat case_decide; subst. Qed.

(** Two states with the same maps of states and threads. *)
Lemma lview_same s s' l :
  m_lock_status s' = m_lock_status s → m_lock_thread s' = m_lock_thread s → lview s' l = lview s l.
Proof. intros H1 H2. unfold lview, status_of, thread_of. by rewrite H1, H2. Qed.

Lemma view_becomes_same lid s s' :
  m_lock_status s' = m_lock_status s → m_lock_thread s' = m_lock_thread s →
  view_becomes lid (lview s lid) s s'.
Proof. intros H1 H2 l. rewrite (lview_same s s' l H1 H2). by case_decide; subst. Qed.

Lemma view_status lid st s s' :
  m_lock_status s' = <[lid := st]> (m_lock_status s) → m_lock_thread s' = m_lock_thread s →
  view_becomes lid (st, thread_of lid s) s s'.
Proof.
  intros H1 H2 l. unfold lview, status_of, thread_of. rewrite H1, H2, map_at_insert.
  by repeat case_decide; subst.
Qed.

Lemma view_both lid st t s s' :
  m_lock_status s' = <[lid := st]> (m_lock_status s) → m_lock_thread s' = <[lid := t]> (m_lock_thread s) →
  view_becomes lid (st, t) s s'.
Proof.
  intros H1 H2 l. unfold lview, status_of, thread_of. rewrite H1, H2, !map_at_insert.
  by repeat case_decide; subst.
Qed.

Lemma init_lock_view lid s l :
  status_of l (init_lock lid s) = status_of l s ∧
  (thread_of l (init_lock lid s) = thread_of l s ∨
   (l = lid ∧ status_of l s = NONE ∧ thread_of l (init_lock lid s) = no_thread)).
Proof.
  unfold init_lock. destruct (map_count lid (m_lock_status s)) eqn:E; cbn [negb]; [by split; [|left]|].
  apply map_count_false in E. unfold status_of, thread_of. cbn. rewrite !map_at_insert.
  case_decide; [|by split; [|left]]. subst. unfold map_at. rewrite E. by split; [|right].
Qed.

Lemma acqu_view self lid cond s n s' :
  acqu self lid cond s = Some (n, s') →
  map_lock_held s' = map_lock_held s ∧
  match n with
  | Calls c => status_of lid s = NONE ∧ view_becomes lid (ACQUIRING, thread_of lid s) s s'
  | Returns r =>
      r = lock_OK ∧ status_of lid s ≠ NONE ∧
      ((thread_of lid s = self ∧ view_becomes lid (lview s lid) s s') ∨
       (status_of lid s = FREE ∧ view_becomes lid (LOCKED, self) s s'))
  | WaitsTurn c => view_becomes lid (lview s lid) s s'
  | WaitsRetry _ => False
  end.
Proof.
  unfold acqu. intros H. case_bool_decide as H1.
  { injection H as <- <-. split; [done|]. split; [done|]. by apply view_status. }
  case_bool_decide as H2.
  { injection H as <- <-. split; [done|]. split_and!; [done|done|]. left. split; [done|]. by apply view_becomes_same. }
  case_bool_decide as H3.
  { injection H as <- <-. split; [done|]. split_and!; [done|done|]. right. split; [done|]. by apply view_both. }
  apply bind_Some in H as (l & _ & H). injection H as <- <-. split; [done|]. by apply view_becomes_same.
Qed.

Lemma acquire_reply_view self lid cond ret s n s' :
  acquire_reply self lid cond ret s = Some (n, s') →
  map_lock_held s' = map_lock_held s ∧
  match n with
  | Returns r => ret = lock_OK ∧ r = lock_OK ∧ view_becomes lid (LOCKED, self) s s'
  | Calls c => ret = lock_RETRY ∧ view_becomes lid (ACQUIRING, thread_of lid s) s s'
  | WaitsRetry c => ret = lock_RETRY ∧ view_becomes lid (RETRYING, thread_of lid s) s s'
  | WaitsTurn _ => False
  end.
Proof.
  unfold acquire_reply. intros H. destruct (Z.eqb_spec ret lock_OK) as [->|].
  { injection H as <- <-. cbn zeta. case_bool_decide; (split; [done|]); (split_and!; [done|done|]); by apply view_both. }
  destruct (Z.eqb_spec ret lock_RETRY) as [->|]; [|done].
  destruct (map_at false lid (m_lock_retry s)).
  { injection H as <- <-. split; [done|]. split; [done|]. by apply view_status. }
  apply bind_Some in H as (l & _ & H). injection H as <- <-. split; [done|]. split; [done|]. by apply view_status.
Qed.

Lemma acquire_retried_view lid cond s :
  view_becomes lid (ACQUIRING, thread_of lid s) s (snd (acquire_retried lid cond s)) ∧
  map_lock_held (snd (acquire_retried lid cond s)) = map_lock_held s.
Proof. split; [by apply view_status|done]. Qed.

Lemma thread_touch lid s l : thread_of l (on_thread (map_touch 0 lid) s) = thread_of l s.
Proof. unfold thread_of. cbn. by rewrite map_touch_at. Qed.

Lemma release_view self lid s r sg s' :
  release self lid s = Some (r, sg, s') →
  map_lock_held s' = map_lock_held s ∧
  ((thread_of lid s ≠ self ∧ ∀ l, lview s' l = lview s l) ∨
   (thread_of lid s = self ∧ ∃ st, (st = FREE ∨ st = RELEASING) ∧ view_becomes lid (st, no_thread) s s')).
Proof.
  unfold release. rewrite thread_touch. intros H. case_bool_decide as H1; cbn [negb] in H.
  2:{ injection H as <- <- <-. split; [done|]. left. split; [done|]. intros l. unfold lview. by rewrite thread_touch. }
  set (s1 := on_thread (map_touch 0 lid) s) in *.
  assert (∀ l, lview s1 l = lview s l) as Hs1 by (intros l; unfold lview, s1; by rewrite thread_touch).
  assert (∀ st s2, m_lock_status s2 = <[lid := st]> (m_lock_status s1) →
            m_lock_thread s2 = <[lid := no_thread]> (m_lock_thread s1) →
            view_becomes lid (st, no_thread) s s2) as Hv.
  { intros st s2 E1 E2 l. rewrite (view_both lid st no_thread s1 s2 E1 E2 l). case_decide; [done|].
    apply Hs1. }
  destruct (listContains _ _).
  - injection H as <- <- <-. split; [done|]. right. split; [done|]. exists RELEASING. split; [by right|]. by apply Hv.
  - apply bind_Some in H as (l & _ & H).
    destruct l; injection H as <- <- <-; (split; [done|]); right; (split; [done|]); exists FREE;
      (split; [by left|]); by apply Hv.
Qed.

Lemma status_touch lid s l : status_of l (on_status (map_touch NONE lid) s) = status_of l s.
Proof. unfold status_of. cbn. by rewrite map_touch_at. Qed.

Lemma revoke_view lid q s r s' :
  revoke lid q s = Some (HandlerReturns r s') →
  (∀ l, lview s' l = lview s l) ∨ (status_of lid s = FREE ∧ view_becomes lid (RELEASING, thread_of lid s) s s').
Proof.
  unfold revoke. rewrite !status_touch. intros H. set (s1 := on_status (map_touch NONE lid) s) in *.
  assert (∀ l, lview s1 l = lview s l) as Hs1 by (intros l; unfold lview, s1; by rewrite status_touch).
  assert (∀ s2, m_lock_status s2 = m_lock_status s1 → m_lock_thread s2 = m_lock_thread s1 →
            ∀ l, lview s2 l = lview s l) as Hsame.
  { intros s2 E1 E2 l. rewrite (lview_same s1 s2 l E1 E2). apply Hs1. }
  case_bool_decide; [done|]. destruct (_ || _).
  { injection H as <- <-. left. by apply Hsame. }
  set (s2 := on_seqid (map_touch (Ull 0) lid) s1) in *. case_bool_decide as Hq.
  - case_bool_decide as Hf.
    + destruct (_ <? _); [done|]. injection H as <- <-. right.
      assert (status_of lid s = FREE) as Hs by (rewrite <- (status_touch lid s lid); exact Hf).
      split; [done|]. intros l. etransitivity; [by apply (view_status lid RELEASING s1)|].
      case_decide; [done|]. apply Hs1.
    + destruct (_ <? _); [done|]. injection H as <- <-. left. by apply Hsame.
  - destruct (_ <? _); [done|]. injection H as <- <-. left. by apply Hsame.
Qed.

Lemma retry_view lid s sg s' : retry lid s = Some (sg, s') → ∀ l, lview s' l = lview s l.
Proof.
  unfold retry. intros H k. apply bind_Some in H as (l & _ & H). destruct l as [|c l].
  { injection H as <- <-. done. }
  rewrite !status_touch in H.
  assert (lview (on_status (map_touch NONE lid) s) k = lview s k) as Ht by (unfold lview; by rewrite status_touch).
  case_bool_decide.
  - injection H as <- <-. exact Ht.
  - destruct (map_at _ _ _); [|done]. injection H as <- <-. exact Ht.
Qed.

Lemma releaser_take_view s lid y s' :
  releaser_take s = Some (Some (lid, y), s') →
  status_of lid s = RELEASING ∧ view_becomes lid (NONE, thread_of lid s) s s'.
Proof.
  unfold releaser_take. destruct (l_released s) as [|l0 l]; [done|]. intros H.
  case_bool_decide as Hs; [|done]. cbn [negb] in H. apply bind_Some in H as (w & _ & H).
  injection H as <- _ <-. split; [done|]. by apply view_status.
Qed.

(** ** The handler that keeps the mutex *)

(** A revocation of a lock that is not at the client any more, or on its way back,
    is answered with [map_lock] still locked: no operation of the client can run after
    it. *)
Theorem revoke_keeps_map_lock lid q s :
  status_of lid s = NONE ∨ status_of lid s = RELEASING →
  ∃ s', revoke lid q s = Some (HandlerReturns lock_OK s') ∧ map_lock_held s' = true ∧
    ∀ l, lview s' l = lview s l.
Proof.
  intros Hs. unfold revoke. rewrite !status_touch.
  rewrite bool_decide_false by (destruct Hs; congruence).
  replace (bool_decide (status_of lid s = NONE) || bool_decide (status_of lid s = RELEASING)) with true
    by (destruct Hs as [-> | ->]; done).
  eexists. split; [done|]. split; [done|]. intros l. unfold lview. cbn. by rewrite <- (status_touch lid s l).
Qed.

Lemma revoke_keeps_map_lock_witness :
  ∃ s', revoke (Ull 9) (Ull 2) new_lock_client_cache = Some (HandlerReturns lock_OK s') ∧
    map_lock_held s' = true ∧ ∀ l, lview s' l = lview new_lock_client_cache l.
Proof. apply (revoke_keeps_map_lock (Ull 9) (Ull 2) new_lock_client_cache). left. reflexivity. Defined.
