(* ===== verification/LockSystem.v ===== *)
(** * Lock server and lock clients together

    The caching lock server of LockServerCache.v and any number of caching clients of
    LockClientCache.v, each with any number of threads.  A step is one atomic section of a
    thread, the handling of a request by the server, or a handler or the releaser of a
    client.  Requests of retry and revocation may arrive at any time. *)

From S2P Require Import Prelude.
From S2P Require Import Marshall.
From S2P Require Import LockServerCache.
From S2P Require Import LockClientCache.

(** Where a thread inside [acquire] is; [q] is the sequence id it sent. *)
Inductive tstate :=
  | TCalling (lid : ull) (cond : nat)
  | TSent (lid : ull) (cond : nat) (q : ull)
  | TReplied (lid : ull) (cond : nat) (ret : Z)
  | TWaitsRetry (lid : ull) (cond : nat)
  | TWaitsTurn (lid : ull) (cond : nat).

(** [rel]: the releaser of the client has taken the lock and is about to call the server.
    [woken]: condition variables that were signalled.  [held]: client, thread and lock of
    every [acquire] that returned, until [release]. *)
Record sys := Sys {
  srv : lsc;
  clts : gmap sint lock_client_cache;
  thr : gmap (sint * Z) tstate;
  rel : gmap sint (ull * Z);
  woken : gset (sint * nat);
  held : gset (sint * Z * ull);
}.

Definition new_sys : sys := Sys new_lsc ∅ ∅ ∅ ∅ ∅.

Definition clt (c : sint) (s : sys) : lock_client_cache := map_at new_lock_client_cache c (clts s).

Definition set_clt (c : sint) (x : lock_client_cache) (s : sys) : sys :=
  Sys (srv s) (<[c := x]> (clts s)) (thr s) (rel s) (woken s) (held s).
Definition set_thr (c : sint) (t : Z) (o : option tstate) (s : sys) : sys :=
  Sys (srv s) (clts s) (partial_alter (λ _, o) (c, t) (thr s)) (rel s) (woken s) (held s).
Definition set_srv (x : lsc) (s : sys) : sys := Sys x (clts s) (thr s) (rel s) (woken s) (held s).
Definition set_rel (c : sint) (o : option (ull * Z)) (s : sys) : sys :=
  Sys (srv s) (clts s) (thr s) (partial_alter (λ _, o) c (rel s)) (woken s) (held s).
Definition on_woken f (s : sys) : sys := Sys (srv s) (clts s) (thr s) (rel s) (f (woken s)) (held s).
Definition on_held f (s : sys) : sys := Sys (srv s) (clts s) (thr s) (rel s) (woken s) (f (held s)).

Inductive sys_label :=
  | SAcquire (c : sint) (t : Z) (lid : ull) (cond : nat)
  | SSend (c : sint) (t : Z)
  | SServe (c : sint) (t : Z)
  | SReply (c : sint) (t : Z)
  | SWake (c : sint) (t : Z) (fresh : nat)
  | SRelease (c : sint) (t : Z) (lid : ull)
  | SRevoke (c : sint) (lid q : ull)
  | SRetry (c : sint) (lid : ull)
  | STake (c : sint)
  | SReturn (c : sint)
  | SServer (o : op).

(** The thread after an atomic section of [acquire]. *)
Definition goes_on (c : sint) (t : Z) (lid : ull) (n : acquire_next) (s : sys) : sys :=
  match n with
  | Returns _ => on_held (union {[(c, t, lid)]}) (set_thr c t None s)
  | Calls cond => set_thr c t (Some (TCalling lid cond)) s
  | WaitsRetry cond => set_thr c t (Some (TWaitsRetry lid cond)) s
  | WaitsTurn cond => set_thr c t (Some (TWaitsTurn lid cond)) s
  end.

Definition signal (c : sint) (sg : option nat) (s : sys) : sys :=
  match sg with Some cond => on_woken (union {[(c, cond)]}) s | None => s end.

(** A client can run when [map_lock] was not left locked. *)
Definition runs_free (c : sint) (s : sys) : option unit :=
  if map_lock_held (clt c s) then None else Some tt.

Definition sys_step (l : sys_label) (s : sys) : option sys :=
  match l with
  | SAcquire c t lid cond =>
      _ ← runs_free c s;
      match thr s !! (c, t) with
      | Some _ => None
      | None => '(n, x) ← acquire_enter t lid cond (clt c s); Some (goes_on c t lid n (set_clt c x s))
      end
  | SSend c t =>
      match thr s !! (c, t) with
      | Some (TCalling lid cond) => Some (set_thr c t (Some (TSent lid cond (seqid (clt c s)))) s)
      | _ => None
      end
  | SServe c t =>
      match thr s !! (c, t) with
      | Some (TSent lid cond q) =>
          '(ret, y) ← LockServerCache.acquire c lid q (srv s);
          Some (set_thr c t (Some (TReplied lid cond ret)) (set_srv y s))
      | _ => None
      end
  | SReply c t =>
      _ ← runs_free c s;
      match thr s !! (c, t) with
      | Some (TReplied lid cond ret) =>
          '(n, x) ← acquire_reply t lid cond ret (clt c s); Some (goes_on c t lid n (set_clt c x s))
      | _ => None
      end
  | SWake c t fresh =>
      _ ← runs_free c s;
      match thr s !! (c, t) with
      | Some (TWaitsRetry lid cond) =>
          if bool_decide ((c, cond) ∈ woken s) then
            let '(n, x) := acquire_retried lid cond (clt c s) in
            Some (goes_on c t lid n (set_clt c x (on_woken (λ k, k ∖ {[(c, cond)]}) s)))
          else None
      | Some (TWaitsTurn lid cond) =>
          if bool_decide ((c, cond) ∈ woken s) then
            '(n, x) ← acquire_requeued t lid cond fresh (clt c s);
            Some (goes_on c t lid n (set_clt c x (on_woken (λ k, k ∖ {[(c, cond)]}) s)))
          else None
      | _ => None
      end
  | SRelease c t lid =>
      _ ← runs_free c s;
      match thr s !! (c, t) with
      | Some _ => None
      | None =>
          '(_, sg, x) ← LockClientCache.release t lid (clt c s);
          Some (signal c sg (on_held (λ k, k ∖ {[(c, t, lid)]}) (set_clt c x s)))
      end
  | SRevoke c lid q =>
      _ ← runs_free c s;
      r ← revoke lid q (clt c s);
      match r with HandlerWaits => None | HandlerReturns _ x => Some (set_clt c x s) end
  | SRetry c lid =>
      _ ← runs_free c s; '(sg, x) ← retry lid (clt c s); Some (signal c sg (set_clt c x s))
  | STake c =>
      _ ← runs_free c s;
      match rel s !! c with
      | Some _ => None
      | None =>
          '(o, x) ← releaser_take (clt c s);
          match o with None => None | Some p => Some (set_rel c (Some p) (set_clt c x s)) end
      end
  | SReturn c =>
      match rel s !! c with
      | Some (lid, y) =>
          '(ret, z) ← LockServerCache.release c lid y (srv s);
          if ret =? 0 then Some (set_rel c None (set_srv z s)) else None
      | None => None
      end
  | SServer o =>
      match o with
      | OAcquire _ _ _ | ORelease _ _ _ => None
      | _ => '(_, y) ← lstep o (srv s); Some (set_srv y s)
      end
  end.

(** Thread ids are neither the value of new map entries nor the one for no thread; client
    ids are positive. *)
Definition valid_tid (t : Z) : Prop := 0 < t < no_thread.

Definition label_ok (l : sys_label) : Prop :=
  match l with
  | SAcquire c t _ _ | SWake c t _ | SReply c t | SServe c t | SRelease c t _ =>
      valid_tid t ∧ 0 < sint_val c
  | SReturn c => 0 < sint_val c
  | _ => True
  end.

Inductive sys_runs : sys → Prop :=
  | sys_runs_new : sys_runs new_sys
  | sys_runs_step s l s' : sys_runs s → label_ok l → sys_step l s = Some s' → sys_runs s'.

(** ** The invariant *)

Definition owned (st : lock_status) : Prop := st = LockClientCache.FREE ∨ st = LockClientCache.LOCKED ∨ st = RELEASING.

(** The lock a thread asks the server for. *)
Definition calling (o : option tstate) : option ull :=
  match o with
  | Some (TCalling l _) | Some (TSent l _ _) | Some (TReplied l _ _) => Some l
  | _ => None
  end.
Definition acquiring (o : option tstate) : option ull :=
  match o with Some (TWaitsRetry l _) => Some l | _ => calling o end.

(** [vw]: state and thread of every lock at every client; [th]: threads; [rl]: releasers;
    [hd]: who holds what; [ho]: the client the server gave the lock to. *)
Record excl (vw : sint → ull → lock_status * Z) (th : sint → Z → option tstate)
    (rl : sint → option (ull * Z)) (hd : sint → Z → ull → Prop) (ho : ull → option sint) : Prop := Excl {
  x_status c l : owned (fst (vw c l)) → ho l = Some c;
  x_replied c t l k : th c t = Some (TReplied l k 0) → ho l = Some c;
  x_rel c l y : rl c = Some (l, y) →
    ho l = Some c ∧ ¬ owned (fst (vw c l)) ∧ ∀ t k, th c t ≠ Some (TReplied l k 0);
  x_call c t l : calling (th c t) = Some l → fst (vw c l) = ACQUIRING;
  x_wait c t l k : th c t = Some (TWaitsRetry l k) → fst (vw c l) = RETRYING;
  x_one c t t' l : acquiring (th c t) = Some l → acquiring (th c t') = Some l → t = t';
  x_held c t l : hd c t l → vw c l = (LockClientCache.LOCKED, t);
  x_thread c l : fst (vw c l) ≠ LockClientCache.LOCKED → ¬ valid_tid (snd (vw c l));
}.

Lemma acquiring_status vw th rl hd ho c t l :
  excl vw th rl hd ho → acquiring (th c t) = Some l → fst (vw c l) = ACQUIRING ∨ fst (vw c l) = RETRYING.
Proof.
  intros X H. destruct (th c t) as [[]|] eqn:E; cbn in H; simplify_eq;
    try (left; apply (x_call _ _ _ _ _ X c t); by rewrite E).
  right. by eapply x_wait.
Qed.

Lemma calling_acquiring o l : calling o = Some l → acquiring o = Some l.
Proof. by destruct o as [[]|]. Qed.

(** A client changes one lock, no thread moves. *)
Lemma excl_view vw vw' th rl hd ho c lid v :
  excl vw th rl hd ho → (∀ c' l, vw' c' l = if decide (c' = c ∧ l = lid) then v else vw c' l) →
  (owned (fst v) → ho lid = Some c) → (∀ y, rl c = Some (lid, y) → ¬ owned (fst v)) →
  (fst v = fst (vw c lid) ∨ ∀ t, acquiring (th c t) ≠ Some lid) →
  (v = vw c lid ∨ ∀ t, ¬ hd c t lid) →
  (fst v ≠ LockClientCache.LOCKED → ¬ valid_tid (snd v)) → excl vw' th rl hd ho.
Proof.
  intros X Hv H1 H3 H5 H6 H7.
  assert (∀ t l, acquiring (th c t) = Some l → fst (vw' c l) = fst (vw c l)) as Hacq.
  { intros t l Ha. rewrite Hv. case_decide as Hd; [|done]. destruct Hd as [_ ->].
    destruct H5 as [|Hn]; [done|]. by destruct (Hn t). }
  split.
  - intros c' l. rewrite Hv. case_decide as Hd; [destruct Hd as [-> ->]; done|apply X].
  - apply X.
  - intros c' l y Hr. destruct (x_rel _ _ _ _ _ X c' l y Hr) as (? & ? & ?). split_and!; [done| |done].
    rewrite Hv. case_decide as Hd; [|done]. destruct Hd as [-> ->]. by eapply H3.
  - intros c' t l Hc. destruct (decide (c' = c)) as [->|].
    + rewrite (Hacq t l) by by apply calling_acquiring. by eapply x_call.
    + rewrite Hv, decide_False by tauto. by eapply x_call.
  - intros c' t l k Ht. destruct (decide (c' = c)) as [->|].
    + rewrite (Hacq t l) by by rewrite Ht. by eapply x_wait.
    + rewrite Hv, decide_False by tauto. by eapply x_wait.
  - apply X.
  - intros c' t l Hh. rewrite Hv. case_decide as Hd; [|by eapply x_held].
    destruct Hd as [-> ->]. destruct H6 as [->|Hn]; [by eapply x_held|]. by destruct (Hn t).
  - intros c' l. rewrite Hv. case_decide; [done|]. by eapply x_thread.
Qed.

(** A thread of a client moves to [o] and changes one lock. *)
Lemma excl_thread vw vw' th th' rl hd hd' ho c t lid v o :
  excl vw th rl hd ho → (∀ c' l, vw' c' l = if decide (c' = c ∧ l = lid) then v else vw c' l) →
  (∀ c' t', th' c' t' = if decide (c' = c ∧ t' = t) then o else th c' t') →
  (owned (fst v) → ho lid = Some c) → (∀ y, rl c = Some (lid, y) → ¬ owned (fst v)) →
  (∀ l k, o ≠ Some (TReplied l k 0)) →
  (∀ l, calling o = Some l → l = lid ∧ fst v = ACQUIRING) →
  (∀ l k, o = Some (TWaitsRetry l k) → l = lid ∧ fst v = RETRYING) →
  ((fst v = fst (vw c lid) ∧ acquiring o = None) ∨ ∀ t', t' ≠ t → acquiring (th c t') ≠ Some lid) →
  (∀ c' t' l, hd' c' t' l →
     (c' = c ∧ t' = t ∧ l = lid ∧ v = (LockClientCache.LOCKED, t)) ∨
     (hd c' t' l ∧ (c' = c → l = lid → v = vw c lid))) →
  (fst v ≠ LockClientCache.LOCKED → ¬ valid_tid (snd v)) → excl vw' th' rl hd' ho.
Proof.
  intros X Hv Ht H1 H3 H2 H4 H4' H5 H6 H7.
  assert (∀ t' l, t' ≠ t → acquiring (th c t') = Some l → fst (vw' c l) = fst (vw c l)) as Hacq.
  { intros t' l Hne Ha. rewrite Hv. case_decide as Hd; [|done]. destruct Hd as [_ ->].
    destruct H5 as [[? _]|Hn]; [done|]. by destruct (Hn t'). }
  assert (∀ l, acquiring o = Some l → l = lid) as Ho.
  { intros l. destruct o as [[]|]; cbn; intros [= <-]; try (by apply H4). by eapply H4'. }
  split.
  - intros c' l. rewrite Hv. case_decide as Hd; [destruct Hd as [-> ->]; done|apply X].
  - intros c' t' l k. rewrite Ht. case_decide; [intros Hr; by destruct (H2 l k)|apply X].
  - intros c' l y Hr. destruct (x_rel _ _ _ _ _ X c' l y Hr) as (? & ? & Hn). split_and!; [done| |].
    + rewrite Hv. case_decide as Hd; [|done]. destruct Hd as [-> ->]. by eapply H3.
    + intros t' k. rewrite Ht. case_decide; [apply H2|apply Hn].
  - intros c' t' l. rewrite Ht. case_decide as Hd.
    + destruct Hd as [-> ->]. intros Hc. destruct (H4 l Hc) as [-> ?]. by rewrite Hv, decide_True.
    + intros Hc. destruct (decide (c' = c)) as [->|].
      * rewrite (Hacq t' l) by (tauto || by apply calling_acquiring). by eapply x_call.
      * rewrite Hv, decide_False by tauto. by eapply x_call.
  - intros c' t' l k. rewrite Ht. case_decide as Hd.
    + destruct Hd as [-> ->]. intros Hc. destruct (H4' l k Hc) as [-> ?]. by rewrite Hv, decide_True.
    + intros Hc. destruct (decide (c' = c)) as [->|].
      * rewrite (Hacq t' l) by (tauto || by rewrite Hc). by eapply x_wait.
      * rewrite Hv, decide_False by tauto. by eapply x_wait.
  - assert (∀ t1 l, t1 ≠ t → acquiring (th c t1) = Some l → acquiring o = Some l → False) as Hx.
    { intros t1 l Hne Ha Hol. pose proof (Ho l Hol) as ->. destruct H5 as [[_ Hn]|Hn]; [by rewrite Hn in Hol|].
      by apply (Hn t1). }
    intros c' t1 t2 l. rewrite !Ht. repeat case_decide; intros A B.
    + lia.
    + exfalso. destruct H as [-> ->]. eapply (Hx t2 l); [tauto|done|done].
    + exfalso. destruct H0 as [-> ->]. eapply (Hx t1 l); [tauto|done|done].
    + by eapply x_one.
  - intros c' t' l Hh. rewrite Hv. case_decide as Hd.
    + destruct Hd as [-> ->]. destruct (H6 _ _ _ Hh) as [(_ & -> & _ & ->)|[Hh' Hs]]; [done|].
      rewrite Hs by done. by eapply x_held.
    + destruct (H6 _ _ _ Hh) as [(-> & -> & -> & _)|[Hh' _]]; [tauto|]. by eapply x_held.
  - intros c' l. rewrite Hv. case_decide; [done|]. by eapply x_thread.
Qed.

Definition vw_of (s : sys) (c : sint) (l : ull) : lock_status * Z := lview (clt c s) l.
Definition th_of (s : sys) (c : sint) (t : Z) : option tstate := thr s !! (c, t).
Definition rl_of (s : sys) (c : sint) : option (ull * Z) := rel s !! c.
Definition hd_of (s : sys) (c : sint) (t : Z) (l : ull) : Prop := (c, t, l) ∈ held s.

Definition excl_sys (s : sys) (ho : ull → option sint) : Prop :=
  excl (vw_of s) (th_of s) (rl_of s) (hd_of s) ho.

Definition sys_inv (s : sys) : Prop := (∃ sent, lock_inv sent (srv s)) ∧ excl_sys s (holder (srv s)).

Lemma excl_ho vw th rl hd ho ho' : (∀ l, ho' l = ho l) → excl vw th rl hd ho → excl vw th rl hd ho'.
Proof.
  intros E [X1 X2 X3 X4 X5 X6 X7 X8]. split; try done.
  - intros c l Hs. rewrite E. by apply X1.
  - intros c t l k Hs. rewrite E. by eapply X2.
  - intros c l y Hr. rewrite E. by eapply X3.
Qed.

Lemma clt_set_clt c x s c' : clt c' (set_clt c x s) = if decide (c' = c) then x else clt c' s.
Proof. unfold clt. cbn. rewrite map_at_insert. by repeat case_decide; subst. Qed.

Lemma vw_set_clt c x s lid v c' l :
  view_becomes lid v (clt c s) x →
  vw_of (set_clt c x s) c' l = if decide (c' = c ∧ l = lid) then v else vw_of s c' l.
Proof.
  intros Hv. unfold vw_of. rewrite clt_set_clt. destruct (decide (c' = c)) as [->|].
  - rewrite Hv. destruct (decide (l = lid)); [by rewrite decide_True|by rewrite decide_False by tauto].
  - by rewrite decide_False by tauto.
Qed.

Lemma vw_set_clt_same c x s c' l :
  (∀ l, lview x l = lview (clt c s) l) → vw_of (set_clt c x s) c' l = vw_of s c' l.
Proof. intros H. unfold vw_of. rewrite clt_set_clt. case_decide; [subst; apply H|done]. Qed.

Lemma th_set_thr c t o s c' t' :
  th_of (set_thr c t o s) c' t' = if decide (c' = c ∧ t' = t) then o else th_of s c' t'.
Proof.
  unfold th_of. cbn. destruct (decide ((c, t) = (c', t'))) as [E|E].
  - injection E as -> ->. rewrite lookup_partial_alter_eq. by rewrite decide_True.
  - rewrite lookup_partial_alter_ne by done. rewrite decide_False; [done|]. intros [-> ->]. done.
Qed.

(** Pointwise equal descriptions. *)
Lemma excl_eq vw vw' th th' rl (hd hd' : sint → Z → ull → Prop) ho :
  (∀ c l, vw' c l = vw c l) → (∀ c t, th' c t = th c t) → (∀ c t l, hd' c t l → hd c t l) →
  excl vw th rl hd ho → excl vw' th' rl hd' ho.
Proof.
  intros Ev Et Eh [X1 X2 X3 X4 X5 X6 X7 X8]. split; intros *; rewrite ?Ev, ?Et; auto.
  - eauto.
  - intros Hr. destruct (X3 _ _ _ Hr) as (? & ? & ?). split_and!; auto. intros. rewrite Et. auto.
  - eauto.
  - eauto.
  - eauto.
Qed.

(** Opens [excl_thread] for a step of a thread that leaves client state [x]. *)
Ltac thread_step X v o Hv :=
  match goal with
  | |- excl_sys ?g ?ho =>
      match g with
      | context [set_clt ?c ?x ?s] =>
          match g with
          | context [set_thr c ?t _ _] =>
              match type of Hv with
              | view_becomes ?lid _ _ _ =>
                  apply (excl_thread (vw_of s) _ (th_of s) _ _ (hd_of s) _ ho c t lid v o X);
                  [intros ??; exact (vw_set_clt c x s lid _ _ _ Hv)
                  |intros ??; exact (th_set_thr c t o (set_clt c x s) _ _)|..]
              end
          end
      end
  end.

Section steps.
Context (c : sint) (t : Z) (lid : ull) (s : sys) (x : lock_client_cache) (ho : ull → option sint).
Hypothesis X : excl_sys s ho.
Hypothesis Hvt : valid_tid t.

(** Who holds a lock is seen in its state. *)
Lemma not_held t' : status_of lid (clt c s) ≠ LockClientCache.LOCKED → ¬ hd_of s c t' lid.
Proof using X. intros Hn Hh. pose proof (x_held _ _ _ _ _ X c t' lid Hh) as E. unfold vw_of, lview in E. congruence. Qed.

Lemma asking_status t' :
  acquiring (th_of s c t') = Some lid →
  status_of lid (clt c s) = ACQUIRING ∨ status_of lid (clt c s) = RETRYING.
Proof using X. intros Hq. exact (acquiring_status _ _ _ _ _ c t' lid X Hq). Qed.

(** The thread gets the lock. *)
Lemma grab_excl :
  ho lid = Some c → (∀ t', t' ≠ t → acquiring (th_of s c t') ≠ Some lid) → (∀ y, rl_of s c ≠ Some (lid, y)) →
  status_of lid (clt c s) ≠ LockClientCache.LOCKED →
  view_becomes lid (LockClientCache.LOCKED, t) (clt c s) x →
  excl_sys (goes_on c t lid (Returns 0) (set_clt c x s)) ho.
Proof using X.
  intros Hho Hacq Hrl Hnl Hv. cbn [goes_on]. thread_step X (LockClientCache.LOCKED, t) (@None tstate) Hv; try done.
  - intros y Hy. by destruct (Hrl y).
  - by right.
  - intros c' t' l Hh. unfold hd_of in Hh. cbn in Hh. apply elem_of_union in Hh as [Hh|Hh].
    + apply elem_of_singleton in Hh. injection Hh as -> -> ->. by left.
    + right. split; [exact Hh|]. intros -> ->. by destruct (not_held t' Hnl).
Qed.

(** The thread asks the server or waits for a retry. *)
Lemma ask_excl n st :
  (∃ k, n = Calls k ∧ st = ACQUIRING) ∨ (∃ k, n = WaitsRetry k ∧ st = RETRYING) →
  (∀ t', t' ≠ t → acquiring (th_of s c t') ≠ Some lid) → status_of lid (clt c s) ≠ LockClientCache.LOCKED →
  view_becomes lid (st, thread_of lid (clt c s)) (clt c s) x →
  excl_sys (goes_on c t lid n (set_clt c x s)) ho.
Proof using X.
  intros Hn Hacq Hnl Hv.
  assert (¬ owned st) as Hno by (destruct Hn as [(? & _ & ->)|(? & _ & ->)]; intros [?|[?|?]]; done).
  assert (∀ c' t' l, hd_of s c' t' l → c' = c → l = lid →
            (st, thread_of lid (clt c s)) = vw_of s c lid) as Hh.
  { intros c' t' l Hh -> ->. by destruct (not_held t' Hnl). }
  destruct Hn as [(k & -> & ->)|(k & -> & ->)]; cbn [goes_on].
  - thread_step X (ACQUIRING, thread_of lid (clt c s)) (Some (TCalling lid k)) Hv; try done.
    + cbn. intros l [= <-]. done.
    + by right.
    + intros c' t' l Hd. right. split; [exact Hd|]. by eapply Hh.
    + intros _. apply (x_thread _ _ _ _ _ X c lid). exact Hnl.
  - thread_step X (RETRYING, thread_of lid (clt c s)) (Some (TWaitsRetry lid k)) Hv; try done.
    + intros l k' [= -> ->]. done.
    + by right.
    + intros c' t' l Hd. right. split; [exact Hd|]. by eapply Hh.
    + intros _. apply (x_thread _ _ _ _ _ X c lid). exact Hnl.
Qed.

(** The thread has the lock already, or waits for its turn. *)
Lemma stay_excl n :
  (n = Returns 0 ∧ thread_of lid (clt c s) = t) ∨ (∃ k, n = WaitsTurn k) →
  view_becomes lid (lview (clt c s) lid) (clt c s) x →
  excl_sys (goes_on c t lid n (set_clt c x s)) ho.
Proof using X Hvt.
  intros [[-> Ht]|[k ->]] Hv; cbn [goes_on].
  - assert (status_of lid (clt c s) = LockClientCache.LOCKED) as HL.
    { destruct (decide (status_of lid (clt c s) = LockClientCache.LOCKED)) as [|Hnl]; [done|].
      pose proof (x_thread _ _ _ _ _ X c lid Hnl) as Hb. cbn [vw_of lview snd] in Hb. by rewrite Ht in Hb. }
    thread_step X (lview (clt c s) lid) (@None tstate) Hv; try done.
    + apply X.
    + intros y Hy. by apply (x_rel _ _ _ _ _ X c lid y).
    + by left.
    + intros c' t' l Hh. unfold hd_of in Hh. cbn in Hh. apply elem_of_union in Hh as [Hh|Hh].
      * apply elem_of_singleton in Hh. injection Hh as -> -> ->. left. unfold lview. by rewrite HL, Ht.
      * right. split; [exact Hh|done].
  - thread_step X (lview (clt c s) lid) (Some (TWaitsTurn lid k)) Hv; try done.
    + apply X.
    + intros y Hy. by apply (x_rel _ _ _ _ _ X c lid y).
    + by left.
    + intros c' t' l Hh. right. by split.
    + apply (x_thread _ _ _ _ _ X c lid).
Qed.

(** The part of [acquire] from the label, for a thread that asked for nothing. *)
Lemma acqu_excl cond n :
  acqu t lid cond (clt c s) = Some (n, x) → excl_sys (goes_on c t lid n (set_clt c x s)) ho.
Proof using X Hvt.
  intros Ha. destruct (acqu_view _ _ _ _ _ _ Ha) as [_ Hn]. destruct n as [r|k|k|k].
  - destruct Hn as (-> & Hne & [[Ht Hv]|[Hf Hv]]); [by apply stay_excl; [left|]|].
    apply grab_excl; [apply (x_status _ _ _ _ _ X c lid); left; exact Hf| | |congruence|done].
    + intros t' _ Hq. destruct (asking_status t' Hq); congruence.
    + intros y Hy. destruct (x_rel _ _ _ _ _ X c lid y Hy) as (_ & Hno & _). destruct Hno. left. exact Hf.
  - destruct Hn as [Hnone Hv]. apply (ask_excl _ ACQUIRING); [left; by exists k| |congruence|done].
    intros t' _ Hq. destruct (asking_status t' Hq); congruence.
  - done.
  - apply stay_excl; [right; by exists k|done].
Qed.

(** The answer of the server. *)
Lemma reply_excl cond ret n :
  th_of s c t = Some (TReplied lid cond ret) → acquire_reply t lid cond ret (clt c s) = Some (n, x) →
  excl_sys (goes_on c t lid n (set_clt c x s)) ho.
Proof using X.
  intros Ht Ha. destruct (acquire_reply_view _ _ _ _ _ _ _ Ha) as [_ Hn].
  assert (status_of lid (clt c s) = ACQUIRING) as Hst
    by (apply (x_call _ _ _ _ _ X c t lid); by rewrite Ht).
  assert (∀ t', t' ≠ t → acquiring (th_of s c t') ≠ Some lid) as Hone.
  { intros t' Hne Hq. apply Hne. apply (x_one _ _ _ _ _ X c t' t lid); [done|by rewrite Ht]. }
  destruct n as [r|k|k|k].
  - destruct Hn as (-> & -> & Hv). apply grab_excl; [by eapply (x_replied _ _ _ _ _ X c t)|done| |congruence|done].
    intros y Hy. destruct (x_rel _ _ _ _ _ X c lid y Hy) as (_ & _ & Hno). by apply (Hno t cond).
  - destruct Hn as [-> Hv]. apply (ask_excl _ ACQUIRING); [left; by exists k|done|congruence|exact Hv].
  - destruct Hn as [-> Hv]. apply (ask_excl _ RETRYING); [right; by exists k|done|congruence|done].
  - done.
Qed.

Lemma retried_excl cond n :
  th_of s c t = Some (TWaitsRetry lid cond) → acquire_retried lid cond (clt c s) = (n, x) →
  excl_sys (goes_on c t lid n (set_clt c x s)) ho.
Proof using X.
  intros Ht Ha. pose proof (x_wait _ _ _ _ _ X c t lid cond Ht) as Hst. cbn [vw_of lview fst] in Hst.
  destruct (acquire_retried_view lid cond (clt c s)) as [Hv _]. rewrite Ha in Hv. cbn [snd] in Hv.
  injection Ha as <- _. apply (ask_excl _ ACQUIRING); [left; by exists cond| |congruence|done].
  intros t' Hne Hq. apply Hne. apply (x_one _ _ _ _ _ X c t' t lid); [done|by rewrite Ht].
Qed.

(** [release] by a thread. *)
Lemma release_excl r sg :
  LockClientCache.release t lid (clt c s) = Some (r, sg, x) →
  excl_sys (on_held (λ k, k ∖ {[(c, t, lid)]}) (set_clt c x s)) ho.
Proof using X Hvt.
  intros Ha. destruct (release_view _ _ _ _ _ _ Ha) as [_ [[Hne Hv]|[Ht (st & Hst & Hv)]]].
  - eapply (excl_eq _ _ _ _ _ _ _ ho); [|done| |exact X].
    + intros c' l. by apply vw_set_clt_same.
    + intros c' t' l Hh. unfold hd_of in *. cbn in Hh. set_solver.
  - assert (status_of lid (clt c s) = LockClientCache.LOCKED) as HL.
    { destruct (decide (status_of lid (clt c s) = LockClientCache.LOCKED)) as [|Hnl]; [done|].
      pose proof (x_thread _ _ _ _ _ X c lid Hnl) as Hb. cbn [vw_of lview snd] in Hb. by rewrite Ht in Hb. }
    assert (ho lid = Some c) as Hho by (apply (x_status _ _ _ _ _ X c lid); right; left; exact HL).
    assert (excl (vw_of s) (th_of s) (rl_of s) (λ c' t' l, hd_of s c' t' l ∧ (c', t', l) ≠ (c, t, lid)) ho) as X'.
    { eapply (excl_eq _ _ _ _ _ _ _ ho); [done|done| |exact X]. by intros ??? [? _]. }
    assert (excl (vw_of (set_clt c x s)) (th_of s) (rl_of s)
              (λ c' t' l, hd_of s c' t' l ∧ (c', t', l) ≠ (c, t, lid)) ho) as X2.
    { apply (excl_view _ _ _ _ _ _ c lid (st, no_thread) X').
      - intros c' l. exact (vw_set_clt c x s lid _ c' l Hv).
      - done.
      - intros y Hy. destruct (x_rel _ _ _ _ _ X c lid y Hy) as (_ & Hno & _). destruct Hno. right; left. exact HL.
      - right. intros t' Hq. destruct (asking_status t' Hq); congruence.
      - right. intros t' [Hh Hne]. apply Hne. pose proof (x_held _ _ _ _ _ X c t' lid Hh) as E.
        unfold vw_of, lview in E. congruence.
      - intros _ [_ Hlt]. cbn in Hlt. lia. }
    eapply (excl_eq _ _ _ _ _ _ _ ho); [done|done| |exact X2]. intros c' t' l Hh. unfold hd_of in *. cbn in Hh.
    set_solver.
Qed.

(** A revocation. *)
Lemma revoke_excl q r : revoke lid q (clt c s) = Some (HandlerReturns r x) → excl_sys (set_clt c x s) ho.
Proof using X.
  intros Ha. destruct (revoke_view _ _ _ _ _ Ha) as [Hv|[Hf Hv]].
  - eapply (excl_eq _ _ _ _ _ _ _ ho); [|done| |exact X]; [|done]. intros c' l. by apply vw_set_clt_same.
  - assert (ho lid = Some c) as Hho by (apply (x_status _ _ _ _ _ X c lid); left; exact Hf).
    apply (excl_view _ _ _ _ _ _ c lid (RELEASING, thread_of lid (clt c s)) X).
    + intros c' l. exact (vw_set_clt c x s lid _ c' l Hv).
    + done.
    + intros y Hy. destruct (x_rel _ _ _ _ _ X c lid y Hy) as (_ & Hno & _). destruct Hno. left. exact Hf.
    + right. intros t' Hq. destruct (asking_status t' Hq); congruence.
    + right. intros t'. apply not_held. congruence.
    + intros _. apply (x_thread _ _ _ _ _ X c lid). cbn. congruence.
Qed.

(** The releaser takes a lock. *)
Lemma take_excl y :
  rel s !! c = None → releaser_take (clt c s) = Some (Some (lid, y), x) →
  excl_sys (set_rel c (Some (lid, y)) (set_clt c x s)) ho.
Proof using X.
  intros Hr Ha. destruct (releaser_take_view _ _ _ _ Ha) as [Hf Hv].
  assert (ho lid = Some c) as Hho by (apply (x_status _ _ _ _ _ X c lid); right; right; exact Hf).
  assert (excl_sys (set_clt c x s) ho) as X2.
  { apply (excl_view _ _ _ _ _ _ c lid (NONE, thread_of lid (clt c s)) X).
    + intros c' l. exact (vw_set_clt c x s lid _ c' l Hv).
    + done.
    + intros y' _ [?|[?|?]]; done.
    + right. intros t' Hq. destruct (asking_status t' Hq); congruence.
    + right. intros t'. apply not_held. congruence.
    + intros _. apply (x_thread _ _ _ _ _ X c lid). cbn. congruence. }
  assert (∀ t' k, th_of s c t' ≠ Some (TReplied lid k 0)) as Hno.
  { intros t' k Ht. destruct (asking_status t'); [by rewrite Ht|congruence|congruence]. }
  destruct X2 as [Y1 Y2 Y3 Y4 Y5 Y6 Y7 Y8]. split; try done.
  intros c' l z. unfold rl_of. cbn. destruct (decide (c = c')) as [<-|].
  - rewrite lookup_partial_alter_eq. intros [= <- <-]. split_and!; [done| |done].
    intros Hw. change (owned (fst (vw_of (set_clt c x s) c lid))) in Hw.
    rewrite (vw_set_clt c x s lid _ c lid Hv), decide_True in Hw by done. destruct Hw as [?|[?|?]]; done.
  - rewrite lookup_partial_alter_ne by done. apply Y3.
Qed.
End steps.

(** The entries for a new lock do not change what the locks are. *)
Lemma init_excl c lid s ho : excl_sys s ho → excl_sys (set_clt c (LockClientCache.init_lock lid (clt c s)) s) ho.
Proof.
  intros X. set (x := LockClientCache.init_lock lid (clt c s)).
  assert (∀ l, lview x l = lview (clt c s) l ∨
    (l = lid ∧ status_of l (clt c s) = NONE ∧ lview x l = (NONE, no_thread))) as Hi.
  { intros l. destruct (init_lock_view lid (clt c s) l) as [H1 H2]. fold x in H1, H2. unfold lview. rewrite H1.
    destruct H2 as [->|(-> & H2 & H3)]; [by left|right]. by rewrite H2, H3. }
  destruct (Hi lid) as [Hs|(_ & Hn & Hl)].
  - eapply (excl_eq _ _ _ _ _ _ _ ho); [|done| |exact X]; [|done]. intros c' l. apply vw_set_clt_same.
    intros l'. destruct (Hi l') as [|(-> & _)]; done.
  - apply (excl_view _ _ _ _ _ _ c lid (NONE, no_thread) X).
    + intros c' l. apply vw_set_clt. intros l'. destruct (decide (l' = lid)) as [->|Hne]; [done|].
      destruct (Hi l') as [|(? & _)]; done.
    + intros [?|[?|?]]; done.
    + intros y _ [?|[?|?]]; done.
    + left. cbn. by rewrite Hn.
    + right. intros t. apply (not_held c lid s ho X). congruence.
    + intros _ [_ Hlt]. cbn in Hlt. lia.
Qed.

(** The server handles a request for a lock. *)
Lemma serve_excl c t lid cond q s ret y sent :
  excl_sys s (holder (srv s)) → lock_inv sent (srv s) → 0 < sint_val c →
  th_of s c t = Some (TSent lid cond q) → LockServerCache.acquire c lid q (srv s) = Some (ret, y) →
  lock_inv sent y ∧ excl_sys (set_thr c t (Some (TReplied lid cond ret)) (set_srv y s)) (holder y).
Proof.
  intros X V Hc Ht Ha. destruct (acquire_refines sent c lid q _ _ _ V Hc Ha) as (V' & Hret & Hho).
  split; [done|]. set (s' := set_thr c t _ _).
  assert (∀ c' t', th_of s' c' t' = if decide (c' = c ∧ t' = t) then Some (TReplied lid cond ret) else th_of s c' t') as Eth
    by (intros; exact (th_set_thr c t _ (set_srv y s) c' t')).
  assert (fst (vw_of s c lid) = ACQUIRING) as Hst by (apply (x_call _ _ _ _ _ X c t); by rewrite Ht).
  assert (∀ c' t', acquiring (th_of s' c' t') = acquiring (th_of s c' t') ∧
            calling (th_of s' c' t') = calling (th_of s c' t')) as Eacq.
  { intros c' t'. rewrite Eth. case_decide as Hd; [|done]. destruct Hd as [-> ->]. by rewrite Ht. }
  assert (∀ l c', holder (srv s) l = Some c' → holder y l = Some c') as Hmono.
  { intros l c' Hl. rewrite Hho. unfold spec_acquire. destruct (holder (srv s) lid) eqn:E; [done|]. cbn [snd].
    case_decide; [by simplify_eq|done]. }
  assert (ret = 0 → holder (srv s) lid = None ∧ holder y lid = Some c) as Hok.
  { intros ->. rewrite Hho. unfold spec_acquire in *. destruct (holder (srv s) lid); [done|]. cbn [snd].
    by rewrite decide_True. }
  destruct X as [X1 X2 X3 X4 X5 X6 X7 X8]. split; try done.
  - intros c' l Ho. apply Hmono. by apply X1.
  - intros c' t' l k. rewrite Eth. case_decide as Hd; [|intros H; by eapply Hmono, X2].
    destruct Hd as [-> ->]. intros [= -> -> ->]. by apply Hok.
  - intros c' l z Hr. destruct (X3 c' l z Hr) as (H1 & H2 & H3). split_and!; [by apply Hmono|done|].
    intros t' k. rewrite Eth. case_decide as Hd; [|apply H3]. destruct Hd as [-> ->]. intros [= -> -> ->].
    destruct (Hok eq_refl) as [Hn _]. congruence.
  - intros c' t' l. rewrite (proj2 (Eacq c' t')). apply X4.
  - intros c' t' l k. rewrite Eth. case_decide; [done|apply X5].
  - intros c' t1 t2 l. rewrite (proj1 (Eacq c' t1)), (proj1 (Eacq c' t2)). apply X6.
Qed.

(** The server takes a lock back. *)
Lemma return_excl c lid z s y sent :
  excl_sys s (holder (srv s)) → lock_inv sent (srv s) → 0 < sint_val c →
  rel s !! c = Some (lid, z) → LockServerCache.release c lid z (srv s) = Some (0, y) →
  lock_inv sent y ∧ excl_sys (set_rel c None (set_srv y s)) (holder y).
Proof.
  intros X V Hc Hr Ha. destruct (release_refines sent c lid z _ _ _ V Hc Ha) as (V' & Hret & Hho).
  split; [done|]. destruct (x_rel _ _ _ _ _ X c lid z Hr) as (Hh & Hno & Hnt).
  assert (∀ l, holder y l = if decide (l = lid) then None else holder (srv s) l) as Ey.
  { intros l. rewrite Hho. unfold spec_release. by rewrite decide_True. }
  destruct X as [X1 X2 X3 X4 X5 X6 X7 X8]. split; try done.
  - intros c' l Ho. pose proof (X1 c' l Ho) as E. rewrite Ey. case_decide; [|done]. subst l.
    rewrite Hh in E. injection E as <-. done.
  - intros c' t' l k Ht. pose proof (X2 c' t' l k Ht) as E. rewrite Ey. case_decide; [|done]. subst l.
    rewrite Hh in E. injection E as <-. by apply Hnt in Ht.
  - intros c' l w. unfold rl_of. cbn. destruct (decide (c = c')) as [<-|Hne].
    + by rewrite lookup_partial_alter_eq.
    + rewrite lookup_partial_alter_ne by done. intros Hw. destruct (X3 c' l w Hw) as (H1 & H2 & H3).
      split_and!; [|done|done]. rewrite Ey. case_decide; [|done]. subst l. congruence.
Qed.

Lemma goes_on_srv c t lid n s : srv (goes_on c t lid n s) = srv s.
Proof. by destruct n. Qed.

Lemma signal_excl c sg s ho : excl_sys s ho → excl_sys (signal c sg s) ho.
Proof. by destruct sg. Qed.

(** An intermediate client state that is overwritten. *)
Lemma excl_overwrite c t lid n x x0 s ho :
  excl_sys (goes_on c t lid n (set_clt c x (set_clt c x0 s))) ho →
  excl_sys (goes_on c t lid n (set_clt c x s)) ho.
Proof.
  intros X. destruct n; (eapply (excl_eq _ _ _ _ _ _ _ ho); [|done|done|exact X]); intros c' l; cbn [goes_on];
    unfold vw_of, clt; cbn; rewrite !map_at_insert; by repeat case_decide.
Qed.

(** The request leaves the client. *)
Lemma send_excl c t lid cond q s ho :
  excl_sys s ho → th_of s c t = Some (TCalling lid cond) → excl_sys (set_thr c t (Some (TSent lid cond q)) s) ho.
Proof.
  intros X E. set (o := Some (TSent lid cond q)).
  eapply (excl_eq (vw_of s)); [done|intros; exact (th_set_thr c t o s _ _)|done|].
  assert (∀ c' t', let o' := if decide (c' = c ∧ t' = t) then o else th_of s c' t' in
    acquiring o' = acquiring (th_of s c' t') ∧ calling o' = calling (th_of s c' t') ∧
    (∀ l k, o' = Some (TReplied l k 0) → th_of s c' t' = Some (TReplied l k 0)) ∧
    (∀ l k, o' = Some (TWaitsRetry l k) → th_of s c' t' = Some (TWaitsRetry l k))) as Eo.
  { intros c' t'. cbn. case_decide as Hd; [|done]. destruct Hd as [-> ->]. by rewrite E. }
  destruct X as [X1 X2 X3 X4 X5 X6 X7 X8]. split; try done.
  - intros c' t' l k Ht. eapply X2. by apply (Eo c' t').
  - intros c' l y Hr. destruct (X3 c' l y Hr) as (? & ? & Hn). split_and!; [done|done|].
    intros t' k Ht. apply (Hn t' k). by apply (Eo c' t').
  - intros c' t' l. rewrite (proj1 (proj2 (Eo c' t'))). apply X4.
  - intros c' t' l k Ht. eapply X5. by apply (Eo c' t').
  - intros c' t1 t2 l. rewrite (proj1 (Eo c' t1)), (proj1 (Eo c' t2)). apply X6.
Qed.

Lemma sys_step_inv l s s' : sys_inv s → label_ok l → sys_step l s = Some s' → sys_inv s'.
Proof.
  intros [[sent V] X] Hok H.
  destruct l as [c t lid cond|c t|c t|c t|c t fresh|c t lid|c lid q|c lid|c|c|o]; cbn [sys_step label_ok] in *.
  - apply bind_Some in H as (_ & _ & H). destruct (thr s !! (c, t)) eqn:E; [done|].
    apply bind_Some in H as ([n x] & Ha & H). injection H as <-. split; [exists sent; by rewrite goes_on_srv|].
    rewrite goes_on_srv. unfold acquire_enter in Ha.
    apply (excl_overwrite c t lid n x (LockClientCache.init_lock lid (clt c s))).
    apply (acqu_excl c t lid _ x _ (init_excl c lid s _ X) (proj1 Hok) cond n).
    rewrite clt_set_clt, decide_True by done. exact Ha.
  - destruct (thr s !! (c, t)) as [[lid cond| | | |]|] eqn:E; [|done..]. injection H as <-.
    split; [by exists sent|]. by eapply send_excl.
  - destruct (thr s !! (c, t)) as [[|lid cond q| | |]|] eqn:E; [done| |done..].
    apply bind_Some in H as ([ret y] & Ha & H). injection H as <-.
    destruct (serve_excl c t lid cond q s ret y sent X V (proj2 Hok) E Ha) as [V' X'].
    split; [by exists sent|done].
  - apply bind_Some in H as (_ & _ & H). destruct (thr s !! (c, t)) as [[| |lid cond ret| |]|] eqn:E; [done|done| |done..].
    apply bind_Some in H as ([n x] & Ha & H). injection H as <-. split; [exists sent; by rewrite goes_on_srv|].
    rewrite goes_on_srv. by eapply reply_excl.
  - apply bind_Some in H as (_ & _ & H). destruct (thr s !! (c, t)) as [[| | |lid cond|lid cond]|] eqn:E; [done..| | |done].
    + case_bool_decide; [|done]. destruct (acquire_retried lid cond (clt c s)) as [n x] eqn:Ea.
      injection H as <-. split; [exists sent; by rewrite goes_on_srv|]. rewrite goes_on_srv.
      by apply (retried_excl c t lid (on_woken (λ k, k ∖ {[(c, cond)]}) s) x _ X cond n).
    + case_bool_decide; [|done]. apply bind_Some in H as ([n x] & Ha & H).
      injection H as <-. split; [exists sent; by rewrite goes_on_srv|]. rewrite goes_on_srv.
      unfold acquire_requeued in Ha.
      apply (excl_overwrite c t lid n x (on_cond (delete cond) (clt c s))).
      apply (acqu_excl c t lid _ x _) with (cond := fresh); [|exact (proj1 Hok)|].
      * eapply (excl_eq (vw_of s)); [|done|done|exact X]. intros c' l.
        by apply (vw_set_clt_same c (on_cond (delete cond) (clt c s)) (on_woken (λ k, k ∖ {[(c, cond)]}) s) c' l).
      * rewrite clt_set_clt, decide_True by done. exact Ha.
  - apply bind_Some in H as (_ & _ & H). destruct (thr s !! (c, t)); [done|].
    apply bind_Some in H as ([[r sg] x] & Ha & H). injection H as <-. split; [exists sent; by destruct sg|].
    replace (srv (signal _ _ _)) with (srv s) by (by destruct sg). apply signal_excl.
    by apply (release_excl c t lid s x _ X (proj1 Hok) r sg).
  - apply bind_Some in H as (_ & _ & H). apply bind_Some in H as (r & Ha & H). destruct r; [done|].
    injection H as <-. split; [by exists sent|]. by eapply revoke_excl.
  - apply bind_Some in H as (_ & _ & H). apply bind_Some in H as ([sg x] & Ha & H). injection H as <-.
    split; [exists sent; by destruct sg|]. replace (srv (signal _ _ _)) with (srv s) by (by destruct sg).
    apply signal_excl. eapply (excl_eq (vw_of s)); [|done|done|exact X]. intros c' l. apply vw_set_clt_same.
    by eapply retry_view.
  - apply bind_Some in H as (_ & _ & H). destruct (rel s !! c) eqn:E; [done|].
    apply bind_Some in H as ([o x] & Ha & H). destruct o as [[lid y]|]; [|done]. injection H as <-.
    split; [by exists sent|]. by apply (take_excl c lid s x _ X).
  - destruct (rel s !! c) as [[lid z]|] eqn:E; [|done]. apply bind_Some in H as ([ret y] & Ha & H).
    destruct (Z.eqb_spec ret 0) as [->|]; [|done]. injection H as <-.
    destruct (return_excl c lid z s y sent X V Hok E Ha) as [V' X']. split; [by exists sent|done].
  - assert (∃ x y, lstep o (srv s) = Some (x, y) ∧ s' = set_srv y s ∧ op_ok o ∧
              (∀ h h', spec_step o x h h' → ∀ l, h' l = h l)) as (x & y & Hs & -> & Ho & Hsame).
    { destruct o; try done; apply bind_Some in H as ([x y] & Hs & H); injection H as <-; by exists x, y. }
    destruct (lstep_refines _ _ _ _ _ V Ho Hs) as [V' Hsp]. split; [by eexists|].
    eapply excl_ho; [|exact X]. by apply Hsame.
Qed.

Lemma vw_new_sys c l : vw_of new_sys c l = (NONE, 0).
Proof. reflexivity. Qed.

Lemma new_sys_inv : sys_inv new_sys.
Proof.
  split; [exists []; exact (runs_inv _ _ runs_new)|]. split; try done.
  - intros c l. rewrite vw_new_sys. intros [?|[?|?]]; done.
  - intros c l. rewrite vw_new_sys. intros _ [Hlt _]. cbn in Hlt. lia.
Qed.

Lemma sys_runs_inv s : sys_runs s → sys_inv s.
Proof. induction 1; [apply new_sys_inv|by eapply sys_step_inv]. Qed.

Lemma held_unique s c1 t1 c2 t2 lid :
  sys_inv s → (c1, t1, lid) ∈ held s → (c2, t2, lid) ∈ held s →
  c1 = c2 ∧ t1 = t2 ∧ holder (srv s) lid = Some c1.
Proof.
  intros [_ X] H1 H2.
  pose proof (x_held _ _ _ _ _ X c1 t1 lid H1) as E1. pose proof (x_held _ _ _ _ _ X c2 t2 lid H2) as E2.
  assert (holder (srv s) lid = Some c1) as O1 by (apply (x_status _ _ _ _ _ X); rewrite E1; right; by left).
  assert (holder (srv s) lid = Some c2) as O2 by (apply (x_status _ _ _ _ _ X); rewrite E2; right; by left).
  rewrite O1 in O2. injection O2 as <-. split_and!; congruence.
Qed.

(** C6. A lock is held by one thread of one client: in every run of the lock server with
    any number of caching clients and threads, however calls, answers, wake-ups, retries,
    revocations (late, early or duplicated ones too), releases and the threads of server
    and clients interleave, two threads that both returned from [acquire] of a lock and did
    not release it are the same thread of the same client, and the server holds that
    client for the owner. *)
Theorem lock_exclusion s c1 t1 c2 t2 lid :
  sys_runs s → (c1, t1, lid) ∈ held s → (c2, t2, lid) ∈ held s →
  c1 = c2 ∧ t1 = t2 ∧ holder (srv s) lid = Some c1.
Proof.
  intros Hr H1 H2. by apply (held_unique s c1 t1 c2 t2 lid (sys_runs_inv s Hr)).
Qed.

(** ** Runs *)

Fixpoint sys_exec (ls : list sys_label) (s : sys) : option sys :=
  match ls with [] => Some s | l :: ls => s ← sys_step l s; sys_exec ls s end.

Lemma sys_exec_runs ls s s' : sys_runs s → Forall label_ok ls → sys_exec ls s = Some s' → sys_runs s'.
Proof.
  revert s. induction ls as [|l ls IH]; intros s Hr Hok H; cbn in H; [by injection H as <-|].
  apply Forall_cons in Hok as [Hl Hok]. apply bind_Some in H as (s1 & H1 & H2).
  eapply IH; [by eapply sys_runs_step|done|done].
Qed.

(** Client 3 gets lock 9, client 4 has to wait, the lock is revoked and goes to client 4. *)
Definition demo_locks : list sys_label :=
  [SServer (OSubscribe (λ _, true) (SInt 3) ($"a")); SServer (OSubscribe (λ _, true) (SInt 4) ($"b"));
   SAcquire (SInt 3) 7 (Ull 9) 1; SSend (SInt 3) 7; SServe (SInt 3) 7; SReply (SInt 3) 7;
   SAcquire (SInt 4) 8 (Ull 9) 1; SSend (SInt 4) 8; SServe (SInt 4) 8; SReply (SInt 4) 8;
   SServer ORevoker; SRevoke (SInt 3) (Ull 9) (Ull 2); SRelease (SInt 3) 7 (Ull 9); STake (SInt 3); SReturn (SInt 3);
   SServer ORetryer; SRetry (SInt 4) (Ull 9); SWake (SInt 4) 8 2; SSend (SInt 4) 8; SServe (SInt 4) 8; SReply (SInt 4) 8].

Lemma lock_exclusion_witness :
  ∃ s, sys_exec demo_locks new_sys = Some s ∧ (SInt 4, 8, Ull 9) ∈ held s ∧
    holder (srv s) (Ull 9) = Some (SInt 4).
Proof.
  destruct (sys_exec demo_locks new_sys) as [s|] eqn:E; [|vm_compute in E; discriminate E].
  assert ((SInt 4, 8, Ull 9) ∈ held s) as Hh by (vm_compute in E; injection E as <-; vm_compute; reflexivity).
  exists s. split; [reflexivity|]. split; [exact Hh|].
  apply (lock_exclusion s (SInt 4) 8 (SInt 4) 8 (Ull 9)); [|exact Hh|exact Hh].
  apply (sys_exec_runs demo_locks new_sys s sys_runs_new); [|exact E].
  repeat constructor; vm_compute; reflexivity.
Defined.

(** Two threads of a client ask for two locks at the same time: the answer for lock 9 is
    recorded with the sequence id that was counted up for lock 10, so the revocation the
    server sends for its own sequence id is taken for an old one and lost; the release
    then keeps the lock at the client. *)
Example revocation_lost :
  let ls := [SServer (OSubscribe (λ _, true) (SInt 3) ($"a")); SServer (OSubscribe (λ _, true) (SInt 4) ($"b"));
     SAcquire (SInt 3) 7 (Ull 9) 1; SSend (SInt 3) 7; SServe (SInt 3) 7;
     SAcquire (SInt 3) 6 (Ull 10) 2; SReply (SInt 3) 7;
     SAcquire (SInt 4) 8 (Ull 9) 1; SSend (SInt 4) 8; SServe (SInt 4) 8; SReply (SInt 4) 8;
     SServer ORevoker; SRevoke (SInt 3) (Ull 9) (Ull 2); SRelease (SInt 3) 7 (Ull 9)] in
  match sys_exec ls new_sys with
  | Some s => status_of (Ull 9) (clt (SInt 3) s) = LockClientCache.FREE ∧ l_released (clt (SInt 3) s) = [] ∧
              LockClientCache.l_revoke (clt (SInt 3) s) = [] ∧
              LockServerCache.l_revoke (srv s) = [] ∧ holder (srv s) (Ull 9) = Some (SInt 3)
  | None => False
  end.
Proof. vm_compute. by split_and!. Qed.

(** ** What steps of the locks do to a thread *)

(** Steps of the locks that are not calls of a thread. *)
Definition background (l : sys_label) : bool :=
  match l with SAcquire _ _ _ _ | SRelease _ _ _ => false | _ => true end.

Definition t_lock (s : tstate) : ull :=
  match s with
  | TCalling l _ | TSent l _ _ | TReplied l _ _ | TWaitsRetry l _ | TWaitsTurn l _ => l
  end.

Definition holds_lock (s : sys) (c : sint) (t : Z) (l : ull) : Prop := (c, t, l) ∈ held s.

(** The thread is where it was, inside [acquire] of the same lock as before, or has
    returned from it with the lock. *)
Definition moved (s s' : sys) (c : sint) (t : Z) : Prop :=
  (thr s' !! (c, t) = thr s !! (c, t) ∧ ∀ l, holds_lock s' c t l ↔ holds_lock s c t l) ∨
  ∃ ts, thr s !! (c, t) = Some ts ∧
    ((∃ ts', thr s' !! (c, t) = Some ts' ∧ t_lock ts' = t_lock ts ∧ ∀ l, holds_lock s' c t l ↔ holds_lock s c t l) ∨
     (thr s' !! (c, t) = None ∧ ∀ l, holds_lock s' c t l ↔ l = t_lock ts ∨ holds_lock s c t l)).

Lemma set_thr_lookup c t o s c' t' :
  thr (set_thr c t o s) !! (c', t') = if decide ((c', t') = (c, t)) then o else thr s !! (c', t').
Proof.
  cbn. case_decide as E; [injection E as -> ->; apply lookup_partial_alter_eq|by rewrite lookup_partial_alter_ne].
Qed.

(** After a section of [acquire]. *)
Lemma goes_on_thread c t lid n s c' t' :
  (∀ l, (c', t') ≠ (c, t) → holds_lock (goes_on c t lid n s) c' t' l ↔ holds_lock s c' t' l) ∧
  ((c', t') ≠ (c, t) → thr (goes_on c t lid n s) !! (c', t') = thr s !! (c', t')) ∧
  ((∃ ts', thr (goes_on c t lid n s) !! (c, t) = Some ts' ∧ t_lock ts' = lid ∧
      ∀ l, holds_lock (goes_on c t lid n s) c t l ↔ holds_lock s c t l) ∨
   (thr (goes_on c t lid n s) !! (c, t) = None ∧
      ∀ l, holds_lock (goes_on c t lid n s) c t l ↔ l = lid ∨ holds_lock s c t l)).
Proof.
  unfold holds_lock. destruct n; cbn;
    (split_and!; [intros l Hne; try set_solver|intros Hne; by rewrite lookup_partial_alter_ne|]);
    rewrite lookup_partial_alter_eq.
  1: right; split; [done|set_solver].
  all: left; eexists; split; [reflexivity|]; split; [done|set_solver].
Qed.

Lemma goes_on_moved s0 s c t lid n ts c' t' :
  thr s0 !! (c, t) = Some ts → t_lock ts = lid → thr s = thr s0 → held s = held s0 →
  moved s0 (goes_on c t lid n s) c' t'.
Proof.
  intros Hts <- Ht Hh. destruct (goes_on_thread c t (t_lock ts) n s c' t') as (G1 & G2 & G3).
  unfold moved, holds_lock in *. rewrite Ht, Hh in *.
  destruct (decide ((c', t') = (c, t))) as [[= -> ->]|Hne]; [right; eauto|].
  left. split; [by apply G2|]. intros l. by apply G1.
Qed.

Lemma moved_same s s' c t : thr s' = thr s → held s' = held s → moved s s' c t.
Proof. intros E1 E2. left. unfold holds_lock. by rewrite E1, E2. Qed.

(** A thread inside [acquire] of a lock goes on inside. *)
Lemma moved_inside s s1 c t ts ts' c' t' :
  thr s !! (c, t) = Some ts → t_lock ts' = t_lock ts → thr s1 = thr s → held s1 = held s →
  moved s (set_thr c t (Some ts') s1) c' t'.
Proof.
  intros Hts El Et Eh. unfold moved, holds_lock. rewrite set_thr_lookup, Et. cbn [held set_thr]. rewrite Eh.
  case_decide as E; [injection E as -> ->; right; eauto 8|by left].
Qed.

Lemma signal_thread c sg s : thr (signal c sg s) = thr s ∧ held (signal c sg s) = held s.
Proof. by destruct sg. Qed.

Lemma sys_step_moved l s s' c t : background l = true → sys_step l s = Some s' → moved s s' c t.
Proof.
  intros Hb H. destruct l as [d u lid cond|d u|d u|d u|d u fresh|d u lid|d lid q|d lid|d|d|o]; try done; cbn [sys_step] in H.
  - destruct (thr s !! (d, u)) as [[]|] eqn:E; simplify_eq. by eapply moved_inside.
  - destruct (thr s !! (d, u)) as [[]|] eqn:E; simplify_eq. apply bind_Some in H as ([ret y] & _ & H).
    injection H as <-. by eapply moved_inside.
  - apply bind_Some in H as (_ & _ & H). destruct (thr s !! (d, u)) as [[]|] eqn:E; simplify_eq.
    apply bind_Some in H as ([n x] & _ & H). injection H as <-. by eapply goes_on_moved.
  - apply bind_Some in H as (_ & _ & H). destruct (thr s !! (d, u)) as [[]|] eqn:E; simplify_eq; case_bool_decide; simplify_eq.
    + destruct (acquire_retried _ _ _) as [n x]. simplify_eq. by eapply goes_on_moved.
    + apply bind_Some in H as ([n x] & _ & H). injection H as <-. by eapply goes_on_moved.
  - apply bind_Some in H as (_ & _ & H). apply bind_Some in H as ([] & _ & H); simplify_eq. by apply moved_same.
  - apply bind_Some in H as (_ & _ & H). apply bind_Some in H as ([sg x] & _ & H). injection H as <-.
    destruct (signal_thread d sg (set_clt d x s)) as [E1 E2]. apply moved_same; [by rewrite E1|by rewrite E2].
  - apply bind_Some in H as (_ & _ & H). destruct (rel s !! d); [done|].
    apply bind_Some in H as ([[p|] x] & _ & H); simplify_eq. by apply moved_same.
  - destruct (rel s !! d) as [[lid z]|]; [|done]. apply bind_Some in H as ([ret y] & _ & H).
    destruct (ret =? 0); simplify_eq. by apply moved_same.
  - destruct o; try done; apply bind_Some in H as ([x y] & _ & H); simplify_eq; by apply moved_same.
Qed.

(** [acquire] and [release] of a thread. *)
Lemma sys_acquire_thread c t lid cond s s' :
  sys_step (SAcquire c t lid cond) s = Some s' →
  (∀ c' t', (c', t') ≠ (c, t) → moved s s' c' t') ∧
  ((∃ ts', thr s' !! (c, t) = Some ts' ∧ t_lock ts' = lid ∧ ∀ l, holds_lock s' c t l ↔ holds_lock s c t l) ∨
   (thr s' !! (c, t) = None ∧ ∀ l, holds_lock s' c t l ↔ l = lid ∨ holds_lock s c t l)).
Proof.
  intros H. cbn [sys_step] in H. apply bind_Some in H as (_ & _ & H). destruct (thr s !! (c, t)); [done|].
  apply bind_Some in H as ([n x] & _ & H). injection H as <-. split.
  - intros c' t' Hne. destruct (goes_on_thread c t lid n (set_clt c x s) c' t') as (G1 & G2 & _).
    left. split; [by apply G2|]. intros l. by apply G1.
  - by destruct (goes_on_thread c t lid n (set_clt c x s) c t) as (_ & _ & G3).
Qed.

Lemma sys_release_thread c t lid s s' :
  sys_step (SRelease c t lid) s = Some s' →
  (∀ c' t', (c', t') ≠ (c, t) → moved s s' c' t') ∧ thr s !! (c, t) = None ∧ thr s' !! (c, t) = None ∧
  ∀ l, holds_lock s' c t l ↔ l ≠ lid ∧ holds_lock s c t l.
Proof.
  intros H. cbn [sys_step] in H. apply bind_Some in H as (_ & _ & H). destruct (thr s !! (c, t)) eqn:E; [done|].
  apply bind_Some in H as ([[r sg] x] & _ & H). injection H as <-.
  set (s1 := on_held _ _). destruct (signal_thread c sg s1) as [E1 E2]. unfold moved, holds_lock. rewrite E1, E2.
  subst s1. cbn. split_and!; [|done|done|set_solver]. intros c' t' Hne. left. split; [done|]. set_solver.
Qed.
