(* ===== verification/RsmLoose.v ===== *)
(** * Replicas that differ in what clients cannot see

    The services of the replicas have threads of their own, which change the state of one
    replica between requests.  The replicas then hold equivalent states, not equal ones.
    When the handlers answer alike at equivalent states, the group still answers
    like its primary, and a client finds it. *)

From S2P Require Import Prelude.
From S2P Require Import Marshall.
From S2P Require Import Protocol.
From S2P Require Import Config.
From S2P Require Import Rsm.
From S2P Require Import RsmClient.

(** Handlers that answer alike, and end alike. *)
Class Alike {S} (E : S → S → Prop) (procs : gmap Z (proc S)) := {
  alike_equiv :: Equivalence E;
  alike_execute n req x y rep x' :
    E x y → execute procs n req x = Some (rep, x') → ∃ y', execute procs n req y = Some (rep, y') ∧ E x' y';
  alike_answers : answers procs;
}.

(** Handlers made from methods that do. *)
Section procs.
Context {S : Type} (E : S → S → Prop).

Definition proc_alike (h : proc S) : Prop := ∀ args ret x y z m x',
  E x y → h args ret x = Some (z, m, x') → ∃ y', h args ret y = Some (z, m, y') ∧ E x' y'.

Definition meth_alike {R} (meth : S → option (Z * R * S)) : Prop := ∀ x y b r x',
  E x y → meth x = Some (b, r, x') → ∃ y', meth y = Some (b, r, y') ∧ E x' y'.

Lemma execute_alike procs n req x y rep x' :
  (∀ n h, procs !! n = Some h → proc_alike h) →
  E x y → execute procs n req x = Some (rep, x') → ∃ y', execute procs n req y = Some (rep, y') ∧ E x' y'.
Proof using Type.
  intros Hp Hxy. unfold execute. destruct (procs !! n) as [h|] eqn:Hh; [|done]. cbn [mbind option_bind].
  destruct (unmarshall_of_string req) as [args|]; [|done]. cbn [mbind option_bind].
  intros ([[z m] x1] & Hx & H)%bind_Some. destruct (Hp n h Hh _ _ _ _ _ _ _ Hxy Hx) as (y1 & -> & Hy). cbn [mbind option_bind].
  destruct (put_int z new_marshall) as [m1|]; [|done]. destruct (m_str m) as [s1|]; [|done]. cbn [mbind option_bind] in *.
  destruct (put_string s1 m1) as [m2|]; [|done]. cbn [mbind option_bind] in *.
  destruct (m_str m2); [|done]. injection H as <- <-. cbn. eauto.
Qed.

Lemma reg1_alike `{Wire A, Wire R} (r0 : R) (meth : A → R → S → option (Z * R * S)) :
  (∀ a, meth_alike (meth a r0)) → proc_alike (reg1 r0 meth).
Proof using Type.
  intros Hm args ret x y z m x' Hxy. unfold reg1. destruct (w_get w_def args) as [[a u]|]; [|done]. cbn [mbind option_bind].
  destruct (okdone u); [|done]. unfold call_method. intros ([[b r] x1] & Hx & He)%bind_Some.
  destruct (Hm a _ _ _ _ _ Hxy Hx) as (y1 & -> & Hy). cbn [mbind option_bind].
  destruct (w_put r ret); [|done]. cbn [mbind option_bind] in *. injection He as <- <- <-. eauto.
Qed.

Lemma proc_alike_ext h h' : (∀ args ret x, h args ret x = h' args ret x) → proc_alike h' → proc_alike h.
Proof using Type. intros He H args ret x y z m x'. rewrite !He. apply H. Qed.
End procs.

Section loose.
Context {S : Type} (E : S → S → Prop) (procs : gmap Z (proc S)) (links : cstring → link) `{!Alike E procs}.
Hypothesis Hlinks : ∀ m, links m = Reachable.
Local Notation replicas := (gmap cstring (rsm S)).
Implicit Types s b : rsm S.

(** A backup with this view stamp and an equivalent state. *)
Definition near (vs : viewstamp) (x : S) b : Prop := ∃ y, E x y ∧ at_state vs y b.

Definition nearsync s (bs : replicas) : Prop :=
  inviewchange s = false ∧ r_primary s = myaddr s ∧ rsm_mutex s = false ∧ is_u32 (seqno (myvs s)) ∧
  ∀ m, m ∈ cur s → m ≠ myaddr s → ∃ b, bs !! m = Some b ∧ near (myvs s) (r_service s) b.

Definition near_or_done (vs : viewstamp) (x x' : S) b : Prop := near vs x b ∨ near (next_vs vs) x' b.

Lemma call_invoke_near vs x n req rep x' m bs b :
  is_u32 (seqno vs) → execute procs n req x = Some (rep, x') → bs !! m = Some b → near_or_done vs x x' b →
  ∃ b', call_invoke procs (links m) n (next_vs vs) req m bs = (true, <[m := b']> bs) ∧ near (next_vs vs) x' b'.
Proof using All.
  intros Hvs He Hb Hon. unfold call_invoke. rewrite Hlinks, Hb.
  assert (∃ r b', Rsm.invoke procs n (next_vs vs) req b = Some (r, b') ∧ 0 <= r ∧ near (next_vs vs) x' b') as (r & b' & -> & Hr & Hn).
  { destruct Hon as [(y & Hy & Hat)|(y & Hy & Hat)].
    - destruct (alike_execute n req x y rep x' Hy He) as (y' & Ey & Hy').
      destruct (alike_answers _ _ _ _ _ Ey) as (ret & Hrep & Hret).
      destruct (invoke_old procs vs y b n req rep y' ret Hvs Hat Ey Hrep) as (b' & -> & Hat'). exists ret, b'.
      split_and!; [done..|]. by exists y'.
    - rewrite (invoke_new procs vs y b n req Hvs Hat). exists rsm_ERR, b. unfold rsm_ERR. split_and!; [done|lia|]. by exists y. }
  exists b'. by rewrite (proj2 (Z.leb_le 0 r)).
Qed.

Lemma call_backups_near vs x n req rep x' me mems bs :
  is_u32 (seqno vs) → execute procs n req x = Some (rep, x') →
  (∀ m, m ∈ mems → m ≠ me → ∃ b, bs !! m = Some b ∧ near_or_done vs x x' b) →
  ∃ bs', call_backups procs links n (next_vs vs) req me mems bs = (true, bs') ∧
    (∀ m, m ∈ mems → m ≠ me → ∃ b, bs' !! m = Some b ∧ near (next_vs vs) x' b) ∧
    (∀ m b, bs !! m = Some b → near (next_vs vs) x' b → ∃ b', bs' !! m = Some b' ∧ near (next_vs vs) x' b').
Proof using All.
  intros Hvs He. revert bs. induction mems as [|m mems IH]; intros bs Hb; cbn [call_backups].
  { exists bs. split_and!; [done| |eauto]. intros m Hm. by apply elem_of_nil in Hm. }
  case_bool_decide as Hme.
  { destruct (IH bs) as (bs' & Ec & H1 & H2); [intros y Hy; apply Hb; by constructor|].
    exists bs'. split_and!; [done| |done]. intros y [->|Hy]%elem_of_cons Hne; [done|auto]. }
  destruct (Hb m) as (b & Hbm & Hon); [constructor|done|].
  destruct (call_invoke_near vs x n req rep x' m bs b Hvs He Hbm Hon) as (b' & -> & Hn).
  destruct (IH (<[m := b']> bs)) as (bs' & Ec & H1 & H2).
  { intros y Hy Hne. destruct (decide (y = m)) as [->|]; [rewrite lookup_insert_eq; exists b'; split; [done|by right]|].
    rewrite lookup_insert_ne by done. apply Hb; [by constructor|done]. }
  exists bs'. split_and!; [done| |].
  - intros y [->|Hy]%elem_of_cons Hne; [apply (H2 m b'); [apply lookup_insert_eq|done]|auto].
  - intros y c Hy Hc. destruct (decide (y = m)) as [->|]; [apply (H2 m b'); [apply lookup_insert_eq|done]|].
    apply (H2 y c); [by rewrite lookup_insert_ne|done].
Qed.

(** The primary is at [p] and its service state is [x]. *)
Definition leads (p : cstring) (w : replicas) (x : S) : Prop :=
  ∃ s, w !! p = Some s ∧ myaddr s = p ∧ r_service s = x ∧ nearsync s (delete p w).

Lemma leads_serves p w x n req rep x' :
  leads p w x → execute procs n req x = Some (rep, x') →
  ∃ w', at_invoke procs links p n req w = (rsm_OK, rep, w') ∧ leads p w' x'.
Proof using All.
  intros (s & Hs & Hp & <- & (H1 & H2 & H3 & H4 & H5)) He. unfold at_invoke. rewrite Hs. unfold client_invoke.
  rewrite H1. unfold amiprimary, locked, amiprimary_wo. rewrite H3, H1, bool_decide_true by done. cbn [mbind option_bind negb andb].
  destruct (curview_eq s) as [Hc C]. destruct (curview s) as [mems s1]. cbn [fst snd] in *. subst mems.
  destruct C as (C1 & C2 & C3 & C4 & _ & C6 & C7 & _ & C9 & C10 & _ & _).
  destruct (call_backups_near (myvs s) (r_service s) n req rep x' (myaddr s) (cur s) (delete p w) H4 He)
    as (bs' & Ec & Hall & _).
  { intros m Hm Hne. destruct (H5 m Hm Hne) as (b & Hb & Hat). exists b. split; [done|by left]. }
  fold (next_vs (myvs s)). rewrite C10, Ec. cbn [negb]. rewrite C3, He. cbn [mbind option_bind].
  eexists. split; [done|]. eexists. split; [apply lookup_insert_eq|].
  split; [change (myaddr s1 = p); congruence|]. split; [done|].
  split_and!; [change (inviewchange s1 = false); congruence|change (r_primary s1 = myaddr s1); congruence
    |change (rsm_mutex s1 = false); congruence|apply u32_range|].
  change (∀ m, m ∈ cur s1 → m ≠ myaddr s1 →
    ∃ b, delete p (<[p := set_vs (next_vs (myvs s)) (myvs s1) (set_service x' s1)]> bs') !! m = Some b ∧ near (next_vs (myvs s)) x' b).
  rewrite C1, C10. intros m Hm Hne. rewrite lookup_delete_ne, lookup_insert_ne by congruence. by apply Hall.
Qed.

Lemma invoke_leads fuel p w x n req rep x' c :
  leads p w x → execute procs n req x = Some (rep, x') → p_id c = p →
  ∃ w', RsmClient.invoke (at_invoke procs links) at_members at_bind (1 + fuel) n req [] c w = Returned (rsm_OK, rep, c, w') ∧ leads p w' x'.
Proof using All.
  intros Hl He Hp. destruct (leads_serves p w x n req rep x' Hl He) as (w' & Ei & Hl'). exists w'.
  cbn [RsmClient.invoke Nat.add]. by rewrite Hp, Ei.
Qed.

(** A typed call returns what the method returns at the primary. *)
Lemma call_leads `{WireOk A, WireOk R} fuel n h (meth : A → R → S → option (Z * R * S)) r0 a (b : Z) r x x' p c w :
  procs !! n = Some h → (∀ args ret x, h args ret x = reg1 r0 meth args ret x) → w_wf a → w_wf r → is_s32 b →
  Z.of_nat (length (w_enc a)) <= max_content → Z.of_nat (8 + length (w_enc r)) <= max_content →
  meth a r0 x = Some (b, r, x') → leads p w x → p_id c = p →
  ∃ w', rsm_call1 (at_invoke procs links) at_members at_bind (1 + fuel) n a w_def c w = Returned (b, r, c, w') ∧ leads p w' x'.
Proof using All.
  intros Hn Hh Ha Hr Hb La Lr Hm Hl Hp. pose proof (execute_reg procs n h meth r0 a b r x x' Hn Hh Ha Hr Hb La Lr Hm) as He.
  destruct (invoke_leads fuel p w x n _ _ x' c Hl He Hp) as (w' & Ei & Hl'). exists w'. split; [|done].
  by eapply rsm_call1_bytes.
Qed.

(** A replica whose configuration was only looked at. *)
Lemma leads_viewed p w x a b :
  leads p w x → w !! a = Some b → leads p (<[a := snd (curview b)]> w) x.
Proof using Type.
  intros (s & Hs & Hp & Hx & (H1 & H2 & H3 & H4 & H5)) Hb.
  destruct (curview_eq b) as [_ (C1 & C2 & C3 & C4 & _ & C6 & C7 & _ & C9 & C10 & C11 & _)].
  destruct (decide (a = p)) as [->|Ha].
  - rewrite Hs in Hb. injection Hb as <-. exists (snd (curview s)). split; [apply lookup_insert_eq|].
    split; [congruence|]. split; [congruence|]. unfold nearsync. rewrite C1, C3, C4, C6, C7, C9, C10.
    split_and!; [done..|]. intros m Hm Hne. destruct (H5 m Hm Hne) as (b & Hb & Hat). exists b. split; [|done].
    rewrite lookup_delete_ne in Hb |- * by congruence. by rewrite lookup_insert_ne by congruence.
  - exists s. rewrite lookup_insert_ne by done. unfold nearsync. split_and!; [done..|]. intros m Hm Hne.
    destruct (H5 m Hm Hne) as (b0 & Hb0 & y & Hy & A1 & A2 & A3 & A4). rewrite lookup_delete_ne in Hb0 |- * by congruence.
    destruct (decide (m = a)) as [->|Hma]; [|rewrite lookup_insert_ne by done; exists b0; split; [done|by exists y]].
    rewrite Hb in Hb0. injection Hb0 as ->. rewrite lookup_insert_eq. eexists. split; [done|]. exists y. split; [done|].
    split_and!; [congruence..|]. unfold ismember in *. by rewrite C10, C11.
Qed.

(** The constructor of a client that is given the address of the primary or of a
    replica that knows it. *)
Lemma new_client_leads p dst w x :
  leads p w x → dst = p ∨ follows p dst w →
  ∃ c w', new_rsm_client at_members at_bind dst w = Returned (c, w') ∧ p_id c = p ∧ p_nref c = 0 ∧ leads p w' x.
Proof using Type.
  intros Hl Hdst. unfold new_rsm_client, at_bind, init_members, at_members.
  assert (∃ b, w !! dst = Some b ∧ r_primary b = p ∧ rsm_mutex b = false) as (b & Hb & Hpr & Hmx).
  { destruct Hdst as [->|(b & ? & _ & _ & ? & _ & ?)]; [|eauto].
    destruct Hl as (s & ? & ? & _ & (_ & ? & ? & _)). exists s. split_and!; congruence. }
  rewrite decide_True by eauto. cbn [Z.ltb Z.compare p_id]. rewrite Hb. unfold client_members, locked. rewrite Hmx.
  pose proof (leads_viewed p w x dst b Hl Hb) as Hl'. destruct (curview_eq b) as [_ (_ & _ & _ & _ & _ & C6 & _)].
  destruct (curview b) as [mems b']. cbn [snd] in *. cbn [Z.ltb Z.eqb Z.compare rsm_OK negb known_mems set_mems].
  rewrite rev_app_distr. cbn [rev app]. rewrite rev_involutive, C6, Hpr. unfold switch_primary. cbn [p_id p_nref set_mems].
  case_bool_decide as Ep; cbn [Z.eqb negb mbind outcome_bind].
  - eexists _, _. split; [done|]. by cbn.
  - rewrite decide_True by (destruct Hl' as (s & -> & _); eauto). cbn [Z.ltb Z.compare negb mbind outcome_bind].
    eexists _, _. split; [done|]. by cbn.
Qed.

(** The service of one replica changes on its own. *)
Definition set_at (a : cstring) (y : S) (w : replicas) : replicas := alter (set_service y) a w.

Lemma leads_primary_moves p w x y : leads p w x → E x y → leads p (set_at p y w) y.
Proof using All.
  intros (s & Hs & Hp & <- & (H1 & H2 & H3 & H4 & H5)) Hy. exists (set_service y s). unfold set_at.
  rewrite lookup_alter_eq, Hs. unfold nearsync. split_and!; [done..|].
  intros m Hm Hne. change (m ≠ myaddr s) in Hne. destruct (H5 m Hm Hne) as (b & Hb & z & Hz & Hat). exists b.
  rewrite lookup_delete_ne in Hb |- * by congruence. rewrite lookup_alter_ne by congruence. split; [done|]. exists z. split; [|done]. cbn. by transitivity (r_service s).
Qed.

Lemma leads_backup_moves p w x a b y :
  leads p w x → a ≠ p → w !! a = Some b → E (r_service b) y → leads p (set_at a y w) x.
Proof using All.
  intros (s & Hs & Hp & Hx & (H1 & H2 & H3 & H4 & H5)) Ha Hb Hy. exists s. unfold set_at.
  rewrite lookup_alter_ne by done. unfold nearsync. split_and!; [done..|]. intros m Hm Hne.
  destruct (H5 m Hm Hne) as (b0 & Hb0 & z & Hz & A1 & A2 & A3 & A4). rewrite lookup_delete_ne in Hb0 |- * by congruence.
  destruct (decide (m = a)) as [->|Hma]; [|rewrite lookup_alter_ne by done; exists b0; split; [done|by exists z]].
  rewrite Hb in Hb0. injection Hb0 as ->. rewrite lookup_alter_eq, Hb. eexists. split; [done|].
  exists y. split; [|by split_and!]. transitivity z; [done|]. by subst z.
Qed.

End loose.
