(* ===== verification/LockSim.v ===== *)
(** * Lock tables that answer alike

    The replicas of the lock server run their revoker and retryer threads on their own, so
    that their tables differ in the lists of these threads.  [lsc_sim] relates tables
    that no request can tell apart. *)

From S2P Require Import Prelude.
From S2P Require Import Marshall.
From S2P Require Import Protocol.
From S2P Require Import Config.
From S2P Require Import Rsm.
From S2P Require Import LockServerCache.
From S2P Require Import LockReplica.
From S2P Require Import RsmClient.
From S2P Require Import RsmLoose.

(** ** Tables that answer alike *)

Record lsc_sim (a b : lsc) : Prop := LscSim {
  sim_known lid : map_count lid (m_lock_status a) = map_count lid (m_lock_status b);
  sim_free lid : status_of lid a = FREE ↔ status_of lid b = FREE;
  sim_clid lid : clid_of lid a = clid_of lid b;
  sim_rpcc : m_clid_rpcc a = m_clid_rpcc b;
  sim_host : m_clid_host a = m_clid_host b;
  sim_count : m_lock_clid_count a = m_lock_clid_count b;
}.

#[export] Instance lsc_sim_equiv : Equivalence lsc_sim.
Proof.
  split.
  - by intros a.
  - intros a b [H1 H2 H3 H4 H5 H6]. split; intros; symmetry; auto.
  - intros a b c [H1 H2 H3 H4 H5 H6] [G1 G2 G3 G4 G5 G6]. split; intros; etransitivity; eauto.
Qed.

(** What the threads change is not seen. *)
Lemma sim_retrylist f a : lsc_sim a (on_retrylist f a).
Proof. done. Qed.
Lemma sim_on_revoke f a : lsc_sim a (on_revoke f a).
Proof. done. Qed.
Lemma sim_on_seqid f a : lsc_sim a (on_seqid f a).
Proof. done. Qed.

Lemma sim_touch_clid lid a : lsc_sim a (on_clid (map_touch (SInt 0) lid) a).
Proof. split; try done. intros l. unfold clid_of. cbn. by rewrite map_touch_at. Qed.

(** The same change at both. *)
Lemma sim_status lid v a b :
  lsc_sim a b → lsc_sim (on_status <[lid := v]> a) (on_status <[lid := v]> b).
Proof.
  intros [H1 H2 H3 H4 H5 H6]. split; try done; intros l; unfold status_of in *; cbn in *.
  - unfold map_count in *. rewrite !lookup_insert. case_decide; [done|apply H1].
  - rewrite !map_at_insert. case_decide; [done|apply H2].
Qed.

Lemma sim_set_clid lid c a b : lsc_sim a b → lsc_sim (on_clid <[lid := c]> a) (on_clid <[lid := c]> b).
Proof.
  intros [H1 H2 H3 H4 H5 H6]. split; try done; intros l; unfold clid_of in *; cbn in *.
  rewrite !map_at_insert. case_decide; [done|apply H3].
Qed.

Lemma sim_on_count f a b : lsc_sim a b → lsc_sim (on_count f a) (on_count f b).
Proof. intros [H1 H2 H3 H4 H5 H6]. split; try done. cbn. by rewrite H6. Qed.

(** A lock that is not free is known, and asking for it back changes nothing that is seen. *)
Lemma sim_push_revoke lid a :
  status_of lid a ≠ FREE → lsc_sim a (push_revoke lid a).
Proof.
  intros Hs. unfold push_revoke. case_bool_decide; cbn [negb]; [done|].
  split; try done; intros l; unfold status_of in *; cbn in *.
  - unfold map_count, map_at in *. rewrite lookup_insert. case_decide as E; [subst l|done].
    by destruct (m_lock_status a !! lid).
  - rewrite map_at_insert. case_decide as E; [subst l|done]. split; [by intros ?|done].
Qed.

Lemma sim_init lid a b : lsc_sim a b → lsc_sim (init_lock lid a) (init_lock lid b).
Proof.
  intros H. unfold init_lock. rewrite (sim_known _ _ H). destruct (map_count _ _); cbn [negb]; [done|].
  apply sim_set_clid. transitivity (on_status <[lid := FREE]> a); [done|].
  transitivity (on_status <[lid := FREE]> b); [by apply sim_status|done].
Qed.

Lemma sim_grant c lid q a b : lsc_sim a b → lsc_sim (grant c lid q a) (grant c lid q b).
Proof.
  intros H. unfold grant. apply sim_on_count, sim_status.
  transitivity (on_clid <[lid := c]> a); [done|].
  transitivity (on_clid <[lid := c]> b); [by apply sim_set_clid|done].
Qed.

(** ** The handlers *)

Lemma sim_acquire c lid q a b r a' :
  lsc_sim a b → acquire c lid q a = Some (r, a') →
  ∃ b', acquire c lid q b = Some (r, b') ∧ lsc_sim a' b'.
Proof.
  intros H. unfold acquire. pose proof (sim_init lid a b H) as Hi.
  set (a1 := init_lock lid a) in *. set (b1 := init_lock lid b) in *. rewrite (sim_rpcc _ _ Hi).
  destruct (negb _); [done|]. rewrite (bool_decide_ext _ _ (sim_free _ _ Hi lid)).
  case_bool_decide as Hf; intros [= <- <-]; (eexists; split; [done|]).
  - assert (∀ x, lsc_sim (grant c lid q x) (let s := on_retrylist (map_touch [] lid) (grant c lid q x) in
        if negb (bool_decide (waiters lid s = [])) then push_revoke lid s else s)) as Hg.
    { intros x. cbv zeta. case_bool_decide; cbn [negb]; [done|]. etransitivity; [apply (sim_retrylist (map_touch [] lid))|].
      apply sim_push_revoke. unfold status_of. cbn. rewrite map_at_insert, decide_True by done. done. }
    etransitivity; [symmetry; apply Hg|]. etransitivity; [by apply sim_grant|apply Hg].
  - etransitivity; [symmetry; apply sim_retrylist|]. etransitivity; [|apply sim_retrylist].
    etransitivity; [symmetry; apply sim_push_revoke|]; [by rewrite (sim_free _ _ Hi)|].
    etransitivity; [exact Hi|]. by apply sim_push_revoke.
Qed.

Lemma sim_release c lid y a b r a' :
  lsc_sim a b → release c lid y a = Some (r, a') →
  ∃ b', release c lid y b = Some (r, b') ∧ lsc_sim a' b'.
Proof.
  intros H. unfold release. rewrite (sim_rpcc _ _ H). destruct (negb _); [done|].
  assert (lsc_sim (on_clid (map_touch (SInt 0) lid) a) (on_clid (map_touch (SInt 0) lid) b)) as Ht.
  { etransitivity; [symmetry; apply sim_touch_clid|]. etransitivity; [exact H|apply sim_touch_clid]. }
  rewrite (sim_clid _ _ Ht). destruct (negb _); intros [= <- <-]; (eexists; split; [done|]); [done|].
  assert (∀ x y, lsc_sim x y → lsc_sim (on_status <[lid := FREE]>
    (on_seqid <[lid := no_seqid]> x)) (on_status <[lid := FREE]>
    (on_seqid <[lid := no_seqid]> y))) as Hf.
  { intros u v Huv. apply sim_status. etransitivity; [symmetry; apply sim_on_seqid|]. etransitivity; [exact Huv|apply sim_on_seqid]. }
  destruct (y =? 1); [etransitivity; [symmetry; apply sim_retrylist|]; etransitivity; [|apply sim_retrylist]|];
    by apply Hf, sim_set_clid.
Qed.

Lemma sim_stat c lid a b r n a' :
  lsc_sim a b → stat c lid a = Some (r, n, a') →
  ∃ b', stat c lid b = Some (r, n, b') ∧ lsc_sim a' b'.
Proof.
  intros H. pose proof (sim_on_count (map_touch ∅ lid) a b H) as Hc. unfold stat.
  rewrite (sim_rpcc _ _ H). destruct (negb _); [done|]. unfold counts_of. rewrite (sim_count _ _ Hc).
  destruct (negb _); intros [= <- <- <-]; eauto.
Qed.

Lemma sim_subscribe bind c h a b r a' :
  lsc_sim a b → subscribe bind c h a = Some (r, a') → ∃ b', subscribe bind c h b = Some (r, b') ∧ lsc_sim a' b'.
Proof.
  intros [H1 H2 H3 H4 H5 H6]. unfold subscribe. destruct (bind h); [|done]. intros [= <- <-]. eexists. split; [done|].
  split; try done; cbn; congruence.
Qed.

(** ** The threads *)

Lemma sim_revoker p a l a' : revoker_round p a = Some (l, a') → lsc_sim a a'.
Proof.
  unfold revoker_round. destruct (l_revoke a) as [|i l']; [by intros [= _ <-]|].
  set (a1 := on_clid _ _). assert (lsc_sim a a1) as H1.
  { etransitivity; [apply (sim_on_revoke (λ _, l'))|apply sim_touch_clid]. }
  case_bool_decide; [by intros [= _ <-]|]. set (a2 := if negb _ then a1 else _).
  assert (lsc_sim a a2) as H2 by (unfold a2; destruct (negb _); [done|etransitivity; [exact H1|apply sim_on_seqid]]).
  destruct (_ || _); [by intros [= _ <-]|]. destruct p; [destruct (map_count _ _); [|done]|]; by intros [= _ <-].
Qed.

Lemma sim_pop locks m a : lsc_sim a (snd (pop_waiters locks m a)).
Proof.
  revert m a. induction locks as [|lid locks IH]; intros m a; cbn [pop_waiters]; [done|].
  destruct (waiters _ _); (etransitivity; [|apply IH]); done.
Qed.

Lemma sim_retryer p a l a' : retryer_round p a = Some (l, a') → lsc_sim a a'.
Proof.
  unfold retryer_round. pose proof (sim_pop (findFreeLocks a) ∅ a) as H. destruct (pop_waiters _ _ _) as [m a1]. cbn [snd] in H.
  destruct (negb _); [by intros [= _ <-]|]. destruct (forallb _ _); [by intros [= _ <-]|done].
Qed.

(** ** The registered procedures *)

Lemma meth_none_r (f : lsc → option (Z * lsc)) (r : sint) :
  (∀ x y b x', lsc_sim x y → f x = Some (b, x') → ∃ y', f y = Some (b, y') ∧ lsc_sim x' y') →
  meth_alike lsc_sim (λ x, '(b, s) ← f x; Some (b, r, s)).
Proof.
  intros H x y b r' x' Hxy ([b1 x1] & Hx & [= <- <- <-])%bind_Some.
  destruct (H _ _ _ _ Hxy Hx) as (y' & E & Hy). rewrite E. cbn. eauto.
Qed.

#[export] Instance lock_procs_alike bind r0 : Alike lsc_sim (lock_procs bind r0).
Proof.
  split; [apply _| |apply lock_answers]. intros n req x y rep x'. apply execute_alike. clear. intros n h Hh.
  unfold lock_procs, rsm_reg in Hh.
  repeat (apply lookup_insert_Some in Hh as [[_ <-]|[_ Hh]]); [..|by rewrite lookup_empty in Hh].
  - eapply proc_alike_ext; [apply reg2_tuple|]. apply reg1_alike. intros [c h]. apply meth_none_r. intros. by eapply sim_subscribe.
  - eapply proc_alike_ext; [apply reg3_tuple|]. apply reg1_alike. intros [c [l y]]. apply meth_none_r. intros. by eapply sim_release.
  - eapply proc_alike_ext; [apply reg3_tuple|]. apply reg1_alike. intros [c [l q]]. apply meth_none_r. intros. by eapply sim_acquire.
  - eapply proc_alike_ext; [apply reg2_tuple|]. apply reg1_alike. intros [c l] x y b r x' Hxy Hx. by eapply sim_stat.
Qed.

(** The handlers return for clients that have subscribed, and keep the subscriptions. *)
Definition subscribed (c : sint) (x : lsc) : Prop := map_count c (m_clid_rpcc x) = true.

Lemma push_revoke_rpcc lid x : m_clid_rpcc (push_revoke lid x) = m_clid_rpcc x.
Proof. unfold push_revoke. by destruct (negb _). Qed.

Lemma acquire_total c lid q x :
  subscribed c x → ∃ r x', acquire c lid q x = Some (r, x') ∧ m_clid_rpcc x' = m_clid_rpcc x.
Proof.
  intros Hc. unfold acquire. assert (m_clid_rpcc (init_lock lid x) = m_clid_rpcc x) as Hi
    by (unfold init_lock; by destruct (negb _)).
  rewrite Hi, Hc. cbn [negb]. case_bool_decide; eexists _, _; (split; [done|]).
  - destruct (negb _); [rewrite push_revoke_rpcc|]; exact Hi.
  - cbn. rewrite push_revoke_rpcc. exact Hi.
Qed.

Lemma release_total c lid y x :
  subscribed c x → ∃ r x', release c lid y x = Some (r, x') ∧ m_clid_rpcc x' = m_clid_rpcc x.
Proof.
  intros Hc. unfold release. rewrite Hc. cbn [negb].
  destruct (negb _); [by eexists _, _|]. destruct (y =? 1); by eexists _, _.
Qed.
