(* ===== verification/LockRemote.v ===== *)
(** * Lock clients at the replicated lock service

    The caching lock clients of LockSystem.v make their calls through the client of the
    replicated state machine, at replicas of the lock server whose revoker and retryer
    threads run on their own.  Every run is one of the clients with a single server. *)

From S2P Require Import Prelude.
From S2P Require Import Marshall.
From S2P Require Import Protocol.
From S2P Require Import Streams.
From S2P Require Import Address.
From S2P Require Import Log.
From S2P Require Import Paxos.
From S2P Require Import Config.
From S2P Require Import Rsm.
From S2P Require Import LockServerCache.
From S2P Require Import LockReplica.
From S2P Require Import RsmClient.
From S2P Require Import RsmLoose.
From S2P Require Import LockSim.
From S2P Require Import LockClientCache.
From S2P Require Import LockSystem.

(** [p]: the primary.  [rd]: the variables that receive results no one reads.  All calls
    arrive, and the replicas can bind to the clients. *)
Section remote.
Variables (p : cstring) (links : cstring → link) (rd : sint) (fuel : nat).
Hypothesis Hlinks : ∀ m, links m = Reachable.

Local Notation replicas := (gmap cstring (rsm lsc)).
Local Notation procs := (lock_procs (λ _, true) rd).
Local Notation call2 := (rsm_call2 (at_invoke procs links) at_members at_bind (1 + fuel)).
Local Notation call3 := (rsm_call3 (at_invoke procs links) at_members at_bind (1 + fuel)).

(** ** Calls *)

(** The constructor of lock_client_cache: [c] is the number of the client, [rnd] the value
    that chooses the port of its RPC server. *)
Definition subscribe_client (c : sint) (dst : cstring) (rnd : Z) (w : replicas) : outcome (rsm_client * replicas) :=
  '(cl, w) ← new_rsm_client at_members at_bind dst w;
  '(ret, _, cl, w) ← call2 subscribe_num c (client_address rnd) rd cl w;
  if ret =? LockServerCache.lock_OK then Returned (cl, w) else Failed.

Definition call_acquire (c : sint) (lid q : ull) (cl : rsm_client) (w : replicas) :=
  call3 acquire_num c lid q rd cl w.

Definition call_release (c : sint) (lid : ull) (retry : Z) (cl : rsm_client) (w : replicas) :=
  call3 release_num c lid (SInt retry) rd cl w.

(** ** The system.  The server component of [base] plays no part. *)

Record rsys := RSys { base : sys; reps : replicas; cls : gmap sint rsm_client }.

Inductive rlabel :=
  | RNew (c : sint) (dst : cstring) (rnd : Z)
  | RServe (c : sint) (t : Z)
  | RReturn (c : sint)
  | RLocal (l : sys_label)
  | RRevoker (a : cstring)
  | RRetryer (a : cstring).

(** Steps of the clients alone. *)
Definition local (l : sys_label) : bool :=
  match l with SServe _ _ | SReturn _ | SServer _ => false | _ => true end.

Definition rstep (l : rlabel) (s : rsys) : option rsys :=
  match l with
  | RNew c dst rnd =>
      match cls s !! c, subscribe_client c dst rnd (reps s) with
      | None, Returned (cl, w) => Some (RSys (base s) w (<[c := cl]> (cls s)))
      | _, _ => None
      end
  | RServe c t =>
      match thr (base s) !! (c, t), cls s !! c with
      | Some (TSent lid cond q), Some cl =>
          match call_acquire c lid q cl (reps s) with
          | Returned (ret, _, cl, w) =>
              Some (RSys (set_thr c t (Some (TReplied lid cond ret)) (base s)) w (<[c := cl]> (cls s)))
          | _ => None
          end
      | _, _ => None
      end
  | RReturn c =>
      match rel (base s) !! c, cls s !! c with
      | Some (lid, y), Some cl =>
          match call_release c lid y cl (reps s) with
          | Returned (ret, _, cl, w) =>
              if ret =? 0 then Some (RSys (set_rel c None (base s)) w (<[c := cl]> (cls s))) else None
          | _ => None
          end
      | _, _ => None
      end
  | RLocal l => if local l then b ← sys_step l (base s); Some (RSys b (reps s) (cls s)) else None
  | RRevoker a =>
      b ← reps s !! a; m ← amiprimary b; '(_, y) ← revoker_round m (r_service b);
      Some (RSys (base s) (set_at a y (reps s)) (cls s))
  | RRetryer a =>
      b ← reps s !! a; m ← amiprimary b; '(_, y) ← retryer_round m (r_service b);
      Some (RSys (base s) (set_at a y (reps s)) (cls s))
  end.

(** New clients know a replica that knows the primary; numbers are in the range of their
    types, thread and client ids are valid. *)
Definition rlabel_ok (l : rlabel) (s : rsys) : Prop :=
  match l with
  | RNew c dst rnd => (dst = p ∨ follows p dst (reps s)) ∧ w_wf c ∧ 0 <= rnd
  | RServe c t =>
      valid_tid t ∧ 0 < sint_val c ∧ w_wf c ∧
      ∀ lid cond q, thr (base s) !! (c, t) = Some (TSent lid cond q) → w_wf lid ∧ w_wf q
  | RReturn c =>
      0 < sint_val c ∧ w_wf c ∧ ∀ lid y, rel (base s) !! c = Some (lid, y) → w_wf lid ∧ is_s32 y
  | RLocal l => label_ok l
  | _ => True
  end.

(** The replicas start with empty lock tables, without clients. *)
Inductive rruns : rsys → Prop :=
  | rruns_new w : leads lsc_sim p w new_lsc → rruns (RSys new_sys w ∅)
  | rruns_step s l s' : rruns s → rlabel_ok l s → rstep l s = Some s' → rruns s'.

(** ** Each call is one of the handlers *)

Lemma short {A} (l : list A) : (length l <= 100)%nat → Z.of_nat (length l) <= max_content.
Proof using Type. unfold max_content. rewrite RPC_HEADER_SZ_eq. lia. Qed.

Lemma procs_lookup n :
  procs !! n = if decide (n = subscribe_num) then Some (reg2 rd (do_subscribe (λ _, true)))
               else if decide (n = release_num) then Some (reg3 rd do_release)
               else if decide (n = acquire_num) then Some (reg3 rd do_acquire)
               else if decide (n = stat_num) then Some (reg2 rd do_stat) else None.
Proof using Type.
  unfold lock_procs, rsm_reg. rewrite !lookup_insert, lookup_empty.
  repeat case_decide; try done; congruence.
Qed.

Lemma short_reply : Z.of_nat (8 + length (w_enc rd)) <= max_content.
Proof using Type. change (w_enc rd) with (enc_u32 (sint_val rd)). rewrite length_enc_u32. unfold max_content. rewrite RPC_HEADER_SZ_eq. cbn. lia. Qed.

Hypothesis Hrd : w_wf rd.

Lemma call_acquire_leads c lid q cl w x :
  leads lsc_sim p w x → p_id cl = p → w_wf c → w_wf lid → w_wf q → subscribed c x →
  ∃ r x' w', call_acquire c lid q cl w = Returned (r, rd, cl, w') ∧ leads lsc_sim p w' x' ∧
    LockServerCache.acquire c lid q x = Some (r, x') ∧ m_clid_rpcc x' = m_clid_rpcc x.
Proof using All.
  intros Hl Hp Hc Hlid Hq Hs. destruct (acquire_total c lid q x Hs) as (r & x' & Ha & Hr).
  exists r, x'. unfold call_acquire. rewrite rsm_call3_tuple.
  destruct (call_leads lsc_sim procs links Hlinks fuel acquire_num (reg3 rd do_acquire)
    (λ a, do_acquire (fst a) (fst (snd a)) (snd (snd a))) rd (c, (lid, q)) r rd x x' p cl w) as (w' & E & Hl').
  - rewrite procs_lookup. done.
  - intros. apply reg3_tuple.
  - done.
  - done.
  - by apply (acquire_status c lid q x r x').
  - apply short. change (w_enc (c, (lid, q))) with (enc_u32 (sint_val c) ++ enc_u64 (ull_val lid) ++ enc_u64 (ull_val q)).
    rewrite !length_app, length_enc_u32, !length_enc_u64. lia.
  - apply short_reply.
  - unfold do_acquire. cbn [fst snd]. by rewrite Ha.
  - done.
  - done.
  - exists w'. split_and!; [exact E|done..].
Qed.

Lemma call_release_leads c lid y cl w x :
  leads lsc_sim p w x → p_id cl = p → w_wf c → w_wf lid → is_s32 y → subscribed c x →
  ∃ r x' w', call_release c lid y cl w = Returned (r, rd, cl, w') ∧ leads lsc_sim p w' x' ∧
    LockServerCache.release c lid y x = Some (r, x') ∧ m_clid_rpcc x' = m_clid_rpcc x.
Proof using All.
  intros Hl Hp Hc Hlid Hy Hs. destruct (release_total c lid y x Hs) as (r & x' & Ha & Hr).
  exists r, x'. unfold call_release. rewrite rsm_call3_tuple.
  destruct (call_leads lsc_sim procs links Hlinks fuel release_num (reg3 rd do_release)
    (λ a, do_release (fst a) (fst (snd a)) (snd (snd a))) rd (c, (lid, SInt y)) r rd x x' p cl w) as (w' & E & Hl').
  - rewrite procs_lookup. done.
  - intros. apply reg3_tuple.
  - done.
  - done.
  - by apply (release_status c lid y x r x').
  - apply short. change (w_enc (c, (lid, SInt y))) with (enc_u32 (sint_val c) ++ enc_u64 (ull_val lid) ++ enc_u32 y).
    rewrite !length_app, !length_enc_u32, length_enc_u64. lia.
  - apply short_reply.
  - unfold do_release. cbn [fst snd sint_val]. by rewrite Ha.
  - done.
  - done.
  - exists w'. split_and!; [exact E|done..].
Qed.

Lemma length_address rnd : (length (client_address rnd) <= 20)%nat.
Proof using Type. unfold client_address. rewrite !length_app. pose proof (length_dec (rlock_port rnd)). cbn. lia. Qed.

Lemma subscribe_client_leads c dst rnd w x :
  leads lsc_sim p w x → dst = p ∨ follows p dst w → w_wf c →
  ∃ cl x' w', subscribe_client c dst rnd w = Returned (cl, w') ∧ p_id cl = p ∧ leads lsc_sim p w' x' ∧
    subscribe (λ _, true) c (client_address rnd) x = Some (LockServerCache.lock_OK, x').
Proof using All.
  intros Hl Hd Hc. unfold subscribe_client.
  destruct (new_client_leads lsc_sim p dst w x Hl Hd) as (cl & w1 & -> & Hid & _ & Hl1). cbn [mbind outcome_bind].
  rewrite rsm_call2_tuple. pose proof (length_address rnd) as La.
  destruct (call_leads lsc_sim procs links Hlinks fuel subscribe_num (reg2 rd (do_subscribe (λ _, true)))
    (λ a, do_subscribe (λ _, true) (fst a) (snd a)) rd (c, client_address rnd) LockServerCache.lock_OK rd x
    (on_rpcc <[c := client_address rnd]> (on_host <[c := client_address rnd]> x)) p cl w1) as (w' & E & Hl').
  - rewrite procs_lookup. done.
  - intros. apply reg2_tuple.
  - split; [done|]. cbn [snd w_wf cstring_wire_ok]. lia.
  - done.
  - unfold LockServerCache.lock_OK, is_s32. lia.
  - apply short. change (w_enc (c, client_address rnd)) with (enc_u32 (sint_val c) ++ enc_string (client_address rnd)).
    rewrite length_app, length_enc_u32, length_enc_string. lia.
  - apply short_reply.
  - done.
  - done.
  - done.
  - exists cl. eexists _, w'. change (rsm_call1 _ _ _ _ _ _ rd cl w1) with
      (rsm_call1 (at_invoke procs links) at_members at_bind (1 + fuel) subscribe_num (c, client_address rnd) (w_def : sint) cl w1).
    rewrite E. by split_and!.
Qed.

(** ** Simulation *)

(** The clients' own steps do not look at the server. *)
Lemma local_srv l x s : local l = true → sys_step l (set_srv x s) = set_srv x <$> sys_step l s.
Proof using Type.
  destruct l as [c t lid cond|c t|c t|c t|c t f|c t lid|c lid q|c lid|c|c|o]; intros Hl; try discriminate Hl; clear Hl;
    cbn [sys_step]; change (clt ?c (set_srv x s)) with (clt c s); change (runs_free ?c (set_srv x s)) with (runs_free c s);
    change (thr (set_srv x s)) with (thr s); change (rel (set_srv x s)) with (rel s); change (woken (set_srv x s)) with (woken s).
  all: try (destruct (runs_free c s); [cbn [mbind option_bind]|reflexivity]).
  - destruct (thr s !! (c, t)); [reflexivity|]. destruct (acquire_enter _ _ _ _) as [[n y]|]; [|reflexivity].
    by destruct n.
  - destruct (thr s !! (c, t)) as [[]|]; reflexivity.
  - destruct (thr s !! (c, t)) as [[]|]; try reflexivity. destruct (acquire_reply _ _ _ _ _) as [[n y]|]; [|reflexivity]. by destruct n.
  - destruct (thr s !! (c, t)) as [[]|]; try reflexivity; case_bool_decide; try reflexivity.
    destruct (acquire_requeued _ _ _ _ _) as [[n y]|]; [|reflexivity]. by destruct n.
  - destruct (thr s !! (c, t)); [reflexivity|]. destruct (LockClientCache.release _ _ _) as [[[r sg] y]|]; [|reflexivity]. by destruct sg.
  - destruct (revoke _ _ _) as [[]|]; reflexivity.
  - destruct (retry _ _) as [[sg y]|]; [|reflexivity]. by destruct sg.
  - destruct (rel s !! c); [reflexivity|]. destruct (releaser_take _) as [[[q|] y]|]; reflexivity.
Qed.

Definition rinv (r : rsys) : Prop := ∃ x,
  leads lsc_sim p (reps r) x ∧ sys_runs (set_srv x (base r)) ∧
  ∀ c cl, cls r !! c = Some cl → p_id cl = p ∧ subscribed c x.

Lemma subscribed_keep c x y : m_clid_rpcc y = m_clid_rpcc x → subscribed c x → subscribed c y.
Proof using Type. unfold subscribed. by intros ->. Qed.

(** A round of a thread of the lock server at one replica. *)
Lemma thread_round_inv r a b y o :
  rinv r → reps r !! a = Some b → lsc_sim (r_service b) y →
  (a = p → sys_step (SServer o) (set_srv (r_service b) (base r)) = Some (set_srv y (base r))) →
  rinv (RSys (base r) (set_at a y (reps r)) (cls r)).
Proof using All.
  intros (x & Hl & Hr & Hc) Hb Hy Ho. destruct (decide (a = p)) as [->|Ha].
  - assert (r_service b = x) as Hx by (destruct Hl as (s & Hs & _ & Hx & _); congruence). rewrite Hx in *.
    exists y. split_and!; [|by eapply sys_runs_step; [exact Hr| |by apply Ho]|].
    + by apply (leads_primary_moves lsc_sim procs links Hlinks p (reps r) x y).
    + intros c cl Hcl. destruct (Hc c cl Hcl). split; [done|]. by eapply subscribed_keep; [symmetry; apply (sim_rpcc _ _ Hy)|].
  - exists x. split_and!; [|done|done]. by eapply (leads_backup_moves lsc_sim procs links Hlinks).
Qed.

Lemma amiprimary_leads w x b : leads lsc_sim p w x → w !! p = Some b → amiprimary b = Some true.
Proof using Type.
  intros (s & Hs & Hp & _ & (H1 & H2 & H3 & _)) Hb. rewrite Hs in Hb. injection Hb as <-.
  unfold amiprimary, locked, amiprimary_wo. by rewrite H3, H1, bool_decide_true.
Qed.

Lemma set_cls c cl (cs : gmap sint rsm_client) x x' :
  (∀ c cl, cs !! c = Some cl → p_id cl = p ∧ subscribed c x) → p_id cl = p → subscribed c x' →
  (∀ d, subscribed d x → subscribed d x') →
  ∀ d dl, <[c := cl]> cs !! d = Some dl → p_id dl = p ∧ subscribed d x'.
Proof using Type.
  intros H Hp Hs Hk d dl [[<- <-]|[_ Hd]]%lookup_insert_Some; [done|]. destruct (H d dl Hd). auto.
Qed.

Lemma new_inv c dst rnd r r' : rinv r → rlabel_ok (RNew c dst rnd) r → rstep (RNew c dst rnd) r = Some r' → rinv r'.
Proof using All.
  intros (x & Hl & Hr & Hc) Hok H. cbn [rstep rlabel_ok] in *.
  destruct Hok as (Hd & Hwf & _). destruct (cls r !! c) eqn:Ec; [discriminate H|].
  destruct (subscribe_client_leads c dst rnd (reps r) x Hl Hd Hwf) as (cl & x' & w' & E & Hp & Hl' & Hs).
  rewrite E in H. injection H as <-. exists x'. split_and!; [exact Hl'| |].
  - eapply (sys_runs_step _ (SServer (OSubscribe (λ _, true) c (client_address rnd)))); [exact Hr|done|].
    cbn [sys_step lstep srv set_srv]. rewrite Hs. reflexivity.
  - injection Hs as <-. apply (set_cls c cl (cls r) x); [done|done| |].
    + unfold subscribed. cbn. apply map_count_true. rewrite lookup_insert_eq. eauto.
    + intros d. unfold subscribed. cbn. rewrite !map_count_true. intros [h Hh]. rewrite lookup_insert_is_Some'. eauto.
Qed.

Lemma serve_inv c t r r' : rinv r → rlabel_ok (RServe c t) r → rstep (RServe c t) r = Some r' → rinv r'.
Proof using All.
  intros (x & Hl & Hr & Hc) Hok H. cbn [rstep rlabel_ok] in *.
  destruct Hok as (Ht & Hpos & Hwf & Hn). destruct (thr (base r) !! (c, t)) as [[| lid cond q| | |]|] eqn:Et; try discriminate H.
  destruct (cls r !! c) as [cl|] eqn:Ecl; [|discriminate H]. destruct (Hc c cl Ecl) as [Hp Hs]. destruct (Hn lid cond q eq_refl) as [Hlid Hq].
  destruct (call_acquire_leads c lid q cl (reps r) x Hl Hp Hwf Hlid Hq Hs) as (ret & x' & w' & E & Hl' & Ha & Hk).
  rewrite E in H. injection H as <-. exists x'. split_and!; [exact Hl'| |].
  - eapply (sys_runs_step _ (SServe c t)); [exact Hr|exact (conj Ht Hpos)|]. cbn [sys_step srv set_srv thr]. rewrite Et, Ha. reflexivity.
  - apply (set_cls c cl (cls r) x); [exact Hc|exact Hp| |]; intros; (eapply subscribed_keep; [exact Hk|assumption]).
Qed.

Lemma return_inv c r r' : rinv r → rlabel_ok (RReturn c) r → rstep (RReturn c) r = Some r' → rinv r'.
Proof using All.
  intros (x & Hl & Hr & Hc) Hok H. cbn [rstep rlabel_ok] in *.
  destruct Hok as (Hpos & Hwf & Hn). destruct (rel (base r) !! c) as [[lid y]|] eqn:Er; [|discriminate H].
  destruct (cls r !! c) as [cl|] eqn:Ecl; [|discriminate H]. destruct (Hc c cl Ecl) as [Hp Hs]. destruct (Hn lid y eq_refl) as [Hlid Hy].
  destruct (call_release_leads c lid y cl (reps r) x Hl Hp Hwf Hlid Hy Hs) as (ret & x' & w' & E & Hl' & Ha & Hk).
  rewrite E in H. destruct (ret =? 0) eqn:E0; [|discriminate H]. injection H as <-. exists x'. split_and!; [exact Hl'| |].
  - eapply (sys_runs_step _ (SReturn c)); [exact Hr|exact Hpos|]. cbn [sys_step srv set_srv rel]. rewrite Er, Ha. cbn [mbind option_bind]. rewrite E0. reflexivity.
  - apply (set_cls c cl (cls r) x); [exact Hc|exact Hp| |]; intros; (eapply subscribed_keep; [exact Hk|assumption]).
Qed.

Lemma rstep_inv r l r' : rinv r → rlabel_ok l r → rstep l r = Some r' → rinv r'.
Proof using All.
  intros Hinv Hok H. pose proof Hinv as (x & Hl & Hr & Hc). destruct l as [c dst rnd|c t|c|l|a|a].
  - by eapply new_inv.
  - by eapply serve_inv.
  - by eapply return_inv.
  - cbn [rstep rlabel_ok] in *. destruct (local l) eqn:El; [|discriminate H]. apply bind_Some in H as (b & Hb & [= <-]). exists x. split_and!; [exact Hl| |exact Hc].
    eapply (sys_runs_step _ l); [exact Hr|exact Hok|]. rewrite local_srv, Hb by exact El. reflexivity.
  - cbn [rstep] in H. apply bind_Some in H as (b & Hb & H). apply bind_Some in H as (m & Hm & H). apply bind_Some in H as ([o y] & Hy & [= <-]).
    apply (thread_round_inv r a b y ORevoker); [done|done|by eapply sim_revoker|]. intros ->.
    rewrite (amiprimary_leads _ _ _ Hl Hb) in Hm. injection Hm as <-. cbn [sys_step lstep srv set_srv]. rewrite Hy. reflexivity.
  - cbn [rstep] in H. apply bind_Some in H as (b & Hb & H). apply bind_Some in H as (m & Hm & H). apply bind_Some in H as ([o y] & Hy & [= <-]).
    apply (thread_round_inv r a b y ORetryer); [done|done|by eapply sim_retryer|]. intros ->.
    rewrite (amiprimary_leads _ _ _ Hl Hb) in Hm. injection Hm as <-. cbn [sys_step lstep srv set_srv]. rewrite Hy. reflexivity.
Qed.

Lemma rruns_inv r : rruns r → rinv r.
Proof using All.
  induction 1 as [w Hw|r l r' _ IH Hok H]; [|by eapply rstep_inv].
  exists new_lsc. split_and!; [done|apply sys_runs_new|]. cbn [cls]. intros c cl Hc. by rewrite lookup_empty in Hc.
Qed.

(** The holder a table names is seen by requests. *)
Lemma sim_holder a b lid : lsc_sim a b → holder a lid = holder b lid.
Proof using Type.
  intros H. unfold holder. rewrite (sim_clid _ _ H).
  destruct (decide (LockServerCache.status_of lid a = _)) as [E|E]; rewrite (sim_free _ _ H) in E;
    [by rewrite decide_True|by rewrite decide_False].
Qed.

(** C7. Mutual exclusion at the replicated lock service: in every run of any number of
    lock clients that make their calls through the client of the replicated state machine, with
    the threads of every replica of the lock server running on their own, two threads that
    hold a lock are the same thread of the same client, and every replica of the view names
    that client. *)
Theorem replicated_exclusion r c1 t1 c2 t2 lid :
  rruns r → (c1, t1, lid) ∈ held (base r) → (c2, t2, lid) ∈ held (base r) →
  c1 = c2 ∧ t1 = t2 ∧ ∃ s, reps r !! p = Some s ∧
    ∀ m, m ∈ cur s → ∃ b, reps r !! m = Some b ∧ holder (r_service b) lid = Some c1.
Proof using All.
  intros Hr H1 H2. destruct (rruns_inv r Hr) as (x & (s & Hs & Hp & Hx & (_ & _ & _ & _ & Hb)) & Hrun & _).
  destruct (held_unique (set_srv x (base r)) c1 t1 c2 t2 lid (sys_runs_inv _ Hrun) H1 H2) as (E1 & E2 & Eh).
  split; [exact E1|]. split; [exact E2|]. exists s. split; [exact Hs|]. intros m Hm.
  destruct (decide (m = p)) as [->|Hne]; [exists s; split; [exact Hs|by rewrite Hx]|].
  destruct (Hb m Hm ltac:(congruence)) as (b & Hbm & y & Hy & (Hby & _)).
  rewrite lookup_delete_ne in Hbm by congruence. exists b. split; [exact Hbm|].
  rewrite Hby, <- (sim_holder _ _ lid Hy), Hx. exact Eh.
Qed.

End remote.

(** ** The first server process *)

(** [main] of lock_smain.cc: the state of the server, [None] when the arguments are wrong or the log
    cannot be read; [file] is its log. *)
Definition lock_smain (uninit uninit_n : Z) (argv : list cstring) (file : cstring) : option (rsm lsc) :=
  match argv with
  | [_; first; me] => c ← new_config uninit uninit_n first me file; Some (new_rsm first c new_lsc)
  | _ => None
  end.

Lemma members_single m : name_ok m → members m = [m].
Proof.
  intros [Hn Hs]. unfold members. destruct m as [|c m]; [done|]. cbn [length members_loop].
  assert (read_word [] (is_open (c :: m)) = (c :: m, Is [] true false)) as ->; [|done].
  unfold read_word, is_sentry, is_open. cbn [is_good is_eof is_fail is_rest negb andb].
  pose proof Hs as [Hc _]%Forall_cons. rewrite skip_ws_id by done. rewrite span_all; [done|].
  eapply Forall_impl; [exact Hs|]. intros a Ha. cbn. by rewrite Ha.
Qed.

(** The first server of a group, started with its own address as that of the master, is the
    primary of the view with itself, with an empty lock table: clients can be started. *)
Theorem first_server_leads uninit uninit_n prog me :
  name_ok me → ∃ s, lock_smain uninit uninit_n [prog; me; me] [] = Some s ∧
    leads lsc_sim me {[me := s]} new_lsc ∧ cur s = [me].
Proof.
  intros Hm. cbn [lock_smain]. unfold new_config, new_acceptor. rewrite bool_decide_true by done.
  cbn [mbind option_bind]. eexists. split; [reflexivity|].
  assert (∀ s : rsm lsc, cur s = [me] → inviewchange s = false → r_primary s = me → myaddr s = me → rsm_mutex s = false →
    is_u32 (seqno (myvs s)) → r_service s = new_lsc → leads lsc_sim me {[me := s]} new_lsc) as Hl.
  { intros s Hc H1 H2 H3 H4 H5 H6. exists s. split; [apply lookup_insert_eq|]. split; [done|]. split; [done|].
    unfold nearsync. split; [done|]. split; [congruence|]. split; [done|]. split; [done|].
    rewrite Hc. intros m Hin Hne. apply list_elem_of_singleton in Hin. congruence. }
  assert (members me = [me]) as Hmem by by apply members_single.
  split; [apply Hl|]; try reflexivity; try (unfold is_u32; cbn; lia); cbn; by rewrite ?lookup_insert_eq.
Qed.

(** ** A run *)

Definition in_range (lo hi z : Z) : bool := (lo <=? z) && (z <? hi).

(** The conditions of a step, checked. *)
Definition rcheck (p : cstring) (l : rlabel) (s : rsys) : bool :=
  match l with
  | RNew c dst rnd =>
      (bool_decide (dst = p) ||
       match reps s !! dst with
       | Some b => bool_decide (dst ≠ p ∧ myaddr b = dst ∧ r_primary b = p) && negb (inviewchange b) && negb (rsm_mutex b)
       | None => false
       end) && in_range (- 2 ^ 31) (2 ^ 31) (sint_val c) && (0 <=? rnd)
  | RServe c t =>
      in_range 1 no_thread t && in_range 1 (2 ^ 31) (sint_val c) &&
      match thr (base s) !! (c, t) with
      | Some (TSent lid _ q) => in_range 0 (2 ^ 64) (ull_val lid) && in_range 0 (2 ^ 64) (ull_val q)
      | _ => true
      end
  | RReturn c =>
      in_range 1 (2 ^ 31) (sint_val c) &&
      match rel (base s) !! c with
      | Some (lid, y) => in_range 0 (2 ^ 64) (ull_val lid) && in_range (- 2 ^ 31) (2 ^ 31) y
      | None => true
      end
  | RLocal l =>
      match l with
      | SAcquire c t _ _ | SWake c t _ | SReply c t | SServe c t | SRelease c t _ =>
          in_range 1 no_thread t && (1 <=? sint_val c)
      | SReturn c => 1 <=? sint_val c
      | _ => true
      end
  | _ => true
  end.

Lemma in_range_spec lo hi z : in_range lo hi z = true → lo <= z < hi.
Proof. unfold in_range. lia. Qed.

Lemma rcheck_ok p l s : rcheck p l s = true → rlabel_ok p l s.
Proof.
  destruct l as [c dst rnd|c t|c|l|a|a]; cbn [rcheck rlabel_ok].
  - intros [[Hd Hc%in_range_spec]%andb_prop Hr]%andb_prop. split; [|split; [exact Hc|lia]].
    apply orb_prop in Hd as [Hd|Hd]; [left; by apply bool_decide_eq_true in Hd|]. right.
    destruct (reps s !! dst) as [b|] eqn:Eb; [|discriminate Hd]. exists b.
    apply andb_prop in Hd as [[(H1 & H2 & H3)%bool_decide_eq_true H4%negb_true_iff]%andb_prop H5%negb_true_iff].
    exact (conj Eb (conj H1 (conj H2 (conj H3 (conj H4 H5))))).
  - intros [[Ht%in_range_spec Hc%in_range_spec]%andb_prop Hn]%andb_prop. unfold valid_tid.
    split; [lia|]. split; [lia|]. split; [split; lia|]. intros lid cond q E. rewrite E in Hn.
    apply andb_prop in Hn as [H1%in_range_spec H2%in_range_spec]. exact (conj H1 H2).
  - intros [Hc%in_range_spec Hn]%andb_prop. split; [lia|]. split; [split; lia|]. intros lid y E. rewrite E in Hn.
    apply andb_prop in Hn as [H1%in_range_spec H2%in_range_spec]. exact (conj H1 H2).
  - destruct l; cbn [label_ok]; try (intros [Ht%in_range_spec Hc]%andb_prop; unfold valid_tid; lia); try lia; done.
  - done.
  - done.
Qed.

Fixpoint rexec (p : cstring) (links : cstring → link) (rd : sint) (fuel : nat) (ls : list rlabel) (s : rsys) : option rsys :=
  match ls with
  | [] => Some s
  | l :: ls => if rcheck p l s then s ← rstep links rd fuel l s; rexec p links rd fuel ls s else None
  end.

Lemma rexec_runs p links rd fuel ls s s' :
  rruns p links rd fuel s → rexec p links rd fuel ls s = Some s' → rruns p links rd fuel s'.
Proof.
  revert s. induction ls as [|l ls IH]; intros s Hr; cbn [rexec]; [by intros [= <-]|].
  destruct (rcheck p l s) eqn:Hc; [|discriminate]. intros (s1 & H1 & H2)%bind_Some.
  apply (IH s1); [|exact H2]. eapply rruns_step; [exact Hr|by apply rcheck_ok|exact H1].
Qed.

Lemma insync_leads (p : cstring) (w : gmap cstring (rsm lsc)) (s : rsm lsc) :
  w !! p = Some s → myaddr s = p → insync s (delete p w) → leads lsc_sim p w (r_service s).
Proof.
  intros Hs Hp (H1 & H2 & H3 & H4 & H5). exists s. split_and!; [done..|]. unfold nearsync. split_and!; [done..|].
  intros m Hm Hne. destruct (H5 m Hm Hne) as (b & Hb & Hat). exists b. split; [done|]. by exists (r_service s).
Qed.

(** Three replicas; client 3 gets lock 9, client 4 has to wait, the lock is revoked and goes to client
    4.  The revoker of one backup runs late, the other's not at all. *)
Definition lock_replicas : gmap cstring (rsm lsc) := <[$"a" := lock_replica ($"a")]> lock_group.

Definition demo_remote : list rlabel :=
  [RNew (SInt 3) ($"b") 1804289383; RNew (SInt 4) ($"a") 846930886;
   RLocal (SAcquire (SInt 3) 7 (Ull 9) 1); RLocal (SSend (SInt 3) 7); RServe (SInt 3) 7; RLocal (SReply (SInt 3) 7);
   RLocal (SAcquire (SInt 4) 8 (Ull 9) 1); RLocal (SSend (SInt 4) 8); RServe (SInt 4) 8; RLocal (SReply (SInt 4) 8);
   RRevoker ($"a"); RLocal (SRevoke (SInt 3) (Ull 9) (Ull 2)); RLocal (SRelease (SInt 3) 7 (Ull 9));
   RLocal (STake (SInt 3)); RReturn (SInt 3); RRetryer ($"a"); RRevoker ($"b"); RLocal (SRetry (SInt 4) (Ull 9));
   RLocal (SWake (SInt 4) 8 2); RLocal (SSend (SInt 4) 8); RServe (SInt 4) 8; RLocal (SReply (SInt 4) 8)].

Lemma lock_replicas_lead : leads lsc_sim ($"a") lock_replicas new_lsc.
Proof.
  apply (insync_leads ($"a") lock_replicas (lock_replica ($"a"))); [apply lookup_insert_eq|reflexivity|].
  unfold lock_replicas. rewrite delete_insert_id by (vm_compute; reflexivity). exact lock_group_insync.
Qed.

Lemma replicated_exclusion_witness :
  ∃ r s, rexec ($"a") (λ _, Reachable) (SInt 0) 0 demo_remote (RSys new_sys lock_replicas ∅) = Some r ∧
    (SInt 4, 8, Ull 9) ∈ held (base r) ∧ reps r !! ($"a") = Some s ∧
    ∀ m, m ∈ cur s → ∃ b, reps r !! m = Some b ∧ holder (r_service b) (Ull 9) = Some (SInt 4).
Proof.
  destruct (rexec ($"a") (λ _, Reachable) (SInt 0) 0 demo_remote (RSys new_sys lock_replicas ∅)) as [r|] eqn:E;
    [|exfalso; apply (f_equal (λ o, match o with Some _ => true | None => false end)) in E; vm_compute in E; discriminate E].
  assert ((SInt 4, 8, Ull 9) ∈ held (base r)) as Hh.
  { apply (f_equal (fmap (λ r, bool_decide ((SInt 4, 8, Ull 9) ∈ held (base r))))) in E. cbn [fmap option_fmap option_map] in E.
    assert (Some (bool_decide ((SInt 4, 8, Ull 9) ∈ held (base r))) = Some true) as G by (rewrite <- E; vm_compute; reflexivity).
    injection G as G. by apply bool_decide_eq_true in G. }
  destruct (replicated_exclusion ($"a") (λ _, Reachable) (SInt 0) 0 (λ _, eq_refl) ltac:(vm_compute; split; [discriminate|reflexivity])
    r (SInt 4) 8 (SInt 4) 8 (Ull 9)) as (_ & _ & s & Hs & Hall); [|exact Hh|exact Hh|].
  - eapply rexec_runs; [|exact E]. apply rruns_new, lock_replicas_lead.
  - exists r, s. split; [reflexivity|]. split; [exact Hh|]. split; [exact Hs|exact Hall].
Defined.
