(* ===== verification/LockTester.v ===== *)
(** * The lock tester

    lock_tester.cc: ten caching clients, whose threads count the grants of a lock in [ct] and
    stop the process with an error when a lock is granted twice or released without being held.
    The five tests run on the lock server and the lock clients of LockSystem.v; in no
    interleaving does a check fail. *)

From S2P Require Import Prelude.
From S2P Require Import Marshall.
From S2P Require Import LockServerCache.
From S2P Require Import LockClientCache.
From S2P Require Import LockSystem.

(** ** The tests *)

Definition nt : nat := 10.
Definition lock_a : Z := 1.
Definition lock_b : Z := 2.

(** The calls a thread makes; [i] is the index of the client in [lc]. *)
Inductive instr :=
  | IAcquire (i : nat) (lid : Z) | IRelease (i : nat) (lid : Z) | IGrant (lid : Z) | ICheckRelease (lid : Z).

Definition test1 : list instr :=
  [IAcquire 0 lock_a; IGrant lock_a; IRelease 0 lock_a; ICheckRelease lock_a;
   IAcquire 0 lock_a; IGrant lock_a; IRelease 0 lock_a; ICheckRelease lock_a;
   IAcquire 0 lock_a; IGrant lock_a; IAcquire 0 lock_b; IGrant lock_b;
   IRelease 0 lock_b; ICheckRelease lock_b; IRelease 0 lock_a; ICheckRelease lock_a].

Definition test2 (i : nat) : list instr :=
  [IAcquire i lock_a; IGrant lock_a; ICheckRelease lock_a; IRelease i lock_a].

(** [for (int j = 0; j < n; j++)] *)
Fixpoint loop (n : nat) (body : list instr) : list instr :=
  match n with O => [] | S n => body ++ loop n body end.

Definition test3 (i : nat) : list instr :=
  loop 10 [IAcquire i lock_a; IGrant lock_a; ICheckRelease lock_a; IRelease i lock_a].

Definition test4 (i : nat) : list instr :=
  loop 10 [IAcquire 0 lock_a; IGrant lock_a; ICheckRelease lock_a; IRelease 0 lock_a].

Definition test5 (i : nat) : list instr :=
  let lc := if (i <? 5)%nat then 0%nat else 1%nat in
  loop 10 [IAcquire lc lock_a; IGrant lock_a; ICheckRelease lock_a; IRelease lc lock_a].

(** Threads [th[0]], ..., [th[n - 1]] that are created and joined; the main thread has the
    number [nt]. *)
Definition spawn (n : nat) (f : nat → list instr) : list (nat * list instr) := (λ i, (i, f i)) <$> seq 0 n.

(** What [main] runs for the test number of the command line, 0 for all. *)
Definition main_phases (test : Z) : list (list (nat * list instr)) :=
  let on n p := if (test =? 0) || (test =? n) then [p] else [] in
  on 1 [(nt, test1)] ++ on 2 (spawn nt test2) ++ on 3 (spawn nt test3) ++ on 4 (spawn 2 test4) ++ on 5 (spawn nt test5).

(** ** The process *)

(** [inside]: the thread is in the [acquire] its program begins with. *)
Record tthread := Tthread { inside : bool; prog : list instr }.

Record tester := Tester {
  locks : sys;
  ct : gmap Z Z;
  threads : gmap nat tthread;
  phases : list (list (nat * list instr));
}.

(** [exit(1)] is [Exits]. *)
Inductive tout := Runs (x : tester) | Exits.

Definition ct_at (k : Z) (x : tester) : Z := default 0 (ct x !! k).
Definition set_ct (k v : Z) (x : tester) : tester := Tester (locks x) (<[k := v]> (ct x)) (threads x) (phases x).
Definition set_thread (j : nat) (b : bool) (p : list instr) (x : tester) : tester :=
  Tester (locks x) (ct x) (<[j := Tthread b p]> (threads x)) (phases x).
Definition set_locks (s : sys) (x : tester) : tester := Tester s (ct x) (threads x) (phases x).

(** [check_grant] and [check_release], under [count_mutex]. *)
Definition check_grant (lid : Z) (x : tester) : tout :=
  let k := Z.land lid 255 in
  if negb (ct_at k x =? 0) then Exits else Runs (set_ct k (ct_at k x + 1) x).

Definition check_release (lid : Z) (x : tester) : tout :=
  let k := Z.land lid 255 in
  if negb (ct_at k x =? 1) then Exits else Runs (set_ct k (ct_at k x - 1) x).

Definition then_thread (j : nat) (p : list instr) (o : tout) : tout :=
  match o with Runs x => Runs (set_thread j false p x) | Exits => Exits end.

Definition done_thread (t : tthread) : bool := match t with Tthread false [] => true | _ => false end.

(** The threads of a phase at their start. *)
Definition start_threads (p : list (nat * list instr)) : gmap nat tthread :=
  list_to_map ((λ q, (fst q, Tthread false (snd q))) <$> p).

Definition start (test : Z) : tester := Tester new_sys ∅ ∅ (main_phases test).

Inductive tlabel :=
  | TCall (j : nat) (cond : nat)      (* the next call of the thread; [cond] for [acquire] *)
  | TReturn (j : nat)                 (* [acquire] returns *)
  | TLock (l : sys_label)             (* lock server, lock clients *)
  | TJoin.                            (* all threads are joined, the next test starts *)

Section run.
(** The ids of the clients and the thread ids. *)
Variables (ids : nat → sint) (tids : nat → Z).

Definition tstep (l : tlabel) (x : tester) : option tout :=
  match l with
  | TCall j cond =>
      match threads x !! j with
      | Some (Tthread false (i :: p)) =>
          match i with
          | IAcquire i lid =>
              s ← sys_step (SAcquire (ids i) (tids j) (Ull lid) cond) (locks x);
              Some (Runs (set_thread j true (IAcquire i lid :: p) (set_locks s x)))
          | IRelease i lid =>
              s ← sys_step (SRelease (ids i) (tids j) (Ull lid)) (locks x);
              Some (Runs (set_thread j false p (set_locks s x)))
          | IGrant lid => Some (then_thread j p (check_grant lid x))
          | ICheckRelease lid => Some (then_thread j p (check_release lid x))
          end
      | _ => None
      end
  | TReturn j =>
      match threads x !! j with
      | Some (Tthread true (IAcquire i lid :: p)) =>
          match thr (locks x) !! (ids i, tids j) with
          | None => Some (Runs (set_thread j false p x))
          | Some _ => None
          end
      | _ => None
      end
  | TLock l => if background l then s ← sys_step l (locks x); Some (Runs (set_locks s x)) else None
  | TJoin =>
      match phases x with
      | p :: ps =>
          if forallb (λ q, done_thread (snd q)) (map_to_list (threads x))
          then Some (Runs (Tester (locks x) (ct x) (start_threads p) ps)) else None
      | [] => None
      end
  end.

Definition tlabel_ok (l : tlabel) : Prop := match l with TLock l => label_ok l | _ => True end.

Inductive tester_runs (test : Z) : tester → Prop :=
  | tester_start : tester_runs test (start test)
  | tester_step x l x' : tester_runs test x → tlabel_ok l → tstep l x = Some (Runs x') → tester_runs test x'.
End run.

(** ** The discipline of the programs *)

(** [h]: the locks the thread holds, by client; [g]: the locks it has counted.  With other threads around
    ([multi]) a lock is only counted while it is held. *)
Fixpoint disciplined (multi : bool) (h : gset (nat * Z)) (g : gset Z) (p : list instr) : Prop :=
  match p with
  | [] => h = ∅ ∧ g = ∅
  | IAcquire i l :: p => (i < nt)%nat ∧ disciplined multi ({[(i, l)]} ∪ h) g p
  | IRelease i l :: p => ((i < nt)%nat ∧ (multi = true → l ∉ g)) ∧ disciplined multi (h ∖ {[(i, l)]}) g p
  | IGrant l :: p =>
      0 <= l < 256 ∧ l ∉ g ∧ (multi = true → ∃ i, (i, l) ∈ h) ∧ disciplined multi h ({[l]} ∪ g) p
  | ICheckRelease l :: p => l ∈ g ∧ disciplined multi h (g ∖ {[l]}) p
  end.

Lemma disciplined_app multi h g p q :
  disciplined multi h g p → disciplined multi ∅ ∅ q → disciplined multi h g (p ++ q).
Proof.
  revert h g. induction p as [|[] p IH]; intros h g; cbn; [intros [-> ->] Hq; exact Hq|..].
  - intros [? ?] ?. split; [done|]. by apply IH.
  - intros [? ?] ?. split; [done|]. by apply IH.
  - intros (? & ? & ? & ?) ?. do 3 (split; [done|]). by apply IH.
  - intros [? ?] ?. split; [done|]. by apply IH.
Qed.

Lemma disciplined_loop multi n p : disciplined multi ∅ ∅ p → disciplined multi ∅ ∅ (loop n p).
Proof. intros Hp. induction n as [|n IH]; [done|]. by apply disciplined_app. Qed.

(** The body of the loops. *)
Lemma bracket_disciplined multi i l :
  (i < nt)%nat → 0 <= l < 256 → disciplined multi ∅ ∅ [IAcquire i l; IGrant l; ICheckRelease l; IRelease i l].
Proof. intros Hi Hl. cbn. split_and!; (lia || set_solver). Qed.

Lemma test1_disciplined : disciplined false ∅ ∅ test1.
Proof. cbn. unfold lock_a, lock_b, nt. split_and!; (lia || done || set_solver). Qed.

(** The threads of a phase keep to it; a phase with one thread only to the weaker form. *)
Definition phase_ok (p : list (nat * list instr)) : Prop :=
  ∃ multi, (multi = false → ∀ j j', j ∈ fst <$> p → j' ∈ fst <$> p → j = j') ∧
    ∀ j q, (j, q) ∈ p → (j <= nt)%nat ∧ disciplined multi ∅ ∅ q.

Lemma spawn_ok n f : (n <= nt)%nat → (∀ i, (i < nt)%nat → disciplined true ∅ ∅ (f i)) → phase_ok (spawn n f).
Proof.
  intros Hn Hf. exists true. split; [done|]. intros j q (i & [= -> ->] & Hi%elem_of_seq)%list_elem_of_fmap.
  split; [lia|]. apply Hf. lia.
Qed.

Lemma main_phases_ok test : Forall phase_ok (main_phases test).
Proof.
  assert (∀ (b : bool) p, phase_ok p → Forall phase_ok (if b then [p] else [])) as Hif
    by (intros [] p ?; by constructor).
  unfold main_phases, nt. repeat apply Forall_app_2; apply Hif; [|apply spawn_ok; [unfold nt; lia|intros i Hi]..].
  - exists false. split; [|intros j q [[= -> ->]|H%elem_of_nil]%elem_of_cons; [split; [done|apply test1_disciplined]|done]].
    intros _ j j' [->|H%elem_of_nil]%elem_of_cons [->|H'%elem_of_nil]%elem_of_cons; done.
  - by apply bracket_disciplined.
  - by apply disciplined_loop, bracket_disciplined.
  - apply disciplined_loop, bracket_disciplined; unfold nt; [lia|done].
  - unfold test5. apply disciplined_loop, bracket_disciplined; unfold nt; [|done]. destruct (i <? 5)%nat; lia.
Qed.

(** ** The invariant *)

(** The ids of the ten clients, and of the main thread and the ten others, are different. *)
Definition client_ids (ids : nat → sint) : Prop :=
  (∀ i i', (i < nt)%nat → (i' < nt)%nat → ids i = ids i' → i = i') ∧ ∀ i, (i < nt)%nat → 0 < sint_val (ids i).
Definition thread_ids (tids : nat → Z) : Prop :=
  (∀ j j', (j <= nt)%nat → (j' <= nt)%nat → tids j = tids j' → j = j') ∧ ∀ j, (j <= nt)%nat → valid_tid (tids j).

Section invariant.
Context (ids : nat → sint) (tids : nat → Z).
Hypothesis ids_ok : client_ids ids.
Hypothesis tids_ok : thread_ids tids.

Definition holds_exactly (s : sys) (j i : nat) (h : gset (nat * Z)) : Prop :=
  ∀ l, holds_lock s (ids i) (tids j) (Ull l) ↔ (i, l) ∈ h.

Definition covered (multi : bool) (h : gset (nat * Z)) (g : gset Z) : Prop :=
  (∀ i l, (i, l) ∈ h → (i < nt)%nat) ∧ (multi = true → ∀ l, l ∈ g → ∃ i, (i, l) ∈ h).

(** A thread: its place in its program, its locks, what it has counted. *)
Definition tthread_ok (s : sys) (multi : bool) (j : nat) (g : gset Z) (o : option tthread) : Prop :=
  match o with
  | None => g = ∅ ∧ ∀ i, (i < nt)%nat → thr s !! (ids i, tids j) = None ∧ holds_exactly s j i ∅
  | Some (Tthread false p) =>
      ∃ h, disciplined multi h g p ∧ covered multi h g ∧
        ∀ i, (i < nt)%nat → thr s !! (ids i, tids j) = None ∧ holds_exactly s j i h
  | Some (Tthread true (IAcquire i0 l0 :: p)) =>
      ∃ h, ((i0 < nt)%nat ∧ disciplined multi ({[(i0, l0)]} ∪ h) g p) ∧ covered multi h g ∧
        ∀ i, (i < nt)%nat → match thr s !! (ids i, tids j) with
             | Some ts => i = i0 ∧ t_lock ts = Ull l0 ∧ holds_exactly s j i h
             | None => if decide (i = i0) then holds_exactly s j i ({[(i0, l0)]} ∪ h) else holds_exactly s j i h
             end
  | _ => False
  end.

Record tester_inv (x : tester) (multi : bool) (g : nat → gset Z) : Prop := TesterInv {
  ti_sys : sys_inv (locks x);
  ti_thread j : (j <= nt)%nat → tthread_ok (locks x) multi j (g j) (threads x !! j);
  ti_single : multi = false → ∀ j j', is_Some (threads x !! j) → is_Some (threads x !! j') → j = j';
  ti_dom j : is_Some (threads x !! j) → (j <= nt)%nat;
  ti_range j l : l ∈ g j → (j <= nt)%nat ∧ 0 <= l < 256 ∧ ct_at l x = 1;
  ti_count k : ct_at k x ≠ 0 → ∃ j, k ∈ g j;
  ti_unique j j' l : l ∈ g j → l ∈ g j' → j = j';
  ti_phases : Forall phase_ok (phases x);
}.

Lemma holds_moved s s' j i h :
  thr s !! (ids i, tids j) = None → moved s s' (ids i) (tids j) → holds_exactly s j i h →
  thr s' !! (ids i, tids j) = None ∧ holds_exactly s' j i h.
Proof using Type.
  intros Hn [[Et Eh]|(ts & Ets & _)] Hh; [|congruence]. split; [congruence|]. intros l. by rewrite Eh.
Qed.

Lemma tthread_ok_moved s s' multi j g o :
  (∀ i, (i < nt)%nat → moved s s' (ids i) (tids j)) → tthread_ok s multi j g o → tthread_ok s' multi j g o.
Proof using Type.
  intros Hm. destruct o as [[[] [|[i0 l0|i0 l0|l0|l0] p]]|]; cbn; try done.
  - intros (h & Hd & Hc & H). exists h. split; [exact Hd|]. split; [exact Hc|]. intros i Hi. specialize (H i Hi).
    destruct (Hm i Hi) as [[-> Eh]|(ts & Ets & M)].
    + destruct (thr s !! _); [destruct H as (? & ? & H)|case_decide]; (repeat split); try done;
        intros Hl; try (by apply H, Eh); by apply Eh, H.
    + rewrite Ets in H. destruct H as (-> & Hl & H). destruct M as [(ts' & -> & El & Eh)|[-> Eh]].
      * split_and!; [done|congruence|]. intros l. by rewrite Eh.
      * rewrite decide_True by done. intros l. rewrite Eh, (H l), Hl, elem_of_union, elem_of_singleton.
        split; (intros [E|?]; [left; congruence|by right]).
  - intros (h & Hd & Hc & H). exists h. split; [exact Hd|]. split; [exact Hc|]. intros i Hi. destruct (H i Hi). eapply holds_moved; [done|by apply Hm|done].
  - intros (h & Hd & Hc & H). exists h. split; [exact Hd|]. split; [exact Hc|]. intros i Hi. destruct (H i Hi). eapply holds_moved; [done|by apply Hm|done].
  - intros (h & Hd & Hc & H). exists h. split; [exact Hd|]. split; [exact Hc|]. intros i Hi. destruct (H i Hi). eapply holds_moved; [done|by apply Hm|done].
  - intros (h & Hd & Hc & H). exists h. split; [exact Hd|]. split; [exact Hc|]. intros i Hi. destruct (H i Hi). eapply holds_moved; [done|by apply Hm|done].
  - intros (h & Hd & Hc & H). exists h. split; [exact Hd|]. split; [exact Hc|]. intros i Hi. destruct (H i Hi). eapply holds_moved; [done|by apply Hm|done].
  - intros (-> & H). split; [done|]. intros i Hi. destruct (H i Hi). eapply holds_moved; [done|by apply Hm|done].
Qed.
(** ** Steps *)

Lemma other_thread i j i0 j0 : (j <= nt)%nat → (j0 <= nt)%nat → j ≠ j0 → (ids i, tids j) ≠ (ids i0, tids j0).
Proof using tids_ok. intros H1 H2 Hne [= _ E]. apply Hne. by apply tids_ok. Qed.

Lemma other_client i j i0 j0 : (i < nt)%nat → (i0 < nt)%nat → i ≠ i0 → (ids i, tids j) ≠ (ids i0, tids j0).
Proof using ids_ok. intros H1 H2 Hne [= E _]. apply Hne. by apply ids_ok. Qed.

(** One thread goes on, without counting. *)
Lemma tester_update x s j b p multi g :
  tester_inv x multi g → sys_inv s → is_Some (threads x !! j) →
  (∀ i j', (i < nt)%nat → (j' <= nt)%nat → j' ≠ j → moved (locks x) s (ids i) (tids j')) →
  tthread_ok s multi j (g j) (Some (Tthread b p)) → tester_inv (set_thread j b p (set_locks s x)) multi g.
Proof using Type.
  intros I Hs Hj Hm Ht. split; cbn; [done| | |intros j'; rewrite lookup_insert; case_decide; [subst; intros _|]; by apply I|apply I..].
  - intros j' Hn'. destruct (decide (j' = j)) as [->|Hne]; [by rewrite lookup_insert_eq|].
    rewrite lookup_insert_ne by done. eapply tthread_ok_moved; [intros i Hi; by apply Hm|by apply I].
  - intros Hf j1 j2 H1 H2. apply (ti_single _ _ _ I Hf); [rewrite lookup_insert in H1|rewrite lookup_insert in H2];
      case_decide; (by subst) || done.
Qed.

Lemma acquire_step x j i l p cond s multi g :
  tester_inv x multi g → threads x !! j = Some (Tthread false (IAcquire i l :: p)) →
  sys_step (SAcquire (ids i) (tids j) (Ull l) cond) (locks x) = Some s →
  tester_inv (set_thread j true (IAcquire i l :: p) (set_locks s x)) multi g.
Proof using ids_ok tids_ok.
  intros I Hj H. destruct (sys_acquire_thread _ _ _ _ _ _ H) as [Hm Hc].
  assert (j <= nt)%nat as Hjn by (apply (ti_dom _ _ _ I); by rewrite Hj).
  pose proof (ti_thread _ _ _ I j Hjn) as T. rewrite Hj in T. destruct T as (h & [Hin Hd] & Hcov & Hall).
  apply (tester_update x s j true); [done| |by rewrite Hj|intros i' j' Hi Hj' Hne; by apply Hm, other_thread|].
  { eapply sys_step_inv; [apply I| |exact H]. split; [by apply tids_ok|by apply ids_ok]. }
  exists h. split; [done|]. split; [exact Hcov|]. intros i' Hi'. destruct (Hall i' Hi') as [Hn Hh].
  destruct (decide (i' = i)) as [->|Hne].
  - destruct Hc as [(ts & -> & El & Eh)|[-> Eh]].
    + split_and!; [done|done|]. intros l'. by rewrite Eh.
    + intros l'. rewrite Eh, (Hh l'), elem_of_union, elem_of_singleton. split; (intros [E|?]; [left; congruence|by right]).
  - destruct (holds_moved (locks x) s j i' h Hn) as [-> ?]; [by apply Hm, other_client|done|done].
Qed.

Lemma return_step x j i l p multi g :
  tester_inv x multi g → threads x !! j = Some (Tthread true (IAcquire i l :: p)) →
  thr (locks x) !! (ids i, tids j) = None → tester_inv (set_thread j false p x) multi g.
Proof using ids_ok tids_ok.
  intros I Hj Hn. assert (j <= nt)%nat as Hjn by (apply (ti_dom _ _ _ I); by rewrite Hj).
  pose proof (ti_thread _ _ _ I j Hjn) as T. rewrite Hj in T. destruct T as (h & [Hin Hd] & [Hc1 Hc2] & Hall).
  replace (set_thread j false p x) with (set_thread j false p (set_locks (locks x) x)) by (by destruct x).
  apply tester_update; [done|apply I|by rewrite Hj|intros; by apply moved_same|].
  exists ({[(i, l)]} ∪ h). split; [done|]. split.
  { split; [intros i' l' [[= -> ->]%elem_of_singleton|]%elem_of_union; [done|by eapply Hc1]|].
    intros Hm l' Hl; destruct (Hc2 Hm l' Hl) as [i' ?]; exists i'; set_solver. }
  intros i' Hi'. specialize (Hall i' Hi'). destruct (thr (locks x) !! (ids i', tids j)) eqn:E.
  - destruct Hall as (-> & _). congruence.
  - split; [done|]. case_decide; [by subst|]. intros l'. rewrite (Hall l'), elem_of_union, elem_of_singleton.
    split; [by right|intros [[= ? _]|?]; done].
Qed.

Lemma release_step x j i l p s multi g :
  tester_inv x multi g → threads x !! j = Some (Tthread false (IRelease i l :: p)) →
  sys_step (SRelease (ids i) (tids j) (Ull l)) (locks x) = Some s →
  tester_inv (set_thread j false p (set_locks s x)) multi g.
Proof using ids_ok tids_ok.
  intros I Hj H. destruct (sys_release_thread _ _ _ _ _ H) as (Hm & _ & Hn' & Eh).
  assert (j <= nt)%nat as Hjn by (apply (ti_dom _ _ _ I); by rewrite Hj).
  pose proof (ti_thread _ _ _ I j Hjn) as T. rewrite Hj in T. destruct T as (h & [[Hin Hg] Hd] & [Hc1 Hc2] & Hall).
  apply (tester_update x s j false); [done| |by rewrite Hj|intros i' j' Hi Hj' Hne; by apply Hm, other_thread|].
  { eapply sys_step_inv; [apply I| |exact H]. split; [by apply tids_ok|by apply ids_ok]. }
  exists (h ∖ {[(i, l)]}). split; [done|]. split.
  { split; [intros i' l' [? _]%elem_of_difference; by eapply Hc1|].
    intros Hmu l' Hl. destruct (Hc2 Hmu l' Hl) as [i' Hi]. exists i'. specialize (Hg Hmu).
    rewrite elem_of_difference, elem_of_singleton. split; [done|]. intros [= _ ->]. done. }
  intros i' Hi'. destruct (Hall i' Hi') as [Hn Hh]. destruct (decide (i' = i)) as [->|Hne].
  - split; [done|]. intros l'. rewrite Eh, (Hh l'), elem_of_difference, elem_of_singleton.
    split; (intros [? ?]; split; congruence).
  - destruct (holds_moved (locks x) s j i' h Hn) as [-> Hh']; [by apply Hm, other_client|done|]. split; [done|].
    intros l'. rewrite (Hh' l'), elem_of_difference, elem_of_singleton. split; [|tauto]. intros. split; [done|congruence].
Qed.

Lemma land_byte l : 0 <= l < 256 → Z.land l 255 = l.
Proof using Type. intros. change 255 with (Z.ones 8). rewrite Z.land_ones by lia. by apply Z.mod_small. Qed.

Lemma ct_set_ct k v x k' : ct_at k' (set_ct k v x) = if decide (k' = k) then v else ct_at k' x.
Proof using Type. unfold ct_at, set_ct. cbn. rewrite lookup_insert. case_decide; case_decide; by subst. Qed.

(** Nobody else has counted the lock. *)
Lemma grant_free x j l p multi g :
  tester_inv x multi g → threads x !! j = Some (Tthread false (IGrant l :: p)) → ct_at l x = 0.
Proof using ids_ok tids_ok.
  intros I Hj. assert (j <= nt)%nat as Hjn by (apply (ti_dom _ _ _ I); by rewrite Hj).
  pose proof (ti_thread _ _ _ I j Hjn) as T. rewrite Hj in T. destruct T as (h & (Hr & Hg & Hh & _) & [Hc1 _] & Hall).
  destruct (decide (ct_at l x = 0)) as [|Hne]; [done|]. destruct (ti_count _ _ _ I l Hne) as [j' Hj'].
  destruct (decide (j' = j)) as [->|Hjj]; [done|]. exfalso. apply Hjj.
  destruct (ti_range _ _ _ I j' l Hj') as [Hjn' _].
  pose proof (ti_thread _ _ _ I j' Hjn') as T'.
  destruct (threads x !! j') as [t'|] eqn:E'; [|destruct T' as [T' _]; set_solver].
  destruct multi; [|by apply (ti_single _ _ _ I eq_refl); eauto].
  destruct (Hh eq_refl) as [i Hi]. apply (proj2 (Hall i (Hc1 i l Hi))) in Hi.
  assert (∃ i', holds_lock (locks x) (ids i') (tids j') (Ull l)) as [i' Hi'].
  { destruct t' as [[] [|[i0 l0|i0 l0|l0|l0] q]]; try done; destruct T' as (h' & _ & [Hc1' Hc2'] & Hall');
      destruct (Hc2' eq_refl l Hj') as [i' Hin]; exists i'; specialize (Hall' i' (Hc1' i' l Hin)); try (by apply (proj2 Hall')).
    destruct (thr _ !! _); [by apply (proj2 (proj2 Hall'))|]. case_decide; apply Hall'; set_solver. }
  destruct (held_unique _ _ _ _ _ _ (ti_sys _ _ _ I) Hi' Hi) as (_ & E & _). by apply tids_ok.
Qed.

(** A counted lock. *)
Lemma release_counted x j l p multi g :
  tester_inv x multi g → threads x !! j = Some (Tthread false (ICheckRelease l :: p)) → 0 <= l < 256 ∧ ct_at l x = 1.
Proof using Type.
  intros I Hj. assert (j <= nt)%nat as Hjn by (apply (ti_dom _ _ _ I); by rewrite Hj).
  pose proof (ti_thread _ _ _ I j Hjn) as T. rewrite Hj in T. destruct T as (h & (Hg & _) & _).
  by apply (ti_range _ _ _ I j).
Qed.

Definition set_g (g : nat → gset Z) (j : nat) (v : gset Z) : nat → gset Z := λ j', if decide (j' = j) then v else g j'.

(** A thread counts: [g j] and the counter of one lock change. *)
Lemma tester_count x j p l v gj multi g :
  tester_inv x multi g → is_Some (threads x !! j) → 0 <= l < 256 →
  tthread_ok (locks x) multi j gj (Some (Tthread false p)) →
  (v = 1 ∧ gj = {[l]} ∪ g j ∧ ct_at l x = 0) ∨ (v = 0 ∧ gj = g j ∖ {[l]} ∧ l ∈ g j) →
  tester_inv (set_thread j false p (set_ct l v x)) multi (set_g g j gj).
Proof using ids_ok tids_ok.
  intros I Hj Hl Ht Hv. change (set_thread j false p (set_ct l v x)) with
    (Tester (locks x) (<[l := v]> (ct x)) (<[j := Tthread false p]> (threads x)) (phases x)).
  assert (∀ k, ct_at k (Tester (locks x) (<[l := v]> (ct x)) (<[j := Tthread false p]> (threads x)) (phases x))
    = if decide (k = l) then v else ct_at k x) as Ect by (intros k; apply (ct_set_ct l v x k)).
  assert (∀ j', l ∈ g j' → (v = 1 → False) ∧ (v = 0 → j' = j)) as Hex.
  { intros j' Hin. destruct (ti_range _ _ _ I j' l Hin) as (_ & _ & H1). destruct Hv as [(-> & _ & H0)|(-> & _ & Hin')]; [lia|].
    split; [done|]. intros _. by apply (ti_unique _ _ _ I j' j l). }
  assert (j <= nt)%nat as Hjn by by apply I.
  split; cbn [locks threads phases]; [apply I| | |intros j'; rewrite lookup_insert; case_decide; [by subst|apply I]| | | |apply I].
  - intros j' Hn'. unfold set_g. destruct (decide (j' = j)) as [->|Hne]; [by rewrite lookup_insert_eq|].
    rewrite lookup_insert_ne by done. by apply I.
  - intros Hf j1 j2 H1 H2. apply (ti_single _ _ _ I Hf); [rewrite lookup_insert in H1|rewrite lookup_insert in H2];
      case_decide; (by subst) || done.
  - intros j' l'. rewrite Ect. unfold set_g. case_decide as Ej.
    + subst j'. destruct Hv as [(-> & -> & H0)|(-> & -> & Hin)].
      * intros [->%elem_of_singleton|Hin]%elem_of_union; [by rewrite decide_True|].
        destruct (ti_range _ _ _ I j l' Hin) as (? & ? & H1). do 2 (split; [done|]). case_decide; [congruence|done].
      * intros [Hin' Hne]%elem_of_difference. destruct (ti_range _ _ _ I j l' Hin') as (? & ? & H1). do 2 (split; [done|]).
        case_decide; [set_solver|done].
    + intros Hin. destruct (ti_range _ _ _ I j' l' Hin) as (? & ? & H1). do 2 (split; [done|]). case_decide; [subst l'|done].
      destruct (Hex j' Hin) as [H2 H3]. destruct Hv as [(-> & _)|(-> & _)]; [by destruct H2|]. by destruct Ej; apply H3.
  - intros k. rewrite Ect. unfold set_g. case_decide as Ek.
    + intros Hv0. destruct Hv as [(-> & -> & H0)|(-> & _)]; [|done]. exists j. rewrite decide_True by done. set_solver.
    + intros Hne. destruct (ti_count _ _ _ I k Hne) as [j' Hin]. exists j'. case_decide; [subst j'|done].
      destruct Hv as [(_ & -> & _)|(_ & -> & _)]; set_solver.
  - intros j1 j2 l'. unfold set_g.
    assert (∀ j', l' ∈ gj → l' ∈ g j' → j' = j) as Hgj.
    { intros j' H1 H2. destruct Hv as [(-> & -> & H0)|(-> & -> & Hin)].
      - apply elem_of_union in H1 as [->%elem_of_singleton|H1]; [by destruct (Hex j' H2) as [[]]|].
        by apply (ti_unique _ _ _ I j' j l').
      - apply elem_of_difference in H1 as [H1 _]. by apply (ti_unique _ _ _ I j' j l'). }
    repeat case_decide; intros H1 H2; subst; [done|by symmetry; apply Hgj|by apply Hgj|by apply (ti_unique _ _ _ I j1 j2 l')].
Qed.

Lemma grant_step x j l p multi g :
  tester_inv x multi g → threads x !! j = Some (Tthread false (IGrant l :: p)) →
  ∃ x' g', then_thread j p (check_grant l x) = Runs x' ∧ tester_inv x' multi g'.
Proof using ids_ok tids_ok.
  intros I Hj. pose proof (grant_free x j l p multi g I Hj) as H0.
  assert (j <= nt)%nat as Hjn by (apply (ti_dom _ _ _ I); by rewrite Hj).
  pose proof (ti_thread _ _ _ I j Hjn) as T. rewrite Hj in T. destruct T as (h & (Hr & Hg & Hh & Hd) & [Hc1 Hc2] & Hall).
  unfold check_grant. rewrite land_byte, H0 by done. cbn. eexists _, (set_g g j ({[l]} ∪ g j)). split; [done|].
  eapply tester_count; [done|by rewrite Hj|done| |by left]. exists h. split; [done|]. split; [|done].
  split; [done|]. intros Hm l' [->%elem_of_singleton|Hl]%elem_of_union; [by apply Hh|by apply Hc2].
Qed.

Lemma check_release_step x j l p multi g :
  tester_inv x multi g → threads x !! j = Some (Tthread false (ICheckRelease l :: p)) →
  ∃ x' g', then_thread j p (check_release l x) = Runs x' ∧ tester_inv x' multi g'.
Proof using ids_ok tids_ok.
  intros I Hj. destruct (release_counted x j l p multi g I Hj) as [Hl H1].
  assert (j <= nt)%nat as Hjn by (apply (ti_dom _ _ _ I); by rewrite Hj).
  pose proof (ti_thread _ _ _ I j Hjn) as T. rewrite Hj in T. destruct T as (h & (Hg & Hd) & [Hc1 Hc2] & Hall).
  unfold check_release. rewrite land_byte, H1 by done. cbn. eexists _, (set_g g j (g j ∖ {[l]})). split; [done|].
  eapply tester_count; [done|by rewrite Hj|done| |by right]. exists h. split; [done|]. split; [|done].
  split; [done|]. intros Hm l' [Hl' _]%elem_of_difference. by apply Hc2.
Qed.

(** All threads have ended. *)
Definition all_done (x : tester) : Prop := ∀ j t, threads x !! j = Some t → done_thread t = true.

Lemma done_idle x multi g j :
  tester_inv x multi g → all_done x → (j <= nt)%nat → g j = ∅ ∧ ∀ i, (i < nt)%nat → thr (locks x) !! (ids i, tids j) = None ∧ holds_exactly (locks x) j i ∅.
Proof using ids_ok tids_ok.
  intros I Hd Hjn. pose proof (ti_thread _ _ _ I j Hjn) as T. destruct (threads x !! j) as [t|] eqn:E; [|done].
  specialize (Hd j t E). destruct t as [[] [|]]; try done. by destruct T as (h & [-> ->] & _ & H).
Qed.

Lemma join_step x p ps multi g :
  tester_inv x multi g → all_done x → phases x = p :: ps →
  ∃ multi', tester_inv (Tester (locks x) (ct x) (start_threads p) ps) multi' (λ _, ∅).
Proof using ids_ok tids_ok.
  intros I Hd Hp. pose proof (ti_phases _ _ _ I) as Hph. rewrite Hp in Hph.
  apply Forall_cons in Hph as [(multi' & Hs & Hpr) Hph]. exists multi'.
  assert (∀ j t, start_threads p !! j = Some t → ∃ q, t = Tthread false q ∧ (j, q) ∈ p) as Hst.
  { intros j t H%elem_of_list_to_map_2. apply list_elem_of_fmap in H as ([j' q] & [= -> ->] & H). eauto. }
  split; cbn [locks threads phases]; [apply I| | | |set_solver| |set_solver|done].
  - intros j Hjn. destruct (done_idle x multi g j I Hd Hjn) as [_ Hi].
    destruct (start_threads p !! j) as [t|] eqn:E; [|done]. destruct (Hst j t E) as (q & -> & Hq).
    exists ∅. split; [by eapply Hpr|]. split; [|done]. split; [set_solver|]. intros _ l Hl. set_solver.
  - intros Hf j1 j2 [t1 H1] [t2 H2]. destruct (Hst _ _ H1) as (q1 & _ & E1). destruct (Hst _ _ H2) as (q2 & _ & E2).
    apply (Hs Hf); apply list_elem_of_fmap; [by exists (j1, q1)|by exists (j2, q2)].
  - intros j [t H]. destruct (Hst j t H) as (q & _ & Hq). by apply (Hpr j q).
  - intros k Hk. destruct (ti_count _ _ _ I k Hk) as [j Hj]. destruct (ti_range _ _ _ I j k Hj) as [Hjn _].
    destruct (done_idle x multi g j I Hd Hjn) as [E _]. set_solver.
Qed.

Lemma join_all_done x : forallb (λ q, done_thread (snd q)) (map_to_list (threads x)) = true → all_done x.
Proof using ids_ok tids_ok.
  intros H j t E. rewrite forallb_forall in H. apply (H (j, t)). by apply list_elem_of_In, elem_of_map_to_list.
Qed.

Lemma tester_step_inv x l o multi g :
  tester_inv x multi g → tlabel_ok l → tstep ids tids l x = Some o →
  ∃ x' multi' g', o = Runs x' ∧ tester_inv x' multi' g'.
Proof using ids_ok tids_ok.
  intros I Hok H. destruct l as [j cond|j|l|]; cbn [tstep] in H.
  - destruct (threads x !! j) as [[[] [|[i l|i l|l|l] p]]|] eqn:E; try done.
    + apply bind_Some in H as (s & Hs & [= <-]). eexists _, multi, g. split; [done|]. by eapply acquire_step.
    + apply bind_Some in H as (s & Hs & [= <-]). eexists _, multi, g. split; [done|]. by eapply release_step.
    + destruct (grant_step x j l p multi g I E) as (x' & g' & Ex & I'). rewrite Ex in H. injection H as <-.
      by exists x', multi, g'.
    + destruct (check_release_step x j l p multi g I E) as (x' & g' & Ex & I'). rewrite Ex in H. injection H as <-.
      by exists x', multi, g'.
  - destruct (threads x !! j) as [[[] [|[i l|i l|l|l] p]]|] eqn:E; try done.
    destruct (thr (locks x) !! (ids i, tids j)) eqn:Et; [done|]. injection H as <-.
    eexists _, multi, g. split; [done|]. by eapply return_step.
  - destruct (background l) eqn:Hb; [|done]. apply bind_Some in H as (s & Hs & [= <-]). eexists _, multi, g. split; [done|].
    split; cbn; [by eapply sys_step_inv, Hs; [apply I|]| |apply I..].
    intros j Hjn. eapply tthread_ok_moved; [|by apply I]. intros i _. by eapply sys_step_moved.
  - destruct (phases x) as [|p ps] eqn:Ep; [done|]. destruct (forallb _ _) eqn:Ed; [|done]. injection H as <-.
    destruct (join_step x p ps multi g I (join_all_done x Ed) Ep) as (multi' & I'). by eexists _, multi', _.
Qed.

Lemma tester_runs_inv test x : tester_runs ids tids test x → ∃ multi g, tester_inv x multi g.
Proof using ids_ok tids_ok.
  induction 1 as [|x l x' _ (multi & g & I) Hok H].
  - exists true, (λ _, ∅). split; cbn; [apply new_sys_inv| |done|by intros j [? ?]|set_solver|done|set_solver|apply main_phases_ok].
    intros j _. rewrite lookup_empty. split; [done|]. intros i _. split; [done|]. intros l. unfold holds_lock. cbn. set_solver.
  - destruct (tester_step_inv x l _ multi g I Hok H) as (x2 & multi' & g' & [= <-] & I'). eauto.
Qed.
End invariant.

(** C20. The lock tester passes.  For every test number and in every interleaving of the
    tester's threads with the lock server and the lock clients, neither [check_grant]
    nor [check_release] stops the process: no lock is counted twice and none is given back
    uncounted, also in the test that gives locks back before it counts them down; and when
    the threads of a test have ended every counter is 0 again. *)
Theorem lock_tester_passes ids tids test x l :
  client_ids ids → thread_ids tids →
  tester_runs ids tids test x → tlabel_ok l →
  tstep ids tids l x ≠ Some Exits ∧ (all_done x → ∀ k, ct_at k x = 0).
Proof.
  intros Hi Ht Hr Hok. destruct (tester_runs_inv ids tids Hi Ht test x Hr) as (multi & g & I). split.
  - intros H. by destruct (tester_step_inv ids tids Hi Ht x l _ multi g I Hok H) as (x' & _ & _ & ? & _).
  - intros Hd k. destruct (decide (ct_at k x = 0)) as [|Hne]; [done|]. destruct (ti_count _ _ _ _ _ I k Hne) as [j Hj].
    destruct (ti_range _ _ _ _ _ I j k Hj) as [Hjn _].
    destruct (done_idle ids tids Hi Ht x multi g j I Hd Hjn) as [E _]. rewrite E in Hj. set_solver.
Qed.

(** ** A run *)

Fixpoint texec (ids : nat → sint) (tids : nat → Z) (ls : list tlabel) (x : tester) : option tester :=
  match ls with
  | [] => Some x
  | l :: ls => o ← tstep ids tids l x; match o with Runs x => texec ids tids ls x | Exits => None end
  end.

Lemma texec_runs ids tids test ls x x' :
  tester_runs ids tids test x → Forall tlabel_ok ls → texec ids tids ls x = Some x' → tester_runs ids tids test x'.
Proof.
  revert x. induction ls as [|l ls IH]; intros x Hr Hok H; cbn [texec] in H; [by injection H as <-|].
  apply Forall_cons in Hok as [Hl Hok]. apply bind_Some in H as ([x1|] & H1 & H2); [|done].
  eapply IH; [by eapply tester_step|done|done].
Qed.

Definition demo_ids (i : nat) : sint := SInt (Z.of_nat i + 1).
Definition demo_tids (j : nat) : Z := Z.of_nat j + 1.
Definition asks (i j : nat) : list tlabel :=
  map TLock [SSend (demo_ids i) (demo_tids j); SServe (demo_ids i) (demo_tids j); SReply (demo_ids i) (demo_tids j)].

(** Test 2: client 0 has counted the lock, client 1 waits for it. *)
Definition demo_test : list tlabel :=
  map TLock [SServer (OSubscribe (λ _, true) (demo_ids 0) ($"a")); SServer (OSubscribe (λ _, true) (demo_ids 1) ($"b"))] ++
  [TJoin; TCall 0 1] ++ asks 0 0 ++ [TReturn 0; TCall 1 1] ++ asks 1 1 ++ [TCall 0 2].

Lemma lock_tester_passes_witness :
  ∃ x, texec demo_ids demo_tids demo_test (start 2) = Some x ∧ ct_at 1 x = 1 ∧
    tstep demo_ids demo_tids (TCall 0 0) x ≠ Some Exits.
Proof.
  destruct (texec demo_ids demo_tids demo_test (start 2)) as [x|] eqn:E; [|vm_compute in E; discriminate E].
  exists x. split; [reflexivity|]. split; [vm_compute in E; injection E as <-; vm_compute; reflexivity|].
  apply (lock_tester_passes demo_ids demo_tids 2 x (TCall 0 0)).
  - unfold client_ids, demo_ids. split; [intros i i' _ _ [= H]; lia|]. intros i _. cbn. lia.
  - unfold thread_ids, demo_tids. split; [intros; lia|]. intros j Hj. unfold valid_tid, nt in *.
    assert (no_thread = 18446744073709551615) as -> by (vm_compute; reflexivity). lia.
  - apply (texec_runs demo_ids demo_tids 2 demo_test (start 2) x); [apply tester_start| |exact E].
    repeat constructor; vm_compute; reflexivity.
  - exact I.
Defined.
