(* ===== verification/LockServer.v ===== *)
(** * The lock server without caching

    lock_server.cc: locks are granted to a thread of a client, whose call blocks in the
    server until the lock is free.  All callers wait on one condition variable, and
    [release] signals it once. *)

From S2P Require Import Prelude.
From S2P Require Import Marshall.

Module lock_server.

(** ** State and handlers *)

Record t := Mk {
  lock_client : gmap ull sint;
  lock_thread : gmap ull Z;
  clt_lock_count : gmap sint (gmap ull Z);
}.

Definition new_lock_server : t := Mk ∅ ∅ ∅.

Definition OK : Z := 0.

Definition stat (clid : sint) (lid : ull) (s : t) : Z * Z :=
  (OK, if map_count clid (clt_lock_count s) then
         if map_count lid (map_at ∅ clid (clt_lock_count s)) then map_at 0 lid (map_at ∅ clid (clt_lock_count s)) else 0
       else 0).

(** [lock_client[lid] == clid && lock_thread[lid] == tid] *)
Definition is_holder (clid : sint) (tid : Z) (lid : ull) (s : t) : bool :=
  bool_decide (map_at (SInt 0) lid (lock_client s) = clid) && bool_decide (map_at 0 lid (lock_thread s) = tid).

Definition count_up (clid : sint) (lid : ull) (s : t) : gmap sint (gmap ull Z) :=
  let m := map_at ∅ clid (clt_lock_count s) in
  <[clid := <[lid := if map_count clid (clt_lock_count s)
                     then if map_count lid m then map_at 0 lid m + 1 else 1 else 1]> m]> (clt_lock_count s).

Definition grant (clid : sint) (tid : Z) (lid : ull) (s : t) : t :=
  Mk (<[lid := clid]> (lock_client s)) (<[lid := tid]> (lock_thread s)) (count_up clid lid s).

(** The loop: [None] is a wait on the condition variable. *)
Definition acquire_loop (clid : sint) (tid : Z) (lid : ull) (s : t) : option (Z * t) :=
  if map_count lid (lock_client s) then None else Some (OK, grant clid tid lid s).

Definition acquire (clid : sint) (tid : Z) (lid : ull) (s : t) : option (Z * t) :=
  if map_count lid (lock_client s) && is_holder clid tid lid s then Some (OK, s)
  else acquire_loop clid tid lid s.

(** Status, whether the condition variable is signalled, new state. *)
Definition release (clid : sint) (tid : Z) (lid : ull) (s : t) : Z * bool * t :=
  if map_count lid (lock_client s) then
    if negb (is_holder clid tid lid s) then (OK, false, s)
    else (OK, true, Mk (delete lid (lock_client s)) (delete lid (lock_thread s)) (clt_lock_count s))
  else (OK, false, s).

(** ** Callers *)

(** [waiting]: blocked on the condition variable; [woken]: taken from there by a signal;
    [granted]: client, thread and lock of the calls of [acquire] that returned, until the
    [release]. *)
Record sys := Sys {
  srv : t;
  waiting : gset (sint * Z * ull);
  woken : gset (sint * Z * ull);
  granted : gset (sint * Z * ull);
}.

Definition new_sys : sys := Sys new_lock_server ∅ ∅ ∅.

Definition caller (o : option (Z * t)) (p : sint * Z * ull) (s : sys) : sys :=
  match o with
  | Some (_, x) => Sys x (waiting s) (woken s) ({[p]} ∪ granted s)
  | None => Sys (srv s) ({[p]} ∪ waiting s) (woken s) (granted s)
  end.

(** A signal wakes some waiting caller, whichever lock it waits for; spurious wake-ups may
    happen too. *)
Inductive step : sys → sys → Prop :=
  | step_acquire c t l s :
      (c, t, l) ∉ waiting s → (c, t, l) ∉ woken s →
      step s (caller (acquire c t l (srv s)) (c, t, l) s)
  | step_resume c t l s :
      (c, t, l) ∈ woken s →
      step s (caller (acquire_loop c t l (srv s)) (c, t, l) (Sys (srv s) (waiting s) (woken s ∖ {[(c, t, l)]}) (granted s)))
  | step_spurious p s :
      p ∈ waiting s → step s (Sys (srv s) (waiting s ∖ {[p]}) ({[p]} ∪ woken s) (granted s))
  | step_release c t l r x s :
      release c t l (srv s) = (r, false, x) → step s (Sys x (waiting s) (woken s) (granted s ∖ {[(c, t, l)]}))
  | step_release_signal c t l r x p s :
      release c t l (srv s) = (r, true, x) → p ∈ waiting s →
      step s (Sys x (waiting s ∖ {[p]}) ({[p]} ∪ woken s) (granted s ∖ {[(c, t, l)]}))
  | step_release_none c t l r x s :
      release c t l (srv s) = (r, true, x) → waiting s = ∅ →
      step s (Sys x (waiting s) (woken s) (granted s ∖ {[(c, t, l)]})).

(** The server knows who was granted what. *)
Definition agrees (s : sys) : Prop :=
  ∀ c t l, (c, t, l) ∈ granted s → lock_client (srv s) !! l = Some c ∧ lock_thread (srv s) !! l = Some t.

Definition paired (s : sys) : Prop :=
  ∀ l, is_Some (lock_client (srv s) !! l) → is_Some (lock_thread (srv s) !! l).

Lemma is_holder_spec c t l s c' t' :
  lock_client s !! l = Some c' → lock_thread s !! l = Some t' → is_holder c t l s = true ↔ c' = c ∧ t' = t.
Proof.
  intros Hc Ht. unfold is_holder. rewrite (map_at_some _ _ _ _ Hc), (map_at_some _ _ _ _ Ht).
  rewrite andb_true_iff, !bool_decide_eq_true. done.
Qed.

Lemma granted_none s l c t :
  agrees s → lock_client (srv s) !! l = None → (c, t, l) ∉ granted s.
Proof. intros Ha Hn Hg. destruct (Ha c t l Hg). congruence. Qed.

Lemma loop_inv c t l s w wk :
  agrees s → paired s →
  let s' := caller (acquire_loop c t l (srv s)) (c, t, l) (Sys (srv s) w wk (granted s)) in agrees s' ∧ paired s'.
Proof.
  intros Ha Hp. unfold acquire_loop. destruct (map_count l (lock_client (srv s))) eqn:E; [done|].
  apply map_count_false in E. split.
  - intros c' t' l'. cbn. intros [Hg|Hg]%elem_of_union.
    + apply elem_of_singleton in Hg. injection Hg as -> -> ->. by rewrite !lookup_insert_eq.
    + assert (l' ≠ l) by (intros ->; by apply (granted_none s l c' t')). rewrite !lookup_insert_ne by done. by apply Ha.
  - intros l'. cbn. rewrite !lookup_insert. case_decide; [eauto|apply Hp].
Qed.

Lemma acquire_inv c t l s :
  agrees s → paired s → let s' := caller (acquire c t l (srv s)) (c, t, l) s in agrees s' ∧ paired s'.
Proof.
  intros Ha Hp. unfold acquire. destruct (_ && _) eqn:E; [|destruct s; by apply loop_inv].
  apply andb_true_iff in E as [E1 E2]. apply map_count_true in E1 as [c' Hc]. assert (is_Some (lock_thread (srv s) !! l)) as [t' Ht] by (apply Hp; eauto).
  destruct (proj1 (is_holder_spec _ _ _ _ _ _ Hc Ht) E2) as [Ec Et]. subst c' t'. split; [|done].
  intros c2 t2 l2. cbn. intros [Hg|Hg]%elem_of_union; [|by apply Ha].
  apply elem_of_singleton in Hg. by injection Hg as -> -> ->.
Qed.

Lemma release_inv c t l r sg x s w wk :
  agrees s → paired s → release c t l (srv s) = (r, sg, x) →
  let s' := Sys x w wk (granted s ∖ {[(c, t, l)]}) in agrees s' ∧ paired s'.
Proof.
  intros Ha Hp H. unfold release in H.
  assert (agrees (Sys (srv s) w wk (granted s ∖ {[(c, t, l)]})) ∧ paired (Sys (srv s) w wk (granted s ∖ {[(c, t, l)]}))) as Hsame.
  { split; [|done]. intros c' t' l' Hg. apply Ha. cbn in Hg. set_solver. }
  destruct (map_count l (lock_client (srv s))) eqn:E; [|by simplify_eq].
  destruct (is_holder c t l (srv s)) eqn:Eh; cbn [negb] in H; [|by simplify_eq].
  injection H as <- <- <-. apply map_count_true in E as [c' Hc]. assert (is_Some (lock_thread (srv s) !! l)) as [t' Ht] by (apply Hp; eauto).
  destruct (proj1 (is_holder_spec _ _ _ _ _ _ Hc Ht) Eh) as [Ec Et]. subst c' t'. split.
  - intros c2 t2 l2. cbn. intros [Hg Hne]%elem_of_difference. destruct (Ha _ _ _ Hg) as [E1 E2].
    assert (l2 ≠ l) by (intros ->; set_solver). by rewrite !lookup_delete_ne by done.
  - intros l2. cbn. rewrite !lookup_delete. case_decide; [by intros [? ?]|apply Hp].
Qed.

Lemma step_inv s s' : agrees s → paired s → step s s' → agrees s' ∧ paired s'.
Proof.
  intros Ha Hp. destruct 1; try done; try (by eapply release_inv).
  - by apply acquire_inv.
  - by apply loop_inv.
Qed.

(** The lock server without caching grants a lock to one thread of one client at a
    time: of two calls of [acquire] for a lock that returned and were not followed by the
    release, both are of the same thread of the same client, with blocked callers woken in
    any order. *)
Theorem plain_exclusion s c1 t1 c2 t2 l :
  rtc step new_sys s → (c1, t1, l) ∈ granted s → (c2, t2, l) ∈ granted s → c1 = c2 ∧ t1 = t2.
Proof.
  intros Hr. assert (agrees s ∧ paired s) as [Ha _].
  { assert (agrees new_sys ∧ paired new_sys) as H0 by (split; [intros ??? Hg; set_solver|intros l' [? ?]; done]).
    revert H0. induction Hr as [|a b c' Hab _ IH]; [done|]. intros [A B]. apply IH. by eapply step_inv. }
  intros H1 H2. destruct (Ha _ _ _ H1), (Ha _ _ _ H2). split; congruence.
Qed.

Lemma plain_exclusion_witness :
  let p := (SInt 3, 7, Ull 9) in
  let s1 := caller (acquire (SInt 3) 7 (Ull 9) (srv new_sys)) p new_sys in
  p ∈ granted s1 ∧ SInt 3 = SInt 3 ∧ 7 = 7.
Proof.
  intros p s1. assert (p ∈ granted s1) as Hp by (vm_compute; reflexivity). split; [exact Hp|].
  apply (plain_exclusion s1 (SInt 3) 7 (SInt 3) 7 (Ull 9)); [|exact Hp|exact Hp].
  apply rtc_once. apply step_acquire; vm_compute; discriminate.
Defined.

(** Two locks are held and each has a caller waiting.  The release of lock 9 wakes the
    caller that waits for lock 10, which goes back to waiting: lock 9 is free, its caller
    sleeps, and nobody is woken. *)
Example wake_up_lost :
  ∃ s, rtc step new_sys s ∧ lock_client (srv s) !! Ull 9 = None ∧ (SInt 4, 8, Ull 9) ∈ waiting s ∧ woken s = ∅.
Proof.
  eexists. split.
  - eapply rtc_l; [apply (step_acquire (SInt 3) 7 (Ull 9)); vm_compute; discriminate|].
    eapply rtc_l; [apply (step_acquire (SInt 3) 6 (Ull 10)); vm_compute; discriminate|].
    eapply rtc_l; [apply (step_acquire (SInt 4) 8 (Ull 9)); vm_compute; discriminate|].
    eapply rtc_l; [apply (step_acquire (SInt 4) 5 (Ull 10)); vm_compute; discriminate|].
    eapply rtc_l; [eapply (step_release_signal (SInt 3) 7 (Ull 9) _ _ (SInt 4, 5, Ull 10)); vm_compute; reflexivity|].
    eapply rtc_l; [apply (step_resume (SInt 4) 5 (Ull 10)); vm_compute; reflexivity|].
    apply rtc_refl.
  - vm_compute. repeat split.
Qed.
End lock_server.
