(* ===== verification/FileSystem.v ===== *)
(** * Files under the caching locks

    The lock server and the lock clients of LockSystem.v together with the extent server and the
    extent clients of ExtentClient.v, as yfs_client.cc puts them together: a thread works on
    a file while it holds the lock with the number of the file, and the releaser of the
    lock client calls [lock_release_u::dorelease], which flushes the file, before it gives
    the lock back to the server. *)

From S2P Require Import Prelude.
From S2P Require Import Marshall.
From S2P Require Import Protocol.
From S2P Require Import ExtentServer.
From S2P Require Import ExtentClient.
From S2P Require Import LockServerCache.
From S2P Require Import LockClientCache.
From S2P Require Import LockSystem.

Import file_cache.

(** [flushed]: the releaser of the client is behind [dorelease]. *)
Record fsys := FSys {
  locks : sys;
  caches : gmap sint extent_client.t;
  extents : extent_server.t;
  flushed : gset sint;
}.

Definition cache (c : sint) (x : fsys) : extent_client.t := map_at extent_client.new_extent_client c (caches x).

Inductive fs_label :=
  | FLock (l : sys_label)
  | FDorelease (c : sint) (now : Z)
  | FFile (c : sint) (t : Z) (now junk : Z) (o : fop)
  | FCreate (c : sint) (t : Z) (now : Z) (rnd : list Z) (parent : Z) (name : cstring) (mode : Z).

(** [lock_release_u::dorelease] *)
Definition dorelease (now : Z) (lid : ull) (c : extent_client.t) (s : extent_server.t)
    : option (extent_client.t * extent_server.t) :=
  extent_client.flush now (ull_val lid) c s.

(** The result of a file operation, and the new state.  A thread uses a file when it is
    outside [acquire] and [release] and holds the lock. *)
Definition fs_step (l : fs_label) (x : fsys) : option (fres * fsys) :=
  match l with
  | FLock (SReturn c) =>
      if bool_decide (c ∈ flushed x) then
        s ← sys_step (SReturn c) (locks x); Some (Done, FSys s (caches x) (extents x) (flushed x ∖ {[c]}))
      else None
  | FLock l => s ← sys_step l (locks x); Some (Done, FSys s (caches x) (extents x) (flushed x))
  | FDorelease c now =>
      match rel (locks x) !! c with
      | Some (lid, _) =>
          if bool_decide (c ∈ flushed x) then None else
          '(k, e) ← dorelease now lid (cache c x) (extents x);
          Some (Done, FSys (locks x) (<[c := k]> (caches x)) e ({[c]} ∪ flushed x))
      | None => None
      end
  | FFile c t now junk o =>
      if bool_decide ((c, t, Ull (fop_id o)) ∈ held (locks x)) then
        '(r, k, e) ← do_op now junk o (cache c x) (extents x);
        Some (r, FSys (locks x) (<[c := k]> (caches x)) e (flushed x))
      else None
  | FCreate c t now rnd parent name mode =>
      if bool_decide ((c, t, Ull parent) ∈ held (locks x)) then
        '(_, k, e) ← extent_client.createFile now rnd parent name mode (cache c x) (extents x);
        Some (Done, FSys (locks x) (<[c := k]> (caches x)) e (flushed x))
      else None
  end.

(** ** What steps of the locks change *)

Lemma goes_on_rel c t lid n s : rel (goes_on c t lid n s) = rel s.
Proof. by destruct n. Qed.

Lemma signal_rel c sg s : rel (signal c sg s) = rel s ∧ srv (signal c sg s) = srv s.
Proof. by destruct sg. Qed.

(** The releasers change in two steps only. *)
Lemma sys_step_rel l s s' c :
  sys_step l s = Some s' → rel s' !! c = rel s !! c ∨ (l = STake c ∧ rel s !! c = None) ∨ l = SReturn c.
Proof.
  intros H. destruct l as [d t lid cond|d t|d t|d t|d t fresh|d t lid|d lid q|d lid|d|d|o]; cbn [sys_step] in H.
  - apply bind_Some in H as (_ & _ & H). destruct (thr s !! (d, t)); [done|].
    apply bind_Some in H as ([n x] & _ & H). injection H as <-. left. by rewrite goes_on_rel.
  - destruct (thr s !! (d, t)) as [[]|]; simplify_eq. by left.
  - destruct (thr s !! (d, t)) as [[]|]; simplify_eq. apply bind_Some in H as ([n x] & _ & H). injection H as <-. by left.
  - apply bind_Some in H as (_ & _ & H). destruct (thr s !! (d, t)) as [[]|]; simplify_eq.
    apply bind_Some in H as ([n x] & _ & H). injection H as <-. left. by rewrite goes_on_rel.
  - apply bind_Some in H as (_ & _ & H). destruct (thr s !! (d, t)) as [[]|]; simplify_eq; case_bool_decide; simplify_eq.
    + left. destruct (acquire_retried _ _ _) as [n x]. simplify_eq. by rewrite goes_on_rel.
    + apply bind_Some in H as ([n x] & _ & H). injection H as <-. left. by rewrite goes_on_rel.
  - apply bind_Some in H as (_ & _ & H). destruct (thr s !! (d, t)); [done|].
    apply bind_Some in H as ([[r sg] x] & _ & H). injection H as <-. left. by rewrite (proj1 (signal_rel _ _ _)).
  - apply bind_Some in H as (_ & _ & H). apply bind_Some in H as ([] & _ & H); simplify_eq. by left.
  - apply bind_Some in H as (_ & _ & H). apply bind_Some in H as ([sg x] & _ & H). injection H as <-.
    left. by rewrite (proj1 (signal_rel _ _ _)).
  - apply bind_Some in H as (_ & _ & H). destruct (rel s !! d) eqn:E; [done|].
    apply bind_Some in H as ([[p|] x] & _ & H); simplify_eq. destruct (decide (d = c)) as [->|Hne]; [right; by left|].
    left. cbn. by rewrite lookup_partial_alter_ne.
  - destruct (rel s !! d) as [[lid z]|]; [|done]. apply bind_Some in H as ([ret y] & _ & H).
    destruct (ret =? 0); simplify_eq. destruct (decide (d = c)) as [->|Hne]; [right; by right|].
    left. cbn. by rewrite lookup_partial_alter_ne.
  - left. destruct o; try done; apply bind_Some in H as ([x y] & _ & H); by simplify_eq.
Qed.

(** A client that has a lock at the server keeps it until its releaser returns it. *)
Lemma sys_step_holder l s s' lid c :
  sys_inv s → label_ok l → sys_step l s = Some s' → holder (srv s) lid = Some c →
  holder (srv s') lid = Some c ∨ (l = SReturn c ∧ ∃ y, rel s !! c = Some (lid, y)).
Proof.
  intros [[sent V] X] Hok H Hc.
  destruct l as [d t lid' cond|d t|d t|d t|d t fresh|d t lid'|d lid' q|d lid'|d|d|o]; cbn [sys_step label_ok] in *.
  - apply bind_Some in H as (_ & _ & H). destruct (thr s !! (d, t)); [done|].
    apply bind_Some in H as ([n x] & _ & H). injection H as <-. left. by rewrite goes_on_srv.
  - destruct (thr s !! (d, t)) as [[]|]; simplify_eq. by left.
  - destruct (thr s !! (d, t)) as [[| lid' cond q| | |]|] eqn:E; simplify_eq.
    apply bind_Some in H as ([ret y] & Ha & H). injection H as <-. left. cbn.
    destruct (acquire_refines sent d lid' q _ _ _ V (proj2 Hok) Ha) as (_ & _ & Hho). rewrite Hho.
    unfold spec_acquire. destruct (holder (srv s) lid') eqn:E'; [done|]. cbn. case_decide; [congruence|done].
  - apply bind_Some in H as (_ & _ & H). destruct (thr s !! (d, t)) as [[]|]; simplify_eq.
    apply bind_Some in H as ([n x] & _ & H). injection H as <-. left. by rewrite goes_on_srv.
  - apply bind_Some in H as (_ & _ & H). destruct (thr s !! (d, t)) as [[]|]; simplify_eq; case_bool_decide; simplify_eq.
    + left. destruct (acquire_retried _ _ _) as [n x]. simplify_eq. by rewrite goes_on_srv.
    + apply bind_Some in H as ([n x] & _ & H). injection H as <-. left. by rewrite goes_on_srv.
  - apply bind_Some in H as (_ & _ & H). destruct (thr s !! (d, t)); [done|].
    apply bind_Some in H as ([[r sg] x] & _ & H). injection H as <-. left. by rewrite (proj2 (signal_rel _ _ _)).
  - apply bind_Some in H as (_ & _ & H). apply bind_Some in H as ([] & _ & H); simplify_eq. by left.
  - apply bind_Some in H as (_ & _ & H). apply bind_Some in H as ([sg x] & _ & H). injection H as <-.
    left. by rewrite (proj2 (signal_rel _ _ _)).
  - apply bind_Some in H as (_ & _ & H). destruct (rel s !! d) eqn:E; [done|].
    apply bind_Some in H as ([[p|] x] & _ & H); simplify_eq. by left.
  - destruct (rel s !! d) as [[lid' z]|] eqn:E; [|done]. apply bind_Some in H as ([ret y] & Ha & H).
    destruct (Z.eqb_spec ret 0) as [->|]; simplify_eq. cbn.
    destruct (release_refines sent d lid' z _ _ _ V Hok Ha) as (_ & _ & Hho). rewrite Hho.
    destruct (x_rel _ _ _ _ _ X d lid' z E) as (Hd & _). unfold spec_release. rewrite decide_True by done.
    cbn [snd]. case_decide; [subst lid'|by left]. right. rewrite Hd in Hc. injection Hc as ->. split; [done|by exists z].
  - left. assert (∃ x y, lstep o (srv s) = Some (x, y) ∧ s' = set_srv y s ∧ op_ok o ∧
              (∀ h h', spec_step o x h h' → ∀ l, h' l = h l)) as (x & y & Hs & -> & Ho & Hsame).
    { destruct o; try done; apply bind_Some in H as ([x y] & Hs & H); injection H as <-; by exists x, y. }
    destruct (lstep_refines _ _ _ _ _ V Ho Hs) as [V' Hsp]. cbn. by rewrite (Hsame _ _ Hsp).
Qed.

(** ** Coherence *)

(** Only the client that has the lock at the server caches a file; behind [dorelease] it
    does not cache it any more; and a client without competing caches sees the files [m]. *)
Record coherent (x : fsys) (m : gmap Z cstring) : Prop := Coherent {
  k_sys : sys_inv (locks x);
  k_owner c id : is_Some (extent_client.cache_status (cache c x) !! id) → holder (srv (locks x)) (Ull id) = Some c;
  k_flushed c : c ∈ flushed x → ∃ lid y, rel (locks x) !! c = Some (lid, y) ∧
    extent_client.cache_status (cache c x) !! ull_val lid = None;
  k_files c id : (∀ d, d ≠ c → extent_client.cache_status (cache d x) !! id = None) →
    holds (cache c x) (extents x) id (m !! id);
}.

Lemma cache_insert c k d x fl e s :
  cache d (FSys s (<[c := k]> (caches x)) e fl) = if decide (d = c) then k else cache d x.
Proof. unfold cache. cbn. rewrite map_at_insert. by repeat case_decide; subst. Qed.

(** The lock number of a file names it. *)
Lemma holder_others x m c id :
  coherent x m → holder (srv (locks x)) (Ull id) = Some c →
  ∀ d, d ≠ c → extent_client.cache_status (cache d x) !! id = None.
Proof.
  intros K Hc d Hd. apply eq_None_not_Some. intros Hs. pose proof (k_owner _ _ K d id Hs). congruence.
Qed.

Lemma only_server id c c' d s s' : only id c c' s s' → only id d d s s'.
Proof. intros Ho j Hj. split; [done|]. by apply Ho. Qed.

(** The client [c] that has the lock of [id] changes this file, in its cache and at the
    server. *)
Lemma coherent_change x m c id k e v fl :
  coherent x m → holder (srv (locks x)) (Ull id) = Some c →
  only id (cache c x) k (extents x) e → holds k e id (Some v) →
  (∀ d, d ∈ fl → (d ∈ flushed x ∧ (d = c → ∃ lid y, rel (locks x) !! c = Some (lid, y) ∧ ull_val lid ≠ id)) ∨
     (d = c ∧ ∃ y, rel (locks x) !! c = Some (Ull id, y) ∧ extent_client.cache_status k !! id = None)) →
  coherent (FSys (locks x) (<[c := k]> (caches x)) e fl) (<[id := v]> m).
Proof.
  intros K Hc Ho Hv Hfl. pose proof (holder_others x m c id K Hc) as Hoth. split; cbn [locks caches extents flushed].
  - apply K.
  - intros d j. rewrite cache_insert. case_decide; [subst d|apply K].
    destruct (decide (j = id)) as [->|Hj]; [done|]. destruct (Ho j Hj) as ((E & _) & _). rewrite E. apply K.
  - intros d Hd. rewrite cache_insert. destruct (Hfl d Hd) as [[Hd' Hne]|(-> & y & Hr & Hn)].
    + destruct (k_flushed _ _ K d Hd') as (lid & y & Hr & Hn). exists lid, y. split; [done|].
      case_decide; [subst d|done]. destruct (Hne eq_refl) as (lid' & y' & Hr' & Hl). simplify_eq.
      destruct (Ho _ Hl) as ((E & _) & _). by rewrite E.
    + exists (Ull id), y. split; [done|]. by rewrite decide_True.
  - intros d j Hd. destruct (decide (j = id)) as [->|Hj].
    + rewrite lookup_insert_eq, cache_insert. case_decide; [done|]. unfold holds in *.
      rewrite (Hoth d) by done. specialize (Hd c ltac:(done)). rewrite cache_insert, decide_True in Hd by done.
      by rewrite Hd in Hv.
    + rewrite lookup_insert_ne, cache_insert by done. destruct (Ho j Hj) as ((E & _) & _).
      assert (holds (cache d x) (extents x) j (m !! j)) as Hh.
      { apply K. intros d' Hd'. specialize (Hd d' Hd'). rewrite cache_insert in Hd.
        case_decide; [subst d'; by rewrite <- E|done]. }
      case_decide; [subst d; by eapply holds_only|]. eapply holds_only; [by eapply only_server|done|done].
Qed.

(** A held lock is the client's at the server, and its releaser does not have it. *)
Lemma held_owner s c t lid :
  sys_inv s → (c, t, lid) ∈ held s → holder (srv s) lid = Some c ∧ ∀ y, rel s !! c ≠ Some (lid, y).
Proof.
  intros [_ X] Hh. pose proof (x_held _ _ _ _ _ X c t lid Hh) as E.
  assert (owned (fst (vw_of s c lid))) as Ho by (rewrite E; right; by left). split; [by apply (x_status _ _ _ _ _ X)|].
  intros y Hy. by destruct (x_rel _ _ _ _ _ X c lid y Hy) as (_ & Hn & _).
Qed.

(** Steps of the locks. *)
Lemma coherent_lock x m l s' fl :
  coherent x m → label_ok l → sys_step l (locks x) = Some s' →
  (∀ c, l = SReturn c → c ∈ flushed x) → (∀ c, c ∈ fl → c ∈ flushed x ∧ l ≠ SReturn c) →
  coherent (FSys s' (caches x) (extents x) fl) m.
Proof.
  intros K Hok H Hret Hfl. pose proof (k_sys _ _ K) as Hi. split; cbn [locks].
  - by eapply sys_step_inv.
  - intros c id Hs. destruct (sys_step_holder l _ s' (Ull id) c Hi Hok H (k_owner _ _ K c id Hs)) as [|[-> [y Hr]]]; [done|].
    destruct (k_flushed _ _ K c (Hret c eq_refl)) as (lid & y' & Hr' & Hn). simplify_eq. cbn in Hn.
    change (cache c _) with (cache c x) in Hs. destruct Hs as [st Hs]. congruence.
  - intros c Hc. destruct (Hfl c Hc) as [Hc' Hne]. destruct (k_flushed _ _ K c Hc') as (lid & y & Hr & Hn).
    exists lid, y. split; [|done]. destruct (sys_step_rel l _ s' c H) as [E|[[-> E]|E]]; congruence.
  - apply K.
Qed.

Lemma fs_lock_coherent x m l r x' :
  coherent x m → label_ok l → fs_step (FLock l) x = Some (r, x') → coherent x' m.
Proof.
  intros K Hok H.
  assert ((∃ c, l = SReturn c) ∨ ∀ c, l ≠ SReturn c) as [[c ->]|Hnr] by (destruct l; eauto).
  - cbn [fs_step] in H. case_bool_decide; [|done]. apply bind_Some in H as (s' & H & [= <- <-]).
    eapply coherent_lock; [done|done|done|congruence|]. intros d Hd. split; [set_solver|].
    intros [= ->]. set_solver.
  - assert (∃ s', sys_step l (locks x) = Some s' ∧ x' = FSys s' (caches x) (extents x) (flushed x)) as (s' & Hs & ->).
    { destruct l; try (by destruct (Hnr c)); apply bind_Some in H as (s' & H & [= <- <-]); eauto. }
    eapply coherent_lock; [done|done|done|by intros c ->; destruct (Hnr c)|done].
Qed.

(** [dorelease] does not fail. *)
Lemma fs_dorelease_coherent x m c now lid y :
  coherent x m → rel (locks x) !! c = Some (lid, y) → c ∉ flushed x →
  ∃ x', fs_step (FDorelease c now) x = Some (Done, x') ∧ coherent x' m.
Proof.
  intros K Hr Hnf. cbn [fs_step]. rewrite Hr, bool_decide_false by done. destruct lid as [id].
  destruct (k_sys _ _ K) as [_ X]. destruct (x_rel _ _ _ _ _ X c (Ull id) y Hr) as (Hho & _).
  pose proof (k_files _ _ K c id (holder_others _ _ _ _ K Hho)) as Hh. unfold dorelease. cbn [ull_val].
  destruct (m !! id) as [v|] eqn:Em.
  - destruct (flush_effect now 0 id v _ _ Hh) as (k & e & E & Ho & Hv). cbn [do_op] in E.
    apply bind_Some in E as ([k' e'] & E & [= <- <-]). rewrite E. cbn. eexists. split; [done|].
    assert (extent_client.cache_status k' !! id = None) as Hn.
    { unfold extent_client.flush in E. destruct (negb _) eqn:En.
      - injection E as <- <-. apply negb_true_iff in En. by apply map_count_false.
      - apply bind_Some in E as (s2 & _ & [= <- <-]). apply evicted. }
    replace m with (<[id := v]> m) by by apply insert_id.
    apply (coherent_change x m c id k' e' v); [done..|]. intros d [->%elem_of_singleton|Hd]%elem_of_union.
    + right. split; [done|]. by exists y.
    + left. split; [done|]. by intros ->.
  - pose proof (absent_uncached _ _ _ Hh) as Hn.
    rewrite (flush_absent now id _ _ Hn). cbn. eexists. split; [done|].
    assert (∀ d fl, cache d (FSys (locks x) (<[c := cache c x]> (caches x)) (extents x) fl) = cache d x) as Ec
      by (intros; rewrite cache_insert; case_decide; by subst).
    split; cbn [locks extents flushed].
    + apply K.
    + intros d j. rewrite Ec. apply K.
    + intros d [->%elem_of_singleton|Hd]%elem_of_union; rewrite Ec; [|by apply K]. by exists (Ull id), y.
    + intros d j Hd. rewrite Ec. apply K. intros d' Hd'. rewrite <- (Ec d' ({[c]} ∪ flushed x)). by apply Hd.
Qed.

(** An operation of a thread that holds the lock. *)
Lemma fs_file_coherent x m c t now junk o :
  coherent x m → (c, t, Ull (fop_id o)) ∈ held (locks x) → fop_ok o m →
  (∀ id, o = FFlush id → is_Some (m !! id)) →
  ∃ x', fs_step (FFile c t now junk o) x = Some (fst (spec_op o m), x') ∧ coherent x' (snd (spec_op o m)).
Proof.
  intros K Hh Hok Hfl. cbn [fs_step]. rewrite bool_decide_true by done.
  destruct (held_owner _ c t _ (k_sys _ _ K) Hh) as [Hho Hnr].
  pose proof (k_files _ _ K c _ (holder_others _ _ _ _ K Hho)) as Hv.
  destruct (op_effect now junk o (cache c x) (extents x) m Hv Hok Hfl) as (v & (k & e & E & Ho & Hk) & Hm).
  rewrite E. cbn. eexists. split; [done|]. rewrite Hm.
  apply (coherent_change x m c (fop_id o) k e v); [done..|]. intros d Hd. left. split; [done|]. intros ->.
  destruct (k_flushed _ _ K c Hd) as ([lid] & y & Hr & _). exists (Ull lid), y. split; [done|]. cbn.
  intros ->. by apply (Hnr y).
Qed.

(** ** Runs *)

(** The files of a server that is started with. *)
Definition known_files (s : extent_server.t) : Prop :=
  ∀ id x, extent_server.fileid_content_m s !! id = Some x → at_server s id (Some x).

(** Threads do not flush. *)
Definition thread_op (o : fop) : Prop := match o with FFlush _ => False | _ => True end.

(** [fs_runs x m]: the system can get to [x], where a single store would have the files
    [m]. *)
Inductive fs_runs : fsys → gmap Z cstring → Prop :=
  | fs_start s : known_files s → fs_runs (FSys new_sys ∅ s ∅) (extent_server.fileid_content_m s)
  | fs_lock x m l r x' : fs_runs x m → label_ok l → fs_step (FLock l) x = Some (r, x') → fs_runs x' m
  | fs_dorelease x m c now r x' : fs_runs x m → fs_step (FDorelease c now) x = Some (r, x') → fs_runs x' m
  | fs_file x m c t now junk o r x' :
      fs_runs x m → thread_op o → fop_ok o m → fs_step (FFile c t now junk o) x = Some (r, x') →
      fs_runs x' (snd (spec_op o m)).

Lemma coherent_start s : known_files s → coherent (FSys new_sys ∅ s ∅) (extent_server.fileid_content_m s).
Proof.
  intros Hs. split; cbn [locks flushed extents].
  - apply new_sys_inv.
  - intros c id [st Hc]. done.
  - intros c Hc. set_solver.
  - intros c id _. by apply (represents_start s).
Qed.

Lemma fs_runs_coherent x m : fs_runs x m → coherent x m.
Proof.
  induction 1 as [s Hs|x m l r x' _ IH Hl H|x m c now r x' _ IH H|x m c t now junk o r x' _ IH Ht Hok H].
  - by apply coherent_start.
  - by eapply fs_lock_coherent.
  - cbn [fs_step] in H. destruct (rel (locks x) !! c) as [[lid y]|] eqn:E; [|done]. case_bool_decide; [done|].
    destruct (fs_dorelease_coherent x m c now lid y IH E) as (x2 & E2 & K2); [done|].
    cbn [fs_step] in E2. rewrite E, bool_decide_false in E2 by done. rewrite E2 in H. by simplify_eq.
  - destruct (decide ((c, t, Ull (fop_id o)) ∈ held (locks x))) as [Hh|Hn];
      [|cbn [fs_step] in H; by rewrite bool_decide_false in H].
    destruct (fs_file_coherent x m c t now junk o IH Hh Hok) as (x2 & E2 & K2); [by intros id ->|].
    rewrite E2 in H. by simplify_eq.
Qed.

(** C3. Files are coherent across clients.  In every run of any number of clients, with
    their locks cached, revoked and handed over in every interleaving, and their files cached
    and written back when a lock is given up: a thread that holds the lock of an existing
    file and reads or writes it, asks for its size or sets its mode or its times gets exactly the
    result that a single store of files gives for the operations so far, whichever clients
    made them, and no assertion fails; nor does the write-back of the releaser. *)
Theorem files_coherent x m :
  fs_runs x m →
  (∀ c t now junk o, (c, t, Ull (fop_id o)) ∈ held (locks x) → thread_op o → fop_ok o m →
     ∃ x', fs_step (FFile c t now junk o) x = Some (fst (spec_op o m), x') ∧ fs_runs x' (snd (spec_op o m))) ∧
  (∀ c now lid y, rel (locks x) !! c = Some (lid, y) → c ∉ flushed x →
     ∃ x', fs_step (FDorelease c now) x = Some (Done, x') ∧ fs_runs x' m).
Proof.
  intros Hr. pose proof (fs_runs_coherent x m Hr) as K. split.
  - intros c t now junk o Hh Ht Hok.
    destruct (fs_file_coherent x m c t now junk o K Hh Hok) as (x' & E & _); [by intros id ->|].
    exists x'. split; [done|]. by eapply fs_file.
  - intros c now lid y Hy Hn. destruct (fs_dorelease_coherent x m c now lid y K Hy Hn) as (x' & E & _).
    exists x'. split; [done|]. by eapply fs_dorelease.
Qed.

Fixpoint fs_exec (ls : list fs_label) (x : fsys) : option (list fres * fsys) :=
  match ls with
  | [] => Some ([], x)
  | l :: ls => '(r, x) ← fs_step l x; '(rs, x) ← fs_exec ls x; Some (r :: rs, x)
  end.

(** A thread gets a lock nobody has. *)
Definition get_lock (c : sint) (t : Z) (id : Z) : list fs_label :=
  map FLock [SAcquire c t (Ull id) 1; SSend c t; SServe c t; SReply c t].

Definition subscribed : list fs_label :=
  map FLock [SServer (OSubscribe (λ _, true) (SInt 3) ($"a")); SServer (OSubscribe (λ _, true) (SInt 4) ($"b"))].

(** The lock goes from a client to a thread of another that waits for it. *)
Definition hand_over (c : sint) (t : Z) (d : sint) (t' : Z) (id : Z) (q : Z) : list fs_label :=
  get_lock d t' id ++ map FLock [SServer ORevoker; SRevoke c (Ull id) (Ull q); SRelease c t (Ull id); STake c] ++
  [FDorelease c 50] ++
  map FLock [SReturn c; SServer ORetryer; SRetry d (Ull id); SWake d t' 2; SSend d t'; SServe d t'; SReply d t'].

(** Client 3 reads the file, writes to it in its cache, client 4 gets the lock. *)
Definition demo_files : list fs_label :=
  subscribed ++ get_lock (SInt 3) 7 9 ++
  [FFile (SInt 3) 7 40 0 (FRead 9 0 3); FFile (SInt 3) 7 41 0 (FWrite 9 1 ($"xyz"))] ++
  hand_over (SInt 3) 7 (SInt 4) 8 9 2.

Definition demo_fs : fsys := FSys new_sys ∅ (one_file 9 ($"abc")) ∅.

(** The steps of a run are in order, and the files it leaves. *)
Fixpoint run_ok (ls : list fs_label) (m : gmap Z cstring) : Prop :=
  match ls with
  | [] => True
  | FLock l :: ls => label_ok l ∧ run_ok ls m
  | FDorelease _ _ :: ls => run_ok ls m
  | FFile _ _ _ _ o :: ls => (thread_op o ∧ fop_ok o m) ∧ run_ok ls (snd (spec_op o m))
  | FCreate _ _ _ _ _ _ _ :: _ => False
  end.

Fixpoint run_files (ls : list fs_label) (m : gmap Z cstring) : gmap Z cstring :=
  match ls with
  | [] => m
  | FFile _ _ _ _ o :: ls => run_files ls (snd (spec_op o m))
  | _ :: ls => run_files ls m
  end.

Lemma fs_exec_runs ls x m rs x' :
  fs_runs x m → run_ok ls m → fs_exec ls x = Some (rs, x') → fs_runs x' (run_files ls m).
Proof.
  revert x m rs. induction ls as [|l ls IH]; intros x m rs Hr Hok H; cbn [fs_exec] in H; [by simplify_eq|].
  apply bind_Some in H as ([r x1] & H1 & H2). apply bind_Some in H2 as ([rs' x2] & H2 & H3). simplify_eq.
  destruct l; cbn [run_ok run_files] in *.
  - destruct Hok as [Hl Hok]. eapply IH; [by eapply fs_lock|done|done].
  - eapply IH; [by eapply fs_dorelease|done|done].
  - destruct Hok as [[Ht Ho] Hok]. eapply IH; [by eapply fs_file|done|done].
  - done.
Qed.

Lemma demo_fs_runs : fs_runs demo_fs {[9 := $"abc"]}.
Proof.
  apply (fs_start (one_file 9 ($"abc"))). intros id x Hx.
  apply (lookup_singleton_Some (M := gmap Z) 9 id ($"abc") x) in Hx as [<- <-].
  apply at_one_file. vm_compute. discriminate.
Qed.

(** Client 4 reads what client 3 wrote. *)
Lemma files_coherent_witness :
  ∃ rs x x', fs_exec demo_files demo_fs = Some (rs, x) ∧
    fs_step (FFile (SInt 4) 8 60 0 (FRead 9 0 100)) x = Some (Data ($"axyz"), x').
Proof.
  destruct (fs_exec demo_files demo_fs) as [[rs x]|] eqn:E; [|vm_compute in E; discriminate E].
  assert (bool_decide ((SInt 4, 8, Ull 9) ∈ held (locks x)) = true) as Hh
    by (vm_compute in E; injection E as <- <-; vm_compute; reflexivity).
  apply bool_decide_eq_true in Hh.
  assert (run_ok demo_files {[9 := $"abc"]}) as Hok.
  { clear E Hh. vm_compute. repeat split; try discriminate; eexists; reflexivity. }
  destruct (files_coherent x (run_files demo_files {[9 := $"abc"]})) as [Hf _].
  { apply (fs_exec_runs _ _ _ _ _ demo_fs_runs Hok E). }
  destruct (Hf (SInt 4) 8 60 0 (FRead 9 0 100) Hh I) as (x' & Hx' & _).
  { clear. vm_compute. repeat split; try discriminate. eexists; reflexivity. }
  exists rs, x, x'. split; [reflexivity|]. rewrite Hx'. vm_compute. reflexivity.
Defined.

(** A created file is put into the cache of the creating client without its lock.
    Another client then gets the lock, which is free, and writes to the file; the first one
    gets the lock and still reads the empty file from its cache, although the server has
    the new content. *)
Theorem created_file_stale :
  let id := extent_server.file_id 5 in
  let ls := subscribed ++ get_lock (SInt 3) 7 1 ++ [FCreate (SInt 3) 7 40 [5] 1 ($"f") 420] ++
    get_lock (SInt 4) 8 id ++ [FFile (SInt 4) 8 41 0 (FWrite id 0 ($"hello"))] ++
    hand_over (SInt 4) 8 (SInt 3) 6 id 2 in
  match fs_exec ls (FSys new_sys ∅ (extent_server.new_extent_server 0) ∅) with
  | Some (_, x) =>
      extent_server.fileid_content_m (extents x) !! id = Some ($"hello") ∧
      (SInt 3, 6, Ull id) ∈ held (locks x) ∧
      fst <$> fs_step (FFile (SInt 3) 6 60 0 (FRead id 0 100)) x = Some (Data [])
  | None => False
  end.
Proof. vm_compute. repeat split. Qed.
