(* ===== verification/YfsClient.v ===== *)
(** * The file system client

    yfs_client.cc: the operations of the file system in terms of the lock client and the
    extent client.  An operation is a program [yprog]: it stops at every call of the lock
    client, of the extent client and of [time].  Programs are run against the extent client
    of ExtentClient.v ([run]), and the locks a program holds at each of its calls are read off
    it ([obeys]). *)

From S2P Require Import Prelude.
From S2P Require Import Marshall.
From S2P Require Import Protocol.
From S2P Require Import Streams.
From S2P Require Import ExtentServer.
From S2P Require Import ExtentClient.

(** ** Programs *)

(** The methods of extent_client with their results. *)
Inductive ecall : Type → Type :=
  | EGetAttr (id : Z) : ecall (Z * attr)
  | ESetAttr (id : Z) (a : attr) : ecall Z
  | EReaddir (di : Z) : ecall (Z * gmap cstring Z)
  | ECreateFile (parent : Z) (name : cstring) (mode : Z) : ecall Z
  | ECreateDir (parent : Z) (name : cstring) : ecall Z
  | ERead (id off size : Z) (buf : cstring) : ecall (Z * cstring)
  | EWrite (id off size : Z) (buf : cstring) : ecall Z
  | ERemove (id : Z) (name : cstring) : ecall Z
  | EOpen (id : Z) : ecall Z.

Inductive yprog (A : Type) : Type :=
  | Ret (a : A)
  | Acquire (id : Z) (k : Z → yprog A)
  | Release (id : Z) (k : Z → yprog A)
  | Time (k : Z → yprog A)
  | Ext {B : Type} (c : ecall B) (k : B → yprog A).

Arguments Ret {_} _.
Arguments Acquire {_} _ _.
Arguments Release {_} _ _.
Arguments Time {_} _.
Arguments Ext {_ _} _ _.

Fixpoint ybind {A B} (f : A → yprog B) (p : yprog A) : yprog B :=
  match p with
  | Ret a => f a
  | Acquire id k => Acquire id (λ r, ybind f (k r))
  | Release id k => Release id (λ r, ybind f (k r))
  | Time k => Time (λ r, ybind f (k r))
  | Ext c k => Ext c (λ r, ybind f (k r))
  end.

#[export] Instance yprog_ret : MRet yprog := λ A a, Ret a.
#[export] Instance yprog_bind : MBind yprog := λ A B f p, ybind f p.

Definition acquire (id : Z) : yprog Z := Acquire id Ret.
Definition release (id : Z) : yprog Z := Release id Ret.
Definition time : yprog Z := Time Ret.
Definition ext {B} (c : ecall B) : yprog B := Ext c Ret.

Module yfs_client.

(** ** Data *)

Record fileinfo := FileInfo { f_size : Z; f_atime : Z; f_mtime : Z; f_ctime : Z }.
Record dirinfo := DirInfo { d_atime : Z; d_mtime : Z; d_ctime : Z }.
Record dirent := Dirent { name_ : cstring; inum_ : Z }.

Definition OK : Z := 0.
Definition NOENT : Z := 2.
Definition IOERR : Z := 3.

Definition isfile (inum : Z) : bool := negb (Z.land inum 2147483648 =? 0).
Definition isdir (inum : Z) : bool := negb (isfile inum).

(** The text form of a number, and back; [junk] is the uninitialised variable. *)
Definition n2i (junk : Z) (n : cstring) : Z := fst (read_uint 64 junk (is_open n)).
Definition filename (inum : Z) : cstring := dec64 inum.

Lemma n2i_filename junk inum : is_u64 inum → n2i junk (filename inum) = inum.
Proof. intros Hi. unfold n2i, filename. by rewrite read_uint64_dec. Qed.

(** A name that is no number: 0, unless it is empty. *)
Example n2i_text : n2i 77 ($"readme") = 0 ∧ n2i 77 [] = 77 ∧ n2i 77 ($"-1") = 2 ^ 64 - 1.
Proof. by vm_compute. Qed.

(** ** Operations.  Output arguments are passed in and returned. *)

Definition getfile (inum : Z) (fin : fileinfo) : yprog (Z * fileinfo) :=
  ret ← acquire inum;
  '(ret, fin) ← (if negb (ret =? 0) then mret (ret, fin) else
    '(ret, a) ← ext (EGetAttr inum);
    if negb (ret =? OK) then mret (ret, fin) else
    mret (ret, FileInfo (size_ a) (atime a) (mtime a) (ctime a)));
  _ ← release inum; mret (ret, fin).

Definition getdir (inum : Z) (din : dirinfo) : yprog (Z * dirinfo) :=
  ret ← acquire inum;
  '(ret, din) ← (if negb (ret =? 0) then mret (ret, din) else
    '(ret, a) ← ext (EGetAttr inum);
    if negb (ret =? OK) then mret (ret, din) else
    mret (ret, DirInfo (atime a) (mtime a) (ctime a)));
  _ ← release inum; mret (ret, din).

(** The status is [OK] whatever happens. *)
Definition readdir (id : Z) (entries : list dirent) : yprog (Z * list dirent) :=
  ret ← acquire id;
  if negb (ret =? 0) then mret (OK, entries) else
  '(ret, entries_m) ← ext (EReaddir id);
  let entries := if negb (ret =? OK) then entries
                 else entries ++ ((λ p, Dirent (fst p) (snd p)) <$> map_entries entries_m) in
  _ ← release id; mret (OK, entries).

(** The loop over the listing. *)
Fixpoint find_name (name : cstring) (entries : list dirent) : Z :=
  match entries with
  | [] => 0
  | e :: entries => if bool_decide (name_ e = name) then inum_ e else find_name name entries
  end.

Definition ilookup (parent : Z) (name : cstring) : yprog Z :=
  '(_, entries) ← readdir parent []; mret (find_name name entries).

Definition createFile (parent : Z) (name : cstring) (mode id : Z) : yprog (Z * Z) :=
  ret ← acquire parent;
  if negb (ret =? 0) then mret (ret, id) else
  ret ← ext (ECreateFile parent name mode);
  if negb (ret =? OK) then _ ← release parent; mret (ret, id) else
  _ ← release parent;
  id ← ilookup parent name; mret (ret, id).

Definition setattr (id : Z) (finfo : fileinfo) : yprog Z :=
  let a := Attr 0 0 0 (u32 (f_size finfo)) in
  ret ← acquire id;
  ret ← (if negb (ret =? 0) then mret ret else ext (ESetAttr id a));
  _ ← release id; mret ret.

Definition read (id off size : Z) (buf : cstring) : yprog (Z * cstring) :=
  ret ← acquire id;
  '(ret, buf) ← (if negb (ret =? 0) then mret (ret, buf) else ext (ERead id off size buf));
  _ ← release id; mret (ret, buf).

(** [unlink] of a name that was found. *)
Definition unlink_found (parent : Z) (name : cstring) (id : Z) : yprog Z :=
  ret ← acquire parent; if negb (ret =? 0) then mret ret else
  ret ← acquire id; if negb (ret =? 0) then mret ret else
  ret ← ext (ERemove parent name);
  '(_, a) ← ext (EGetAttr parent);
  t1 ← time; t2 ← time;
  _ ← ext (ESetAttr parent (Attr (u32 t1) (u32 t2) (ctime a) (size_ a)));
  mret ret.

Definition unlink (parent : Z) (name : cstring) : yprog Z :=
  id ← ilookup parent name;
  ret ← (if id =? 0 then mret IOERR else unlink_found parent name id);
  _ ← release parent; _ ← release id; mret ret.

Definition open (id : Z) : yprog Z :=
  ret ← acquire id;
  ret ← (if negb (ret =? 0) then mret ret else ext (EOpen id));
  _ ← release id; mret ret.

Definition createDir (parent : Z) (name : cstring) (mode id : Z) : yprog (Z * Z) :=
  ret ← acquire parent;
  if negb (ret =? 0) then mret (ret, id) else
  ret ← ext (ECreateDir parent name);
  if negb (ret =? OK) then _ ← release parent; mret (ret, id) else
  id ← ilookup parent name;
  _ ← release parent; mret (ret, id).

Definition write (id off size : Z) (buf : cstring) : yprog Z :=
  ret ← acquire id;
  ret ← (if negb (ret =? 0) then mret ret else ext (EWrite id off size buf));
  _ ← release id; mret ret.
End yfs_client.

(** ** Running a program

    One client, nothing else going on: a thread that asks for a lock gets it, again when it
    has it already, and a release gives it back, once (LockSystem.v, where [held] says
    the same of a thread among others). *)

(** The extent server is reached through its interface. *)
Record ystate {Σ : Type} := Yst { y_held : gset Z; y_ec : extent_client.t; y_es : Σ; y_tick : nat }.
Arguments ystate : clear implicits.
Arguments Yst {_} _ _ _ _.

(** What a call finds outside, by the number of the call. *)
Record yenv := Yenv { e_time : nat → Z; e_junk : nat → Z; e_rnd : nat → list Z }.

Definition ecall_run `{ExtentService Σ} (now junk : Z) (rnd : list Z) {B} (c : ecall B) (e : extent_client.t) (s : Σ)
    : option (B * extent_client.t * Σ) :=
  match c with
  | EGetAttr id => '(ret, a, e, s) ← extent_client.getAttr id e s; Some ((ret, a), e, s)
  | ESetAttr id a => extent_client.setAttr now id a e s
  | EReaddir di => '(ret, m, e, s) ← extent_client.readdir di e s; Some ((ret, m), e, s)
  | ECreateFile parent name mode => extent_client.createFile now rnd parent name mode e s
  | ECreateDir parent name => extent_client.createDir now rnd parent name e s
  | ERead id off size buf => '(ret, buf, e, s) ← extent_client.read now id off size junk buf e s; Some ((ret, buf), e, s)
  | EWrite id off size buf => extent_client.write now id off size buf e s
  | ERemove id name => extent_client.remove now id name e s
  | EOpen id => extent_client.open now id e s
  end.

Fixpoint run `{ExtentService Σ} (env : yenv) {A} (p : yprog A) (y : ystate Σ) : option (A * ystate Σ) :=
  match p with
  | Ret a => Some (a, y)
  | Acquire id k => run env (k 0) (Yst ({[id]} ∪ y_held y) (y_ec y) (y_es y) (S (y_tick y)))
  | Release id k => run env (k 0) (Yst (y_held y ∖ {[id]}) (y_ec y) (y_es y) (S (y_tick y)))
  | Time k => run env (k (e_time env (y_tick y))) (Yst (y_held y) (y_ec y) (y_es y) (S (y_tick y)))
  | Ext c k =>
      '(r, e, s) ← ecall_run (e_time env (y_tick y)) (e_junk env (y_tick y)) (e_rnd env (y_tick y)) c (y_ec y) (y_es y);
      run env (k r) (Yst (y_held y) e s (S (y_tick y)))
  end.

(** ** Locks *)

(** The extent a call of the extent client is about. *)
Definition subject {B} (c : ecall B) : Z :=
  match c with
  | EGetAttr id | ESetAttr id _ | EReaddir id | ECreateFile id _ _ | ECreateDir id _
  | ERead id _ _ _ | EWrite id _ _ _ | ERemove id _ | EOpen id => id
  end.

(** With the locks [h] held, whatever the calls answer, [p] calls the extent client only
    for extents whose lock it holds, and holds none at its end. *)
Fixpoint obeys {A} (h : gset Z) (p : yprog A) : Prop :=
  match p with
  | Ret _ => h = ∅
  | Acquire id k => ∀ r, r = 0 → obeys ({[id]} ∪ h) (k r)
  | Release id k => ∀ r, r = 0 → obeys (h ∖ {[id]}) (k r)
  | Time k => ∀ t, obeys h (k t)
  | Ext c k => subject c ∈ h ∧ ∀ r, obeys h (k r)
  end.

Section discipline.
Import yfs_client.

Ltac obey :=
  repeat match goal with
  | r : (_ * _)%type |- _ => destruct r
  | |- obeys _ _ => progress cbn
  | |- obeys _ (ybind _ (if ?b then _ else _)) => destruct b
  | |- obeys _ (if ?b then _ else _) => destruct b
  | |- _ ∧ _ => split
  | |- ∀ _, _ => intros; subst
  end; try set_solver.

Lemma obeys_ilookup {A} h parent name (f : Z → yprog A) :
  (∀ id, obeys (h ∖ {[parent]}) (f id)) → obeys h (ybind f (ilookup parent name)).
Proof.
  intros Hf. cbn. intros r ->. split; [set_solver|]. intros [ret m] r ->. cbn.
  replace (({[parent]} ∪ h) ∖ {[parent]}) with (h ∖ {[parent]}) by set_solver. apply Hf.
Qed.

Lemma getfile_obeys inum fin : obeys ∅ (getfile inum fin).
Proof. obey. Qed.

Lemma getdir_obeys inum din : obeys ∅ (getdir inum din).
Proof. obey. Qed.

Lemma readdir_obeys inum entries : obeys ∅ (readdir inum entries).
Proof. obey. Qed.

Lemma ilookup_obeys parent name : obeys ∅ (ilookup parent name).
Proof. obey. Qed.

Lemma createFile_obeys parent name mode id : obeys ∅ (createFile parent name mode id).
Proof.
  cbn. intros r ->. split; [set_solver|]. intros ret. destruct (ret =? OK); cbn; intros r ->; [|set_solver].
  apply (obeys_ilookup _ parent name). intros. cbn. set_solver.
Qed.

Lemma setattr_obeys inum fin : obeys ∅ (setattr inum fin).
Proof. obey. Qed.

Lemma read_obeys inum off size buf : obeys ∅ (read inum off size buf).
Proof. obey. Qed.

Lemma unlink_obeys parent name : obeys ∅ (unlink parent name).
Proof. apply (obeys_ilookup _ parent name). intros j. destruct (j =? 0); obey. Qed.

Lemma open_obeys inum : obeys ∅ (open inum).
Proof. obey. Qed.

Lemma createDir_obeys parent name mode id : obeys ∅ (createDir parent name mode id).
Proof.
  cbn. intros r ->. split; [set_solver|]. intros ret. destruct (ret =? OK); cbn [negb]; [|obey].
  apply (obeys_ilookup _ parent name). intros. obey.
Qed.

Lemma write_obeys inum off size buf : obeys ∅ (write inum off size buf).
Proof. obey. Qed.

(** A program that gives its locks back can be continued. *)
Lemma obeys_bind {A B} (h : gset Z) (f : A → yprog B) (p : yprog A) :
  obeys h p → (∀ a, obeys ∅ (f a)) → obeys h (ybind f p).
Proof.
  intros Hp Hf. revert h Hp. induction p as [a|id k IH|id k IH|k IH|C c k IH]; intros h; cbn.
  - intros ->. apply Hf.
  - intros Hk r Hr. apply IH. by apply Hk.
  - intros Hk r Hr. apply IH. by apply Hk.
  - intros Hk r. apply IH, Hk.
  - intros [Hs Hk]. split; [done|]. intros r. apply IH, Hk.
Qed.

End discipline.

(** ** Names *)

Section names.
Import yfs_client.
Implicit Types y : ystate extent_server.t.

Lemma run_bind {A B} env (f : A → yprog B) p y :
  run env (ybind f p) y = '(a, y) ← run env p y; run env (f a) y.
Proof.
  revert y. induction p as [a|id k IH|id k IH|k IH|C c k IH]; intros y; cbn; [done|apply IH..|].
  destruct (ecall_run _ _ _ _ _ _) as [[[r e] s]|]; [cbn; apply IH|done].
Qed.

(** The listing is searched like the map it comes from. *)
Lemma find_name_entries (name : cstring) (m : gmap cstring Z) :
  find_name name ((λ p, Dirent (fst p) (snd p)) <$> map_entries m) = default 0 (m !! name).
Proof.
  assert (∀ l : list (cstring * Z), NoDup (fst <$> l) → find_name name ((λ p, Dirent (fst p) (snd p)) <$> l)
    = default 0 ((list_to_map l : gmap cstring Z) !! name)) as Hl.
  { induction l as [|[k v] l IH]; intros Hd; cbn; [by rewrite lookup_empty|].
    apply NoDup_cons in Hd as [_ Hd]. rewrite lookup_insert. case_decide; case_bool_decide; try done. by apply IH. }
  rewrite Hl by apply map_entries_nodup. f_equal. by rewrite list_to_map_entries.
Qed.

(** The names a directory has at the server. *)
Definition lookup_at (s : extent_server.t) (parent : Z) (name : cstring) : Z :=
  match extent_server.fileid_name_m s !! parent with
  | Some _ => default 0 (extent_server.dirents s parent !! name)
  | None => 0
  end.

Lemma ilookup_run env parent name y :
  ∃ s', run env (ilookup parent name) y
    = Some (lookup_at (y_es y) parent name, Yst (y_held y ∖ {[parent]}) (y_ec y) s' (3 + y_tick y)) ∧
    (s' = y_es y ∨ s' = extent_server.on_fmap (map_touch ∅ parent) (y_es y)).
Proof.
  unfold ilookup, readdir. cbn. unfold extent_server.readdir, lookup_at.
  assert (({[parent]} ∪ y_held y) ∖ {[parent]} = y_held y ∖ {[parent]}) as Eh by set_solver.
  destruct (extent_server.fileid_name_m (y_es y) !! parent) eqn:E.
  - rewrite (proj2 (map_count_true _ _)) by eauto. cbn. eexists. split; [|by right].
    rewrite insert_all_entries, (right_id_L ∅ (∪)). by rewrite find_name_entries, Eh.
  - rewrite (proj2 (map_count_false _ _)) by done. cbn. rewrite Eh. eexists. split; [done|by left].
Qed.

Import extent_server file_cache.

(** Looking a name up does not change the tree. *)
Lemma same_tree_lookup s s' parent :
  s' = s ∨ s' = on_fmap (map_touch ∅ parent) s → same_tree s s' ∧ (inv s → inv s') ∧
  fileid_content_m s' = fileid_content_m s ∧ fileid_attr_m s' = fileid_attr_m s ∧ fileid_mode_m s' = fileid_mode_m s.
Proof.
  intros [->| ->]; [done|]. split_and!; [apply same_tree_touch| |done..].
  intros I. apply (inv_same_tree s); [done|apply same_tree_touch|]. by apply (sized_ext s), I.
Qed.

Lemma lookup_at_dir s d n : is_Some (fileid_name_m s !! d) → lookup_at s d n = default 0 (dirents s d !! n).
Proof. unfold lookup_at. by intros [? ->]. Qed.

(** A new file as the extent client sees it. *)
Lemma created_at_server now num l d n mode s :
  inv s → 2 <= num → is_Some (fileid_name_m s !! d) → isdir d = true → dirents s d !! n = None →
  fileid_name_m s !! file_id num = None →
  ∃ s', extent_server.createFile now (num :: l) d n mode 0 s = Some (extent_server.OK, file_id num, s') ∧ inv s' ∧
    (∀ x, dirents s' x = if decide (x = d) then <[n := file_id num]> (dirents s d) else dirents s x) ∧
    is_Some (fileid_name_m s' !! d) ∧ at_server s' (file_id num) (Some []).
Proof.
  intros I Hnum Hd Hdir Hn Hid.
  destruct (createFile_ok now num l d n mode 0 s Hnum Hd) as (s' & E & (Hde & Hpa & Hna) & Hc & Hm & Hz).
  assert (inv s') as I' by (eapply inv_step; [exact I|by eapply step_createFile]). exists s'.
  assert (is_Some (fileid_name_m s' !! file_id num)) as Hnew by (rewrite Hna, lookup_insert_eq; eauto).
  split_and!; [done|done|done| |].
  - rewrite Hna. destruct (decide (file_id num = d)) as [<-|]; [|by rewrite lookup_insert_ne].
    by rewrite lookup_insert_eq.
  - split; [rewrite Hc; by rewrite lookup_insert_eq|]. intros ? [= <-]. split_and!.
    + unfold size_ok, string_max_size. cbn. lia.
    + destruct I' as [_ Z']. destruct (z_attr s' Z' _ Hnew) as [a Ha]. exists a. split; [done|].
      unfold sized_as. rewrite (z_size s' Z' _ a (isfile_file_id num) Ha), Hc.
      by rewrite (map_at_some _ _ _ []) by apply lookup_insert_eq.
    + rewrite Hm, lookup_insert_eq. eauto.
Qed.

Lemma client_createFile now rnd d n mode id a c s s1 :
  extent_server.createFile now rnd d n mode 0 s = Some (extent_server.OK, id, s1) →
  extent_client.cache_status c !! id = None →
  extent_server.getattr id attr0 s1 = (extent_client.OK, a, s1) →
  extent_client.createFile now rnd d n mode c s = Some (0, extent_client.enter id [] a mode CACHED c, s1).
Proof.
  intros E1 Hc Ha. unfold extent_client.createFile. cbn [es_createFile extent_server_service]. rewrite E1.
  cbn [mbind option_bind]. unfold extent_client.getAttr. rewrite (uncached _ _ Hc).
  cbn [negb es_getattr extent_server_service]. by rewrite Ha.
Qed.

(** Creating a file: in a well-formed tree, with a name that is new in an existing
    directory and an unused id, [createFile] returns the id of the new file, the listing of
    that directory has gained exactly this name, a lookup of the name returns the id, and
    the file can be read as empty through the extent client. *)
Theorem yfs_create env d n mode x num l y :
  inv (y_es y) → is_Some (fileid_name_m (y_es y) !! d) → isdir d = true → dirents (y_es y) d !! n = None →
  fileid_name_m (y_es y) !! file_id num = None → 2 <= num → e_rnd env (S (y_tick y)) = num :: l →
  extent_client.cache_status (y_ec y) !! file_id num = None →
  ∃ y', run env (yfs_client.createFile d n mode x) y = Some ((yfs_client.OK, file_id num), y') ∧
    y_held y' = y_held y ∖ {[d]} ∧ inv (y_es y') ∧
    (∀ d', dirents (y_es y') d' = if decide (d' = d) then <[n := file_id num]> (dirents (y_es y) d)
                                  else dirents (y_es y) d') ∧
    (∀ env', ∃ y'', run env' (ilookup d n) y' = Some (file_id num, y'')) ∧
    holds (y_ec y') (y_es y') (file_id num) (Some []).
Proof.
  intros I Hd Hdir Hn Hid Hnum Hrnd Hcache.
  destruct (created_at_server (e_time env (S (y_tick y))) num l d n mode _ I Hnum Hd Hdir Hn Hid)
    as (s1 & E1 & I1 & Hde & Hd1 & Hat).
  destruct (at_server_getattr _ _ _ Hat) as (a & Ea & Has).
  set (e1 := extent_client.enter (file_id num) [] a mode CACHED (y_ec y)).
  assert (lookup_at s1 d n = file_id num) as Hl1.
  { rewrite lookup_at_dir by done. by rewrite Hde, decide_True, lookup_insert_eq by done. }
  destruct (ilookup_run env d n (Yst (y_held y ∖ {[d]}) e1 s1 (3 + y_tick y))) as (s2 & E2 & Hs2).
  destruct (same_tree_lookup _ _ _ Hs2) as ((D2 & _ & N2) & I2 & C2 & A2 & M2). cbn [y_es y_held y_ec y_tick] in *.
  eexists. split.
  - unfold yfs_client.createFile. cbn -[ilookup extent_client.createFile].
    rewrite Hrnd, (client_createFile _ _ _ _ _ _ a _ _ s1 E1 Hcache Ea). cbn -[ilookup].
    fold e1. replace (({[d]} ∪ y_held y) ∖ {[d]}) with (y_held y ∖ {[d]}) by set_solver.
    etrans; [exact (run_bind env (λ id, mret (0, id)) (ilookup d n) (Yst (y_held y ∖ {[d]}) e1 s1 (3 + y_tick y)))|].
    rewrite E2, Hl1. done.
  - cbn [y_es y_held y_ec]. split_and!; [set_solver|by apply I2| | |].
    + intros d'. by rewrite D2, Hde.
    + intros env'. edestruct (ilookup_run env' d n) as (s3 & E3 & _). eexists. rewrite E3. cbn [y_es].
      do 2 f_equal. rewrite lookup_at_dir by (by rewrite N2). by rewrite D2, Hde, decide_True, lookup_insert_eq.
    + unfold holds, e1, extent_client.enter. cbn. rewrite !lookup_insert_eq. exists [], a, [].
      split_and!; [done|done|unfold size_ok, string_max_size; cbn; lia|done|done|eauto| |done].
      unfold at_server in *. by rewrite C2, A2, M2.
Qed.

(** The root directory of a new server. *)
Definition fresh_y : ystate extent_server.t := Yst ∅ extent_client.new_extent_client (new_extent_server 100) 0.
Definition demo_env : yenv := Yenv (λ n, 200 + Z.of_nat n) (λ _, 0) (λ _, [5]).

Lemma yfs_create_witness :
  ∃ y', run demo_env (yfs_client.createFile 1 ($"a") 420 0) fresh_y = Some ((yfs_client.OK, 2147483653), y') ∧
    y_held y' = ∅ ∧ holds (y_ec y') (y_es y') 2147483653 (Some []).
Proof.
  destruct (yfs_create demo_env 1 ($"a") 420 0 5 [] fresh_y) as (y' & H1 & H2 & _ & _ & _ & H3);
    [apply inv_new|by eexists|vm_compute; reflexivity|vm_compute; reflexivity|vm_compute; reflexivity|lia
    |reflexivity|vm_compute; reflexivity|].
  exists y'. split; [exact H1|]. split; [exact H2|exact H3].
Defined.

(** The attributes of a directory that nothing was written to. *)
Definition plain_dir (s : t) (d : Z) : Prop :=
  size_ (map_at attr0 d (fileid_attr_m s)) = 0 ∧ map_at [] d (fileid_content_m s) = [].

Lemma setAttr_plain now d a s :
  inv s → map_at [] d (fileid_content_m s) = [] → size_ a = 0 →
  ∃ r s', extent_server.setAttr now d a s = Some (r, s') ∧ same_tree s s' ∧ inv s'.
Proof.
  intros I Hc Ha. unfold extent_server.setAttr. destruct (negb (map_count d (fileid_attr_m s))) eqn:E; [by eexists _, s|].
  assert (extent_server.setAttr now d a s = Some (extent_server.OK,
    upd_attr d (λ _a, Attr (atime a) (mtime a) (ctime a) (size_ _a)) (on_content (map_touch [] d) s))) as Es.
  { unfold extent_server.setAttr. by rewrite E, Hc, Ha. }
  rewrite Hc, Ha. cbn [length Z.of_nat Z.eqb negb]. eexists _, _. split; [done|]. split; [done|].
  eapply inv_step; [exact I|by eapply step_setAttr].
Qed.

Lemma ecall_getAttr now junk rnd d e s :
  extent_client.cache_status e !! d = None → size_ (map_at attr0 d (fileid_attr_m s)) = 0 →
  ∃ ret a, ecall_run now junk rnd (EGetAttr d) e s = Some ((ret, a), e, s) ∧ size_ a = 0.
Proof.
  intros He Hs. unfold ecall_run, extent_client.getAttr. rewrite (uncached _ _ He).
  cbn [negb es_getattr extent_server_service]. unfold extent_server.getattr.
  destruct (map_count d (fileid_attr_m s)); by eexists _, _.
Qed.

Lemma ecall_setAttr now junk rnd d a e s :
  inv s → extent_client.cache_status e !! d = None → map_at [] d (fileid_content_m s) = [] → size_ a = 0 →
  ∃ ret s', ecall_run now junk rnd (ESetAttr d a) e s = Some (ret, e, s') ∧ same_tree s s' ∧ inv s'.
Proof.
  intros I He Hc Ha. destruct (setAttr_plain now d a s I Hc Ha) as (r & s' & E & Ht & I'). exists r, s'.
  split; [|done]. unfold ecall_run, extent_client.setAttr. rewrite (uncached _ _ He).
  cbn [negb es_setAttr extent_server_service]. by rewrite E.
Qed.

Lemma ecall_remove now junk rnd d n e s :
  extent_client.cache_status e !! d = None →
  ecall_run now junk rnd (ERemove d n) e s
  = Some (fst (extent_server.remove now now now d n s), e, snd (extent_server.remove now now now d n s)).
Proof.
  intros He. unfold ecall_run, extent_client.remove. rewrite (uncached _ _ He).
  cbn [es_remove extent_server_service mbind option_bind]. by destruct (extent_server.remove _ _ _ _ _ _).
Qed.

(** [remove] of an entry that is there. *)
Lemma remove_entry now d n id s :
  inv s → plain_dir s d → entry s d n id →
  let r := extent_server.remove now now now d n s in
  inv (snd r) ∧ plain_dir (snd r) d ∧
  if decide (dirents s id = ∅) then
    fst r = 0 ∧ ∀ d', dirents (snd r) d' = if decide (d' = d) then delete n (dirents s d) else dirents s d'
  else fst r = 3 ∧ ∀ d', dirents (snd r) d' = dirents s d'.
Proof.
  intros I [Hsz Hc] He. pose proof I as [L _]. split; [by apply inv_remove|].
  assert (isfile d = false) as Hdir.
  { destruct (l_entry s L _ _ _ He) as (_ & _ & Hd). unfold isdir in Hd. by apply negb_true_iff in Hd. }
  case_decide as Hem.
  - destruct (remove_ok now now now d n id s L He Hem) as (s' & E & (Hd & _) & Hcn & _).
    assert (size_ (map_at attr0 d (fileid_attr_m s')) = 0) as Hs'.
    { pose proof (remove_parent_size now now now d n s) as Hp. rewrite E in Hp. cbn in Hp. rewrite Hp, Hsz; [done|].
      unfold entry in He. rewrite He. intros [= ->]. unfold entry in He. by rewrite Hem in He. }
    rewrite E. cbn. split_and!; [|done|done]. split; [done|]. unfold map_at. rewrite Hcn.
    rewrite decide_False by (intros [-> ?]; congruence). exact Hc.
  - assert (isdir id = true) as Hid.
    { destruct (isdir id) eqn:Ed; [done|]. destruct Hem. apply linked_file_leaf; [done|].
      unfold isdir in Ed. by apply negb_false_iff in Ed. }
    rewrite (remove_nonempty now now now d n id s He Hid Hem). done.
Qed.

Lemma unlink_found_run env d n id h e s tick :
  inv s → plain_dir s d → entry s d n id → extent_client.cache_status e !! d = None →
  ∃ ret s', run env (unlink_found d n id) (Yst h e s tick)
    = Some (ret, Yst ({[id]} ∪ ({[d]} ∪ h)) e s' (7 + tick)) ∧ inv s' ∧
    if decide (dirents s id = ∅) then
      ret = 0 ∧ ∀ d', dirents s' d' = if decide (d' = d) then delete n (dirents s d) else dirents s d'
    else ret = 3 ∧ ∀ d', dirents s' d' = dirents s d'.
Proof.
  intros I Hp Hent He. destruct (remove_entry (e_time env (S (S tick))) d n id s I Hp Hent) as (I1 & [Hs1 Hc1] & Hr).
  set (r := extent_server.remove _ _ _ d n s) in *.
  destruct (ecall_getAttr (e_time env (3 + tick)) (e_junk env (3 + tick)) (e_rnd env (3 + tick)) d e (snd r) He Hs1)
    as (ret2 & a & E2 & Ha).
  destruct (ecall_setAttr (e_time env (6 + tick)) (e_junk env (6 + tick)) (e_rnd env (6 + tick)) d
    (Attr (u32 (e_time env (4 + tick))) (u32 (e_time env (5 + tick))) (ctime a) (size_ a)) e (snd r) I1 He Hc1 Ha)
    as (ret3 & s3 & E3 & (D3 & _) & I3).
  exists (fst r), s3. split_and!; [|done|].
  - unfold unlink_found. cbn -[ecall_run]. rewrite (ecall_remove _ _ _ _ _ _ _ He). cbn -[ecall_run extent_server.remove].
    fold r. cbn [Nat.add] in E2, E3. rewrite E2. cbn -[ecall_run]. by rewrite E3.
  - case_decide; destruct Hr as [-> Hd]; (split; [done|]); intros d'; rewrite D3; apply Hd.
Qed.

(** C26. Unlinking, in a well-formed tree, of a name in a directory that is not cached:
    a name that is not there and a directory that is not empty give [IOERR] and leave every
    listing as it is; else the call returns [OK] and exactly this name disappears.  The tree
    stays well-formed and no lock stays behind. *)
Theorem yfs_unlink env d n y :
  inv (y_es y) → is_Some (fileid_name_m (y_es y) !! d) → plain_dir (y_es y) d →
  extent_client.cache_status (y_ec y) !! d = None → y_held y = ∅ →
  let id := default 0 (dirents (y_es y) d !! n) in
  ∃ ret y', run env (yfs_client.unlink d n) y = Some (ret, y') ∧ y_held y' = ∅ ∧ inv (y_es y') ∧
    if decide (id ≠ 0 ∧ dirents (y_es y) id = ∅) then
      ret = yfs_client.OK ∧ ∀ d', dirents (y_es y') d' = if decide (d' = d) then delete n (dirents (y_es y) d)
                                                         else dirents (y_es y) d'
    else ret = yfs_client.IOERR ∧ ∀ d', dirents (y_es y') d' = dirents (y_es y) d'.
Proof.
  intros I Hd [Hsz Hct] He Hh id.
  destruct (ilookup_run env d n y) as (s1 & E1 & Hs1). rewrite lookup_at_dir in E1 by done. fold id in E1.
  destruct (same_tree_lookup _ _ _ Hs1) as ((D1 & P1 & N1) & I1 & C1 & A1 & M1). specialize (I1 I).
  unfold yfs_client.unlink. unfold mbind at 1, yprog_bind at 1. rewrite run_bind, E1. cbn [mbind option_bind].
  rewrite Hh in *. replace (∅ ∖ {[d]}) with (∅ : gset Z) by set_solver.
  destruct (Z.eqb_spec id 0) as [Hz|Hz].
  { rewrite Hz. cbn. eexists _, _. split; [done|]. cbn. split; [set_solver|]. split; [done|].
    rewrite decide_False by tauto. done. }
  assert (entry s1 d n id) as Hent.
  { unfold entry. rewrite D1. unfold id in Hz |- *. by destruct (dirents (y_es y) d !! n). }
  assert (plain_dir s1 d) as Hpl by (unfold plain_dir; by rewrite A1, C1).
  destruct (unlink_found_run env d n id ∅ (y_ec y) s1 (3 + y_tick y) I1 Hpl Hent He) as (ret & s2 & E2 & I2 & Hr).
  unfold mbind at 1, yprog_bind at 1. rewrite run_bind, E2. cbn. eexists _, _. split; [done|]. cbn.
  split; [set_solver|]. split; [done|]. rewrite D1 in Hr.
  case_decide; case_decide; try tauto; destruct Hr as [-> Hr]; (split; [done|]); intros d'; rewrite Hr, ?D1; done.
Qed.

Lemma yfs_unlink_witness :
  let y := Yst ∅ extent_client.new_extent_client demo 0 in
  ∃ y', run demo_env (yfs_client.unlink 7 ($"b")) y = Some (yfs_client.OK, y') ∧
    dirents (y_es y') 7 = delete ($"b") (dirents demo 7).
Proof.
  intros y.
  destruct (yfs_unlink demo_env 7 ($"b") y) as (ret & y' & H1 & _ & _ & H2);
    [apply (inv_run 100), demo_run|by eexists|vm_compute; split; reflexivity|apply lookup_empty|reflexivity|].
  exists y'. rewrite decide_True in H2 by (split; [vm_compute; discriminate|vm_compute; reflexivity]).
  destruct H2 as [-> H2]. split; [exact H1|]. rewrite H2. rewrite decide_True by reflexivity. reflexivity.
Defined.
End names.
