(* ===== verification/YfsSystem.v ===== *)
(** * File operations of many clients

    The operations of YfsClient.v run by the threads of any number of clients on the system
    of FileSystem.v: each [acquire] is the steps of the caching lock client and the lock
    server, each [release] too, locks are revoked and files written back at any time, and
    calls of the extent client work on the cache of their client.  The operations on a file
    ([getfile], [setattr], [read], [write]) are linearizable: what the clients see
    is what one store of files that executes each operation at once can answer. *)

From S2P Require Import Prelude.
From S2P Require Import Marshall.
From S2P Require Import Protocol.
From S2P Require Import ExtentServer.
From S2P Require Import ExtentClient.
From S2P Require Import LockServerCache.
From S2P Require Import LockClientCache.
From S2P Require Import LockSystem.
From S2P Require Import FileSystem.
From S2P Require Import YfsClient.

Import file_cache.

(** ** The operations *)

Inductive yop :=
  | YGetfile (id : Z) (fin : yfs_client.fileinfo)
  | YSetattr (id : Z) (fin : yfs_client.fileinfo)
  | YRead (id off size : Z)
  | YWrite (id off : Z) (buf : cstring).

Inductive yres :=
  | RInfo (ret : Z) (fin : yfs_client.fileinfo) | RStatus (ret : Z) | RData (ret : Z) (buf : cstring).

Definition yop_prog (o : yop) : yprog yres :=
  match o with
  | YGetfile id fin => '(ret, fin) ← yfs_client.getfile id fin; mret (RInfo ret fin)
  | YSetattr id fin => ret ← yfs_client.setattr id fin; mret (RStatus ret)
  | YRead id off size => '(ret, buf) ← yfs_client.read id off size []; mret (RData ret buf)
  | YWrite id off buf => ret ← yfs_client.write id off (Z.of_nat (length buf)) buf; mret (RStatus ret)
  end.

(** ** The system *)

(** A thread runs its program, or is inside [acquire]. *)
Inductive ythread := YRuns (p : yprog yres) | YInside (id : Z) (k : Z → yprog yres).

Record ysys := Ysys { base : fsys; progs : gmap (sint * Z) ythread }.

Inductive event := EInvoke (c : sint) (t : Z) (o : yop) | EReturn (c : sint) (t : Z) (r : yres).

Inductive ylabel :=
  | LInvoke (c : sint) (t : Z) (o : yop)
  | LEnter (c : sint) (t : Z) (cond : nat)
  | LLeave (c : sint) (t : Z)
  | LRelease (c : sint) (t : Z)
  | LTime (c : sint) (t : Z) (now : Z)
  | LExt (c : sint) (t : Z) (now junk : Z) (rnd : list Z)
  | LReturn (c : sint) (t : Z)
  | LLock (l : sys_label)
  | LDorelease (c : sint) (now : Z).

Definition set_prog (c : sint) (t : Z) (p : ythread) (x : ysys) : ysys :=
  Ysys (base x) (<[(c, t) := p]> (progs x)).

Definition ystep (l : ylabel) (x : ysys) : option (list event * ysys) :=
  match l with
  | LInvoke c t o =>
      match progs x !! (c, t) with
      | None => Some ([EInvoke c t o], set_prog c t (YRuns (yop_prog o)) x)
      | Some _ => None
      end
  | LEnter c t cond =>
      match progs x !! (c, t) with
      | Some (YRuns (Acquire id k)) =>
          '(_, b) ← fs_step (FLock (SAcquire c t (Ull id) cond)) (base x);
          Some ([], set_prog c t (YInside id k) (Ysys b (progs x)))
      | _ => None
      end
  | LLeave c t =>
      match progs x !! (c, t), thr (locks (base x)) !! (c, t) with
      | Some (YInside id k), None => Some ([], set_prog c t (YRuns (k lock_OK)) x)
      | _, _ => None
      end
  | LRelease c t =>
      match progs x !! (c, t) with
      | Some (YRuns (Release id k)) =>
          '(_, b) ← fs_step (FLock (SRelease c t (Ull id))) (base x);
          Some ([], set_prog c t (YRuns (k lock_OK)) (Ysys b (progs x)))
      | _ => None
      end
  | LTime c t now =>
      match progs x !! (c, t) with
      | Some (YRuns (Time k)) => Some ([], set_prog c t (YRuns (k now)) x)
      | _ => None
      end
  | LExt c t now junk rnd =>
      match progs x !! (c, t) with
      | Some (YRuns (Ext e k)) =>
          '(r, ec, es) ← ecall_run now junk rnd e (cache c (base x)) (extents (base x));
          Some ([], set_prog c t (YRuns (k r))
            (Ysys (FSys (locks (base x)) (<[c := ec]> (caches (base x))) es (flushed (base x))) (progs x)))
      | _ => None
      end
  | LReturn c t =>
      match progs x !! (c, t) with
      | Some (YRuns (Ret r)) => Some ([EReturn c t r], Ysys (base x) (delete (c, t) (progs x)))
      | _ => None
      end
  | LLock l => if background l then '(_, b) ← fs_step (FLock l) (base x); Some ([], Ysys b (progs x)) else None
  | LDorelease c now => '(_, b) ← fs_step (FDorelease c now) (base x); Some ([], Ysys b (progs x))
  end.

(** Thread and client numbers as in LockSystem.v. *)
Definition ylabel_ok (l : ylabel) : Prop :=
  match l with
  | LLock l => label_ok l
  | LEnter c t _ | LRelease c t => valid_tid t ∧ 0 < sint_val c
  | _ => True
  end.

(** [yruns s x tr]: from a server with the files of [s], the clients reach [x], and [tr] are
    the calls and returns of their operations, in order. *)
Inductive yruns (s : extent_server.t) : ysys → list event → Prop :=
  | yruns_start : yruns s (Ysys (FSys new_sys ∅ s ∅) ∅) []
  | yruns_step x tr l es x' :
      yruns s x tr → ylabel_ok l → ystep l x = Some (es, x') → yruns s x' (tr ++ es).

(** ** One store *)

(** An operation was called, or has taken place with an answer. *)
Inductive athread := AInvoked (o : yop) | ADone (o : yop) (r : fres).

Record astore := Astore { a_files : gmap Z cstring; a_thr : gmap (sint * Z) athread }.

(** The operation on the store. *)
Definition yop_fop (o : yop) : fop :=
  match o with
  | YGetfile id _ => FSize id
  | YSetattr id fin => FUtimes id (Attr 0 0 0 (u32 (yfs_client.f_size fin)))
  | YRead id off size => FRead id off size
  | YWrite id off buf => FWrite id off buf
  end.

(** The answer the caller gets; the times of a file are not specified. *)
Definition yres_ok (o : yop) (r : fres) (y : yres) : Prop :=
  match o, r with
  | YGetfile _ _, Size n => ∃ fin, y = RInfo 0 fin ∧ yfs_client.f_size fin = n
  | YRead _ _ _, Data buf => y = RData 0 buf
  | YSetattr _ _, Done | YWrite _ _ _, Done => y = RStatus 0
  | _, _ => False
  end.

(** [None]: an operation was outside its contract (the file does not exist, a read begins
    behind its end, a write makes it too long, or [setattr] is to change the size). *)
Inductive astep : option astore → list event → option astore → Prop :=
  | a_invoke a c t o :
      a_thr a !! (c, t) = None →
      astep (Some a) [EInvoke c t o] (Some (Astore (a_files a) (<[(c, t) := AInvoked o]> (a_thr a))))
  | a_commit a c t o :
      a_thr a !! (c, t) = Some (AInvoked o) → fop_ok (yop_fop o) (a_files a) →
      astep (Some a) [] (Some (Astore (snd (spec_op (yop_fop o) (a_files a)))
        (<[(c, t) := ADone o (fst (spec_op (yop_fop o) (a_files a)))]> (a_thr a))))
  | a_wrong a c t o :
      a_thr a !! (c, t) = Some (AInvoked o) → ¬ fop_ok (yop_fop o) (a_files a) → astep (Some a) [] None
  | a_return a c t o r y :
      a_thr a !! (c, t) = Some (ADone o r) → yres_ok o r y →
      astep (Some a) [EReturn c t y] (Some (Astore (a_files a) (delete (c, t) (a_thr a))))
  | a_any es : astep None es None.

Inductive aruns (m : gmap Z cstring) : option astore → list event → Prop :=
  | aruns_start : aruns m (Some (Astore m ∅)) []
  | aruns_step a tr es a' : aruns m a tr → astep a es a' → aruns m a' (tr ++ es).

(** ** Calls of the extent client *)

#[export] Instance fop_ok_dec o m : Decision (fop_ok o m).
Proof.
  destruct o as [id off size|id off buf|id|id|id mode|id a]; cbn [fop_ok]; try apply _.
  destruct (m !! id) as [x|]; [|right; by intros (? & ? & _)].
  destruct (decide (size_ a = Z.of_nat (length x))); [left; by exists x|right; intros (? & [= ->] & ?); done].
Defined.

Definition call_fop {B} (e : ecall B) : option fop :=
  match e with
  | EGetAttr id => Some (FSize id)
  | ESetAttr id a => Some (FUtimes id a)
  | ERead id off size [] => Some (FRead id off size)
  | EWrite id off size buf => if size =? Z.of_nat (length buf) then Some (FWrite id off buf) else None
  | _ => None
  end.

Definition call_res {B} (e : ecall B) : B → fres → Prop :=
  match e with
  | EGetAttr _ => λ r f, fst r = 0 ∧ f = Size (size_ (snd r))
  | ESetAttr _ _ | EWrite _ _ _ _ => λ r f, r = 0 ∧ f = Done
  | ERead _ _ _ _ => λ r f, fst r = 0 ∧ f = Data (snd r)
  | _ => λ _ _, False
  end.

Lemma call_subject {B} (e : ecall B) o : call_fop e = Some o → subject e = fop_id o ∧ thread_op o.
Proof.
  destruct e as [| | | | |id off size [|]|id off size buf| |]; cbn; try done; try (by intros [= <-]).
  destruct (_ =? _); by intros [= <-].
Qed.

(** A status that was checked. *)
Lemma assert_OK {A} ret (k : option A) b : (_ ← extent_client.assert (ret =? extent_client.OK); k) = Some b → ret = 0 ∧ k = Some b.
Proof. unfold extent_client.OK, extent_client.assert. destruct (Z.eqb_spec ret 0); by cbn. Qed.

Local Ltac destruct_OK H := apply assert_OK in H as [-> [= <- <- <-]].
Local Ltac destruct_product := repeat match goal with p : (_ * _)%type |- _ => destruct p end.

(** A call is the operation on the files of ExtentClient.v when this one succeeds. *)
Lemma ecall_do_op {B} now junk rnd (e : ecall B) o c s f c' s' :
  call_fop e = Some o → do_op now junk o c s = Some (f, c', s') →
  ∃ r, ecall_run now junk rnd e c s = Some (r, c', s') ∧ call_res e r f.
Proof.
  destruct e as [id|id a| | | |id off size [|]|id off size buf| |]; cbn [call_fop]; try done.
  4: destruct (Z.eqb_spec size (Z.of_nat (length buf))) as [->|]; [|done].
  all: intros [= <-] H; cbn [do_op ecall_run call_res] in H |- *; apply bind_Some in H as (p & E & H);
    destruct_product; destruct_OK H; rewrite E; cbn; by eexists.
Qed.

(** ** Programs against the store *)

(** A thread with the locks [h] and the program [p] is where the store's thread [a] is:
    it calls the extent client once, for the operation and under its lock, and returns its answer. *)
Fixpoint follows (a : athread) (h : gset Z) (p : yprog yres) : Prop :=
  match p with
  | Ret y => h = ∅ ∧ match a with ADone o r => yres_ok o r y | AInvoked _ => False end
  | Acquire id k => follows a ({[id]} ∪ h) (k lock_OK)
  | Release id k => follows a (h ∖ {[id]}) (k lock_OK)
  | Time k => ∀ now, follows a h (k now)
  | Ext e k => subject e ∈ h ∧
      match a with
      | AInvoked o => call_fop e = Some (yop_fop o) ∧ ∀ r f, call_res e r f → follows (ADone o f) h (k r)
      | ADone _ _ => False
      end
  end.

Lemma yop_follows o : follows (AInvoked o) ∅ (yop_prog o).
Proof.
  destruct o; cbn; rewrite ?Z.eqb_refl; (split; [set_solver|]); (split; [done|]).
  - intros [ret a] f [E ->]. cbn in E. subst ret. cbn. split; [set_solver|]. eexists. split; [reflexivity|reflexivity].
  - intros ret f [-> ->]. cbn. split; [set_solver|done].
  - intros [ret buf] f [E ->]. cbn in E. subst ret. cbn. split; [set_solver|done].
  - intros ret f [-> ->]. cbn. split; [set_solver|done].
Qed.

(** ** The simulation *)

Definition holds_set (s : sys) (c : sint) (t : Z) (h : gset Z) : Prop := ∀ id, holds_lock s c t (Ull id) ↔ id ∈ h.

(** A thread of the system and its counterpart at the store. *)
Definition thread_ok (s : sys) (c : sint) (t : Z) (a : option athread) (o : option ythread) : Prop :=
  match o, a with
  | None, None => thr s !! (c, t) = None ∧ holds_set s c t ∅
  | Some (YRuns p), Some a => thr s !! (c, t) = None ∧ ∃ h, holds_set s c t h ∧ follows a h p
  | Some (YInside id k), Some a =>
      ∃ h, follows a ({[id]} ∪ h) (k lock_OK) ∧
        match thr s !! (c, t) with
        | Some ts => t_lock ts = Ull id ∧ holds_set s c t h
        | None => holds_set s c t ({[id]} ∪ h)
        end
  | _, _ => False
  end.

Definition simulated (x : ysys) (a : astore) : Prop :=
  coherent (base x) (a_files a) ∧
  ∀ c t, thread_ok (locks (base x)) c t (a_thr a !! (c, t)) (progs x !! (c, t)).

Lemma ull_eq i j : Ull i = Ull j ↔ i = j.
Proof. split; congruence. Qed.

Lemma thread_ok_moved s s' c t a o : moved s s' c t → thread_ok s c t a o → thread_ok s' c t a o.
Proof.
  unfold thread_ok, holds_set. intros [[Et Eh]|(ts & Ets & M)].
  - rewrite Et. destruct o as [[p|id k]|], a; try done.
    + intros (Hn & h & Hs & Hf). split; [done|]. exists h. split; [|done]. intros j. by rewrite Eh.
    + intros (h & Hf & Hs). exists h. split; [done|]. destruct (thr s !! (c, t)).
      * destruct Hs as [? Hs]. split; [done|]. intros j. by rewrite Eh.
      * intros j. by rewrite Eh.
    + intros [? Hs]. split; [done|]. intros j. by rewrite Eh.
  - rewrite Ets. destruct o as [[p|id k]|], a; try done; try (by intros [? _]).
    intros (h & Hf & Hl & Hs). exists h. split; [done|]. destruct M as [(ts' & -> & El & Eh)|[-> Eh]].
    + split; [congruence|]. intros j. by rewrite Eh.
    + intros j. rewrite Eh, Hl, Hs, elem_of_union, elem_of_singleton, ull_eq. done.
Qed.

Lemma fs_lock_sys l x r x' : fs_step (FLock l) x = Some (r, x') → sys_step l (locks x) = Some (locks x').
Proof.
  intros H. destruct l; cbn [fs_step] in H; try (apply bind_Some in H as (s & -> & [= _ <-]); done).
  case_bool_decide; [|done]. apply bind_Some in H as (s & -> & [= _ <-]). done.
Qed.

(** One thread goes on, the others stay or move. *)
Lemma threads_insert s s' th pr c t a p :
  (∀ c' t', thread_ok s c' t' (th !! (c', t')) (pr !! (c', t'))) →
  (∀ c' t', (c', t') ≠ (c, t) → moved s s' c' t') → thread_ok s' c t (Some a) (Some p) →
  ∀ c' t', thread_ok s' c' t' ((<[(c, t) := a]> th : gmap (sint * Z) athread) !! (c', t'))
                     ((<[(c, t) := p]> pr : gmap (sint * Z) ythread) !! (c', t')).
Proof.
  intros Hall Hm Hok c' t'. destruct (decide ((c', t') = (c, t))) as [E|Hne].
  - injection E as -> ->. by rewrite !lookup_insert_eq.
  - rewrite !lookup_insert_ne by done. eapply thread_ok_moved; [by apply Hm|apply Hall].
Qed.

Lemma simulated_enter x a c t cond es x' :
  simulated x a → ylabel_ok (LEnter c t cond) → ystep (LEnter c t cond) x = Some (es, x') → es = [] ∧ simulated x' a.
Proof.
  intros [K T] Hok H. cbn [ystep] in H. pose proof (T c t) as Tc.
  destruct (progs x !! (c, t)) as [[[]|]|] eqn:E; try done. destruct (a_thr a !! (c, t)) as [a0|] eqn:Ea; [|done].
  destruct Tc as (_ & h & Hs & Hf). apply bind_Some in H as ([r b] & H & [= <- <-]). split; [done|].
  pose proof (fs_lock_sys _ _ _ _ H) as Hsys. destruct (sys_acquire_thread _ _ _ _ _ _ Hsys) as [Hm Hc].
  split; [exact (fs_lock_coherent _ _ (SAcquire c t (Ull id) cond) _ _ K Hok H)|]. cbn. rewrite <- (insert_id (a_thr a) (c, t) a0) by done.
  eapply (threads_insert _ _ _ _ _ _ _ _ T Hm). cbn. exists h. split; [exact Hf|].
  destruct Hc as [(ts & -> & El & Eh)|[-> Eh]].
  - split; [done|]. intros j. by rewrite Eh.
  - intros j. rewrite Eh, (Hs j), elem_of_union, elem_of_singleton, ull_eq. done.
Qed.

Lemma simulated_release x a c t es x' :
  simulated x a → ylabel_ok (LRelease c t) → ystep (LRelease c t) x = Some (es, x') → es = [] ∧ simulated x' a.
Proof.
  intros [K T] Hok H. cbn [ystep] in H. pose proof (T c t) as Tc.
  destruct (progs x !! (c, t)) as [[[]|]|] eqn:E; try done. destruct (a_thr a !! (c, t)) as [a0|] eqn:Ea; [|done].
  destruct Tc as (_ & h & Hs & Hf). apply bind_Some in H as ([r b] & H & [= <- <-]). split; [done|].
  pose proof (fs_lock_sys _ _ _ _ H) as Hsys. destruct (sys_release_thread _ _ _ _ _ Hsys) as (Hm & _ & Hn & Eh).
  split; [exact (fs_lock_coherent _ _ (SRelease c t (Ull id)) _ _ K Hok H)|]. cbn. rewrite <- (insert_id (a_thr a) (c, t) a0) by done.
  eapply (threads_insert _ _ _ _ _ _ _ _ T Hm). cbn. split; [done|]. exists (h ∖ {[id]}). split; [|exact Hf].
  intros j. rewrite Eh, (Hs j), elem_of_difference, elem_of_singleton, ull_eq. tauto.
Qed.

(** The one call of the extent client is the operation, if it is inside its contract. *)
Lemma simulated_ext_ok x a c t now junk rnd B (e : ecall B) k o :
  simulated x a → progs x !! (c, t) = Some (YRuns (Ext e k)) → a_thr a !! (c, t) = Some (AInvoked o) →
  fop_ok (yop_fop o) (a_files a) →
  ∃ x', ystep (LExt c t now junk rnd) x = Some ([], x') ∧
    simulated x' (Astore (snd (spec_op (yop_fop o) (a_files a)))
        (<[(c, t) := ADone o (fst (spec_op (yop_fop o) (a_files a)))]> (a_thr a))).
Proof.
  intros [K T] E Ea Hok. pose proof (T c t) as Tc. rewrite E, Ea in Tc. cbn in Tc.
  destruct Tc as (Hn & h & Hs & Hsub & Hcall & Hk). destruct (call_subject e _ Hcall) as [Eid Hth].
  rewrite Eid in Hsub. apply Hs in Hsub.
  destruct (fs_file_coherent _ _ c t now junk _ K Hsub Hok) as (b & Hb & Kb).
  { intros id Ef. by rewrite Ef in Hth. }
  cbn [fs_step] in Hb. rewrite bool_decide_true in Hb by done. apply bind_Some in Hb as ([[f ec] s'] & Hd & Hb).
  injection Hb as Ef <-. subst f. destruct (ecall_do_op now junk rnd e _ _ _ _ _ _ Hcall Hd) as (r & Er & Hr).
  cbn [ystep]. rewrite E, Er. cbn. eexists. split; [done|]. split; [exact Kb|]. cbn.
  apply (threads_insert _ _ _ _ _ _ _ _ T); [intros; by apply moved_same|]. split; [done|]. exists h. split; [done|].
  by apply Hk.
Qed.

Definition related (x : ysys) (a : option astore) : Prop :=
  match a with Some a => simulated x a | None => True end.

Lemma simulated_ext x a c t now junk rnd es x' :
  simulated x a → ystep (LExt c t now junk rnd) x = Some (es, x') → ∃ a', astep (Some a) es a' ∧ related x' a'.
Proof.
  intros S H. pose proof (proj2 S c t) as Tc.
  destruct (progs x !! (c, t)) as [[[| | | |B e k]|]|] eqn:E; cbn [ystep] in H; rewrite E in H; try done.
  destruct (a_thr a !! (c, t)) as [a0|] eqn:Ea; [|done].
  assert (es = []) as -> by (apply bind_Some in H as ([[r ec] s] & _ & [= <- _]); done).
  destruct Tc as (_ & h & _ & _ & Hf). destruct a0 as [o|]; [|done].
  destruct (decide (fop_ok (yop_fop o) (a_files a))) as [Hok|Hno].
  - destruct (simulated_ext_ok x a c t now junk rnd B e k o S E Ea Hok) as (x2 & E2 & S2).
    cbn [ystep] in E2. rewrite E in E2. rewrite E2 in H. simplify_eq. eexists. split; [by eapply a_commit|done].
  - exists None. split; [by eapply a_wrong|done].
Qed.

Lemma simulated_step x a l es x' :
  simulated x a → ylabel_ok l → ystep l x = Some (es, x') →
  (es = [] ∧ simulated x' a) ∨ ∃ a', astep (Some a) es a' ∧ related x' a'.
Proof.
  intros S Hok H. destruct l as [c t o|c t cond|c t|c t|c t now|c t now junk rnd|c t|l|c now].
  - right. destruct S as [K T]. cbn [ystep] in H. pose proof (T c t) as Tc.
    destruct (progs x !! (c, t)) eqn:E; [done|]. injection H as <- <-.
    destruct (a_thr a !! (c, t)) eqn:Ea; [done|]. eexists. split; [by apply a_invoke|]. split; [done|]. cbn.
    apply (threads_insert _ _ _ _ _ _ _ _ T); [intros; by apply moved_same|]. destruct Tc as [Hn Hs].
    split; [done|]. exists ∅. split; [done|apply yop_follows].
  - left. by eapply simulated_enter.
  - left. destruct S as [K T]. cbn [ystep] in H. pose proof (T c t) as Tc.
    destruct (progs x !! (c, t)) as [[|id k]|] eqn:E; try done. destruct (thr _ !! _) eqn:Et; [done|]. injection H as <- <-.
    split; [done|]. split; [done|]. cbn. destruct (a_thr a !! (c, t)) as [a0|] eqn:Ea; [|done].
    rewrite <- (insert_id (a_thr a) (c, t) a0) by done. destruct Tc as (h & Hf & Hs). rewrite Et in Hs.
    apply (threads_insert _ _ _ _ _ _ _ _ T); [intros; by apply moved_same|]. split; [done|]. by eexists.
  - left. by eapply simulated_release.
  - left. destruct S as [K T]. cbn [ystep] in H. pose proof (T c t) as Tc.
    destruct (progs x !! (c, t)) as [[[]|]|] eqn:E; try done. injection H as <- <-.
    split; [done|]. split; [done|]. cbn. destruct (a_thr a !! (c, t)) as [a0|] eqn:Ea; [|done].
    rewrite <- (insert_id (a_thr a) (c, t) a0) by done. destruct Tc as (Hn & h & Hs & Hf).
    apply (threads_insert _ _ _ _ _ _ _ _ T); [intros; by apply moved_same|]. split; [done|]. exists h. by split.
  - right. by eapply simulated_ext.
  - right. destruct S as [K T]. cbn [ystep] in H. pose proof (T c t) as Tc.
    destruct (progs x !! (c, t)) as [[[y| | | |]|]|] eqn:E; try done. injection H as <- <-.
    destruct (a_thr a !! (c, t)) as [a0|] eqn:Ea; [|done]. destruct Tc as (Hn & h & Hs & -> & Hy).
    destruct a0 as [|o r]; [done|]. eexists. split; [by eapply a_return|]. split; [done|]. cbn. intros c' t'.
    destruct (decide ((c', t') = (c, t))) as [Eq|Hne].
    + injection Eq as -> ->. by rewrite !lookup_delete_eq.
    + rewrite !lookup_delete_ne by done. apply T.
  - left. destruct S as [K T]. cbn [ystep] in H. destruct (background l) eqn:Hb; [|done].
    apply bind_Some in H as ([r b] & H & [= <- <-]). split; [done|].
    split; [exact (fs_lock_coherent _ _ l _ _ K Hok H)|]. cbn. intros c t.
    eapply thread_ok_moved; [|apply T]. eapply sys_step_moved; [done|by eapply fs_lock_sys].
  - left. destruct S as [K T]. cbn [ystep] in H. apply bind_Some in H as ([r b] & H & [= <- <-]). split; [done|].
    destruct (rel (locks (base x)) !! c) as [[lid y]|] eqn:E; cbn [fs_step] in H; rewrite E in H; [|done].
    case_bool_decide; [done|].
    destruct (fs_dorelease_coherent _ _ c now lid y K E) as (b2 & E2 & K2); [done|]. cbn [fs_step] in E2.
    rewrite E, bool_decide_false in E2 by done. rewrite E2 in H. simplify_eq. split; [done|].
    cbn. intros c' t'. apply bind_Some in E2 as ([k e] & _ & [= <-]). apply T.
Qed.

Lemma yruns_related s x tr :
  known_files s → yruns s x tr → ∃ a, aruns (extent_server.fileid_content_m s) a tr ∧ related x a.
Proof.
  intros Hs. induction 1 as [|x tr l es x' _ (a & Ha & R) Hok H].
  - eexists. split; [apply aruns_start|]. split; [by apply coherent_start|]. intros c t. cbn. rewrite !lookup_empty.
    split; [done|]. intros id. unfold holds_lock. cbn. set_solver.
  - destruct a as [a|].
    + destruct (simulated_step x a l es x' R Hok H) as [[-> S]|(a' & Hst & S)].
      * rewrite app_nil_r. by eexists.
      * exists a'. split; [by eapply aruns_step|done].
    + exists None. split; [|done]. eapply aruns_step; [done|apply a_any].
Qed.


(** ** A run *)

Fixpoint yexec (ls : list ylabel) (x : ysys) : option (list event * ysys) :=
  match ls with
  | [] => Some ([], x)
  | l :: ls => '(es, x) ← ystep l x; '(tr, x) ← yexec ls x; Some (es ++ tr, x)
  end.

Lemma yexec_runs s ls x tr tr' x' :
  yruns s x tr → Forall ylabel_ok ls → yexec ls x = Some (tr', x') → yruns s x' (tr ++ tr').
Proof.
  revert x tr tr'. induction ls as [|l ls IH]; intros x tr tr' Hr Hok H; cbn [yexec] in H.
  - injection H as <- <-. by rewrite app_nil_r.
  - apply Forall_cons in Hok as [Hl Hok]. apply bind_Some in H as ([es x1] & H1 & H).
    apply bind_Some in H as ([tr2 x2] & H2 & [= <- <-]). rewrite app_assoc. eapply IH; [by eapply yruns_step|done|done].
Qed.

(** The call of the lock server and its answer. *)
Definition ask (c : sint) (t : Z) : list ylabel := map LLock [SSend c t; SServe c t; SReply c t].

(** Client 3 writes; client 4 calls [read] meanwhile, waits for the lock, and reads. *)
Definition demo_calls : list ylabel :=
  map LLock [SServer (OSubscribe (λ _, true) (SInt 3) ($"a")); SServer (OSubscribe (λ _, true) (SInt 4) ($"b"))] ++
  [LInvoke (SInt 3) 7 (YRead 9 0 3); LEnter (SInt 3) 7 1] ++ ask (SInt 3) 7 ++
  [LLeave (SInt 3) 7; LExt (SInt 3) 7 40 0 []; LRelease (SInt 3) 7; LReturn (SInt 3) 7;
   LInvoke (SInt 3) 7 (YWrite 9 1 ($"xyz")); LEnter (SInt 3) 7 2; LLeave (SInt 3) 7;
   LInvoke (SInt 4) 8 (YRead 9 0 100); LEnter (SInt 4) 8 1] ++ ask (SInt 4) 8 ++
  map LLock [SServer ORevoker; SRevoke (SInt 3) (Ull 9) (Ull 2)] ++
  [LExt (SInt 3) 7 41 0 []; LRelease (SInt 3) 7; LLock (STake (SInt 3)); LDorelease (SInt 3) 50; LReturn (SInt 3) 7] ++
  map LLock [SReturn (SInt 3); SServer ORetryer; SRetry (SInt 4) (Ull 9); SWake (SInt 4) 8 2] ++ ask (SInt 4) 8 ++
  [LLeave (SInt 4) 8; LExt (SInt 4) 8 60 0 []; LRelease (SInt 4) 8; LReturn (SInt 4) 8].

Definition demo_history : list event :=
  [EInvoke (SInt 3) 7 (YRead 9 0 3); EReturn (SInt 3) 7 (RData 0 ($"abc"));
   EInvoke (SInt 3) 7 (YWrite 9 1 ($"xyz")); EInvoke (SInt 4) 8 (YRead 9 0 100);
   EReturn (SInt 3) 7 (RStatus 0); EReturn (SInt 4) 8 (RData 0 ($"axyz"))].

Lemma one_file_known : known_files (one_file 9 ($"abc")).
Proof.
  intros id x Hx. apply (lookup_singleton_Some (M := gmap Z) 9 id ($"abc") x) in Hx as [<- <-].
  apply at_one_file. vm_compute. discriminate.
Qed.

