(* ===== verification/ExtentSim.v ===== *)
(** * Exchanging the extent server under its clients

    The extent client and the file system client see the extent server through the
    interface [ExtentService].  [ServiceSim R] says that a service can be exchanged for another:
    whatever the first returns in a state, the second returns in every related state,
    and the states are related again.  Then the same holds of every method of the extent
    client and of every program of the file system client. *)

From S2P Require Import Prelude.
From S2P Require Import Protocol.
From S2P Require Import ExtentServer.
From S2P Require Import ExtentClient.
From S2P Require Import YfsClient.

(** What the first returns, the second returns too. *)
Definition sim_res {Σ1 Σ2 X} (R : Σ1 → Σ2 → Prop) (o1 : option (X * Σ1)) (o2 : option (X * Σ2)) : Prop :=
  ∀ x s1, o1 = Some (x, s1) → ∃ s2, o2 = Some (x, s2) ∧ R s1 s2.

Class ServiceSim {Σ1 Σ2} `{E1 : ExtentService Σ1} `{E2 : ExtentService Σ2} (R : Σ1 → Σ2 → Prop) : Prop := {
  sim_get now id off size s1 s2 : R s1 s2 → sim_res R (es_get now id off size s1) (es_get now id off size s2);
  sim_getattr id s1 s2 : R s1 s2 → sim_res R (es_getattr id s1) (es_getattr id s2);
  sim_remove now pid name s1 s2 : R s1 s2 → sim_res R (es_remove now pid name s1) (es_remove now pid name s2);
  sim_readdir di s1 s2 : R s1 s2 → sim_res R (es_readdir di s1) (es_readdir di s2);
  sim_createFile now rnd parent name mode s1 s2 :
    R s1 s2 → sim_res R (es_createFile now rnd parent name mode s1) (es_createFile now rnd parent name mode s2);
  sim_open now id s1 s2 : R s1 s2 → sim_res R (es_open now id s1) (es_open now id s2);
  sim_createDir now rnd parent name s1 s2 :
    R s1 s2 → sim_res R (es_createDir now rnd parent name s1) (es_createDir now rnd parent name s2);
  sim_setMode now id mode s1 s2 : R s1 s2 → sim_res R (es_setMode now id mode s1) (es_setMode now id mode s2);
  sim_getMode id s1 s2 : R s1 s2 → sim_res R (es_getMode id s1) (es_getMode id s2);
  sim_setAttr now id a s1 s2 : R s1 s2 → sim_res R (es_setAttr now id a s1) (es_setAttr now id a s2);
  sim_write now id off size buf s1 s2 :
    R s1 s2 → sim_res R (es_write now id off size buf s1) (es_write now id off size buf s2);
}.

Create HintDb sim discriminated.
#[export] Hint Resolve sim_get sim_getattr sim_remove sim_readdir sim_createFile sim_open sim_createDir
  sim_setMode sim_getMode sim_setAttr sim_write : sim.

Section sim.
Context {Σ1 Σ2 : Type} `{E1 : ExtentService Σ1} `{E2 : ExtentService Σ2} (R : Σ1 → Σ2 → Prop) {HR : ServiceSim R}.

Lemma sim_some {X} (x : X) s1 s2 : R s1 s2 → sim_res R (Some (x, s1)) (Some (x, s2)).
Proof using Type. intros H y s [= -> ->]. eauto. Qed.
Lemma sim_none {X} (o : option (X * Σ2)) : sim_res R None o.
Proof using Type. by intros x s. Qed.

Lemma sim_bind {X Y} (o1 : option (X * Σ1)) (o2 : option (X * Σ2)) (k1 : X * Σ1 → option (Y * Σ1)) k2 :
  sim_res R o1 o2 → (∀ x s1 s2, R s1 s2 → sim_res R (k1 (x, s1)) (k2 (x, s2))) → sim_res R (o1 ≫= k1) (o2 ≫= k2).
Proof using Type.
  intros Ho Hk y s H. apply bind_Some in H as ([x s1] & E & H). destruct (Ho x s1 E) as (s2 & -> & HR12).
  exact (Hk x s1 s2 HR12 y s H).
Qed.

(** A step without the server. *)
Lemma sim_pure {X Y} (o : option X) (k1 : X → option (Y * Σ1)) k2 :
  (∀ x, sim_res R (k1 x) (k2 x)) → sim_res R (o ≫= k1) (o ≫= k2).
Proof using Type. intros Hk y s H. apply bind_Some in H as (x & -> & H). exact (Hk x y s H). Qed.

(** A step with nothing but the server. *)
Lemma sim_state {Y} (o1 : option Σ1) (o2 : option Σ2) (k1 : Σ1 → option (Y * Σ1)) k2 :
  (∀ s1, o1 = Some s1 → ∃ s2, o2 = Some s2 ∧ R s1 s2) → (∀ s1 s2, R s1 s2 → sim_res R (k1 s1) (k2 s2)) →
  sim_res R (o1 ≫= k1) (o2 ≫= k2).
Proof using Type.
  intros Ho Hk y s H. apply bind_Some in H as (s1 & E & H). destruct (Ho s1 E) as (s2 & -> & HR12).
  exact (Hk s1 s2 HR12 y s H).
Qed.

(** A call whose status is asserted. *)
Lemma sim_checked (o1 : option (Z * Σ1)) (o2 : option (Z * Σ2)) (b : Z → option unit) k1 k2 :
  sim_res R o1 o2 → (∀ s1 s2, R s1 s2 → ∀ t1, k1 s1 = Some t1 → ∃ t2, k2 s2 = Some t2 ∧ R t1 t2) →
  ∀ t1, ('(ret, s) ← o1; _ ← b ret; k1 s) = Some t1 → ∃ t2, ('(ret, s) ← o2; _ ← b ret; k2 s) = Some t2 ∧ R t1 t2.
Proof using Type.
  intros Ho Hk t1 H. apply bind_Some in H as ([ret s1] & E & H). destruct (Ho ret s1 E) as (s2 & -> & HR12).
  cbn [mbind option_bind]. destruct (b ret) as [[]|]; [|done]. exact (Hk s1 s2 HR12 t1 H).
Qed.
End sim.

#[export] Hint Resolve sim_some sim_none : sim.

(** One step of both sides. *)
Ltac sim_step :=
  match goal with
  | |- sim_res _ (match ?b with true => _ | false => _ end) _ => destruct b
  | |- sim_res _ (Some _) (Some _) => apply sim_some; assumption
  | |- sim_res _ None _ => apply sim_none
  | |- sim_res ?R (?o ≫= _) (?o ≫= _) => apply (sim_pure R); intros ?
  | |- sim_res ?R (_ ≫= _) (_ ≫= _) =>
      apply (sim_bind R); [auto with sim|intros ? ? ? ?; repeat match goal with p : (_ * _)%type |- _ => destruct p end]
  | |- sim_res _ _ _ => solve [auto with sim]
  end.

Section client.
Context {Σ1 Σ2 : Type} `{E1 : ExtentService Σ1} `{E2 : ExtentService Σ2} (R : Σ1 → Σ2 → Prop) {HR : ServiceSim R}.
Import extent_client.

Lemma getAttr_sim id e s1 s2 : R s1 s2 → sim_res R (getAttr id e s1) (getAttr id e s2).
Proof using HR. intros H. unfold getAttr. repeat sim_step. Qed.
Lemma getMode_sim id mode e s1 s2 : R s1 s2 → sim_res R (getMode id mode e s1) (getMode id mode e s2).
Proof using HR. intros H. unfold getMode. repeat sim_step. Qed.
#[local] Hint Resolve getAttr_sim getMode_sim : sim.

Lemma read_sim now id off size junk buf e s1 s2 :
  R s1 s2 → sim_res R (read now id off size junk buf e s1) (read now id off size junk buf e s2).
Proof using HR. intros H. unfold read. repeat sim_step. Qed.
Lemma remove_sim now id name e s1 s2 : R s1 s2 → sim_res R (remove now id name e s1) (remove now id name e s2).
Proof using HR. intros H. unfold remove. repeat sim_step. Qed.
Lemma readdir_sim di e s1 s2 : R s1 s2 → sim_res R (readdir di e s1) (readdir di e s2).
Proof using HR. intros H. unfold readdir. repeat sim_step. Qed.
Lemma createFile_sim now rnd parent name mode e s1 s2 :
  R s1 s2 → sim_res R (createFile now rnd parent name mode e s1) (createFile now rnd parent name mode e s2).
Proof using HR. intros H. unfold createFile. repeat sim_step. Qed.
Lemma open_sim now id e s1 s2 : R s1 s2 → sim_res R (open now id e s1) (open now id e s2).
Proof using HR. intros H. unfold open. repeat sim_step. Qed.
Lemma createDir_sim now rnd parent name e s1 s2 :
  R s1 s2 → sim_res R (createDir now rnd parent name e s1) (createDir now rnd parent name e s2).
Proof using HR. intros H. unfold createDir. repeat sim_step. Qed.
Lemma setMode_sim now id mode e s1 s2 : R s1 s2 → sim_res R (setMode now id mode e s1) (setMode now id mode e s2).
Proof using HR. intros H. unfold setMode. repeat sim_step. Qed.
Lemma setAttr_sim now id a e s1 s2 : R s1 s2 → sim_res R (setAttr now id a e s1) (setAttr now id a e s2).
Proof using HR. intros H. unfold setAttr. repeat sim_step. Qed.
Lemma write_sim now id off size buf e s1 s2 :
  R s1 s2 → sim_res R (write now id off size buf e s1) (write now id off size buf e s2).
Proof using HR. intros H. unfold write. repeat sim_step. Qed.

Lemma flush_sim now id e s1 s2 : R s1 s2 → sim_res R (flush now id e s1) (flush now id e s2).
Proof using HR.
  intros H. unfold flush. destruct (negb _); [by apply sim_some|].
  apply (sim_state R); [|intros; by apply sim_some].
  destruct (status_is _ _ _); [|intros s [= <-]; eauto].
  apply (sim_checked R); [auto with sim|]. intros t1 t2 H1. apply (sim_checked R); [auto with sim|]. intros u1 u2 H2.
  apply (sim_checked R); [auto with sim|]. intros v1 v2 H3 w1 [= <-]. eauto.
Qed.

(** Programs of the file system client. *)

Lemma ecall_run_sim now junk rnd {B} (c : ecall B) e s1 s2 :
  R s1 s2 → sim_res R (ecall_run now junk rnd c e s1) (ecall_run now junk rnd c e s2).
Proof using HR.
  intros H. destruct c; cbn [ecall_run].
  - apply (sim_bind R); [by apply getAttr_sim|]. intros [[ret a] e'] ? ? ?. by apply sim_some.
  - by apply setAttr_sim.
  - apply (sim_bind R); [by apply readdir_sim|]. intros [[ret m] e'] ? ? ?. by apply sim_some.
  - by apply createFile_sim.
  - by apply createDir_sim.
  - apply (sim_bind R); [by apply read_sim|]. intros [[ret x] e'] ? ? ?. by apply sim_some.
  - by apply write_sim.
  - by apply remove_sim.
  - by apply open_sim.
Qed.

Definition with_server {Σ Σ'} (y : ystate Σ) (s : Σ') : ystate Σ' := Yst (y_held y) (y_ec y) s (y_tick y).

Lemma run_sim env {A} (p : yprog A) y s2 a y' :
  R (y_es y) s2 → run env p y = Some (a, y') →
  ∃ s2', run env p (with_server y s2) = Some (a, with_server y' s2') ∧ R (y_es y') s2'.
Proof using HR.
  revert y s2. induction p as [x|id k IH|id k IH|k IH|B c k IH]; intros y s2 H E; cbn [run] in *.
  - injection E as <- <-. eauto.
  - by apply (IH _ _ s2) in E.
  - by apply (IH _ _ s2) in E.
  - by apply (IH _ _ s2) in E.
  - apply bind_Some in E as ([[r e] s1] & Ec & E).
    destruct (ecall_run_sim _ _ _ _ _ _ s2 H _ _ Ec) as (s2' & Ec2 & H2).
    cbn [with_server y_ec y_es y_tick y_held]. rewrite Ec2. cbn [mbind option_bind]. by apply (IH _ _ s2') in E.
Qed.
End client.
