(* ===== verification/ExtentRemote.v ===== *)
(** * The extent server over the network

    extent_smain.cc: the process that registers the handlers of the extent server.  The
    extent client calls it through the RPC library: the stubs, the frames, the dispatch
    and the duplicate check of RpcSession.v are an instance of the interface
    [ExtentService] of ExtentClient.v.  The class [ServiceSim] says when one instance can stand
    for another under the extent client and the file system client; it has two instances,
    which together say that programs of the file system client run over the network
    as they run on the handlers themselves. *)

From S2P Require Import Prelude.
From S2P Require Import Marshall.
From S2P Require Import Protocol.
From S2P Require Import RpcWindow.
From S2P Require Import RpcStubs.
From S2P Require Import Connection.
From S2P Require Import ConnHeap.
From S2P Require Import RpcServer.
From S2P Require Import RpcClient.
From S2P Require Import RpcEnd.
From S2P Require Import RpcSession.
From S2P Require Import ExtentServer.
From S2P Require Import ExtentClient.
From S2P Require Import YfsClient.
From S2P Require Import ExtentSim.

(** ** The process *)

Definition write_num : Z := 24577.
Definition get_num : Z := 24578.
Definition getattr_num : Z := 24579.
Definition remove_num : Z := 24580.
Definition readdir_num : Z := 24581.
Definition createFile_num : Z := 24582.
Definition open_num : Z := 24583.
Definition createDir_num : Z := 24584.
Definition setMode_num : Z := 24585.
Definition getMode_num : Z := 24592.
Definition setAttr_num : Z := 24593.
Definition put_num : Z := 24594.

(** The state of the process, with what [time] and /dev/urandom will return. *)
Record process := Process { p_server : extent_server.t; p_now : Z; p_rnd : list Z }.
Definition set_server (s : extent_server.t) (x : process) : process := Process s (p_now x) (p_rnd x).

(** The methods as the stubs call them.  A result variable that is not set keeps its value. *)
Definition do_get (i off : ull) (size : uint) (r : cstring) (x : process) : option (Z * cstring * process) :=
  '(ret, r, s) ← extent_server.get (p_now x) (ull_val i) (ull_val off) (uint_val size) r (p_server x);
  Some (ret, r, set_server s x).
Definition do_getattr (i : ull) (r : attr) (x : process) : option (Z * attr * process) :=
  let '(ret, r, s) := extent_server.getattr (ull_val i) r (p_server x) in Some (ret, r, set_server s x).
Definition do_put (i : ull) (buf : cstring) (r : sint) (x : process) : option (Z * sint * process) :=
  let '(ret, s) := extent_server.put (p_now x) (ull_val i) buf (p_server x) in Some (ret, r, set_server s x).
Definition do_remove (pid : ull) (name : cstring) (r : sint) (x : process) : option (Z * sint * process) :=
  let '(ret, s) := extent_server.remove (p_now x) (p_now x) (p_now x) (ull_val pid) name (p_server x) in
  Some (ret, r, set_server s x).
Definition do_readdir (di : ull) (r : gmap cstring ull) (x : process) : option (Z * gmap cstring ull * process) :=
  let '(ret, m, s) := extent_server.readdir (ull_val di) (ull_val <$> r) (p_server x) in
  Some (ret, Ull <$> m, set_server s x).
Definition do_createFile (parent : ull) (name : cstring) (mode : uint) (r : ull) (x : process)
    : option (Z * ull * process) :=
  '(ret, i, s) ← extent_server.createFile (p_now x) (p_rnd x) (ull_val parent) name (uint_val mode) (ull_val r) (p_server x);
  Some (ret, Ull i, set_server s x).
Definition do_open (i : ull) (r : sint) (x : process) : option (Z * sint * process) :=
  let '(ret, s) := extent_server.open (p_now x) (ull_val i) (p_server x) in Some (ret, r, set_server s x).
Definition do_createDir (parent : ull) (name : cstring) (r : sint) (x : process) : option (Z * sint * process) :=
  '(ret, s) ← extent_server.createDir (p_now x) (p_rnd x) (ull_val parent) name (p_server x); Some (ret, r, set_server s x).
Definition do_setMode (i : ull) (mode : uint) (r : sint) (x : process) : option (Z * sint * process) :=
  let '(ret, s) := extent_server.setMode (p_now x) (ull_val i) (uint_val mode) (p_server x) in Some (ret, r, set_server s x).
Definition do_getMode (i : ull) (r : uint) (x : process) : option (Z * uint * process) :=
  let '(ret, mode, s) := extent_server.getMode (ull_val i) (uint_val r) (p_server x) in
  Some (ret, UInt mode, set_server s x).
Definition do_setAttr (i : ull) (a : attr) (r : sint) (x : process) : option (Z * sint * process) :=
  '(ret, s) ← extent_server.setAttr (p_now x) (ull_val i) a (p_server x); Some (ret, r, set_server s x).
Definition do_write (i off : ull) (size : uint) (buf : cstring) (r : sint) (x : process) : option (Z * sint * process) :=
  '(ret, s) ← extent_server.write (p_now x) (ull_val i) (ull_val off) (uint_val size) buf (p_server x);
  Some (ret, r, set_server s x).

(** The registrations; the result variables of class type are empty, the others are not
    initialised. *)
Definition extent_procs : list (Z * handler process) :=
  [(get_num, rpcs_reg3 [] do_get); (getattr_num, rpcs_reg1 extent_server.attr0 do_getattr);
   (put_num, rpcs_reg2 (SInt 0) do_put); (remove_num, rpcs_reg2 (SInt 0) do_remove);
   (readdir_num, rpcs_reg1 ∅ do_readdir); (createFile_num, rpcs_reg3 (Ull 0) do_createFile);
   (open_num, rpcs_reg1 (SInt 0) do_open); (createDir_num, rpcs_reg2 (SInt 0) do_createDir);
   (setMode_num, rpcs_reg2 (SInt 0) do_setMode); (getMode_num, rpcs_reg1 (UInt 0) do_getMode);
   (setAttr_num, rpcs_reg2 (SInt 0) do_setAttr); (write_num, rpcs_reg4 (SInt 0) do_write)].

(** [rnd] is the value of [random], [now] the time when the server is made. *)
Definition extent_smain (rnd count now : Z) : option (rpcs process) :=
  start_rpcs rnd count (Process (extent_server.new_extent_server now) now []) extent_procs.

(** ** The server as the client sees it *)

Section remote.
Context (junk : nat → ascii) (cn : nat).

(** The clock and the random numbers of the process during the next call. *)
Definition at_time (now : Z) (rnd : list Z) (s : rpcc * world process) : rpcc * world process :=
  let '(c, w) := s in
  (c, upd (set_service (Process (p_server (service (w_srv w))) now rnd) (w_srv w)) (w_heap w) w).

Definition status_of (o : option (Z * sint * (rpcc * world process))) : option (Z * (rpcc * world process)) :=
  '(ret, _, s) ← o; Some (ret, s).

Definition listing_of (o : option (Z * gmap cstring ull * (rpcc * world process)))
    : option (Z * gmap cstring Z * (rpcc * world process)) :=
  '(ret, m, s) ← o; Some (ret, ull_val <$> (m : gmap cstring ull), s).

(** The remote calls of extent_client.cc. *)
Definition remote_extents : ExtentService (rpcc * world process) := {|
  es_get now id off size s := remote3 junk cn get_num (Ull id) (Ull off) (UInt size) ([] : cstring) (at_time now [] s);
  es_getattr id s := remote1 junk cn getattr_num (Ull id) extent_server.attr0 s;
  es_remove now pid name s := status_of (remote2 junk cn remove_num (Ull pid) name (SInt 0) (at_time now [] s));
  es_readdir di s := listing_of (remote1 junk cn readdir_num (Ull di) (∅ : gmap cstring ull) s);
  es_createFile now rnd parent name mode s :=
    '(ret, i, s) ← remote3 junk cn createFile_num (Ull parent) name (UInt mode) (Ull 0) (at_time now rnd s);
    Some (ret, ull_val i, s);
  es_open now id s := status_of (remote1 junk cn open_num (Ull id) (SInt 0) (at_time now [] s));
  es_createDir now rnd parent name s :=
    status_of (remote2 junk cn createDir_num (Ull parent) name (SInt 0) (at_time now rnd s));
  es_setMode now id mode s := status_of (remote2 junk cn setMode_num (Ull id) (UInt mode) (SInt 0) (at_time now [] s));
  es_getMode id s := '(ret, mode, s) ← remote1 junk cn getMode_num (Ull id) (UInt 0) s; Some (ret, uint_val mode, s);
  es_setAttr now id a s := status_of (remote2 junk cn setAttr_num (Ull id) a (SInt 0) (at_time now [] s));
  es_write now id off size buf s :=
    status_of (remote4 junk cn write_num (Ull id) (Ull off) (UInt size) buf (SInt 0) (at_time now [] s));
|}.
End remote.

(** ** What fits into messages *)

Class WireDec (A : Type) `{WireOk A} := w_wf_dec (a : A) :: Decision (w_wf a).

#[export] Instance sint_wire_dec : WireDec sint := λ a, decide (- 2 ^ 31 <= sint_val a < 2 ^ 31).
#[export] Instance uint_wire_dec : WireDec uint := λ a, decide (0 <= uint_val a < 2 ^ 32).
#[export] Instance ull_wire_dec : WireDec ull := λ a, decide (0 <= ull_val a < 2 ^ 64).
#[export] Instance cstring_wire_dec : WireDec cstring := λ a, decide (Z.of_nat (length a) < 2 ^ 31).
#[export] Instance attr_wire_dec : WireDec attr := λ a,
  decide (0 <= atime a < 2 ^ 32 ∧ 0 <= mtime a < 2 ^ 32 ∧ 0 <= ctime a < 2 ^ 32 ∧ 0 <= size_ a < 2 ^ 32).
#[export] Instance pair_wire_dec `{WireDec A, WireDec B} : WireDec (A * B) := λ p, decide (w_wf (fst p) ∧ w_wf (snd p)).
#[export] Instance map_wire_dec `{Countable A, CppLess A, !Wire A, !WireOk A, !WireDec A, !Wire B, !WireOk B, !WireDec B}
  : WireDec (gmap A B) := λ d, decide (Forall w_wf (map_entries d) ∧ Z.of_nat (size d) < 2 ^ 31).
#[export] Instance fits_dec `{WireDec A} (a : A) : Decision (fits a) :=
  decide (w_wf a ∧ Z.of_nat (length (w_enc a)) + 24 <= MAX_PDU).

(** The handlers themselves, for at most [ck_left] calls, as long as arguments and results
    are values of their C++ types and fit into a message. *)
Record checked := Checked { ck_left : nat; ck_srv : extent_server.t }.

Definition one_less (k : checked) : option nat := match ck_left k with O => None | S n => Some n end.

Definition ck_result `{WireDec A, WireDec W} {R} (a : A) (wrap : R → W) (k : checked)
    (o : option (Z * R * extent_server.t)) : option (Z * R * checked) :=
  n ← one_less k;
  if negb (bool_decide (fits a)) then None else
  '(ret, r, s) ← o;
  if bool_decide (0 <= ret < 2 ^ 31 ∧ fits (wrap r)) then Some (ret, r, Checked n s) else None.

Definition ck_status `{WireDec A} (a : A) (k : checked) (o : option (Z * extent_server.t)) : option (Z * checked) :=
  n ← one_less k;
  if negb (bool_decide (fits a)) then None else
  '(ret, s) ← o;
  if bool_decide (0 <= ret < 2 ^ 31) then Some (ret, Checked n s) else None.

#[export] Instance checked_extents : ExtentService checked := {
  es_get now id off size k :=
    ck_result (Ull id, (Ull off, UInt size)) (λ r : cstring, r) k (extent_server.get now id off size [] (ck_srv k));
  es_getattr id k := ck_result (Ull id) (λ r : attr, r) k (Some (extent_server.getattr id extent_server.attr0 (ck_srv k)));
  es_remove now pid name k := ck_status (Ull pid, name) k (Some (extent_server.remove now now now pid name (ck_srv k)));
  es_readdir di k :=
    ck_result (Ull di) (λ r : gmap cstring Z, Ull <$> r) k (Some (extent_server.readdir di ∅ (ck_srv k)));
  es_createFile now rnd parent name mode k :=
    ck_result (Ull parent, (name, UInt mode)) Ull k (extent_server.createFile now rnd parent name mode 0 (ck_srv k));
  es_open now id k := ck_status (Ull id) k (Some (extent_server.open now id (ck_srv k)));
  es_createDir now rnd parent name k :=
    ck_status (Ull parent, name) k (extent_server.createDir now rnd parent name (ck_srv k));
  es_setMode now id mode k := ck_status (Ull id, UInt mode) k (Some (extent_server.setMode now id mode (ck_srv k)));
  es_getMode id k := ck_result (Ull id) UInt k (Some (extent_server.getMode id 0 (ck_srv k)));
  es_setAttr now id a k := ck_status (Ull id, a) k (extent_server.setAttr now id a (ck_srv k));
  es_write now id off size buf k :=
    ck_status (Ull id, (Ull off, (UInt size, buf))) k (extent_server.write now id off size buf (ck_srv k));
}.

(** ** The checked handlers are the handlers *)

Definition unchecked (k : checked) (s : extent_server.t) : Prop := s = ck_srv k.

Lemma ck_result_sim `{WireDec A, WireDec W} {R} (a : A) (wrap : R → W) k s o1 o2 :
  unchecked k s → o1 = o2 → sim_res unchecked (ck_result a wrap k o1) o2.
Proof.
  intros -> -> [ret r] k' Hc. unfold ck_result in Hc. apply bind_Some in Hc as (n & _ & Hc).
  destruct (negb _); [done|]. apply bind_Some in Hc as ([[ret' r'] s] & -> & Hc). case_bool_decide; [|done].
  injection Hc as -> -> <-. by exists s.
Qed.

Lemma ck_status_sim `{WireDec A} (a : A) k s o1 o2 :
  unchecked k s → o1 = o2 → sim_res unchecked (ck_status a k o1) o2.
Proof.
  intros -> -> ret k' Hc. unfold ck_status in Hc. apply bind_Some in Hc as (n & _ & Hc).
  destruct (negb _); [done|]. apply bind_Some in Hc as ([ret' s] & -> & Hc). case_bool_decide; [|done].
  injection Hc as -> <-. by exists s.
Qed.

#[export] Instance unchecked_sim : ServiceSim unchecked.
Proof.
  split; intros; cbn [es_get es_getattr es_remove es_readdir es_createFile es_open es_createDir es_setMode es_getMode
    es_setAttr es_write checked_extents extent_server_service]; unfold unchecked in *; subst;
    first [by eapply ck_result_sim|by eapply ck_status_sim].
Qed.

(** ** The remote server stands for the checked handlers *)

Section over_rpc.
Context (junk : nat → ascii) (cn : nat).

Definition serving (k : checked) (s : rpcc * world process) : Prop :=
  open_session (fst s) (snd s) cn ∧ Forall (λ p, procs_ (w_srv (snd s)) !! fst p = Some (snd p)) extent_procs ∧
  p_server (service (w_srv (snd s))) = ck_srv k ∧ xid_ (fst s) + Z.of_nat (ck_left k) < 2 ^ 32.

Lemma at_time_serving k now rnd s : serving k s → serving k (at_time now rnd s).
Proof using Type.
  destruct s as [c w]. intros ([[[? ? ? ? ? ? ? ? ? ?] ? ? ?] [? ? _]] & Hp & Hs & Hx). cbn [fst snd] in *.
  split_and!; [|done|done|done]. cbn [fst snd at_time].
  assert (linked c (upd (set_service (Process (p_server (service (w_srv w))) now rnd) (w_srv w)) (w_heap w) w) cn) by by split.
  by split.
Qed.

Lemma extent_nums : Forall (λ p : Z * handler process, fst p ≠ bind_proc ∧ s32 (fst p) = fst p) extent_procs.
Proof using Type. repeat constructor; done. Qed.

(** One call: [meth] is the method on the tuple of its arguments. *)
Lemma serving_call `{WireOk A, WireOk W} n f (r0 : W) (meth : A → W → process → option (Z * W * process)) a ret r s' k left s :
  serving k s → one_less k = Some left → (n, f) ∈ extent_procs → (∀ u m x, f u m x = rpcs_reg1 r0 meth u m x) → fits a →
  (∃ x', meth a r0 (service (w_srv (snd s))) = Some (ret, r, x') ∧ p_server x' = s') → 0 <= ret < 2 ^ 31 → fits r →
  ∃ s2, remote1 junk cn n a w_def s = Some (ret, r, s2) ∧ serving (Checked left s') s2.
Proof using Type.
  destruct s as [c w]. intros (O & Hp & Hs & Hx) Hl Hin Ef Ha (x' & Hm & Hx') Hret Hr. cbn [fst snd] in *.
  pose proof (proj1 (Forall_forall _ _) Hp _ Hin) as Hf. destruct (proj1 (Forall_forall _ _) extent_nums _ Hin) as [Hn Hs32].
  cbn [fst snd] in *. unfold one_less in Hl. destruct (ck_left k) eqn:El; [done|]. injection Hl as ->.
  destruct (remote1_ok junk cn f r0 meth n a ret w_def r c w x' O Hn) as (c' & w' & E & O' & Es & Ep & Ex);
    [lia|by rewrite Hs32|done|done|done|done|done|apply w_get_ok, Hr|].
  exists (c', w'). split; [exact E|]. split_and!; cbn [fst snd ck_left ck_srv]; [done|by rewrite Ep|by rewrite Es|lia].
Qed.

Lemma serving_result `{WireDec A, WireDec W} {R} n f (r0 : W) meth (a : A) (wrap : R → W) k s o ret r k' :
  serving k s → (n, f) ∈ extent_procs → (∀ u m x, f u m x = rpcs_reg1 r0 meth u m x) →
  (∀ ret r s', o = Some (ret, r, s') → ∃ x', meth a r0 (service (w_srv (snd s))) = Some (ret, wrap r, x') ∧ p_server x' = s') →
  ck_result a wrap k o = Some (ret, r, k') →
  ∃ s2, remote1 junk cn n a w_def s = Some (ret, wrap r, s2) ∧ serving k' s2.
Proof using Type.
  intros Hs Hin Hf Hm Hc. unfold ck_result in Hc. apply bind_Some in Hc as (left & Hl & Hc).
  case_bool_decide as Ha; [|done]. cbn [negb] in Hc. apply bind_Some in Hc as ([[ret' r'] s'] & -> & Hc).
  case_bool_decide as Hr; [|done]. injection Hc as -> -> <-. destruct Hr as [Hret Hr].
  by apply (serving_call n f r0 meth a ret (wrap r) s' k left s Hs Hl Hin Hf Ha (Hm _ _ _ eq_refl)).
Qed.

Lemma fits_zero : fits (SInt 0).
Proof using Type.
  split; [by split|]. cbn [w_enc sint_wire_ok]. rewrite length_enc_u32. change MAX_PDU with 10485760. lia.
Qed.

Lemma serving_status `{WireDec A} n f meth (a : A) k s o ret k' :
  serving k s → (n, f) ∈ extent_procs → (∀ u m x, f u m x = rpcs_reg1 (SInt 0) meth u m x) →
  (∀ ret s', o = Some (ret, s') → ∃ x', meth a (SInt 0) (service (w_srv (snd s))) = Some (ret, SInt 0, x') ∧ p_server x' = s') →
  ck_status a k o = Some (ret, k') →
  ∃ s2, status_of (remote1 junk cn n a w_def s) = Some (ret, s2) ∧ serving k' s2.
Proof using Type.
  intros Hs Hin Hf Hm Hc. unfold ck_status in Hc. apply bind_Some in Hc as (left & Hl & Hc).
  case_bool_decide as Ha; [|done]. cbn [negb] in Hc. apply bind_Some in Hc as ([ret' s'] & -> & Hc).
  case_bool_decide as Hret; [|done]. injection Hc as -> <-.
  destruct (serving_call n f (SInt 0) meth a ret (SInt 0) s' k left s Hs Hl Hin Hf Ha (Hm _ _ eq_refl) Hret) as (s2 & E & H2);
    [apply fits_zero|].
  exists s2. unfold status_of. by rewrite E.
Qed.

(** The service of the process is the checked one. *)
Lemma serving_server k s : serving k s → p_server (service (w_srv (snd s))) = ck_srv k.
Proof using Type. by intros (_ & _ & Hs & _). Qed.

Lemma unwrap_listing (m : gmap cstring Z) : ull_val <$> (Ull <$> m) = m.
Proof using Type. rewrite <- map_fmap_compose. apply map_fmap_id. Qed.

Ltac in_procs := unfold extent_procs; rewrite !elem_of_cons; tauto.
Lemma at_time_service now rnd s :
  service (w_srv (snd (at_time now rnd s))) = Process (p_server (service (w_srv (snd s)))) now rnd.
Proof using Type. by destruct s. Qed.

(** The method on the state of the process is the method on the checked server. *)
Ltac method H :=
  let E := fresh "E" in intros; match goal with E' : _ = Some _ |- _ => rename E' into E end;
  rewrite ?at_time_service; rewrite <- (serving_server _ _ H) in E;
  unfold do_get, do_getattr, do_remove, do_readdir, do_createFile, do_open, do_createDir, do_setMode, do_getMode, do_setAttr, do_write;
  rewrite ?fmap_empty; cbn [fst snd ull_val uint_val sint_val p_server p_now p_rnd];
  first [rewrite E|apply (inj Some) in E; rewrite E]; eexists; split; reflexivity.

#[export] Instance serving_sim : @ServiceSim _ _ checked_extents (remote_extents junk cn) serving.
Proof using Type.
  split; intros * H; (pose proof (λ now rnd, at_time_serving _ now rnd _ H) as Ht); intros x k' Hc.
  - cbn [es_get remote_extents]. rewrite remote3_tuple. destruct x as [ret r].
    eapply (serving_result get_num _ [] (λ p, do_get (fst p) (fst (snd p)) (snd (snd p))) _ (λ r : cstring, r)) in Hc;
      [exact Hc|apply Ht|in_procs|intros; by rewrite rpcs_reg3_tuple|method H].
  - destruct x as [ret r].
    eapply (serving_result getattr_num _ extent_server.attr0 do_getattr _ (λ r : attr, r)) in Hc;
      [exact Hc|done|in_procs|done|method H].
  - cbn [es_remove remote_extents]. rewrite remote2_tuple.
    eapply (serving_status remove_num _ (λ p, do_remove (fst p) (snd p))) in Hc;
      [exact Hc|apply Ht|in_procs|intros; by rewrite rpcs_reg2_tuple|method H].
  - destruct x as [ret r]. eapply (serving_result readdir_num _ ∅ do_readdir _ (λ r : gmap cstring Z, Ull <$> r)) in Hc;
      [|done|in_procs|done|method H].
    destruct Hc as (t2 & E & Hs). exists t2. cbn [es_readdir remote_extents]. unfold listing_of.
    change (∅ : gmap cstring ull) with (w_def (A := gmap cstring ull)). rewrite E. cbn [mbind option_bind]. rewrite unwrap_listing. split; [reflexivity|exact Hs].
  - cbn [es_createFile remote_extents]. rewrite remote3_tuple. destruct x as [ret r].
    eapply (serving_result createFile_num _ (Ull 0) (λ p, do_createFile (fst p) (fst (snd p)) (snd (snd p))) _ Ull) in Hc;
      [|apply Ht|in_procs|intros; by rewrite rpcs_reg3_tuple|method H].
    destruct Hc as (t2 & E & Hs). exists t2. change (Ull 0) with (w_def (A := ull)). rewrite E. split; [reflexivity|exact Hs].
  - eapply (serving_status open_num _ do_open) in Hc; [exact Hc|apply Ht|in_procs|done|method H].
  - cbn [es_createDir remote_extents]. rewrite remote2_tuple.
    eapply (serving_status createDir_num _ (λ p, do_createDir (fst p) (snd p))) in Hc;
      [exact Hc|apply Ht|in_procs|intros; by rewrite rpcs_reg2_tuple|method H].
  - cbn [es_setMode remote_extents]. rewrite remote2_tuple.
    eapply (serving_status setMode_num _ (λ p, do_setMode (fst p) (snd p))) in Hc;
      [exact Hc|apply Ht|in_procs|intros; by rewrite rpcs_reg2_tuple|method H].
  - destruct x as [ret r]. eapply (serving_result getMode_num _ (UInt 0) do_getMode _ UInt) in Hc; [|done|in_procs|done|method H].
    destruct Hc as (t2 & E & Hs). exists t2. cbn [es_getMode remote_extents].
    change (UInt 0) with (w_def (A := uint)). rewrite E. split; [reflexivity|exact Hs].
  - cbn [es_setAttr remote_extents]. rewrite remote2_tuple.
    eapply (serving_status setAttr_num _ (λ p, do_setAttr (fst p) (snd p))) in Hc;
      [exact Hc|apply Ht|in_procs|intros; by rewrite rpcs_reg2_tuple|method H].
  - cbn [es_write remote_extents]. rewrite remote4_tuple.
    eapply (serving_status write_num _ (λ p, do_write (fst p) (fst (snd p)) (fst (snd (snd p))) (snd (snd (snd p))))) in Hc;
      [exact Hc|apply Ht|in_procs|intros; by rewrite rpcs_reg4_tuple|method H].
Qed.
End over_rpc.

(** ** A file system client and an extent server *)

(** A connection to a process that was just started, after [bind]. *)
Lemma serving_start junk cn rnd count now retrans rndc srv w n :
  extent_smain rnd count now = Some srv → srv_step (LAccept cn) (rpcs_world srv) = Some w → Z.of_nat n + 2 < 2 ^ 32 →
  ∃ s, rpcc_bind junk cn (new_rpcc retrans rndc, w) = Some (0, s) ∧
    serving cn (Checked n (extent_server.new_extent_server now)) s.
Proof.
  intros Hs Ha Hn. destruct (bind_new junk _ _ _ _ _ _ _ retrans rndc Hs Ha) as (c & w1 & B & O & Ek & Ex & Hp).
  exists (c, w1). split; [exact B|]. split_and!; cbn [fst snd ck_left ck_srv]; [exact O|exact Hp|by rewrite Ek|lia].
Qed.

(** C5. The file system over the network.  An extent server process is started, an extent
    client connects and binds.  Then a program of the file system client, any sequence of its
    operations, returns over the RPC library exactly what it returns when the extent client
    calls the handlers of the extent server directly, and leaves the same files,
    directories and attributes at the server and the same cache; stubs, headers, frames,
    dispatch, duplicate check and the wire format leave no trace.  It holds as long as
    arguments and results are values of their C++ types, fit into a message, and there are
    fewer calls than request numbers, which is what the run over [checked] says. *)
Theorem yfs_over_rpc junk cn rnd count now retrans rndc srv w env n {A} (p : yprog A) a y :
  extent_smain rnd count now = Some srv → srv_step (LAccept cn) (rpcs_world srv) = Some w → Z.of_nat n + 2 < 2 ^ 32 →
  run env p (Yst ∅ extent_client.new_extent_client (Checked n (extent_server.new_extent_server now)) 0) = Some (a, y) →
  run env p (Yst ∅ extent_client.new_extent_client (extent_server.new_extent_server now) 0)
    = Some (a, with_server y (ck_srv (y_es y))) ∧
  ∃ s s', rpcc_bind junk cn (new_rpcc retrans rndc, w) = Some (0, s) ∧
    @run _ (remote_extents junk cn) env A p (Yst ∅ extent_client.new_extent_client s 0) = Some (a, with_server y s') ∧
    p_server (service (w_srv (snd s'))) = ck_srv (y_es y).
Proof.
  intros Hs Ha Hn Hr. destruct (serving_start junk cn rnd count now retrans rndc srv w n Hs Ha Hn) as (s & B & Sv). split.
  - destruct (run_sim unchecked env p (Yst ∅ extent_client.new_extent_client (Checked n (extent_server.new_extent_server now)) 0)
      (extent_server.new_extent_server now) a y eq_refl Hr) as (s2 & E & ->). exact E.
  - destruct (run_sim (E2 := remote_extents junk cn) (HR := serving_sim junk cn) (serving cn) env p
      (Yst ∅ extent_client.new_extent_client (Checked n (extent_server.new_extent_server now)) 0) s a y Sv Hr) as (s' & E & H').
    exists s, s'. split_and!; [exact B|exact E|]. by apply serving_server in H'.
Qed.

(** A file is created in the root directory, written and read back. *)
Definition demo_prog : yprog (Z * cstring) :=
  '(_, id) ← yfs_client.createFile 1 ($"f") 420 0;
  _ ← yfs_client.write id 0 3 ($"abc");
  yfs_client.read id 0 3 [].
Definition demo_yenv : yenv := Yenv (λ n, Z.of_nat n + 100) (λ _, 0) (λ _, [5]).
Definition demo_start : ystate checked :=
  Yst ∅ extent_client.new_extent_client (Checked 100 (extent_server.new_extent_server 100)) 0.
Definition demo_end : ystate checked := default demo_start (snd <$> run demo_yenv demo_prog demo_start).
Definition demo_process : rpcs process :=
  default (Rpcs 0 ∅ ∅ ∅ 0 0 ∅ true (Process (extent_server.new_extent_server 0) 0 [])) (extent_smain 7 0 100).
Definition demo_connected : world process := srv_next (LAccept 1) (rpcs_world demo_process).

Lemma demo_process_starts : extent_smain 7 0 100 = Some demo_process.
Proof. unfold demo_process. destruct (extent_smain 7 0 100) as [s|] eqn:E; [reflexivity|discriminate E]. Qed.

Lemma yfs_over_rpc_witness :
  run demo_yenv demo_prog (Yst ∅ extent_client.new_extent_client (extent_server.new_extent_server 100) 0)
    = Some ((0, $"abc"), with_server demo_end (ck_srv (y_es demo_end))) ∧
  ∃ s s', rpcc_bind (λ _, "?"%char) 1 (new_rpcc true 9, demo_connected) = Some (0, s) ∧
    @run _ (remote_extents (λ _, "?"%char) 1) demo_yenv _ demo_prog (Yst ∅ extent_client.new_extent_client s 0)
      = Some ((0, $"abc"), with_server demo_end s') ∧
    p_server (service (w_srv (snd s'))) = ck_srv (y_es demo_end).
Proof.
  refine (yfs_over_rpc (λ _, "?"%char) 1 7 0 100 true 9 demo_process demo_connected demo_yenv 100 demo_prog (0, $"abc") demo_end
    _ _ _ _).
  - exact demo_process_starts.
  - exact (accept_next demo_process).
  - lia.
  - vm_compute. reflexivity.
Defined.
