(* ===== verification/Fuse.v ===== *)
(** * The FUSE front end

    fuse.cc: the callbacks of the file system.  A callback is a program of the file system
    client that ends with the list of the answers it sent to the kernel, in their order.
    The functions of the FUSE library that lay out directory entries are parameters. *)

From S2P Require Import Prelude.
From S2P Require Import Marshall.
From S2P Require Import Protocol.
From S2P Require Import ExtentServer.
From S2P Require Import ExtentClient.
From S2P Require Import YfsClient.

(** ** Data *)

(** The fields of [struct stat] that are set; the others are zero. *)
Record stat := Stat {
  st_ino : Z; st_mode : Z; st_nlink : Z; st_atime : Z; st_mtime : Z; st_ctime : Z; st_size : Z;
}.

(** [ino] and [attr] of [fuse_entry_param]. *)
Record entry_param := EntryParam { e_ino : Z; e_attr : stat }.

Inductive reply :=
  | ReplyErr (e : Z)
  | ReplyAttr (st : stat)
  | ReplyBuf (buf : cstring)
  | ReplyWrite (count : Z)
  | ReplyCreate (e : entry_param)
  | ReplyEntry (e : entry_param)
  | ReplyOpen (fh : Z)
  | ReplyStatfs (namemax bsize : Z).

Definition ENOENT : Z := 2.
Definition EIO : Z := 5.
Definition ENOTDIR : Z := 20.
Definition ENOSYS : Z := 38.
Definition FUSE_SET_ATTR_SIZE : Z := 8.

Definition S_IFREG_0666 : Z := 33206.
Definition S_IFDIR_0777 : Z := 16895.

(** [c_str()] up to the first NUL. *)
Fixpoint c_str (s : cstring) : cstring :=
  match s with [] => [] | c :: s => if bool_decide (c = "000"%char) then [] else c :: c_str s end.

Module fuse.
Import yfs_client.

Definition stat0 (inum : Z) : stat := Stat inum 0 0 0 0 0 0.

(** ** Callbacks *)

(** The status, and [st] as it is left. *)
Definition getattr (inum : Z) : yprog (Z * stat) :=
  if isfile inum then
    '(ret, info) ← getfile inum (FileInfo 0 0 0 0);
    if negb (ret =? OK) then mret (ret, stat0 inum) else
    mret (OK, Stat inum S_IFREG_0666 1 (s32 (f_atime info)) (s32 (f_mtime info)) (s32 (f_ctime info)) (f_size info))
  else
    '(ret, info) ← getdir inum (DirInfo 0 0 0);
    if negb (ret =? OK) then mret (ret, stat0 inum) else
    mret (OK, Stat inum S_IFDIR_0777 2 (s32 (d_atime info)) (s32 (d_mtime info)) (s32 (d_ctime info)) 0).

Definition fuseserver_getattr (ino : Z) : yprog (list reply) :=
  '(ret, st) ← getattr ino;
  if negb (ret =? OK) then mret [ReplyErr ENOENT] else mret [ReplyAttr st].

(** [size]: the field [st_size] of the attributes to be set. *)
Definition fuseserver_setattr (ino size to_set : Z) : yprog (list reply) :=
  let report := '(ret, st) ← getattr ino; if ret =? OK then mret [ReplyAttr st] else mret [ReplyErr ENOSYS] in
  if negb (Z.land FUSE_SET_ATTR_SIZE to_set =? 0) then
    ret ← setattr ino (FileInfo (u64 size) 0 0 0);
    if negb (ret =? OK) then mret [ReplyErr ENOSYS] else report
  else report.

(** No return after the error. *)
Definition fuseserver_read (ino size off : Z) : yprog (list reply) :=
  '(ret, buf) ← read ino off size [];
  let failed := if negb (ret =? OK) then [ReplyErr EIO] else [] in
  mret (failed ++ [ReplyBuf buf]).

Definition fuseserver_write (ino : Z) (buf : cstring) (size off : Z) : yprog (list reply) :=
  ret ← write ino off size buf;
  if ret =? OK then mret [ReplyWrite size] else mret [ReplyErr ENOSYS].

Definition fuseserver_createhelper (parent : Z) (name : cstring) (mode junk : Z) (e : entry_param)
    : yprog (Z * entry_param) :=
  '(ret, id) ← createFile parent name mode junk;
  if negb (ret =? OK) then mret (IOERR, e) else
  '(ret, st) ← getattr id; mret (ret, EntryParam (u32 id) st).

Definition fuseserver_create (parent : Z) (name : cstring) (mode junk : Z) (e : entry_param) : yprog (list reply) :=
  '(ret, e) ← fuseserver_createhelper parent name mode junk e;
  if ret =? OK then mret [ReplyCreate e] else mret [ReplyErr EIO].

Definition fuseserver_mknod (parent : Z) (name : cstring) (mode junk : Z) (e : entry_param) : yprog (list reply) :=
  '(ret, e) ← fuseserver_createhelper parent name mode junk e;
  if ret =? OK then mret [ReplyEntry e] else mret [ReplyErr ENOENT].

(** The status of [getattr] is not looked at. *)
Definition fuseserver_lookup (parent : Z) (name : cstring) : yprog (list reply) :=
  id ← ilookup parent name;
  let ino := u32 id in
  if negb (ino =? 0) then '(_, st) ← getattr ino; mret [ReplyEntry (EntryParam ino st)]
  else mret [ReplyErr ENOENT].

(** The [p] bytes of a [dirbuf]; [fuse_dirent name ino off] are those [fuse_add_dirent]
    writes, [fuse_dirent_size (strlen name)] many. *)
Section readdir.
Context (fuse_dirent : cstring → Z → Z → cstring).

Definition dirbuf_add (p : cstring) (name : cstring) (ino : Z) : cstring :=
  let size := Z.of_nat (length p) + Z.of_nat (length (fuse_dirent (c_str name) ino 0)) in
  p ++ fuse_dirent (c_str name) ino size.

Definition reply_buf_limited (buf : cstring) (off maxsize : Z) : reply :=
  if off <? Z.of_nat (length buf)
  then ReplyBuf (take (Z.to_nat (Z.min (Z.of_nat (length buf) - off) maxsize)) (drop (Z.to_nat off) buf))
  else ReplyBuf [].

Definition fuseserver_readdir (ino size off : Z) : yprog (list reply) :=
  if negb (isdir ino) then mret [ReplyErr ENOTDIR] else
  '(_, entries) ← readdir ino [];
  let b := foldl (λ b e, dirbuf_add b (name_ e) (u32 (inum_ e))) [] entries in
  mret [reply_buf_limited b off size].
End readdir.

Definition fuseserver_open (ino : Z) : yprog (list reply) :=
  ret ← open ino;
  if ret =? OK then mret [ReplyOpen ino] else mret [ReplyErr ENOENT].

Definition fuseserver_mkdir (parent : Z) (name : cstring) (mode junk : Z) : yprog (list reply) :=
  '(ret, inum) ← createDir parent name mode junk;
  if ret =? OK then
    '(ret, st) ← getattr inum;
    if ret =? OK then mret [ReplyEntry (EntryParam (u32 inum) st)] else mret [ReplyErr ENOSYS]
  else mret [ReplyErr ENOSYS].

Definition fuseserver_unlink (parent : Z) (name : cstring) : yprog (list reply) :=
  ret ← unlink parent name;
  if ret =? OK then mret [ReplyErr 0]
  else if ret =? NOENT then mret [ReplyErr NOENT]
  else mret [ReplyErr EIO].

Definition fuseserver_statfs : yprog (list reply) := mret [ReplyStatfs 255 512].
End fuse.

(** ** One answer for each request *)

(** Every result of a program, whatever its calls answer. *)
Fixpoint results {A} (P : A → Prop) (p : yprog A) : Prop :=
  match p with
  | Ret a => P a
  | Acquire _ k | Release _ k | Time k => ∀ r, results P (k r)
  | Ext _ k => ∀ r, results P (k r)
  end.

Lemma results_bind {A B} (P : B → Prop) (f : A → yprog B) p :
  (∀ a, results P (f a)) → results P (ybind f p).
Proof. intros Hf. induction p as [a|id k IH|id k IH|k IH|C c k IH]; cbn; auto. Qed.

Section handlers.
Import yfs_client fuse.

(** A callback that keeps to the locks and sends one answer. *)
Definition sound (p : yprog (list reply)) : Prop := obeys ∅ p ∧ results (λ l, length l = 1%nat) p.

Lemma sound_ret r : sound (Ret [r]).
Proof. by split. Qed.

Lemma sound_bind {A} (f : A → yprog (list reply)) p : obeys ∅ p → (∀ a, sound (f a)) → sound (ybind f p).
Proof. intros Hp Hf. split; [apply obeys_bind; [done|apply Hf]|apply results_bind, Hf]. Qed.

Lemma getattr_obeys inum : obeys ∅ (getattr inum).
Proof.
  unfold getattr. destruct (isfile inum); (apply obeys_bind; [apply getfile_obeys || apply getdir_obeys|]);
    intros [ret info]; by destruct (ret =? OK).
Qed.

Lemma createhelper_obeys parent name mode junk e : obeys ∅ (fuseserver_createhelper parent name mode junk e).
Proof.
  apply obeys_bind; [apply createFile_obeys|]. intros [ret id]. destruct (ret =? OK); cbn [negb]; [|done].
  apply obeys_bind; [apply getattr_obeys|]. by intros [].
Qed.

Create HintDb fuse.
Hint Resolve getattr_obeys createhelper_obeys readdir_obeys ilookup_obeys setattr_obeys unlink_obeys
  open_obeys createDir_obeys write_obeys sound_ret : fuse.

(** Through the calls of a callback and its branches. *)
Ltac sound_tac :=
  repeat match goal with
  | r : (_ * _)%type |- _ => destruct r
  | |- sound (if ?b then _ else _) => destruct b
  | |- sound (Ret _) => apply sound_ret
  | |- sound (ybind _ _) => apply sound_bind; [solve [auto with fuse]|intros]
  | |- sound (mbind _ _) => unfold mbind, yprog_bind
  | |- sound (mret _) => apply sound_ret
  end.


(** ** Reading and writing *)

(** A failed read is answered twice: after the error the callback goes on and sends
    the (empty) buffer too, although the first answer has ended the request. *)
Theorem read_error_answered_twice env ino size off y :
  extent_client.cache_status (y_ec y) !! ino = Some REMOVED →
  ∃ y', run env (fuseserver_read ino size off) y = Some ([ReplyErr EIO; ReplyBuf []], y').
Proof.
  intros E. unfold fuseserver_read, read. cbn -[ecall_run]. unfold ecall_run, extent_client.read.
  rewrite (file_cache.is_cached _ _ _ E), (file_cache.status_is_eq _ _ _ _ E). cbn. by eexists.
Qed.

Lemma read_error_answered_twice_witness :
  let c := extent_client.on_status <[9 := REMOVED]> extent_client.new_extent_client in
  ∃ y', run demo_env (fuseserver_read 9 10 0) (Yst ∅ c (extent_server.new_extent_server 0) 0)
    = Some ([ReplyErr EIO; ReplyBuf []], y').
Proof.
  intros c. apply (read_error_answered_twice demo_env 9 10 0 (Yst ∅ c (extent_server.new_extent_server 0) 0)).
  apply lookup_insert_eq.
Defined.

Import file_cache.

Lemma client_write now junk rnd id off buf x e s :
  holds e s id (Some x) → 0 <= off → off + Z.of_nat (length buf) <= string_max_size →
  ∃ e' s', ecall_run now junk rnd (EWrite id off (Z.of_nat (length buf)) buf) e s = Some (0, e', s') ∧
    holds e' s' id (Some (write_at (Z.to_nat off) buf x)).
Proof.
  intros Hh Ho Hl. destruct (write_effect now 0 id off buf x e s Hh Ho Hl) as (e' & s' & E & _ & Hv).
  cbn [do_op] in E. apply bind_Some in E as ([[ret e1] s1] & E & Hr). destruct (ret =? extent_client.OK) eqn:Er; [|done].
  apply Z.eqb_eq in Er as ->. cbn in Hr. injection Hr as -> ->. exists e', s'. by split.
Qed.

Lemma client_read now junk rnd id off size x e s :
  holds e s id (Some x) → 0 <= off <= Z.of_nat (length x) →
  ∃ e' s', ecall_run now junk rnd (ERead id off size []) e s
    = Some ((0, take (Z.to_nat size) (drop (Z.to_nat off) x)), e', s') ∧ holds e' s' id (Some x).
Proof.
  intros Hh Ho. destruct (read_effect now junk id off size x e s Hh Ho) as (e' & s' & E & _ & Hv).
  cbn [do_op] in E. apply bind_Some in E as ([[[ret b] e1] s1] & E & Hr). destruct (ret =? extent_client.OK) eqn:Er; [|done].
  apply Z.eqb_eq in Er as ->. cbn in Hr. injection Hr as <- -> ->. exists e', s'. split; [|done].
  unfold ecall_run. by rewrite E.
Qed.

(** C25. Through all layers: writing to an existing file is answered with the number of
    bytes, and a following read, wherever it starts in the file, with the bytes of the file
    after that write: the new ones at the offset, zeros in a gap, the old ones elsewhere. *)
Theorem fuse_write_read env ino buf off off' size x y :
  holds (y_ec y) (y_es y) ino (Some x) → 0 <= off → off + Z.of_nat (length buf) <= string_max_size →
  0 <= off' <= Z.of_nat (Nat.max (length x) (Z.to_nat off + length buf)) →
  ∃ y1 y2, run env (fuseserver_write ino buf (Z.of_nat (length buf)) off) y
             = Some ([ReplyWrite (Z.of_nat (length buf))], y1) ∧
    run env (fuseserver_read ino size off') y1
      = Some ([ReplyBuf (take (Z.to_nat size) (drop (Z.to_nat off') (write_at (Z.to_nat off) buf x)))], y2) ∧
    (∀ i, write_at (Z.to_nat off) buf x !! i = extent_server.written_byte x buf (Z.to_nat off) i).
Proof.
  intros Hh Ho Hl Hoff.
  edestruct (client_write (e_time env (S (y_tick y))) (e_junk env (S (y_tick y))) (e_rnd env (S (y_tick y)))
    ino off buf x (y_ec y) (y_es y) Hh Ho Hl) as (e1 & s1 & E1 & H1).
  set (y1 := Yst (({[ino]} ∪ y_held y) ∖ {[ino]}) e1 s1 (S (S (S (y_tick y))))).
  edestruct (client_read (e_time env (S (y_tick y1))) (e_junk env (S (y_tick y1))) (e_rnd env (S (y_tick y1)))
    ino off' size _ e1 s1 H1) as (e2 & s2 & E2 & _); [by rewrite length_write_at|].
  exists y1. eexists. split_and!.
  - unfold fuseserver_write, write. cbn -[ecall_run]. rewrite E1. done.
  - unfold fuseserver_read, read. cbn -[ecall_run]. cbn -[ecall_run] in E2. rewrite E2. cbn. done.
  - intros i. apply write_at_bytes.
Qed.

Lemma fuse_write_read_witness :
  let y := Yst ∅ extent_client.new_extent_client (one_file 7 ($"abc")) 0 in
  ∃ y1 y2, run demo_env (fuseserver_write 7 ($"xy") 2 4) y = Some ([ReplyWrite 2], y1) ∧
    run demo_env (fuseserver_read 7 100 1) y1 = Some ([ReplyBuf ($"bc" ++ ["000"%char] ++ $"xy")], y2).
Proof.
  intros y. destruct (fuse_write_read demo_env 7 ($"xy") 4 1 100 ($"abc") y) as (y1 & y2 & H1 & H2 & _);
    [|lia|vm_compute; discriminate|vm_compute; split; discriminate|].
  - pose proof (one_file_represents 7 ($"abc")) as Hr. specialize (Hr ltac:(vm_compute; discriminate) 7).
    exact Hr.
  - exists y1, y2. split; [exact H1|exact H2].
Defined.

(** *** Listings in pieces *)

(** The pieces of a listing, asked for one behind the other. *)
Fixpoint pages (n : nat) (b : cstring) (off maxsize : Z) : cstring :=
  match n with
  | O => []
  | S n =>
      match reply_buf_limited b off maxsize with
      | ReplyBuf p => p ++ pages n b (off + Z.of_nat (length p)) maxsize
      | _ => []
      end
  end.

(** The pieces put together are the listing. *)
Lemma pages_complete b maxsize n off :
  0 < maxsize → 0 <= off → (length b - Z.to_nat off <= n)%nat →
  pages n b off maxsize = drop (Z.to_nat off) b.
Proof.
  intros Hm. revert off. induction n as [|n IH]; intros off Ho Hn; cbn.
  { symmetry. apply drop_ge. lia. }
  unfold reply_buf_limited. destruct (Z.ltb_spec off (Z.of_nat (length b))).
  - set (k := Z.to_nat (Z.min (Z.of_nat (length b) - off) maxsize)).
    rewrite IH; [|lia|]; rewrite length_take, length_drop.
    + etrans; [|apply (take_drop k)]. f_equal. rewrite drop_drop. f_equal. lia.
    + lia.
  - rewrite IH by (cbn; lia). cbn. by rewrite Z.add_0_r.
Qed.
End handlers.
